(* ===== verification/_CoqProject ===== *)
-Q . S2P
Prelude.v
Riscv.v
Memory.v
Ring.v
Lru.v
Locks.v
Blocks.v
Bio.v
Log.v
Stack.v
Kmem.v
Vm.v
SwapIO.v
PageTable.v
Pte.v
VmInv.v
Swap.v
SwapIn.v
VmFrame.v
VmGrow.v
VmShrink.v
VmSpec.v
VmCopy.v
Queue.v
UserMem.v
UserCopy.v
VmExample.v
Pipe.v
Uart.v
Console.v
Fs.v
Tx.v
FsBlocks.v
FsFile.v
FsIo.v
FsDir.v
FsSpec.v
File.v
FileSpec.v
FsExample.v
FsImage.v
Mkfs.v
MkfsSpec.v
MkfsBoot.v
Sysfile.v
FdSpec.v
Proc.v
ProcSpec.v
AddrSpace.v
Exec.v
Virtio.v
Trap.v
Boot.v
DiskInit.v
SysSpec.v
SysExample.v
Grep.v
Umalloc.v
Printf.v
User.v
Ulib.v
Utils.v
Procdump.v
Shell.v
ShellTree.v
ShellRun.v
ShellFd.v
