(* ===== verification/Prelude.v ===== *)
(** xv6 with a swap area: a shallow model of the kernel and its correctness.

    The program is a small Unix for RISC-V (directory kernel/) with its user
    programs (directory user/).  This kernel extends xv6 by paging to disk: when
    memory runs out, the page allocator evicts a user page chosen by a clock over
    the list of resident pages, and a page fault brings it back.

    * Method

    C functions are Rocq functions in a state and error monad, [M S A], over the
    globals [S] of their component.  A run ends in an [outcome]: a value, a call
    of panic, a sleep on a condition that only another thread can establish
    ([Blocked]), or exhausted fuel ([NoFuel]).  A loop that the source writes
    without a bound gets fuel; theorems say that the run returns ([Ret], [wp]),
    so that fuel which is too small would falsify them.  Machine integers are [Z]
    with their width written out ([u8], [u32], [u64], [s32], [s16]).  Arrays and
    tables are functions of the index; locks of a routine that never gives them
    up on the way are not visible in its sequential model, and where threads
    interleave the component is a step relation (Locks.v, Pipe.v, ProcSpec.v,
    Virtio.v, Boot.v).  A user program is a computation over the interface of
    system calls ([Os]), with exit and exec as its ends; a process is a run of it,
    the child after fork being the run in which fork returned 0.
    Reference counts of files, inodes and buffers are mathematical integers.

    * Parts

    - Prelude: outcomes, the monad, weakest preconditions, machine integers, lists.
    - Riscv: kernel/riscv.h, memlayout.h and param.h: constants, page-table macros.
    - Memory: kernel/string.c on byte memory.
    - Ring, Queue: a doubly linked ring and a circular buffer as lists, shared by
      the components that use them.
    - Lru: the list of resident pages of kernel/vm.c.
    - Locks: kernel/spinlock.c and sleeplock.c, with push_off and pop_off on
      every CPU.
    - Blocks: the interface of the buffer cache ([BufCache], [BufCacheLaws]);
      Bio: kernel/bio.c implements it; Log: kernel/log.c over the interface, with
      crashes at every block write; Stack: the two together.
    - Kmem: kernel/kalloc.c with the eviction of pages; SwapIO: the transfers of a
      page to its slot (swapread, swapwrite of kernel/fs.c); Vm: kernel/vm.c;
      PageTable, Pte, VmInv, Swap, SwapIn: page tables as data, the invariant of
      memory, the transparency of swapping; VmFrame: what a step on one address
      space leaves alone; VmGrow, VmShrink, VmSpec, VmCopy: uvmalloc, uvmdealloc
      and uvmcopy while pages are evicted under them; VmExample: concrete
      memories.
    - UserMem: the interface of user memory; UserCopy: copyin, copyout and
      copyinstr of kernel/vm.c implement it.
    - Pipe: kernel/pipe.c; Uart: kernel/uart.c; Console: kernel/console.c.
    - Fs: kernel/fs.c; Tx, FsBlocks, FsFile, FsIo, FsDir, FsSpec: its theory, from
      transactions and bitmaps to files and directories; File, FileSpec:
      kernel/file.c; FsExample: a concrete file system.
    - Mkfs: mkfs/mkfs.c, which builds the disk image on the host; FsImage: a file
      system with several files; MkfsSpec, MkfsBoot: the image, and the kernel
      that boots from it.
    - Sysfile, FdSpec: kernel/sysfile.c and the argument fetching of syscall.c.
    - Proc, ProcSpec: kernel/proc.c, over interfaces of pages and address spaces
      ([PageAlloc], [AddrSpace]); AddrSpace: proc_pagetable and
      proc_freepagetable, and the instances of the interfaces that Vm provides.
    - Exec: kernel/exec.c.
    - Virtio: kernel/virtio_disk.c, with the device as its environment; DiskInit:
      its virtio_disk_init.
    - Trap: kernel/trap.c, sysproc.c and the system call table of syscall.c, on
      the state of the whole kernel ([world]); the devices are the interface
      [Devices], which Console implements.  SysSpec: the balance of references
      over every trap; SysExample: a concrete kernel.
    - Boot: the control registers of riscv.h, kernel/start.c, plic.c and main.c,
      kvminithart and trapinithart; Procdump: what procdump and panic print.
    - Grep: user/grep.c; Umalloc: user/umalloc.c; Printf: kernel/printf.c and
      user/printf.c.
    - User: user/user.h, the interface of system calls; Ulib: user/ulib.c; Utils:
      cat, wc, echo, ls, kill, ln, mkdir, rm, init, zombie and the main of grep.
    - Shell: the parser of user/sh.c; ShellTree: the trees it returns; ShellRun:
      running commands and the main loop, over a kernel with the descriptors of
      one process; ShellFd: these are the descriptors that fdalloc gives.

    In the state of the whole kernel the memory of the processes and the file
    system each have a disk view of their own: the swap area and the blocks of
    the file system are disjoint, so the two do not share a block.

    * What is shown

    A transaction of the log is atomic and recovery is idempotent (Log); the
    cache implements an abstract cache (Bio); swapping is invisible to processes
    and the allocator hands out pages nobody uses (SwapIn); growing, shrinking
    and copying an address space change the pages asked for and nothing else, on
    every error path (VmSpec, VmCopy); copies between user
    and kernel move exactly the bytes (UserCopy); pipes, the console and the
    serial port keep the order of bytes and lose no wakeup (Pipe, Console, Uart);
    blocks, files, directories and paths of the file system behave like bitmaps,
    byte sequences and maps, and a write is crash-atomic (FsSpec, FsDir,
    FileSpec); the kernel boots from the image of mkfs and reads every file back
    (MkfsBoot); the reference count of every open file is the number of
    descriptors that name it, after any trap with any system call, and a trap
    returns only to a process that was not killed (FdSpec, SysSpec); exec builds
    the stack that main expects (Exec); the disk driver carries out every request
    exactly once and never panics (Virtio); the process table keeps its
    invariants in every interleaving and no zombie is stranded (ProcSpec);
    malloc, the two formatters and the matcher of grep are correct (Umalloc,
    Printf, Grep); grep, cat, wc, echo and ls do what they are for, in whatever
    pieces the kernel returns their input, cat also when a call fails (Utils); the
    shell parses what was printed, returns only well-formed trees, and its
    descendants execute exactly the programs of the commands typed, with exactly
    the descriptors that pipes and redirections give them (Shell, ShellTree,
    ShellRun); init starts the shell with the console on the three standard
    descriptors (ShellRun).  A hart enters main in supervisor mode with paging
    off, and no hart but the first does anything before the kernel is initialised
    (Boot); the disk is taken into use by the handshake of its specification, or
    the kernel panics (DiskInit).  Where the code does
    not do what it means to, a theorem shows the failing run: the fork copy under
    memory pressure, the log reservation that is one block short, a killed pipe
    writer, kill of process 0, the hole that mkfs leaves in a root directory of
    whole blocks.

    * Bounds and fuel

    The clock needs more fuel than there are resident pages (32768 frames bound
    them), kalloc two rounds (a successful eviction frees a page), a copy of [len] bytes [len / PGSIZE + 3]
    rounds, freewalk the three levels of a page table, uartstart one round more
    than its buffer holds, balloc one round per bitmap block, readi and writei
    [n / BSIZE + 2] rounds, as does iappend of mkfs, a directory scan one round per entry, namex one per
    byte of the path, filewrite [n / wmax + 1] transactions; grep the length of
    its input, free the length of the free list and malloc twice that; loadseg
    has one round per page, the chains and rings of the disk driver NUM rounds,
    the parser of the shell a multiple of the length of its line (the theorem of
    termination gives it).  A user program has a round for each read of its input
    and one for the end, the shell one for each line and at least four for opening
    the console.

    * Not modelled

    Hardware is a parameter where the code talks to it: device registers, the
    disk as an array of blocks that are written atomically.  A control register
    holds what was written to it.  Assembly (trampoline.S, kernelvec.S, swtch.S,
    entry.S, initcode.S) is not modelled: what C sees of it is an argument.  Nor are
    the test programs (usertests.c, grind.c, forktest.c, stressfs.c and those of the
    swap area), which are tests of the system and not part of it, the lock around
    the kernel's printf, and messages that the kernel prints about a trap. *)
From Stdlib Require Export ZArith Lia Bool.
From stdpp Require Export base gmap strings numbers functions.
From stdpp Require Export list_basics list.
Export list_basics.list.

#[global] Open Scope Z_scope.

(** * Outcomes

    A kernel routine either returns, calls [panic], goes to sleep on a
    condition that only another thread can establish, or, for the loops that
    the source writes without a bound, uses up the fuel the model gives it.  A
    theorem that a routine returns is always stated with an explicit [Ret]. *)
Inductive outcome (A : Type) : Type :=
| Ret (a : A)
| Panic (msg : string)
| Blocked
| NoFuel.
Arguments Ret {A} a.
Arguments Panic {A} msg.
Arguments Blocked {A}.
Arguments NoFuel {A}.

#[export] Instance outcome_ret : MRet outcome := fun A a => Ret a.
#[export] Instance outcome_bind : MBind outcome := fun A B f m =>
  match m with Ret a => f a | Panic e => Panic e | Blocked => Blocked | NoFuel => NoFuel end.

(** State passing over the globals of a component. *)
Definition M (S A : Type) : Type := S -> outcome (A * S).

#[export] Instance M_ret {S} : MRet (M S) := fun A a s => Ret (a, s).
#[export] Instance M_bind {S} : MBind (M S) := fun A B f m s =>
  match m s with
  | Ret (a, s') => f a s'
  | Panic e => Panic e
  | Blocked => Blocked
  | NoFuel => NoFuel
  end.

Definition panic {S A} (msg : string) : M S A := fun _ => Panic msg.
Definition nofuel {S A} : M S A := fun _ => NoFuel.
Definition blocked {S A} : M S A := fun _ => Blocked.
Definition gets {S A} (f : S -> A) : M S A := fun s => Ret (f s, s).
Definition modify {S} (f : S -> S) : M S unit := fun s => Ret (tt, f s).

(** C [for] loops over a known range of values: [for_each] without and [for_ret]
    with a [return] in the body. *)
Fixpoint for_each {S A} (l : list A) (f : A -> M S unit) : M S unit :=
  match l with
  | [] => mret tt
  | x :: l => _ ← f x; for_each l f
  end.
Fixpoint for_ret {S R} (l : list Z) (f : Z -> M S (option R)) (k : M S R) : M S R :=
  match l with
  | [] => k
  | x :: l => r ← f x; match r with Some v => mret v | None => for_ret l f k end
  end.

Lemma bind_run {S A B} (m : M S A) (f : A -> M S B) s :
  (m ≫= f) s = match m s with
               | Ret (a, s') => f a s'
               | Panic e => Panic e
               | Blocked => Blocked
               | NoFuel => NoFuel
               end.
Proof. reflexivity. Qed.

Lemma bind_Ret {S A B} (m : M S A) (f : A -> M S B) s a s' :
  m s = Ret (a, s') -> (m ≫= f) s = f a s'.
Proof. intros H. by rewrite bind_run, H. Qed.

Lemma bind_Ret_inv {S A B} (m : M S A) (f : A -> M S B) s b s' :
  (m ≫= f) s = Ret (b, s') ->
  exists a s1, m s = Ret (a, s1) /\ f a s1 = Ret (b, s').
Proof. rewrite bind_run. destruct (m s) as [[a s1]| | |]; naive_solver. Qed.

Lemma bind_assoc {S A B C} (m : M S A) (f : A -> M S B) (g : B -> M S C) s :
  ((m ≫= f) ≫= g) s = (m ≫= fun a => f a ≫= g) s.
Proof. rewrite !bind_run. by destruct (m s) as [[]| | |]. Qed.

(** [minv H] takes a successful run apart into the runs of its parts. *)
Ltac minv H :=
  let a := fresh "a" in let s := fresh "s" in let H1 := fresh "Hrun" in
  apply bind_Ret_inv in H; destruct H as (a & s & H1 & H).

(** [mrun] evaluates the head of a monadic goal whose first action reduces. *)
Ltac mrun := rewrite ?bind_run; cbn [mret M_ret gets modify panic nofuel].

(** [wp m s Q]: run from [s], [m] returns (it does not panic, block or run out of
    fuel) with a result and a state that satisfy [Q]. *)
Definition wp {S A} (m : M S A) (s : S) (Q : A -> S -> Prop) : Prop :=
  exists a s', m s = Ret (a, s') /\ Q a s'.

Lemma wp_ret {S A} (a : A) (s : S) (Q : A -> S -> Prop) : Q a s -> wp (mret a) s Q.
Proof. intros HQ. by exists a, s. Qed.
Lemma wp_gets {S A} (f : S -> A) (s : S) (Q : A -> S -> Prop) : Q (f s) s -> wp (gets f) s Q.
Proof. intros HQ. by exists (f s), s. Qed.
Lemma wp_modify {S} (f : S -> S) (s : S) (Q : unit -> S -> Prop) : Q tt (f s) -> wp (modify f) s Q.
Proof. intros HQ. by exists tt, (f s). Qed.
Lemma wp_bind {S A B} (m : M S A) (f : A -> M S B) (s : S) (Q : B -> S -> Prop) :
  wp m s (fun a s' => wp (f a) s' Q) -> wp (m ≫= f) s Q.
Proof.
  intros (a & s' & E & b & s'' & E' & HQ). exists b, s''. split; [|done]. by rewrite bind_run, E.
Qed.
Lemma wp_mono {S A} (m : M S A) (s : S) (Q Q' : A -> S -> Prop) :
  wp m s Q -> (forall a s', Q a s' -> Q' a s') -> wp m s Q'.
Proof. intros (a & s' & E & HQ) HQ'. exists a, s'. auto. Qed.

Lemma wp_bind_inv {S A B} (m : M S A) (f : A -> M S B) (s : S) (Q : B -> S -> Prop) :
  wp (m ≫= f) s Q -> wp m s (fun a s' => wp (f a) s' Q).
Proof.
  intros (b & s'' & E & HQ). apply bind_Ret_inv in E as (a & s' & E1 & E2). exists a, s'. split; [done|]. by exists b, s''.
Qed.

(** Case on every boolean test of the goal or of a hypothesis, keeping the
    arithmetic meaning. *)
Ltac case_bool :=
  match goal with
  | |- context [ ?a <? ?b ] => destruct (Z.ltb_spec a b)
  | |- context [ ?a <=? ?b ] => destruct (Z.leb_spec a b)
  | |- context [ ?a =? ?b ] => destruct (Z.eqb_spec a b)
  | H : context [ ?a <? ?b ] |- _ => destruct (Z.ltb_spec a b)
  | H : context [ ?a <=? ?b ] |- _ => destruct (Z.leb_spec a b)
  | H : context [ ?a =? ?b ] |- _ => destruct (Z.eqb_spec a b)
  end.
Ltac bools := repeat (case_bool; cbn [andb orb negb] in *; try lia).

(** [zdiv] is [lia] with the defining equations of division and remainder. *)
Ltac zdiv := Z.div_mod_to_equations; lia.

(** * Machine integers *)
Definition u8 (x : Z) : Z := x mod 2 ^ 8.
Definition u16 (x : Z) : Z := x mod 2 ^ 16.
Definition u32 (x : Z) : Z := x mod 2 ^ 32.
Definition u64 (x : Z) : Z := x mod 2 ^ 64.
(** Conversion to a two's complement [int] (32 bits), [short] or [char]. *)
Definition s32 (x : Z) : Z := (x + 2 ^ 31) mod 2 ^ 32 - 2 ^ 31.
Definition s16 (x : Z) : Z := (x + 2 ^ 15) mod 2 ^ 16 - 2 ^ 15.
Definition s8 (x : Z) : Z := (x + 2 ^ 7) mod 2 ^ 8 - 2 ^ 7.
(** C truth value of an integer and integer value of a C comparison. *)
Definition b2z (b : bool) : Z := if b then 1 else 0.
Definition nz (x : Z) : bool := negb (x =? 0).

Lemma u32_small x : 0 <= x < 2 ^ 32 -> u32 x = x.
Proof. apply Z.mod_small. Qed.
Lemma u64_small x : 0 <= x < 2 ^ 64 -> u64 x = x.
Proof. apply Z.mod_small. Qed.
Lemma u8_small x : 0 <= x < 2 ^ 8 -> u8 x = x.
Proof. apply Z.mod_small. Qed.
Lemma u32_range x : 0 <= u32 x < 2 ^ 32.
Proof. by apply Z.mod_pos_bound. Qed.
Lemma u64_range x : 0 <= u64 x < 2 ^ 64.
Proof. by apply Z.mod_pos_bound. Qed.
Lemma u8_range x : 0 <= u8 x < 2 ^ 8.
Proof. by apply Z.mod_pos_bound. Qed.
Lemma s32_small x : - 2 ^ 31 <= x < 2 ^ 31 -> s32 x = x.
Proof. unfold s32. intros. rewrite Z.mod_small; lia. Qed.
Lemma s32_range x : - 2 ^ 31 <= s32 x < 2 ^ 31.
Proof. unfold s32. pose proof (Z.mod_pos_bound (x + 2 ^ 31) (2 ^ 32)). lia. Qed.
Lemma u32_u32 x : u32 (u32 x) = u32 x.
Proof. apply Z.mod_mod. lia. Qed.

Create HintDb kern.
Create Rewrite HintDb kern.
#[export] Hint Resolve u32_range u64_range u8_range s32_range : kern.
#[export] Hint Rewrite u32_small u64_small u8_small using lia : kern.

(** * Bits *)
Lemma testbit_small n a i : 0 <= a < 2 ^ n -> n <= i -> Z.testbit a i = false.
Proof.
  intros Ha Hi. destruct (Z.eq_dec a 0) as [->|]; [apply Z.bits_0|].
  assert (0 <= n). { destruct (Z.le_gt_cases 0 n); [done|]. rewrite Z.pow_neg_r in Ha; lia. }
  apply Z.bits_above_log2; [lia|]. apply Z.log2_lt_pow2; [lia|].
  eapply Z.lt_le_trans; [apply Ha|]. by apply Z.pow_le_mono_r; lia.
Qed.

Lemma lor_disjoint_add n a b :
  0 <= n -> 0 <= b < 2 ^ n -> Z.lor (a * 2 ^ n) b = a * 2 ^ n + b.
Proof.
  intros Hn Hb. pose proof (Z.add_lor_land (a * 2 ^ n) b) as E.
  enough (Z.land (a * 2 ^ n) b = 0) as E0 by (rewrite E0 in E; lia).
  clear E. apply Z.bits_inj'. intros i Hi. rewrite Z.land_spec, Z.bits_0.
  destruct (Z.ltb_spec i n).
  - by rewrite Z.mul_pow2_bits_low.
  - by rewrite (testbit_small n b i), andb_false_r.
Qed.

Lemma land_pow2_bit a n : 0 <= n -> (Z.land a (2 ^ n) =? 0) = negb (Z.testbit a n).
Proof.
  intros Hn. destruct (Z.testbit a n) eqn:E; simpl.
  - apply Z.eqb_neq. intros H0. apply (f_equal (fun z => Z.testbit z n)) in H0.
    rewrite Z.land_spec, Z.bits_0, Z.pow2_bits_true, E in H0 by done. done.
  - apply Z.eqb_eq, Z.bits_inj'. intros i Hi.
    rewrite Z.land_spec, Z.bits_0, Z.pow2_bits_eqb by done.
    destruct (Z.eqb_spec n i); subst; [by rewrite E|by rewrite andb_false_r].
Qed.

(** * Arrays and tables as functions of the index *)
Definition upd {A} (f : Z -> A) (i : Z) (v : A) : Z -> A := fun j => if j =? i then v else f j.

Lemma upd_eq {A} (f : Z -> A) i v : upd f i v i = v.
Proof. unfold upd. by rewrite Z.eqb_refl. Qed.
Lemma upd_ne {A} (f : Z -> A) i v j : j <> i -> upd f i v j = f j.
Proof. unfold upd. intros. by rewrite (proj2 (Z.eqb_neq _ _)). Qed.

(** * Lists *)
(** The length of a list as a C integer. *)
Abbreviation lenZ l := (Z.of_nat (length l)).
Lemma Forall2_impl_r {A B} (R R' : A -> B -> Prop) l k :
  Forall2 R l k -> (forall x y, y ∈ k -> R x y -> R' x y) -> Forall2 R' l k.
Proof. induction 1; intros H'; constructor; [apply H'; set_solver|]. apply IHForall2. set_solver. Qed.
Lemma seqZ_S (m : Z) (n : nat) : seqZ m (Z.of_nat (S n)) = m :: seqZ (m + 1) (Z.of_nat n).
Proof. rewrite seqZ_cons by lia. f_equal. f_equal; lia. Qed.
