(* ===== verification/Riscv.v ===== *)
(** Constants and address arithmetic: param.h, memlayout.h, fs.h and the
    paging macros of riscv.h, with the encode/decode laws of page-table
    entries and of the swap slot stored in one. *)
From S2P Require Import Prelude.

(** * param.h, memlayout.h, fs.h *)
Definition NPROC : Z := 64.
Definition NCPU : Z := 8.
Definition NOFILE : Z := 16.
Definition NFILE : Z := 100.
Definition NINODE : Z := 50.
Definition NDEV : Z := 10.
Definition ROOTDEV : Z := 1.
Definition MAXARG : Z := 32.
Definition MAXOPBLOCKS : Z := 10.
Definition LOGSIZE : Z := MAXOPBLOCKS * 3.
Definition NBUF : Z := MAXOPBLOCKS * 3.
Definition FSSIZE : Z := 30000.
Definition MAXPATH : Z := 128.
Definition USERSTACK : Z := 1.
Definition SWAPBASE : Z := 2000.
Definition SWAPMAX : Z := 30000 - SWAPBASE.
Definition BSIZE : Z := 1024.

Definition KERNBASE : Z := 0x80000000.
Definition PHYSTOP : Z := KERNBASE + 128 * 1024 * 1024.

(** * riscv.h *)
Definition PGSIZE : Z := 4096.
Definition PGSHIFT : Z := 12.
Definition PGROUNDUP (sz : Z) : Z := Z.land (u64 (sz + PGSIZE - 1)) (Z.lnot (PGSIZE - 1)).
Definition PGROUNDDOWN (a : Z) : Z := Z.land a (Z.lnot (PGSIZE - 1)).

Definition PTE_V : Z := Z.shiftl 1 0.
Definition PTE_R : Z := Z.shiftl 1 1.
Definition PTE_W : Z := Z.shiftl 1 2.
Definition PTE_X : Z := Z.shiftl 1 3.
Definition PTE_U : Z := Z.shiftl 1 4.
Definition PTE_A : Z := Z.shiftl 1 6.
Definition PTE_SWAPPED : Z := Z.shiftl 1 9.

Definition PA2PTE (pa : Z) : Z := u64 (Z.shiftl (Z.shiftr pa 12) 10).
Definition PTE2PA (pte : Z) : Z := u64 (Z.shiftl (Z.shiftr pte 10) 12).
Definition PTE_FLAGS (pte : Z) : Z := Z.land pte 0x3FF.

Definition PXMASK : Z := 0x1FF.
Definition PXSHIFT (level : Z) : Z := PGSHIFT + 9 * level.
Definition PX (level va : Z) : Z := Z.land (Z.shiftr va (PXSHIFT level)) PXMASK.

Definition MAXVA : Z := Z.shiftl 1 (9 + 9 + 9 + 12 - 1).
Definition TRAMPOLINE : Z := MAXVA - PGSIZE.
Definition TRAPFRAME : Z := TRAMPOLINE - PGSIZE.
Definition KSTACK (p : Z) : Z := TRAMPOLINE - (p + 1) * 2 * PGSIZE.

(** [flag_set pte f]: the C test [pte & f] for a one-bit flag. *)
Definition flag_set (pte f : Z) : bool := nz (Z.land pte f).

(** * Laws *)
Lemma PGROUNDDOWN_spec a : PGROUNDDOWN a = a - a mod PGSIZE.
Proof.
  unfold PGROUNDDOWN, PGSIZE.
  change (4096 - 1) with (Z.ones 12). rewrite <- Z.ldiff_land, Z.ldiff_ones_r by lia.
  rewrite Z.shiftl_mul_pow2, Z.shiftr_div_pow2 by lia. change (2 ^ 12) with 4096.
  pose proof (Z.div_mod a 4096). lia.
Qed.

Lemma PGROUNDUP_spec sz :
  0 <= sz < 2 ^ 64 - PGSIZE -> PGROUNDUP sz = (sz + PGSIZE - 1) / PGSIZE * PGSIZE.
Proof.
  intros H. unfold PGROUNDUP. rewrite u64_small by (unfold PGSIZE in *; lia).
  change (Z.land ?x (Z.lnot (PGSIZE - 1))) with (PGROUNDDOWN x).
  rewrite PGROUNDDOWN_spec. unfold PGSIZE in *. zdiv.
Qed.

Lemma PX_spec level va : 0 <= level -> PX level va = (va / 2 ^ (12 + 9 * level)) mod 512.
Proof.
  intros. unfold PX, PXSHIFT, PXMASK, PGSHIFT. change 0x1FF with (Z.ones 9).
  by rewrite Z.land_ones, Z.shiftr_div_pow2 by lia.
Qed.

Lemma PX_range level va : 0 <= level -> 0 <= PX level va < 512.
Proof. intros. rewrite PX_spec by done. by apply Z.mod_pos_bound. Qed.

(** The three indices and the page offset determine a user address. *)
Lemma PX_inj va1 va2 :
  0 <= va1 < MAXVA -> 0 <= va2 < MAXVA -> va1 mod PGSIZE = 0 -> va2 mod PGSIZE = 0 ->
  PX 2 va1 = PX 2 va2 -> PX 1 va1 = PX 1 va2 -> PX 0 va1 = PX 0 va2 -> va1 = va2.
Proof.
  unfold MAXVA, PGSIZE. change (Z.shiftl 1 _) with 274877906944.
  intros H1 H2 M1 M2. rewrite !PX_spec by lia.
  change (2 ^ (12 + 9 * 2)) with 1073741824. change (2 ^ (12 + 9 * 1)) with 2097152.
  change (2 ^ (12 + 9 * 0)) with 4096. intros. zdiv.
Qed.

Lemma shiftl_shiftr_spec a n k : 0 <= n -> 0 <= k ->
  Z.shiftl (Z.shiftr a n) k = a / 2 ^ n * 2 ^ k.
Proof. intros. by rewrite Z.shiftl_mul_pow2, Z.shiftr_div_pow2. Qed.

Lemma PA2PTE_spec pa : 0 <= pa < 2 ^ 64 -> PA2PTE pa = pa / 4096 * 1024.
Proof.
  intros. unfold PA2PTE. rewrite shiftl_shiftr_spec by lia.
  change (2 ^ 12) with 4096. change (2 ^ 10) with 1024. rewrite u64_small; [done|]. zdiv.
Qed.

(** An entry is a frame number (or slot number) above ten flag bits. *)
Definition pte_of (ppn flags : Z) : Z := ppn * 1024 + flags.

Lemma pte_lor ppn flags : 0 <= flags < 1024 -> Z.lor (ppn * 1024) flags = pte_of ppn flags.
Proof. intros. by apply (lor_disjoint_add 10). Qed.

Lemma pte_of_FLAGS ppn flags : 0 <= flags < 1024 -> PTE_FLAGS (pte_of ppn flags) = flags.
Proof.
  intros. unfold PTE_FLAGS, pte_of. change 0x3FF with (Z.ones 10). rewrite Z.land_ones by lia.
  change (2 ^ 10) with 1024. zdiv.
Qed.

Lemma pte_of_PTE2PA ppn flags :
  0 <= ppn < 2 ^ 44 -> 0 <= flags < 1024 -> PTE2PA (pte_of ppn flags) = ppn * 4096.
Proof.
  intros. unfold PTE2PA, pte_of. rewrite shiftl_shiftr_spec by lia.
  change (2 ^ 12) with 4096. change (2 ^ 10) with 1024. rewrite u64_small; zdiv.
Qed.

Lemma pte_of_testbit ppn flags i :
  0 <= flags < 1024 -> 0 <= i < 10 -> Z.testbit (pte_of ppn flags) i = Z.testbit flags i.
Proof.
  intros. rewrite <- pte_lor by done. rewrite Z.lor_spec.
  change 1024 with (2 ^ 10). rewrite Z.mul_pow2_bits_low by lia. done.
Qed.

Lemma PTE_FLAGS_range pte : 0 <= PTE_FLAGS pte < 1024.
Proof. unfold PTE_FLAGS. change 0x3FF with (Z.ones 10). rewrite Z.land_ones by lia. by apply Z.mod_pos_bound. Qed.

Lemma pte_split pte : pte = pte_of (pte / 1024) (PTE_FLAGS pte).
Proof.
  unfold pte_of, PTE_FLAGS. change 0x3FF with (Z.ones 10). rewrite Z.land_ones by lia.
  change (2 ^ 10) with 1024. pose proof (Z.div_mod pte 1024). lia.
Qed.

Lemma flag_set_bit pte n : 0 <= n -> flag_set pte (2 ^ n) = Z.testbit pte n.
Proof. intros. unfold flag_set, nz. rewrite land_pow2_bit by done. apply negb_involutive. Qed.

(** The flags as powers of two, for [flag_set_bit]. *)
Lemma flags_pow2 :
  PTE_V = 2 ^ 0 /\ PTE_R = 2 ^ 1 /\ PTE_W = 2 ^ 2 /\ PTE_X = 2 ^ 3 /\ PTE_U = 2 ^ 4 /\
  PTE_A = 2 ^ 6 /\ PTE_SWAPPED = 2 ^ 9.
Proof. repeat split. Qed.

Lemma flag_set_V pte : flag_set pte PTE_V = Z.testbit pte 0.
Proof. exact (flag_set_bit pte 0 ltac:(lia)). Qed.
Lemma flag_set_W pte : flag_set pte PTE_W = Z.testbit pte 2.
Proof. exact (flag_set_bit pte 2 ltac:(lia)). Qed.
Lemma flag_set_U pte : flag_set pte PTE_U = Z.testbit pte 4.
Proof. exact (flag_set_bit pte 4 ltac:(lia)). Qed.
Lemma flag_set_A pte : flag_set pte PTE_A = Z.testbit pte 6.
Proof. exact (flag_set_bit pte 6 ltac:(lia)). Qed.
Lemma flag_set_SWAPPED pte : flag_set pte PTE_SWAPPED = Z.testbit pte 9.
Proof. exact (flag_set_bit pte 9 ltac:(lia)). Qed.
#[export] Hint Rewrite flag_set_V flag_set_W flag_set_U flag_set_A flag_set_SWAPPED : kern.

(** Clearing a one-bit flag, as in [flags &= ~PTE_V]. *)
Lemma land_lnot_bit x n i : 0 <= n -> 0 <= i ->
  Z.testbit (Z.land x (Z.lnot (2 ^ n))) i = Z.testbit x i && negb (n =? i).
Proof. intros. by rewrite Z.land_spec, Z.lnot_spec, Z.pow2_bits_eqb by lia. Qed.

Lemma land_lnot_range x n b : 0 <= x < 2 ^ b -> 0 <= n -> 0 <= Z.land x (Z.lnot (2 ^ n)) < 2 ^ b.
Proof.
  intros [H1 H2] Hn. split; [apply Z.land_nonneg; auto|].
  eapply Z.le_lt_trans; [|exact H2].
  rewrite <- Z.ldiff_land. apply Z.ldiff_le. done.
  apply Z.bits_inj'. intros i Hi. rewrite Z.ldiff_spec, Z.bits_0, Z.ldiff_spec.
  destruct (Z.testbit x i), (Z.testbit (2^n) i); reflexivity.
Qed.

Lemma lor_range x y b : 0 <= b -> 0 <= x < 2 ^ b -> 0 <= y < 2 ^ b -> 0 <= Z.lor x y < 2 ^ b.
Proof.
  intros Hb Hx Hy. rewrite <- (Z.mod_small x (2 ^ b)), <- (Z.mod_small y (2 ^ b)) by done.
  rewrite <- !Z.land_ones, <- Z.land_lor_distr_l, Z.land_ones by done.
  apply Z.mod_pos_bound. lia.
Qed.
