(* ===== verification/Memory.v ===== *)
(** Byte-addressed memory with little-endian loads and stores, the memory and
    string routines of kernel/string.c as the loops they are, and the bulk
    descriptions of those loops that the other components compute with. *)
From S2P Require Import Prelude.

(** * Memory *)
Definition mem : Type := Z -> Z.

Definition ld8 (m : mem) (a : Z) : Z := u8 (m a).
Definition st8 (m : mem) (a v : Z) : mem := fun x => if x =? a then u8 v else m x.

(** [ld n m a] reads an [n]-byte little-endian integer, [st] writes one. *)
Fixpoint ld (n : nat) (m : mem) (a : Z) : Z :=
  match n with
  | O => 0
  | S n' => ld8 m a + 256 * ld n' m (a + 1)
  end.
Fixpoint st (n : nat) (m : mem) (a v : Z) : mem :=
  match n with
  | O => m
  | S n' => st n' (st8 m a v) (a + 1) (v / 256)
  end.
Abbreviation ld16 := (ld 2).
Abbreviation ld32 := (ld 4).
Abbreviation ld64 := (ld 8).
Abbreviation st16 := (st 2).
Abbreviation st32 := (st 4).
Abbreviation st64 := (st 8).

(** Two memories are equivalent when every byte reads the same. *)
Definition mem_eq (m1 m2 : mem) : Prop := forall a, ld8 m1 a = ld8 m2 a.
Infix "≈m" := mem_eq (at level 70, no associativity).

#[export] Instance mem_eq_equiv : Equivalence mem_eq.
Proof.
  split; unfold mem_eq; [done|by intros m1 m2 H a; rewrite H|].
  intros m1 m2 m3 H1 H2 a. by rewrite H1, H2.
Qed.

Lemma ld8_range m a : 0 <= ld8 m a < 256.
Proof. apply u8_range. Qed.

Lemma ld8_st8_same m a v : ld8 (st8 m a v) a = u8 v.
Proof. unfold ld8, st8, u8. rewrite Z.eqb_refl. apply Z.mod_mod. lia. Qed.
Lemma ld8_st8_other m a v b : b <> a -> ld8 (st8 m a v) b = ld8 m b.
Proof. unfold ld8, st8. intros. by bools. Qed.
Lemma ld8_st8 m a v b : ld8 (st8 m a v) b = if b =? a then u8 v else ld8 m b.
Proof. case_bool; [subst; apply ld8_st8_same|by apply ld8_st8_other]. Qed.

Lemma ld_ext n m1 m2 a :
  (forall i, a <= i < a + Z.of_nat n -> ld8 m1 i = ld8 m2 i) -> ld n m1 a = ld n m2 a.
Proof.
  revert a. induction n as [|n IH]; intros a H; [done|]. cbn [ld].
  rewrite (H a), (IH (a + 1)); [done| |lia]. intros i Hi. apply H. lia.
Qed.

#[export] Instance ld_proper n : Proper (mem_eq ==> eq ==> eq) (ld n).
Proof. intros m1 m2 Hm a _ <-. apply ld_ext. intros. apply Hm. Qed.
#[export] Instance ld8_proper : Proper (mem_eq ==> eq ==> eq) ld8.
Proof. intros m1 m2 Hm a _ <-. apply Hm. Qed.
#[export] Instance st8_proper : Proper (mem_eq ==> eq ==> eq ==> mem_eq) st8.
Proof. intros m1 m2 Hm a _ <- v _ <- x. rewrite !ld8_st8. by rewrite (Hm x). Qed.

Lemma ld_range n m a : 0 <= ld n m a < 256 ^ Z.of_nat n.
Proof.
  revert a. induction n as [|n IH]; intros a; [simpl; lia|]. cbn [ld].
  rewrite Nat2Z.inj_succ, Z.pow_succ_r by lia.
  pose proof (ld8_range m a). specialize (IH (a + 1)). lia.
Qed.

Lemma ld8_st_other n m a v b :
  b < a \/ a + Z.of_nat n <= b -> ld8 (st n m a v) b = ld8 m b.
Proof.
  revert m a v. induction n as [|n IH]; intros m a v H; [done|]. cbn [st].
  rewrite IH by lia. apply ld8_st8_other. lia.
Qed.

(** Inside the range a store hides what was there. *)
Lemma ld8_st_in n m1 m2 a v b : a <= b < a + Z.of_nat n -> ld8 (st n m1 a v) b = ld8 (st n m2 a v) b.
Proof.
  revert m1 m2 a v. induction n as [|n IH]; intros m1 m2 a v Hb; [lia|]. cbn [st].
  destruct (decide (b = a)) as [->|Hne]; [|apply IH; lia].
  rewrite !ld8_st_other by lia. by rewrite !ld8_st8_same.
Qed.

Lemma ld_st_other n k m a v b :
  b + Z.of_nat k <= a \/ a + Z.of_nat n <= b -> ld k (st n m a v) b = ld k m b.
Proof. intros H. apply ld_ext. intros i Hi. apply ld8_st_other. lia. Qed.

Lemma ld_st_same n m a v : ld n (st n m a v) a = v mod 256 ^ Z.of_nat n.
Proof.
  revert m a v. induction n as [|n IH]; intros m a v; [by rewrite Z.mod_1_r|].
  cbn [ld st]. rewrite IH, ld8_st_other, ld8_st8_same by lia.
  rewrite Nat2Z.inj_succ, Z.pow_succ_r by lia.
  rewrite Z.rem_mul_r by lia. unfold u8. change (2 ^ 8) with 256. lia.
Qed.

Lemma ld64_st64_same m a v : ld64 (st64 m a v) a = u64 v.
Proof. rewrite ld_st_same. done. Qed.
Lemma ld32_st32_same m a v : ld32 (st32 m a v) a = u32 v.
Proof. rewrite ld_st_same. done. Qed.
Lemma ld64_range m a : 0 <= ld64 m a < 2 ^ 64.
Proof. exact (ld_range 8 m a). Qed.
Lemma ld32_range m a : 0 <= ld32 m a < 2 ^ 32.
Proof. exact (ld_range 4 m a). Qed.
#[export] Hint Resolve ld64_range ld32_range ld8_range : kern.

(** [bytes m a n] is the contents of [n] bytes from [a]. *)
Definition bytes (m : mem) (a : Z) (n : nat) : list Z :=
  (fun i => ld8 m (a + i)) <$> seqZ 0 (Z.of_nat n).

Lemma bytes_length m a n : length (bytes m a n) = n.
Proof. unfold bytes. rewrite length_fmap, length_seqZ. lia. Qed.

Lemma bytes_lookup m a n i : (i < n)%nat -> bytes m a n !! i = Some (ld8 m (a + Z.of_nat i)).
Proof.
  intros H. unfold bytes. rewrite list_lookup_fmap, (lookup_seqZ_lt _ _ _) by lia.
  simpl. do 2 f_equal.
Qed.

Lemma bytes_ext m1 m2 a b n :
  (forall i, 0 <= i < Z.of_nat n -> ld8 m1 (a + i) = ld8 m2 (b + i)) ->
  bytes m1 a n = bytes m2 b n.
Proof.
  intros H. unfold bytes. apply list_fmap_ext. intros i x Hx%lookup_seqZ.
  apply H. lia.
Qed.

(** * string.c *)
Fixpoint memset_loop (k : nat) (m : mem) (p c : Z) : mem :=
  match k with
  | O => m
  | S k' => memset_loop k' (st8 m p c) (p + 1) c
  end.
Definition memset (m : mem) (dst c n : Z) : mem := memset_loop (Z.to_nat n) m dst c.

Fixpoint memcmp_loop (k : nat) (m : mem) (s1 s2 : Z) : Z :=
  match k with
  | O => 0
  | S k' => if ld8 m s1 =? ld8 m s2 then memcmp_loop k' m (s1 + 1) (s2 + 1)
            else ld8 m s1 - ld8 m s2
  end.
Definition memcmp (m : mem) (v1 v2 n : Z) : Z := memcmp_loop (Z.to_nat n) m v1 v2.

(** [while(n-- > 0) *--d = *--s;] *)
Fixpoint memmove_bwd (k : nat) (m : mem) (d s : Z) : mem :=
  match k with
  | O => m
  | S k' => memmove_bwd k' (st8 m (d - 1) (ld8 m (s - 1))) (d - 1) (s - 1)
  end.
(** [while(n-- > 0) *d++ = *s++;] *)
Fixpoint memmove_fwd (k : nat) (m : mem) (d s : Z) : mem :=
  match k with
  | O => m
  | S k' => memmove_fwd k' (st8 m d (ld8 m s)) (d + 1) (s + 1)
  end.
Definition memmove (m : mem) (dst src n : Z) : mem :=
  if n =? 0 then m
  else if (src <? dst) && (dst <? src + n)
       then memmove_bwd (Z.to_nat n) m (dst + n) (src + n)
       else memmove_fwd (Z.to_nat n) m dst src.
Definition memcpy (m : mem) (dst src n : Z) : mem := memmove m dst src n.

(** [while(n > 0 && *p && *p == *q) n--, p++, q++;] *)
Fixpoint strncmp_loop (k : nat) (m : mem) (p q : Z) : Z :=
  match k with
  | O => 0
  | S k' => if nz (ld8 m p) && (ld8 m p =? ld8 m q) then strncmp_loop k' m (p + 1) (q + 1)
            else ld8 m p - ld8 m q
  end.
Definition strncmp (m : mem) (p q n : Z) : Z := strncmp_loop (Z.to_nat n) m p q.

Fixpoint strncpy_loop (k : nat) (m : mem) (s t : Z) : mem :=
  match k with
  | O => m
  | S k' => let c := ld8 m t in
            let m' := st8 m s c in
            if c =? 0 then memset_loop k' m' (s + 1) 0
            else strncpy_loop k' m' (s + 1) (t + 1)
  end.
Definition strncpy (m : mem) (s t n : Z) : mem := strncpy_loop (Z.to_nat n) m s t.

(** [while(--n > 0 && ( *s++ = *t++) != 0) ;] then [*s = 0]. *)
Fixpoint safestrcpy_loop (k : nat) (m : mem) (s t : Z) : mem :=
  match k with
  | O => st8 m s 0
  | S k' => let c := ld8 m t in
            let m' := st8 m s c in
            if c =? 0 then st8 m' (s + 1) 0
            else safestrcpy_loop k' m' (s + 1) (t + 1)
  end.
Definition safestrcpy (m : mem) (s t n : Z) : mem :=
  if n <=? 0 then m else safestrcpy_loop (Z.to_nat (n - 1)) m s t.

(** The loop of [strlen] has no bound; [fuel] limits the bytes looked at. *)
Fixpoint strlen_loop (fuel : nat) (m : mem) (s n : Z) : outcome Z :=
  match fuel with
  | O => NoFuel
  | S f => if ld8 m (s + n) =? 0 then Ret n else strlen_loop f m s (n + 1)
  end.
Definition strlen (fuel : nat) (m : mem) (s : Z) : outcome Z := strlen_loop fuel m s 0.

(** * Bulk descriptions *)
Definition mfill (m : mem) (dst c n : Z) : mem :=
  fun a => if (dst <=? a) && (a <? dst + n) then u8 c else m a.
Definition mcopy (m : mem) (dst src n : Z) : mem :=
  fun a => if (dst <=? a) && (a <? dst + n) then ld8 m (src + (a - dst)) else m a.

Lemma ld8_mfill m dst c n a :
  ld8 (mfill m dst c n) a = if (dst <=? a) && (a <? dst + n) then u8 c else ld8 m a.
Proof. unfold ld8, mfill. case_match; [|done]. unfold u8. apply Z.mod_mod. lia. Qed.
Lemma ld8_mcopy m dst src n a :
  ld8 (mcopy m dst src n) a =
  if (dst <=? a) && (a <? dst + n) then ld8 m (src + (a - dst)) else ld8 m a.
Proof. unfold ld8, mcopy. case_match; [|done]. unfold ld8, u8. apply Z.mod_mod. lia. Qed.

Lemma ld_mfill_other k m dst c n b :
  b + Z.of_nat k <= dst \/ dst + n <= b -> ld k (mfill m dst c n) b = ld k m b.
Proof. intros. apply ld_ext. intros i Hi. rewrite ld8_mfill. by bools. Qed.
Lemma ld_mcopy_other k m dst src n b :
  b + Z.of_nat k <= dst \/ dst + n <= b -> ld k (mcopy m dst src n) b = ld k m b.
Proof. intros. apply ld_ext. intros i Hi. rewrite ld8_mcopy. by bools. Qed.
Lemma ld_mfill_zero k m dst n b :
  dst <= b -> b + Z.of_nat k <= dst + n -> ld k (mfill m dst 0 n) b = 0.
Proof.
  revert b. induction k as [|k IH]; intros b H1 H2; [done|]. cbn [ld].
  rewrite ld8_mfill, IH by lia. by bools.
Qed.

(** * The loops compute their bulk descriptions *)
Lemma ld8_memset_loop k m p c a :
  ld8 (memset_loop k m p c) a = if (p <=? a) && (a <? p + Z.of_nat k) then u8 c else ld8 m a.
Proof.
  revert m p. induction k as [|k IH]; intros m p; cbn [memset_loop]; [by bools|].
  rewrite IH, ld8_st8. by bools.
Qed.

(** [memset] of string.c fills exactly the [n] bytes from [dst]. *)
Theorem memset_mfill m dst c n : 0 <= n -> memset m dst c n ≈m mfill m dst c n.
Proof.
  intros Hn a. unfold memset. rewrite ld8_memset_loop, ld8_mfill, Z2Nat.id by done. done.
Qed.

Lemma ld8_memmove_fwd k m d s a :
  d <= s \/ s + Z.of_nat k <= d ->
  ld8 (memmove_fwd k m d s) a =
  if (d <=? a) && (a <? d + Z.of_nat k) then ld8 m (s + (a - d)) else ld8 m a.
Proof.
  revert m d s. induction k as [|k IH]; intros m d s H; cbn [memmove_fwd]; [by bools|].
  rewrite IH, !ld8_st8 by lia. unfold ld8, u8.
  bools; rewrite ?Z.mod_mod by lia; do 2 f_equal; lia.
Qed.

Lemma ld8_memmove_bwd k m d s a :
  s <= d \/ d <= s - Z.of_nat k ->
  ld8 (memmove_bwd k m d s) a =
  if (d - Z.of_nat k <=? a) && (a <? d) then ld8 m (s + (a - d)) else ld8 m a.
Proof.
  revert m d s. induction k as [|k IH]; intros m d s H; cbn [memmove_bwd]; [by bools|].
  rewrite IH, !ld8_st8 by lia. unfold ld8, u8.
  bools; rewrite ?Z.mod_mod by lia; do 2 f_equal; lia.
Qed.

(** [memmove] copies as if through a temporary, whatever the
    overlap of the two ranges: both copy directions of string.c agree with the
    bulk copy that reads the original memory. *)
Theorem memmove_mcopy m dst src n : 0 <= n -> memmove m dst src n ≈m mcopy m dst src n.
Proof.
  intros Hn a. unfold memmove. rewrite ld8_mcopy. destruct (Z.eqb_spec n 0); [by bools|].
  destruct ((src <? dst) && (dst <? src + n)) eqn:E.
  - rewrite ld8_memmove_bwd, Z2Nat.id by (bools; lia).
    bools; f_equal; lia.
  - rewrite ld8_memmove_fwd, Z2Nat.id by (rewrite ?Z2Nat.id; bools; lia). by bools.
Qed.

(** * NUL-terminated strings *)

(** The bytes from [p] up to a NUL, at most [n] of them. *)
Fixpoint cstr (n : nat) (m : mem) (p : Z) : list Z :=
  match n with
  | O => []
  | S n' => if ld8 m p =? 0 then [] else ld8 m p :: cstr n' m (p + 1)
  end.

Lemma cstr_ext n m1 m2 p q :
  (forall i, 0 <= i < Z.of_nat n -> ld8 m1 (p + i) = ld8 m2 (q + i)) ->
  cstr n m1 p = cstr n m2 q.
Proof.
  revert p q. induction n as [|n IH]; intros p q H; [done|]. cbn [cstr].
  pose proof (H 0 ltac:(lia)) as H0. rewrite !Z.add_0_r in H0. rewrite H0.
  case_bool; [done|]. f_equal. apply IH. intros i Hi.
  rewrite <- !Z.add_assoc, !(Z.add_comm 1). apply H. lia.
Qed.

Lemma cstr_length n m p : (length (cstr n m p) <= n)%nat.
Proof.
  revert p. induction n as [|n IH]; intros p; cbn [cstr]; [done|].
  case_bool; simpl; [lia|]. specialize (IH (p + 1)). lia.
Qed.

(** [strncmp] returns zero exactly when the two strings agree up to
    their NUL or up to [n] bytes. *)
Theorem strncmp_zero m p q n :
  strncmp m p q n = 0 <-> cstr (Z.to_nat n) m p = cstr (Z.to_nat n) m q.
Proof.
  unfold strncmp. generalize (Z.to_nat n) as k. intros k. revert p q.
  induction k as [|k IH]; intros p q; cbn [strncmp_loop cstr]; [done|].
  unfold nz. destruct (Z.eqb_spec (ld8 m p) 0) as [E|E]; cbn [negb andb].
  - rewrite E. case_bool; split; done || lia.
  - destruct (Z.eqb_spec (ld8 m p) (ld8 m q)) as [E'|E'].
    + rewrite <- E', (proj2 (Z.eqb_neq _ _) E), IH.
      split; [by intros ->|by intros [= ->]].
    + split; [lia|]. case_bool; [done|]. by intros [= ? _].
Qed.

Lemma ld8_strncpy_loop k m s t a :
  s + Z.of_nat k <= t \/ t + Z.of_nat k <= s ->
  ld8 (strncpy_loop k m s t) a =
  if (s <=? a) && (a <? s + Z.of_nat k)
  then default 0 (cstr k m t !! Z.to_nat (a - s)) else ld8 m a.
Proof.
  revert m s t. induction k as [|k IH]; intros m s t H; cbn [strncpy_loop]; [by bools|].
  cbn [cstr]. destruct (Z.eqb_spec (ld8 m t) 0) as [E|E].
  - rewrite ld8_memset_loop, ld8_st8, E. by bools.
  - rewrite IH, !ld8_st8 by lia.
    rewrite (cstr_ext k (st8 m s (ld8 m t)) m (t + 1) (t + 1)).
    2: { intros i Hi. apply ld8_st8_other. lia. }
    destruct (Z.eq_dec a s) as [->|Hne].
    + rewrite Z.sub_diag, Z.eqb_refl, u8_small by (apply ld8_range). by bools.
    + rewrite (proj2 (Z.eqb_neq _ _) Hne). bools; try done.
      by replace (Z.to_nat (a - s)) with (S (Z.to_nat (a - (s + 1)))) by lia.
Qed.

(** With disjoint buffers [strncpy] stores the source string
    followed by NULs in exactly the [n] bytes of the destination. *)
Theorem strncpy_spec m s t n a :
  0 <= n -> s + n <= t \/ t + n <= s ->
  ld8 (strncpy m s t n) a =
  if (s <=? a) && (a <? s + n)
  then default 0 (cstr (Z.to_nat n) m t !! Z.to_nat (a - s)) else ld8 m a.
Proof. intros Hn H. unfold strncpy. rewrite ld8_strncpy_loop; rewrite Z2Nat.id; done. Qed.

Lemma safestrcpy_loop_cstr k m s t :
  s + Z.of_nat k < t \/ t + Z.of_nat k <= s ->
  cstr (S k) (safestrcpy_loop k m s t) s = cstr k m t /\
  (forall a, a < s \/ s + Z.of_nat k < a -> ld8 (safestrcpy_loop k m s t) a = ld8 m a).
Proof.
  revert m s t. induction k as [|k IH]; intros m s t H; cbn [safestrcpy_loop].
  { split; [|intros; apply ld8_st8_other; lia].
    cbn [cstr]. by rewrite ld8_st8_same. }
  cbn [cstr]. destruct (Z.eqb_spec (ld8 m t) 0) as [E|E].
  { split; [|intros; rewrite !ld8_st8; bools; done].
    rewrite ld8_st8_other, ld8_st8_same, E by lia. done. }
  destruct (IH (st8 m s (ld8 m t)) (s + 1) (t + 1)) as [IH1 IH2]; [lia|].
  assert (u8 (ld8 m t) = ld8 m t) as Hu by (apply u8_small, ld8_range).
  split; [|intros a Ha; rewrite IH2 by lia; apply ld8_st8_other; lia].
  rewrite IH2, ld8_st8_same, Hu, (proj2 (Z.eqb_neq _ _) E) by lia. f_equal.
  cbn [cstr] in IH1. rewrite IH1. apply cstr_ext. intros i Hi. apply ld8_st8_other. lia.
Qed.

(** [safestrcpy] leaves a NUL-terminated copy of at most [n - 1]
    bytes and writes nothing outside the [n] bytes of its destination. *)
Theorem safestrcpy_spec m s t n :
  0 < n -> s + n <= t \/ t + n <= s ->
  cstr (Z.to_nat n) (safestrcpy m s t n) s = cstr (Z.to_nat (n - 1)) m t /\
  (forall a, a < s \/ s + n <= a -> ld8 (safestrcpy m s t n) a = ld8 m a).
Proof.
  intros Hn H. unfold safestrcpy. destruct (Z.leb_spec n 0); [lia|].
  replace (Z.to_nat n) with (S (Z.to_nat (n - 1))) by lia.
  destruct (safestrcpy_loop_cstr (Z.to_nat (n - 1)) m s t) as [H1 H2]; [lia|].
  split; [done|]. intros a Ha. apply H2. lia.
Qed.

Lemma strlen_loop_spec fuel m s n k :
  (forall i, n <= i < k -> ld8 m (s + i) <> 0) -> ld8 m (s + k) = 0 ->
  n <= k < n + Z.of_nat fuel -> strlen_loop fuel m s n = Ret k.
Proof.
  revert n. induction fuel as [|f IH]; intros n Hnz H0 Hk; [lia|]. cbn [strlen_loop].
  destruct (Z.eq_dec n k) as [->|]; [by rewrite H0|].
  rewrite (proj2 (Z.eqb_neq _ _)) by (apply Hnz; lia).
  apply IH; [|done|lia]. intros i Hi. apply Hnz. lia.
Qed.

(** [strlen] returns the offset of the first NUL once the fuel
    exceeds it. *)
Theorem strlen_spec fuel m s k :
  0 <= k < Z.of_nat fuel -> (forall i, 0 <= i < k -> ld8 m (s + i) <> 0) ->
  ld8 m (s + k) = 0 -> strlen fuel m s = Ret k.
Proof. intros. apply strlen_loop_spec; auto. Qed.
