(* ===== verification/Ring.v ===== *)
(** Circular doubly linked lists.

    Two places of the kernel keep one: the list of resident user pages
    (kernel/vm.c, [lru_add]/[lru_remove]) and the buffer cache list through
    [bcache.head] (kernel/bio.c).  Nodes are indices, [nx] and [pv] are the two
    pointer fields, [None] is the null pointer.  [ring nx pv l] says that the
    pointers link exactly the nodes of [l], in order, in a circle. *)
From S2P Require Import Prelude.

Definition adj (l : list Z) (x y : Z) : Prop := exists l1 l2, l = l1 ++ x :: y :: l2.
Definition cyc (l : list Z) (x y : Z) : Prop :=
  adj l x y \/ (last l = Some x /\ head l = Some y).

Record ring (nx pv : Z -> option Z) (l : list Z) : Prop := {
  ring_nodup : NoDup l;
  ring_link : forall x y, cyc l x y -> nx x = Some y /\ pv y = Some x }.

(** * Adjacency *)
Lemma adj_cons a l x y : adj (a :: l) x y <-> (x = a /\ head l = Some y) \/ adj l x y.
Proof.
  split.
  - intros ([|b l1] & l2 & E); simplify_eq/=; [left; auto|right; exists l1, l2; auto].
  - intros [[-> E]|(l1 & l2 & ->)]; [|exists (a :: l1), l2; auto].
    destruct l; simplify_eq/=. by exists [], l.
Qed.

Lemma last_app_ne {A} (l1 l2 : list A) : l2 <> [] -> last (l1 ++ l2) = last l2.
Proof. intros. rewrite last_app. by destruct (last l2) eqn:E; [|apply last_None in E]. Qed.
Lemma head_app_ne {A} (l1 l2 : list A) : l1 <> [] -> head (l1 ++ l2) = head l1.
Proof. by destruct l1. Qed.

Lemma adj_app l1 l2 x y :
  adj (l1 ++ l2) x y <->
  adj l1 x y \/ adj l2 x y \/ (last l1 = Some x /\ head l2 = Some y).
Proof.
  induction l1 as [|a l1 IH]; simpl.
  - split; [by auto|]. intros [(l1 & l2' & E)|[?|[??]]]; auto; [by destruct l1|done].
  - rewrite !adj_cons, IH. destruct l1 as [|b l1]; simpl; [|naive_solver].
    assert (~ adj [] x y) by (intros (l1 & ? & E); by destruct l1). naive_solver.
Qed.

Lemma cyc_rotate l1 l2 x y : cyc (l1 ++ l2) x y -> cyc (l2 ++ l1) x y.
Proof.
  destruct l1 as [|a l1]; [by rewrite app_nil_r|].
  destruct l2 as [|b l2]; [by rewrite app_nil_r|].
  intros [H|[Hl Hh]].
  - apply adj_app in H as [H|[H|[H1 H2]]].
    + left. apply adj_app. auto.
    + left. apply adj_app. auto.
    + right. by rewrite last_app_ne, head_app_ne.
  - rewrite last_app_ne in Hl by done. left. apply adj_app. auto.
Qed.

Lemma adj_elem l x y : adj l x y -> x ∈ l /\ y ∈ l.
Proof. intros (l1 & l2 & ->). set_solver. Qed.

Lemma adj_not_last l x y : NoDup l -> adj l x y -> last l <> Some x.
Proof.
  intros Hnd (l1 & l2 & ->) Hl. rewrite last_app_ne in Hl by done.
  apply NoDup_app in Hnd as (_ & _ & [Hx _]%NoDup_cons).
  change (x :: y :: l2) with ([x] ++ y :: l2) in Hl. rewrite last_app_ne in Hl by done.
  apply Hx. by apply last_Some_elem_of.
Qed.

Lemma adj_not_head l x y : NoDup l -> adj l x y -> head l <> Some y.
Proof.
  intros Hnd (l1 & l2 & ->) Hh. apply NoDup_app in Hnd as (_ & Hd & Hnd2).
  destruct l1 as [|a l1]; simplify_eq/=.
  - apply NoDup_cons in Hnd2 as [H _]. set_solver.
  - apply (Hd y); set_solver.
Qed.

(** * Operations *)
Section ring.
Context (nx pv nx' pv' : Z -> option Z).

Lemma ring_rotate l1 l2 : ring nx pv (l1 ++ l2) -> ring nx pv (l2 ++ l1).
Proof.
  intros [Hnd Hl]. split; [by rewrite Permutation_app_comm|].
  intros x y H. apply Hl. by apply cyc_rotate.
Qed.

Lemma ring_ext l :
  (forall z, z ∈ l -> nx' z = nx z /\ pv' z = pv z) -> ring nx pv l -> ring nx' pv' l.
Proof.
  intros Hz [Hnd Hl]. split; [done|]. intros x y H.
  assert (x ∈ l /\ y ∈ l) as [Hx Hy].
  { destruct H as [?%adj_elem|[? ?]]; [done|].
    split; [by apply last_Some_elem_of|by apply head_Some_elem_of]. }
  destruct (Hz x Hx) as [-> _], (Hz y Hy) as [_ ->]. auto.
Qed.

(** A new node between the last and the first one. *)
Lemma ring_insert l h t p :
  ring nx pv l -> head l = Some h -> last l = Some t -> p ∉ l ->
  nx' p = Some h -> nx' t = Some p -> pv' p = Some t -> pv' h = Some p ->
  (forall z, z <> p -> z <> t -> nx' z = nx z) ->
  (forall z, z <> p -> z <> h -> pv' z = pv z) ->
  ring nx' pv' (l ++ [p]).
Proof.
  intros [Hnd Hl] Hh Ht Hp Hnp Hnt Hpp Hph Hn Hpv. split.
  { apply NoDup_app. split_and!; [done|set_solver|apply NoDup_singleton]. }
  intros x y [[H|[H|[H1 H2]]]%adj_app|[H1 H2]].
  - destruct (adj_elem _ _ _ H) as [Hx Hy].
    pose proof (adj_not_last _ _ _ Hnd H). pose proof (adj_not_head _ _ _ Hnd H).
    rewrite Hn, Hpv by (congruence || set_solver). apply Hl. by left.
  - destruct H as ([|??] & ? & E); simplify_eq/=; by destruct l0.
  - simplify_eq/=. auto.
  - rewrite last_snoc in H1. simplify_eq. rewrite head_app_ne in H2 by (by intros ->).
    simplify_eq. auto.
Qed.

(** Unlinking the first node. *)
Lemma ring_remove p l h t :
  ring nx pv (p :: l) -> head l = Some h -> last l = Some t ->
  nx' t = Some h -> pv' h = Some t ->
  (forall z, z <> p -> z <> t -> nx' z = nx z) ->
  (forall z, z <> p -> z <> h -> pv' z = pv z) ->
  ring nx' pv' l.
Proof.
  intros [[Hp Hnd]%NoDup_cons Hl] Hh Ht Hnt Hph Hn Hpv. split; [done|].
  intros x y [H|[H1 H2]]; [|by simplify_eq].
  destruct (adj_elem _ _ _ H) as [Hx Hy].
  pose proof (adj_not_last _ _ _ Hnd H). pose proof (adj_not_head _ _ _ Hnd H).
  rewrite Hn, Hpv by (congruence || set_solver). apply Hl. left. apply adj_cons. auto.
Qed.

(** The neighbours of the first node. *)
Lemma ring_first p l h t :
  ring nx pv (p :: l) -> head l = Some h -> last l = Some t ->
  nx p = Some h /\ pv p = Some t /\ pv h = Some p /\ nx t = Some p.
Proof.
  intros [_ Hl] Hh Ht.
  destruct (Hl p h) as [? ?]; [left; apply adj_cons; auto|].
  destruct (Hl t p) as [? ?]; [right; split; [|done]|done].
  change (p :: l) with ([p] ++ l). rewrite last_app_ne; [done|by intros ->].
Qed.

Lemma ring_next_lookup l (i : nat) x y :
  ring nx pv l -> l !! i = Some x -> l !! S i = Some y -> nx x = Some y /\ pv y = Some x.
Proof.
  intros [_ Hl] Hx Hy. apply Hl. left. exists (take i l), (drop (S (S i)) l).
  rewrite <- (take_drop i l) at 1. f_equal.
  rewrite (drop_S _ _ _ Hx), (drop_S _ _ _ Hy). done.
Qed.
End ring.

(** Following the pointers of a ring whose first node [p] is a sentinel. *)
Lemma ring_nx nx pv p l l1 x l2 :
  ring nx pv (p :: l) -> p :: l = l1 ++ x :: l2 -> nx x = Some (default p (head l2)).
Proof.
  intros [_ Hl] E. destruct l2 as [|y l2]; simpl.
  - apply Hl. right. rewrite E, last_snoc. by rewrite <- E.
  - apply Hl. left. rewrite E. by exists l1, l2.
Qed.

Lemma ring_pv nx pv p l l1 x l2 :
  ring nx pv (p :: l) -> l = l1 ++ x :: l2 -> pv x = Some (default p (last l1)).
Proof.
  intros [_ Hl] ->. destruct (last l1) as [y|] eqn:E; simpl.
  - apply last_Some in E as [l1' ->]. apply Hl. left. exists (p :: l1'), l2.
    by rewrite <- app_assoc.
  - apply last_None in E as ->. apply Hl. left. by exists [], l2.
Qed.

Lemma ring_pv_sentinel nx pv p l : ring nx pv (p :: l) -> pv p = Some (default p (last l)).
Proof.
  intros [_ Hl]. destruct (last l) as [y|] eqn:E; simpl.
  - apply Hl. right. split; [|done]. change (p :: l) with ([p] ++ l).
    rewrite last_app, E. done.
  - apply last_None in E as ->. apply Hl. by right.
Qed.

(** Moving a node to the position after the sentinel, as [brelse] does. *)
Lemma ring_move_front nx pv p l1 i l2 n q nx1 pv1 nx2 pv2 :
  ring nx pv (p :: l1 ++ i :: l2) -> nx i = Some n -> pv i = Some q ->
  (forall z, nx1 z = if z =? q then Some n else nx z) ->
  (forall z, pv1 z = if z =? n then Some q else pv z) ->
  nx2 i = nx1 p -> pv2 i = Some p -> nx2 p = Some i ->
  (forall z, z <> i -> z <> p -> nx2 z = nx1 z) ->
  (forall z, z <> i -> pv2 z = if bool_decide (nx1 p = Some z) then Some i else pv1 z) ->
  ring nx2 pv2 (p :: i :: l1 ++ l2).
Proof.
  intros Hr Hn Hq Hnx1 Hpv1 Ni Pi Np Nz Pz.
  assert (ring nx pv (i :: l2 ++ p :: l1)) as Hr1.
  { apply (ring_rotate _ _ (p :: l1) (i :: l2)) in Hr. done. }
  pose proof (ring_nodup _ _ _ Hr1) as [Hi _]%NoDup_cons.
  destruct (head (l2 ++ p :: l1)) as [h|] eqn:Eh; [|by destruct l2].
  destruct (last (l2 ++ p :: l1)) as [t|] eqn:Et.
  2: { apply last_None in Et. by destruct l2. }
  destruct (ring_first _ _ _ _ _ _ Hr1 Eh Et) as (E1 & E2 & _ & _).
  rewrite Hn in E1. rewrite Hq in E2. injection E1 as ->. injection E2 as ->.
  assert (ring nx1 pv1 (l2 ++ p :: l1)) as Hr2.
  { apply (ring_remove _ _ _ _ _ _ _ _ Hr1 Eh Et).
    - by rewrite Hnx1, Z.eqb_refl.
    - by rewrite Hpv1, Z.eqb_refl.
    - intros z _ Hz. by rewrite Hnx1, (proj2 (Z.eqb_neq _ _) Hz).
    - intros z _ Hz. by rewrite Hpv1, (proj2 (Z.eqb_neq _ _) Hz). }
  assert (ring nx1 pv1 ((l1 ++ l2) ++ [p])) as Hr3.
  { apply ring_rotate in Hr2. simpl in Hr2.
    apply (ring_rotate _ _ [p] (l1 ++ l2)). done. }
  assert (i ∉ (l1 ++ l2) ++ [p]) as Hi' by set_solver.
  destruct (head ((l1 ++ l2) ++ [p])) as [k|] eqn:Ek; [|by destruct (l1 ++ l2)].
  assert (nx1 p = Some k) as Hpk.
  { destruct (ring_link _ _ _ Hr3 p k) as [? _]; [|done]. right. by rewrite last_snoc. }
  pose proof (ring_insert nx1 pv1 nx2 pv2 _ k p i Hr3 Ek (last_snoc _ _) Hi') as Hins.
  assert (ring nx2 pv2 (((l1 ++ l2) ++ [p]) ++ [i])) as Hr4.
  { apply Hins; [congruence|done|done| |done|].
    - rewrite Pz, bool_decide_true; [done|done|].
      intros ->. by apply Hi', head_Some_elem_of.
    - intros z Hz1 Hz2. rewrite Pz, bool_decide_false; [done| |done]. congruence. }
  rewrite <- !app_assoc in Hr4. rewrite app_assoc in Hr4. apply ring_rotate in Hr4. done.
Qed.
