(* ===== verification/Lru.v ===== *)
(** The list of resident user pages (kernel/vm.c [lru_add], [lru_remove];
    [struct page] of kernel/riscv.h): operations on the pointer structure and
    their refinement of operations on a plain list. *)
From S2P Require Import Prelude Ring.

(** A [struct page *] is an index into [pages], [None] the null pointer. *)
Record page := Page {
  pg_next : option Z;
  pg_prev : option Z;
  pg_pagetable : Z;
  pg_vaddr : Z }.

Record lru := Lru {
  lru_head : option Z;
  lru_tail : option Z;
  pages : Z -> page }.

Definition set_next (v : option Z) (p : page) : page := Page v (pg_prev p) (pg_pagetable p) (pg_vaddr p).
Definition set_prev (v : option Z) (p : page) : page := Page (pg_next p) v (pg_pagetable p) (pg_vaddr p).
Definition set_owner (pt va : Z) (p : page) : page := Page (pg_next p) (pg_prev p) pt va.

Definition upd_page (i : Z) (f : page -> page) (s : lru) : lru :=
  Lru (lru_head s) (lru_tail s) (fun j => if j =? i then f (pages s i) else pages s j).
Definition set_head (v : option Z) (s : lru) : lru := Lru v (lru_tail s) (pages s).
Definition set_tail (v : option Z) (s : lru) : lru := Lru (lru_head s) v (pages s).

(** A store through a pointer; through the null pointer the hardware faults and
    kernel/trap.c [kerneltrap] panics. *)
Definition upd_ptr (p : option Z) (f : page -> page) (s : lru) : outcome lru :=
  match p with
  | Some i => Ret (upd_page i f s)
  | None => Panic "kerneltrap"
  end.

Definition lru_add (pg : Z) (s : lru) : outcome lru :=
  match lru_head s with
  | None =>
    let s := set_tail (Some pg) (set_head (Some pg) s) in
    let s := upd_page pg (set_prev (Some pg)) s in
    Ret (upd_page pg (set_next (Some pg)) s)
  | Some _ =>
    let s := upd_page pg (set_prev (lru_tail s)) s in
    let s := upd_page pg (set_next (lru_head s)) s in
    s ← upd_ptr (lru_tail s) (set_next (Some pg)) s;
    s ← upd_ptr (lru_head s) (set_prev (Some pg)) s;
    Ret (set_tail (Some pg) s)
  end.

Definition lru_remove (pg : Z) (s : lru) : outcome lru :=
  match pg_next (pages s pg), pg_prev (pages s pg) with
  | None, _ | _, None => Ret s
  | Some _, Some _ =>
    s ← (if decide (Some pg = lru_head s /\ Some pg = lru_tail s)
         then Ret (set_tail None (set_head None s))
         else
           let s := if decide (Some pg = lru_head s)
                    then set_head (pg_next (pages s pg)) s else s in
           let s := if decide (Some pg = lru_tail s)
                    then set_tail (pg_prev (pages s pg)) s else s in
           s ← upd_ptr (pg_prev (pages s pg)) (set_next (pg_next (pages s pg))) s;
           upd_ptr (pg_next (pages s pg)) (set_prev (pg_prev (pages s pg))) s);
    let s := upd_page pg (set_prev None) s in
    Ret (upd_page pg (set_next None) s)
  end.

(** * Refinement *)
Definition nexts (s : lru) (i : Z) : option Z := pg_next (pages s i).
Definition prevs (s : lru) (i : Z) : option Z := pg_prev (pages s i).

Record lru_repr (s : lru) (l : list Z) : Prop := {
  lr_ring : ring (nexts s) (prevs s) l;
  lr_head : lru_head s = head l;
  lr_tail : lru_tail s = last l;
  lr_off : forall x, x ∉ l -> nexts s x = None /\ prevs s x = None }.

(** The fields that identify the page a frame holds. *)
Definition same_owner (s s' : lru) : Prop :=
  forall x, pg_pagetable (pages s' x) = pg_pagetable (pages s x) /\
            pg_vaddr (pages s' x) = pg_vaddr (pages s x).

Lemma lru_repr_owner s l i pt va :
  lru_repr s l -> lru_repr (upd_page i (set_owner pt va) s) l.
Proof.
  intros [Hr Hh Ht Ho]. split; [|done|done|].
  - eapply ring_ext; [|exact Hr]. intros z _.
    unfold nexts, prevs, upd_page; simpl. by destruct (Z.eqb_spec z i); subst.
  - intros x Hx. specialize (Ho x Hx). unfold nexts, prevs, upd_page in *; simpl.
    by destruct (Z.eqb_spec x i); subst.
Qed.

(** The clock hand: making the successor of [c] the head and [c] the tail
    rotates the list. *)
Lemma lru_repr_rotate s l1 c l2 :
  lru_repr s (l1 ++ c :: l2) ->
  lru_repr (set_tail (Some c) (set_head (nexts s c) s)) (l2 ++ l1 ++ [c]).
Proof.
  intros [Hr Hh Ht Ho].
  assert (ring (nexts s) (prevs s) (l2 ++ l1 ++ [c])) as Hr'.
  { replace (l1 ++ c :: l2) with ((l1 ++ [c]) ++ l2) in Hr by by rewrite <- app_assoc.
    by apply ring_rotate. }
  split; [done| | |].
  - simpl. destruct (ring_link _ _ _ Hr' c (default c (head (l2 ++ l1 ++ [c])))) as [-> _].
    + right. split.
      * rewrite !last_app. done.
      * by destruct l2, l1.
    + by destruct l2, l1.
  - simpl. by rewrite !last_app.
  - intros x Hx. apply Ho. set_solver.
Qed.

Ltac lru_fields := unfold nexts, prevs, upd_page, set_next, set_prev, set_head, set_tail in *; simpl in *.

Lemma lru_add_refines s l pg :
  lru_repr s l -> pg ∉ l ->
  exists s', lru_add pg s = Ret s' /\ lru_repr s' (l ++ [pg]) /\ same_owner s s'.
Proof.
  intros [Hr Hh Ht Ho] Hpg. unfold lru_add. rewrite Hh.
  destruct l as [|h l]; simpl head.
  { eexists. split; [done|]. split; [split; simpl; try done|].
    - split; [apply NoDup_singleton|]. intros x y [([|?[|]] & ? & E)|[??]]; simplify_eq/=.
      lru_fields. rewrite !Z.eqb_refl. simpl. auto.
    - intros x Hx. destruct (Ho x) as [? ?]; [set_solver|]. lru_fields.
      by rewrite (proj2 (Z.eqb_neq _ _)) by set_solver.
    - intros x. lru_fields. repeat case_bool; by subst. }
  destruct (last (h :: l)) as [t|] eqn:El; [|by apply last_None in El].
  unfold mbind, outcome_bind; simpl. rewrite Ht, Hh. simpl. rewrite Hh. simpl.
  assert (h <> pg /\ t <> pg) as [Hhp Htp].
  { split; [set_solver|]. intros ->. apply Hpg. by apply last_Some_elem_of. }
  eexists. split; [done|]. split; [split; simpl|].
  - apply (ring_insert (nexts s) (prevs s) _ _ (h :: l) h t pg Hr eq_refl El Hpg);
      lru_fields; intros; repeat (case_bool; simpl; try congruence).
  - done.
  - by rewrite app_comm_cons, last_snoc.
  - intros x Hx. destruct (Ho x) as [? ?]; [set_solver|].
    assert (x <> pg /\ x <> h /\ x <> t) as (?&?&?).
    { split_and!; [set_solver|set_solver|]. intros ->. apply Hx.
      rewrite app_comm_cons, elem_of_app. left. by apply last_Some_elem_of. }
    lru_fields. repeat (case_bool; simpl; try congruence). auto.
  - intros x. lru_fields. repeat (case_bool; subst; simpl; try done).
Qed.

Lemma filter_ne_notin (l : list Z) pg : pg ∉ l -> filter (fun x => x <> pg) l = l.
Proof.
  induction l as [|x l IH]; intros H; [done|]. rewrite filter_cons_True by set_solver.
  f_equal. apply IH. set_solver.
Qed.

Lemma filter_ne_app (l1 l2 : list Z) pg :
  NoDup (l1 ++ pg :: l2) -> filter (fun x => x <> pg) (l1 ++ pg :: l2) = l1 ++ l2.
Proof.
  intros Hnd. apply NoDup_app in Hnd as (_ & Hd & [Hpg _]%NoDup_cons).
  rewrite filter_app, filter_cons_False by naive_solver.
  rewrite !filter_ne_notin; [done|done|]. intros Hin. apply (Hd pg Hin). set_solver.
Qed.

(** Unlinking a listed page that has neighbours. *)
Lemma lru_unlink s l1 pg l2 s' h t :
  lru_repr s (l1 ++ pg :: l2) -> head (l2 ++ l1) = Some h -> last (l2 ++ l1) = Some t ->
  lru_head s' = (if decide (l1 = []) then Some h else lru_head s) ->
  lru_tail s' = (if decide (l2 = []) then Some t else lru_tail s) ->
  nexts s' t = Some h -> prevs s' h = Some t ->
  (forall z, z <> pg -> z <> t -> nexts s' z = nexts s z) ->
  (forall z, z <> pg -> z <> h -> prevs s' z = prevs s z) ->
  nexts s' pg = None -> prevs s' pg = None ->
  lru_repr s' (l1 ++ l2).
Proof.
  intros [Hr Hh Ht Ho] Eh Et Hh' Ht' Hn Hp Hnz Hpz Hnp Hpp.
  assert (ring (nexts s) (prevs s) (pg :: l2 ++ l1)) as Hr1.
  { change (pg :: l2 ++ l1) with ((pg :: l2) ++ l1). by apply ring_rotate. }
  pose proof (ring_nodup _ _ _ Hr1) as [Hpg Hnd]%NoDup_cons.
  split.
  - apply ring_rotate. by apply (ring_remove _ _ _ _ _ _ _ _ Hr1 Eh Et).
  - rewrite Hh'. destruct l1; [|by rewrite decide_False, Hh].
    rewrite app_nil_r in Eh. by rewrite decide_True.
  - rewrite Ht'. case_decide; subst.
    + rewrite app_nil_r. by rewrite <- Et.
    + rewrite Ht, !last_app. destruct (last l2) eqn:E; [|by apply last_None in E].
      destruct l2; [done|]. rewrite last_cons, E. done.
  - intros x Hx. destruct (decide (x = pg)) as [->|Hxp]; [done|].
    assert (x <> h /\ x <> t) as [??].
    { split; intros ->; apply Hx; rewrite elem_of_app.
      - apply head_Some_elem_of in Eh. set_solver.
      - apply last_Some_elem_of in Et. set_solver. }
    rewrite Hnz, Hpz by done. apply Ho. set_solver.
Qed.

Lemma lru_remove_refines s l pg :
  lru_repr s l ->
  exists s', lru_remove pg s = Ret s' /\ lru_repr s' (filter (fun x => x <> pg) l) /\
             same_owner s s'.
Proof.
  intros Hs. pose proof Hs as [Hr Hh Ht Ho]. unfold lru_remove.
  destruct (decide (pg ∈ l)) as [Hin|Hin].
  2: { destruct (Ho pg Hin) as [E _]. unfold nexts in E. rewrite E. exists s.
       rewrite filter_ne_notin by done. split_and!; [done..|]. by intros x. }
  apply list_elem_of_split in Hin as (l1 & l2 & ->).
  rewrite filter_ne_app by apply (ring_nodup _ _ _ Hr).
  assert (ring (nexts s) (prevs s) (pg :: l2 ++ l1)) as Hr1.
  { change (pg :: l2 ++ l1) with ((pg :: l2) ++ l1). by apply ring_rotate. }
  pose proof (ring_nodup _ _ _ Hr1) as [Hpg _]%NoDup_cons.
  destruct (head (l2 ++ l1)) as [h|] eqn:Eh.
  - destruct (last (l2 ++ l1)) as [t|] eqn:Et.
    2: { apply last_None in Et. by rewrite Et in Eh. }
    destruct (ring_first _ _ _ _ _ _ Hr1 Eh Et) as (En & Ep & _ & _).
    assert (h <> pg /\ t <> pg) as [Hhp Htp].
    { apply head_Some_elem_of in Eh. apply last_Some_elem_of in Et.
      split; intros ->; contradiction. }
    unfold nexts in En. unfold prevs in Ep. rewrite En, Ep.
    assert (Some pg = lru_head s <-> l1 = []) as Dh.
    { rewrite Hh. destruct l1 as [|x l1]; simpl; [naive_solver|].
      split; [|done]. intros [= ->]. set_solver. }
    assert (Some pg = lru_tail s <-> l2 = []) as Dt.
    { rewrite Ht, last_app_cons. destruct l2 as [|x l2]; [naive_solver|].
      split; [|done]. rewrite last_cons_cons. intros E. symmetry in E.
      apply last_Some_elem_of in E. set_solver. }
    rewrite decide_False by (intros [->%Dh ->%Dt]; done).
    repeat case_decide; eexists;
      (split; [unfold mbind, outcome_bind, upd_ptr; simpl; rewrite ?En, ?Ep; simpl;
               rewrite ?(proj2 (Z.eqb_neq pg h)), ?(proj2 (Z.eqb_neq pg t)), ?En, ?Ep by done;
               reflexivity|]);
      (split; [|by intros x; lru_fields; repeat case_bool; subst]);
      apply (lru_unlink s l1 pg l2 _ h t Hs Eh Et);
      repeat case_decide; lru_fields; intros; repeat (case_bool; subst; simpl);
      try tauto; congruence.
  - assert (l2 ++ l1 = []) as [-> ->]%app_nil by (by destruct (l2 ++ l1)). simpl in *.
    destruct (ring_link _ _ _ Hr1 pg pg) as [En Ep]; [by right|].
    unfold nexts in En. unfold prevs in Ep. rewrite En, Ep, Hh, Ht, decide_True by done.
    eexists. split; [done|]. split; [split|by intros x; lru_fields; repeat case_bool; subst].
    + split; [apply NoDup_nil_2|]. intros x y [([|] & ? & ?)|[??]]; done.
    + done.
    + done.
    + intros x _. destruct (decide (x = pg)) as [->|]; lru_fields; [by rewrite Z.eqb_refl|].
      rewrite (proj2 (Z.eqb_neq x pg)) by done. apply Ho. set_solver.
Qed.
