(* ===== verification/Locks.v ===== *)
(** Spin locks with interrupt nesting (kernel/spinlock.c) and sleep locks
    (kernel/sleeplock.c).

    Spin locks are modelled on a machine of several CPUs whose steps are the
    lock operations in any interleaving; the invariant proved by rule induction
    is that a held lock has one holder and that the holder runs with interrupts
    disabled. *)
From S2P Require Import Prelude.

(** * spinlock.c *)
Record cpu := Cpu { noff : Z; intena : bool; sie : bool }.
Record spinlock := Spinlock { locked : Z; lk_cpu : option Z }.

Record machine := Machine { cpus : Z -> cpu; locks : Z -> spinlock }.

Definition set_cpu (c : Z) (v : cpu) (s : machine) : machine :=
  Machine (upd (cpus s) c v) (locks s).
Definition set_lock (l : Z) (v : spinlock) (s : machine) : machine :=
  Machine (cpus s) (upd (locks s) l v).

Definition intr_off (c : Z) (s : machine) : machine :=
  set_cpu c (Cpu (noff (cpus s c)) (intena (cpus s c)) false) s.
Definition intr_on (c : Z) (s : machine) : machine :=
  set_cpu c (Cpu (noff (cpus s c)) (intena (cpus s c)) true) s.

Definition initlock (l : Z) : M machine unit := modify (set_lock l (Spinlock 0 None)).

Definition holding (l c : Z) (s : machine) : bool :=
  nz (locked (locks s l)) && bool_decide (lk_cpu (locks s l) = Some c).

Definition push_off (c : Z) : M machine unit := fun s =>
  let old := sie (cpus s c) in
  let s := intr_off c s in
  let s := if noff (cpus s c) =? 0
           then set_cpu c (Cpu (noff (cpus s c)) old (sie (cpus s c))) s else s in
  Ret (tt, set_cpu c (Cpu (noff (cpus s c) + 1) (intena (cpus s c)) (sie (cpus s c))) s).

Definition pop_off (c : Z) : M machine unit := fun s =>
  if sie (cpus s c) then Panic "pop_off - interruptible"
  else if noff (cpus s c) <? 1 then Panic "pop_off"
  else
    let s := set_cpu c (Cpu (noff (cpus s c) - 1) (intena (cpus s c)) (sie (cpus s c))) s in
    if (noff (cpus s c) =? 0) && intena (cpus s c) then Ret (tt, intr_on c s) else Ret (tt, s).

(** The spin of [acquire] ends when the test-and-set reads 0; while it reads 1
    the CPU spins, which is [Blocked] here. *)
Definition acquire (l c : Z) : M machine unit :=
  _ ← push_off c;
  h ← gets (holding l c);
  if h : bool then panic "acquire"
  else
    old ← gets (fun s => locked (locks s l));
    if old =? 0
    then modify (fun s => set_lock l (Spinlock 1 (Some c)) s)
    else blocked.

Definition release (l c : Z) : M machine unit :=
  h ← gets (holding l c);
  if negb h then panic "release"
  else
    _ ← modify (fun s => set_lock l (Spinlock (locked (locks s l)) None) s);
    _ ← modify (fun s => set_lock l (Spinlock 0 (lk_cpu (locks s l))) s);
    pop_off c.

(** * sleeplock.c

    [pid] is [myproc()->pid].  [acquiresleep] of a held lock sleeps until the
    holder releases it. *)
Record sleeplock := Sleeplock { sl_locked : bool; sl_pid : Z }.

Definition initsleeplock : sleeplock := Sleeplock false 0.
Definition acquiresleep (pid : Z) (lk : sleeplock) : outcome sleeplock :=
  if sl_locked lk then Blocked else Ret (Sleeplock true pid).
Definition releasesleep (lk : sleeplock) : sleeplock := Sleeplock false 0.
Definition holdingsleep (pid : Z) (lk : sleeplock) : bool := sl_locked lk && (sl_pid lk =? pid).

Lemma acquiresleep_holding pid lk lk' :
  acquiresleep pid lk = Ret lk' -> holdingsleep pid lk' = true /\ sl_locked lk = false.
Proof. unfold acquiresleep, holdingsleep. destruct lk as [[] ?]; [done|]. intros [= <-]. simpl. by rewrite Z.eqb_refl. Qed.

(** * Interleavings of lock operations

    Ghost counters record what each CPU has done and not undone: [pushes c] the
    calls of [push_off] outside [acquire], [owns c] the locks acquired. *)
Record gstate := GState { mach : machine; pushes : Z -> nat; owns : Z -> list Z }.

Inductive step : gstate -> gstate -> Prop :=
| step_push c s p o s' :
    push_off c s = Ret (tt, s') ->
    step (GState s p o) (GState s' (upd p c (S (p c))) o)
| step_pop c s p o s' n :
    p c = S n -> pop_off c s = Ret (tt, s') ->
    step (GState s p o) (GState s' (upd p c n) o)
| step_acquire c l s p o s' :
    acquire l c s = Ret (tt, s') ->
    step (GState s p o) (GState s' p (upd o c (l :: o c)))
| step_release c l s p o s' :
    l ∈ o c -> release l c s = Ret (tt, s') ->
    step (GState s p o) (GState s' p (upd o c (filter (fun x => x <> l) (o c))))
| step_intr_on c s p o :
    noff (cpus s c) = 0 -> step (GState s p o) (GState (intr_on c s) p o)
| step_intr_off c s p o :
    step (GState s p o) (GState (intr_off c s) p o).

Definition init (s : gstate) : Prop :=
  (forall c, noff (cpus (mach s) c) = 0 /\ pushes s c = 0%nat /\ owns s c = []) /\
  (forall l, locks (mach s) l = Spinlock 0 None).

Record linv (s : gstate) : Prop := {
  li_noff c : noff (cpus (mach s) c) = Z.of_nat (pushes s c + length (owns s c));
  li_nodup c : NoDup (owns s c);
  li_owner l c : l ∈ owns s c <-> locks (mach s) l = Spinlock 1 (Some c);
  li_free l : (forall c, l ∉ owns s c) -> locks (mach s) l = Spinlock 0 None;
  li_intr c : 0 < noff (cpus (mach s) c) -> sie (cpus (mach s) c) = false }.

(** What each operation does to the machine. *)
Ltac mach := unfold set_cpu, set_lock, intr_on, intr_off in *; cbn [cpus locks] in *;
  rewrite ?upd_eq in *; cbn [noff intena sie] in *.

Lemma push_off_run c s :
  exists s', push_off c s = Ret (tt, s') /\
    cpus s' c = Cpu (noff (cpus s c) + 1)
                    (if noff (cpus s c) =? 0 then sie (cpus s c) else intena (cpus s c)) false /\
    (forall d, d <> c -> cpus s' d = cpus s d) /\ locks s' = locks s.
Proof.
  eexists. split; [reflexivity|]. destruct (cpus s c) as [n i e] eqn:E.
  mach. rewrite E. mach. destruct (n =? 0); mach; split_and!; try done;
    intros d Hd; by rewrite ?upd_ne.
Qed.

Lemma pop_off_run c s s' :
  pop_off c s = Ret (tt, s') ->
  1 <= noff (cpus s c) /\ sie (cpus s c) = false /\
  cpus s' c = Cpu (noff (cpus s c) - 1) (intena (cpus s c))
                  ((noff (cpus s c) =? 1) && intena (cpus s c)) /\
  (forall d, d <> c -> cpus s' d = cpus s d) /\ locks s' = locks s.
Proof.
  unfold pop_off. destruct (cpus s c) as [n i e] eqn:E. cbn [sie noff intena].
  destruct e; [done|]. destruct (Z.ltb_spec n 1); [done|]. mach. simpl.
  replace (n - 1 =? 0) with (n =? 1) by (bools; done).
  destruct ((n =? 1) && i) eqn:Ei; intros [= <-]; mach; split_and!; try done; try lia;
    intros d Hd; by rewrite ?upd_ne.
Qed.

Lemma pop_off_ok c s :
  1 <= noff (cpus s c) -> sie (cpus s c) = false -> exists s', pop_off c s = Ret (tt, s').
Proof.
  intros H E. unfold pop_off. rewrite E. destruct (Z.ltb_spec (noff (cpus s c)) 1); [lia|].
  destruct (_ && _); eauto.
Qed.

Lemma acquire_run l c s s' :
  acquire l c s = Ret (tt, s') ->
  locked (locks s l) = 0 /\ locks s' l = Spinlock 1 (Some c) /\
  (forall k, k <> l -> locks s' k = locks s k) /\
  (exists i, cpus s' c = Cpu (noff (cpus s c) + 1) i false) /\
  (forall d, d <> c -> cpus s' d = cpus s d).
Proof.
  destruct (push_off_run c s) as (s1 & E1 & Hc & Hd & Hl).
  unfold acquire. rewrite (bind_Ret _ _ _ _ _ E1). mrun. unfold holding. rewrite Hl.
  destruct (_ && _); [done|]. mrun. rewrite Hl.
  destruct (Z.eqb_spec (locked (locks s l)) 0); [|done].
  intros [= <-]. mach. rewrite Hl. split_and!; eauto. intros k Hk. by rewrite upd_ne.
Qed.

Lemma release_run l c s s' :
  release l c s = Ret (tt, s') ->
  1 <= noff (cpus s c) /\ lk_cpu (locks s l) = Some c /\
  locks s' l = Spinlock 0 None /\ (forall k, k <> l -> locks s' k = locks s k) /\
  (exists e, cpus s' c = Cpu (noff (cpus s c) - 1) (intena (cpus s c)) e /\
             (noff (cpus s c) <> 1 -> e = false)) /\
  (forall d, d <> c -> cpus s' d = cpus s d).
Proof.
  unfold release. mrun. destruct (negb (holding l c s)) eqn:Eh; [done|]. mrun.
  intros H. apply pop_off_run in H as (Hn & Hs & Hc & Hd & Hl). mach.
  apply negb_false_iff, andb_true_iff in Eh as [_ Eh%bool_decide_eq_true].
  rewrite Hl. mach. simpl. split_and!; try done.
  - intros k Hk. by rewrite !upd_ne.
  - eexists. split; [exact Hc|]. intros Hne. by rewrite (proj2 (Z.eqb_neq _ _) Hne).
Qed.

(** * The invariant *)
Lemma init_linv s : init s -> linv s.
Proof.
  intros [Hc Hl]. split.
  - intros c. destruct (Hc c) as (-> & -> & ->). done.
  - intros c. destruct (Hc c) as (_ & _ & ->). apply NoDup_nil_2.
  - intros l c. destruct (Hc c) as (_ & _ & ->). rewrite Hl. set_solver.
  - intros l _. apply Hl.
  - intros c. destruct (Hc c) as (-> & _). lia.
Qed.

Lemma filter_ne_length (l : list Z) x :
  NoDup l -> x ∈ l -> length (filter (fun y => y <> x) l) = (length l - 1)%nat.
Proof.
  induction 1 as [|y l Hy Hnd IH]; intros Hin; [set_solver|].
  destruct (decide (y = x)) as [->|Hne].
  - rewrite filter_cons_False by tauto. simpl. rewrite Nat.sub_0_r. f_equal.
    clear IH Hnd Hin. induction l as [|z l IHl]; [done|].
    rewrite filter_cons_True by set_solver. f_equal. apply IHl. set_solver.
  - rewrite filter_cons_True by done. simpl. rewrite IH by set_solver.
    destruct l; [set_solver|simpl; lia].
Qed.

Lemma step_linv s s' : step s s' -> linv s -> linv s'.
Proof.
  intros Hs [Hn Hnd Ho Hf Hi]. destruct Hs; simpl in *.
  - destruct (push_off_run c s) as (s1 & E & Hc & Hd & Hl). rewrite E in H. injection H as <-.
    split; simpl; rewrite ?Hl; [|done..|]; intros d; destruct (decide (d = c)) as [->|Hne];
      rewrite ?Hc, ?Hd, ?upd_eq, ?upd_ne by done; simpl; auto. rewrite Hn. lia.
  - apply pop_off_run in H0 as (H1 & H2 & Hc & Hd & Hl).
    split; simpl; rewrite ?Hl; [|done..|]; intros d; destruct (decide (d = c)) as [->|Hne];
      rewrite ?Hc, ?Hd, ?upd_eq, ?upd_ne by done; simpl; auto.
    + rewrite Hn, H. lia.
    + intros Hp. destruct (Z.eqb_spec (noff (cpus s c)) 1); [lia|done].
  - apply acquire_run in H as (H1 & Hl & Hk & [i Hc] & Hd).
    assert (forall d, l ∉ o d) as Hnl.
    { intros d Hin%Ho. rewrite Hin in H1. done. }
    split; simpl.
    + intros d. destruct (decide (d = c)) as [->|Hne];
        rewrite ?Hc, ?Hd, ?upd_eq, ?upd_ne by done; simpl; rewrite Hn; lia.
    + intros d. destruct (decide (d = c)) as [->|Hne]; rewrite ?upd_eq, ?upd_ne by done; auto.
      by apply NoDup_cons.
    + intros k d. destruct (decide (k = l)) as [->|Hkl].
      * rewrite Hl. destruct (decide (d = c)) as [->|Hne]; rewrite ?upd_eq, ?upd_ne by done.
        { set_solver. } split; [by intros ?%Hnl|congruence].
      * rewrite Hk by done. destruct (decide (d = c)) as [->|Hne]; rewrite ?upd_eq, ?upd_ne by done; [|done].
        rewrite elem_of_cons, <- Ho. naive_solver.
    + intros k Hfree. destruct (decide (k = l)) as [->|Hkl].
      * exfalso. apply (Hfree c). rewrite upd_eq. set_solver.
      * rewrite Hk by done. apply Hf. intros d Hin. apply (Hfree d).
        destruct (decide (d = c)) as [->|Hne]; rewrite ?upd_eq, ?upd_ne by done; set_solver.
    + intros d. destruct (decide (d = c)) as [->|Hne]; rewrite ?Hc, ?Hd by done; auto.
  - apply release_run in H0 as (H1 & Hlk & Hl & Hk & (e & Hc & He) & Hd).
    assert (forall d, l ∈ o d -> d = c) as Huniq.
    { intros d Hin%Ho. rewrite Hin in Hlk. by injection Hlk. }
    split; simpl.
    + intros d. destruct (decide (d = c)) as [->|Hne];
        rewrite ?Hc, ?Hd, ?upd_eq, ?upd_ne by done; simpl; [|done].
      rewrite Hn, (filter_ne_length _ _ (Hnd c) H). assert (0 < length (o c))%nat; [|lia].
      destruct (o c); [set_solver|simpl; lia].
    + intros d. destruct (decide (d = c)) as [->|Hne]; rewrite ?upd_eq, ?upd_ne by done; auto.
      by apply NoDup_filter.
    + intros k d. destruct (decide (k = l)) as [->|Hkl].
      * rewrite Hl. split; [|done]. destruct (decide (d = c)) as [->|Hne];
          rewrite ?upd_eq, ?upd_ne by done; [by intros [? _]%list_elem_of_filter|].
        by intros ?%Huniq.
      * rewrite Hk by done. destruct (decide (d = c)) as [->|Hne];
          rewrite ?upd_eq, ?upd_ne by done; [|done]. rewrite list_elem_of_filter, <- Ho. tauto.
    + intros k Hfree. destruct (decide (k = l)) as [->|Hkl]; [done|].
      rewrite Hk by done. apply Hf. intros d Hin. apply (Hfree d).
      destruct (decide (d = c)) as [->|Hne]; rewrite ?upd_eq, ?upd_ne by done; [|done].
      by apply list_elem_of_filter.
    + intros d. destruct (decide (d = c)) as [->|Hne]; rewrite ?Hc, ?Hd by done; [|auto].
      simpl. intros Hp. apply He. lia.
  - split; simpl; mach; [|done..|]; intros d; destruct (decide (d = c)) as [->|Hne];
      rewrite ?upd_eq, ?upd_ne by done; simpl; auto. lia.
  - split; simpl; mach; [|done..|]; intros d; destruct (decide (d = c)) as [->|Hne];
      rewrite ?upd_eq, ?upd_ne by done; simpl; auto.
Qed.

Lemma reachable_linv s s' : init s -> rtc step s s' -> linv s'.
Proof. intros Hi%init_linv. induction 1; eauto using step_linv. Qed.

(** In every state reachable by interleaved lock operations a lock has
    at most one owner, an owner runs with interrupts disabled, its [release]
    returns, and acquiring a lock one already owns panics. *)
Theorem lock_discipline s s' l c :
  init s -> rtc step s s' -> l ∈ owns s' c ->
  (forall d, l ∈ owns s' d -> d = c) /\ sie (cpus (mach s') c) = false /\
  (exists m, release l c (mach s') = Ret (tt, m)) /\
  acquire l c (mach s') = Panic "acquire".
Proof.
  intros Hi Hr Hin. destruct (reachable_linv _ _ Hi Hr) as [Hn Hnd Ho Hf Hs].
  pose proof (proj1 (Ho l c) Hin) as Hl.
  assert (0 < noff (cpus (mach s') c)).
  { rewrite Hn. destruct (owns s' c); [set_solver|simpl; lia]. }
  split_and!.
  - intros d Hd%Ho. congruence.
  - by apply Hs.
  - unfold release. mrun. unfold holding. rewrite Hl. simpl. rewrite bool_decide_true by done.
    mrun. apply pop_off_ok; mach; [lia|by apply Hs].
  - unfold acquire. destruct (push_off_run c (mach s')) as (s1 & E & _ & _ & El).
    rewrite (bind_Ret _ _ _ _ _ E). mrun. unfold holding. rewrite El, Hl.
    simpl. by rewrite bool_decide_true.
Qed.

(** Two nested [push_off] calls are undone by two [pop_off] calls, and the
    interrupt state is the initial one only after the second. *)
Theorem push_pop_nest c s :
  noff (cpus s c) = 0 ->
  exists s1 s2 s3,
    (_ ← push_off c; push_off c) s = Ret (tt, s1) /\
    pop_off c s1 = Ret (tt, s2) /\ sie (cpus s2 c) = false /\
    pop_off c s2 = Ret (tt, s3) /\ sie (cpus s3 c) = sie (cpus s c) /\
    noff (cpus s3 c) = 0.
Proof.
  intros H0. destruct (push_off_run c s) as (t1 & E1 & C1 & _).
  destruct (push_off_run c t1) as (t2 & E2 & C2 & _).
  rewrite H0 in C1. simpl in C1. rewrite C1 in C2. simpl in C2.
  destruct (pop_off_ok c t2) as [t3 E3]; [rewrite C2; simpl; lia|by rewrite C2|].
  pose proof (pop_off_run _ _ _ E3) as (_ & _ & C3 & _). rewrite C2 in C3. simpl in C3.
  destruct (pop_off_ok c t3) as [t4 E4]; [rewrite C3; simpl; lia|by rewrite C3|].
  pose proof (pop_off_run _ _ _ E4) as (_ & _ & C4 & _). rewrite C3 in C4. simpl in C4.
  exists t2, t3, t4. rewrite (bind_Ret _ _ _ _ _ E1). split_and!; try done; by rewrite ?C3, ?C4.
Qed.
