(* ===== verification/Blocks.v ===== *)
(** The interface between the buffer cache (kernel/bio.c) and its clients: the
    log, the file system and the swap area.

    The operations are those of bio.c; what a client may assume of them is
    stated on an abstract state that forgets which buffer holds which block and
    in which order buffers are recycled. *)
From S2P Require Import Prelude Riscv Memory.

(** Every block is accessed through one device number: the file system uses
    [ROOTDEV] for the blocks below [SWAPBASE], [swapread]/[swapwrite] pass
    device 0 for the blocks of the swap area. *)
Definition blkdev (b : Z) : Z := if b <? SWAPBASE then ROOTDEV else 0.

(** What clients see of the cache.
    - [a_view b]: the current contents of block [b], as [bread] returns it;
    - [a_disk b]: what is stored on the disk;
    - [a_refs b]: references to the cached copy of [b] (held buffers and pins);
    - [a_held h]: the block of the locked buffer [h];
    - [a_writes]: the writes the device has received, in order. *)
Record astate := AState {
  a_view : Z -> mem;
  a_disk : Z -> mem;
  a_refs : gmap Z nat;
  a_held : gmap Z Z;
  a_writes : list (Z * mem) }.

Definition refs_inc (b : Z) (r : gmap Z nat) : gmap Z nat :=
  <[b := S (default 0%nat (r !! b))]> r.
Definition refs_dec (b : Z) (r : gmap Z nat) : gmap Z nat :=
  match r !! b with
  | Some (S (S n)) => <[b := S n]> r
  | _ => delete b r
  end.

Definition a_hold (h b : Z) (a : astate) : astate :=
  AState (a_view a) (a_disk a) (refs_inc b (a_refs a)) (<[h := b]> (a_held a)) (a_writes a).
Definition a_release (h b : Z) (a : astate) : astate :=
  AState (a_view a) (a_disk a) (refs_dec b (a_refs a)) (delete h (a_held a)) (a_writes a).
Definition a_set (b : Z) (d : mem) (a : astate) : astate :=
  AState (upd (a_view a) b d) (a_disk a) (a_refs a) (a_held a) (a_writes a).
Definition a_flush (b : Z) (a : astate) : astate :=
  AState (a_view a) (upd (a_disk a) b (a_view a b)) (a_refs a) (a_held a)
    (a_writes a ++ [(b, a_view a b)]).
Definition a_pin (b : Z) (a : astate) : astate :=
  AState (a_view a) (a_disk a) (refs_inc b (a_refs a)) (a_held a) (a_writes a).
Definition a_unpin (b : Z) (a : astate) : astate :=
  AState (a_view a) (a_disk a) (refs_dec b (a_refs a)) (a_held a) (a_writes a).

(** [bread] of [b] can be served: a copy is cached and in use, or some buffer
    is unused. *)
Definition a_room (b : Z) (a : astate) : Prop :=
  is_Some (a_refs a !! b) \/ (size (a_refs a) < Z.to_nat NBUF)%nat.

Class BufCache (C : Type) := {
  bread : Z -> Z -> M C Z;
  bdata : C -> Z -> mem;
  bblockno : C -> Z -> Z;
  bwrites : C -> list (Z * mem);
  bupdate : Z -> (mem -> mem) -> C -> C;
  bwrite : Z -> M C unit;
  brelse : Z -> M C unit;
  bpin : Z -> M C unit;
  bunpin : Z -> M C unit }.

Class BufCacheLaws (C : Type) `{BufCache C} := {
  bc_rel : C -> astate -> Prop;
  (** a block without references is clean *)
  bc_clean c a b : bc_rel c a -> a_refs a !! b = None -> a_view a b = a_disk a b;
  bc_refs_pos c a b : bc_rel c a -> a_refs a !! b <> Some 0%nat;
  bc_writes c a : bc_rel c a -> bwrites c = a_writes a;
  (** a held buffer counts as a reference and is the only one of its block *)
  bc_held_refs c a h b : bc_rel c a -> a_held a !! h = Some b -> is_Some (a_refs a !! b);
  bc_held_inj c a h h' b :
    bc_rel c a -> a_held a !! h = Some b -> a_held a !! h' = Some b -> h = h';
  bc_bread c a b :
    bc_rel c a -> 0 <= b < FSSIZE -> (forall h, a_held a !! h <> Some b) -> a_room b a ->
    exists h c', bread (blkdev b) b c = Ret (h, c') /\ a_held a !! h = None /\
                 bc_rel c' (a_hold h b a);
  bc_data c a h b :
    bc_rel c a -> a_held a !! h = Some b -> bdata c h = a_view a b /\ bblockno c h = b;
  bc_update c a h b f :
    bc_rel c a -> a_held a !! h = Some b ->
    bc_rel (bupdate h f c) (a_set b (f (a_view a b)) a);
  bc_bwrite c a h b :
    bc_rel c a -> a_held a !! h = Some b ->
    exists c', bwrite h c = Ret (tt, c') /\ bc_rel c' (a_flush b a);
  bc_brelse c a h b :
    bc_rel c a -> a_held a !! h = Some b ->
    (a_view a b = a_disk a b \/ (2 <= default 0 (a_refs a !! b))%nat) ->
    exists c', brelse h c = Ret (tt, c') /\ bc_rel c' (a_release h b a);
  bc_bpin c a h b :
    bc_rel c a -> a_held a !! h = Some b ->
    exists c', bpin h c = Ret (tt, c') /\ bc_rel c' (a_pin b a);
  bc_bunpin c a h b :
    bc_rel c a -> a_held a !! h = Some b -> (2 <= default 0 (a_refs a !! b))%nat ->
    exists c', bunpin h c = Ret (tt, c') /\ bc_rel c' (a_unpin b a) }.

(** A blank disk, and an empty cache over the disk contents [d]. *)
Definition blank : Z -> mem := fun _ _ => 0.
Definition a_init (d : Z -> mem) : astate := AState d d ∅ ∅ [].

(** Block contents are compared on the bytes a block has. *)
Definition blk_eq (d1 d2 : mem) : Prop := forall i, 0 <= i < BSIZE -> ld8 d1 i = ld8 d2 i.
#[export] Instance blk_eq_equiv : Equivalence blk_eq.
Proof.
  split; unfold blk_eq; [done|intros ?? H i Hi; by rewrite H|].
  intros ??? H1 H2 i Hi. by rewrite H1, H2.
Qed.

(** [memmove(dst, src, BSIZE)] between block buffers. *)
Definition blk_copy (src dst : mem) : mem :=
  fun i => if (0 <=? i) && (i <? BSIZE) then ld8 src i else dst i.
Lemma blk_copy_eq src dst : blk_eq (blk_copy src dst) src.
Proof.
  intros i Hi. unfold ld8, blk_copy. bools. unfold ld8, u8. apply Z.mod_mod. lia.
Qed.

Lemma refs_inc_dec b r : r !! b = None -> refs_dec b (refs_inc b r) = r.
Proof.
  intros E. unfold refs_inc, refs_dec. rewrite E, lookup_insert_eq. simpl.
  by rewrite delete_insert_id.
Qed.
Lemma refs_inc_dec_S b r n : r !! b = Some (S n) -> refs_dec b (refs_inc b r) = r.
Proof.
  intros E. unfold refs_inc, refs_dec. rewrite E, lookup_insert_eq. simpl.
  rewrite insert_insert_eq. by apply insert_id.
Qed.
Lemma refs_dec_inc b r : r !! b <> Some 0%nat -> refs_dec b (refs_inc b r) = r.
Proof.
  intros E. destruct (r !! b) as [[|n]|] eqn:E'; [done| |]; eauto using refs_inc_dec, refs_inc_dec_S.
Qed.

(** Releasing an unmodified buffer undoes [bread]. *)
Lemma release_hold h b a :
  a_refs a !! b <> Some 0%nat -> a_held a !! h = None -> a_release h b (a_hold h b a) = a.
Proof.
  intros Hr Hh. unfold a_release, a_hold. cbn. rewrite refs_dec_inc, delete_insert_id by done.
  by destruct a.
Qed.

(** The disk after a sequence of writes. *)
Definition dwrite (W : list (Z * mem)) (d : Z -> mem) : Z -> mem :=
  foldl (fun d w => upd d w.1 w.2) d W.
Lemma dwrite_app W1 W2 d : dwrite (W1 ++ W2) d = dwrite W2 (dwrite W1 d).
Proof. apply foldl_app. Qed.
Lemma dwrite_cons w W d : dwrite (w :: W) d = dwrite W (upd d w.1 w.2).
Proof. done. Qed.
Lemma dwrite_notin W d b : b ∉ W.*1 -> dwrite W d b = d b.
Proof.
  revert d. induction W as [|[x e] W IH]; intros d Hb; [done|].
  cbn in Hb. rewrite not_elem_of_cons in Hb. rewrite dwrite_cons, IH by tauto. apply upd_ne. tauto.
Qed.
Lemma dwrite_in W d b e (i : nat) : NoDup W.*1 -> W !! i = Some (b, e) -> dwrite W d b = e.
Proof.
  revert d i. induction W as [|[x e'] W IH]; intros d i Hnd Hi; [done|].
  apply NoDup_cons in Hnd as [Hx Hnd]. rewrite dwrite_cons.
  destruct i as [|i]; cbn in Hi; simplify_eq; [|by eapply IH].
  rewrite dwrite_notin by done. apply upd_eq.
Qed.

Lemma refs_inc_lookup b r : refs_inc b r !! b = Some (S (default 0%nat (r !! b))).
Proof. apply lookup_insert_eq. Qed.
Lemma refs_inc_lookup_ne b r x : x <> b -> refs_inc b r !! x = r !! x.
Proof. intros. by apply lookup_insert_ne. Qed.
Lemma refs_dec_lookup b r n :
  r !! b = Some (S n) -> refs_dec b r !! b = if bool_decide (n = 0%nat) then None else Some n.
Proof.
  intros E. unfold refs_dec. rewrite E. destruct n as [|n].
  - by rewrite lookup_delete_eq. - by rewrite lookup_insert_eq.
Qed.
Lemma refs_dec_lookup_ne b r x : x <> b -> refs_dec b r !! x = r !! x.
Proof.
  intros. unfold refs_dec. repeat case_match; rewrite ?lookup_insert_ne, ?lookup_delete_ne; done.
Qed.
Lemma refs_dec_inc_comm b b' r : b <> b' -> refs_dec b (refs_inc b' r) = refs_inc b' (refs_dec b r).
Proof.
  intros Hb. apply map_eq. intros x. destruct (decide (x = b')) as [->|Hx'].
  - rewrite refs_dec_lookup_ne, !refs_inc_lookup by done. by rewrite refs_dec_lookup_ne.
  - rewrite refs_inc_lookup_ne by done. destruct (decide (x = b)) as [->|Hx].
    + unfold refs_dec. rewrite refs_inc_lookup_ne by done.
      repeat case_match; rewrite ?lookup_insert_eq, ?lookup_delete_eq; done.
    + rewrite !refs_dec_lookup_ne by done. by rewrite refs_inc_lookup_ne.
Qed.
