(* ===== verification/Bio.v ===== *)
(** The buffer cache (kernel/bio.c): [NBUF] buffers on a circular list through
    [bcache.head], recycled from the least recently used end.  The instance at
    the end shows that it implements the interface of Blocks.v. *)
From S2P Require Import Prelude Riscv Memory Ring Locks Blocks.

Record buf := Buf {
  b_valid : bool;
  b_dev : Z;
  b_blockno : Z;
  b_lock : sleeplock;
  b_refcnt : Z;
  b_data : mem }.

(** Buffers are indices [0 .. NBUF-1]; [HEAD] is [&bcache.head].  [disk] is what
    the device stores and [dwrites] the writes it has received, in order. *)
Definition HEAD : Z := NBUF.
Record bcache := BCache {
  bufs : Z -> buf;
  bnext : Z -> option Z;
  bprev : Z -> option Z;
  disk : Z -> mem;
  dwrites : list (Z * mem) }.

Definition upd_buf (i : Z) (f : buf -> buf) (c : bcache) : bcache :=
  BCache (upd (bufs c) i (f (bufs c i))) (bnext c) (bprev c) (disk c) (dwrites c).
Definition set_nextp (i : Z) (v : option Z) (c : bcache) : bcache :=
  BCache (bufs c) (upd (bnext c) i v) (bprev c) (disk c) (dwrites c).
Definition set_prevp (i : Z) (v : option Z) (c : bcache) : bcache :=
  BCache (bufs c) (bnext c) (upd (bprev c) i v) (disk c) (dwrites c).

Definition set_lock (l : sleeplock) (b : buf) : buf :=
  Buf (b_valid b) (b_dev b) (b_blockno b) l (b_refcnt b) (b_data b).
Definition set_refcnt (n : Z) (b : buf) : buf :=
  Buf (b_valid b) (b_dev b) (b_blockno b) (b_lock b) n (b_data b).
Definition set_data (d : mem) (b : buf) : buf :=
  Buf (b_valid b) (b_dev b) (b_blockno b) (b_lock b) (b_refcnt b) d.
Definition set_valid (v : bool) (b : buf) : buf :=
  Buf v (b_dev b) (b_blockno b) (b_lock b) (b_refcnt b) (b_data b).

(** A load or store through a list pointer. *)
Definition deref {A} (p : option Z) (k : Z -> outcome A) : outcome A :=
  match p with Some i => k i | None => Panic "kerneltrap" end.

(** Linking [b] between [bcache.head] and its successor. *)
Definition link_front (i : Z) (c : bcache) : outcome bcache :=
  let c := set_nextp i (bnext c HEAD) c in
  let c := set_prevp i (Some HEAD) c in
  deref (bnext c HEAD) (fun n =>
  let c := set_prevp n (Some i) c in
  Ret (set_nextp HEAD (Some i) c)).

(** Unlinking [b] and linking it again at the most recently used end. *)
Definition move_front (b : Z) (c : bcache) : outcome bcache :=
  c ← deref (bnext c b) (fun n => Ret (set_prevp n (bprev c b) c));
  c ← deref (bprev c b) (fun q => Ret (set_nextp q (bnext c b) c));
  link_front b c.

Fixpoint binit_loop (k : nat) (i : Z) (c : bcache) : outcome bcache :=
  match k with
  | O => Ret c
  | S k' =>
    let c := upd_buf i (set_lock initsleeplock) c in
    c ← link_front i c; binit_loop k' (i + 1) c
  end.
Definition binit (c : bcache) : outcome bcache :=
  let c := set_prevp HEAD (Some HEAD) c in
  let c := set_nextp HEAD (Some HEAD) c in
  binit_loop (Z.to_nat NBUF) 0 c.

(** [for(b = bcache.head.next; b != &bcache.head; b = b->next)], looking for the
    block; [None] when the loop ends. *)
Fixpoint scan_cached (fuel : nat) (c : bcache) (dev blockno : Z) (p : option Z) : outcome (option Z) :=
  match fuel with
  | O => NoFuel
  | S f => deref p (fun i =>
    if i =? HEAD then Ret None
    else if (b_dev (bufs c i) =? dev) && (b_blockno (bufs c i) =? blockno) then Ret (Some i)
    else scan_cached f c dev blockno (bnext c i))
  end.
(** [for(b = bcache.head.prev; b != &bcache.head; b = b->prev)], looking for an
    unused buffer. *)
Fixpoint scan_unused (fuel : nat) (c : bcache) (p : option Z) : outcome (option Z) :=
  match fuel with
  | O => NoFuel
  | S f => deref p (fun i =>
    if i =? HEAD then Ret None
    else if b_refcnt (bufs c i) =? 0 then Ret (Some i)
    else scan_unused f c (bprev c i))
  end.
Definition scan_fuel : nat := S (Z.to_nat NBUF).

(** The device transfer of [virtio_disk_rw]: to the disk when [write], from the
    disk otherwise. *)
Definition disk_rw (i : Z) (write : bool) (c : bcache) : bcache :=
  if write
  then BCache (bufs c) (bnext c) (bprev c) (upd (disk c) (b_blockno (bufs c i)) (b_data (bufs c i)))
         (dwrites c ++ [(b_blockno (bufs c i), b_data (bufs c i))])
  else upd_buf i (set_data (disk c (b_blockno (bufs c i)))) c.

Section bio.
Context (pid : Z).

Definition acquire_buf (i : Z) (c : bcache) : outcome (Z * bcache) :=
  lk ← acquiresleep pid (b_lock (bufs c i)); Ret (i, upd_buf i (set_lock lk) c).

Definition bget (dev blockno : Z) : M bcache Z := fun c =>
  r ← scan_cached scan_fuel c dev blockno (bnext c HEAD);
  match r with
  | Some i => acquire_buf i (upd_buf i (set_refcnt (b_refcnt (bufs c i) + 1)) c)
  | None =>
    r ← scan_unused scan_fuel c (bprev c HEAD);
    match r with
    | Some i => acquire_buf i (upd_buf i (fun b => Buf false dev blockno (b_lock b) 1 (b_data b)) c)
    | None => Panic "bget: no buffers"
    end
  end.

Definition bio_bread (dev blockno : Z) : M bcache Z :=
  b ← bget dev blockno;
  v ← gets (fun c => b_valid (bufs c b));
  if v : bool then mret b
  else
    _ ← modify (disk_rw b false);
    _ ← modify (upd_buf b (set_valid true));
    mret b.

Definition bio_bwrite (b : Z) : M bcache unit :=
  h ← gets (fun c => holdingsleep pid (b_lock (bufs c b)));
  if negb h then panic "bwrite" else modify (disk_rw b true).

Definition bio_brelse (b : Z) : M bcache unit := fun c =>
  if negb (holdingsleep pid (b_lock (bufs c b))) then Panic "brelse"
  else
    let c := upd_buf b (set_lock (releasesleep (b_lock (bufs c b)))) c in
    let c := upd_buf b (set_refcnt (b_refcnt (bufs c b) - 1)) c in
    if b_refcnt (bufs c b) =? 0
    then
      c ← move_front b c; Ret (tt, c)
    else Ret (tt, c).

Definition bio_bpin (b : Z) : M bcache unit :=
  modify (fun c => upd_buf b (set_refcnt (b_refcnt (bufs c b) + 1)) c).
Definition bio_bunpin (b : Z) : M bcache unit :=
  modify (fun c => upd_buf b (set_refcnt (b_refcnt (bufs c b) - 1)) c).
End bio.

(** * Scanning the list *)
Section scan.
Context (c : bcache) (order : list Z).
Context (Hring : ring (bnext c) (bprev c) (HEAD :: order)).

Lemma head_notin : HEAD ∉ order.
Proof. apply ring_nodup, NoDup_cons in Hring. tauto. Qed.

Lemma scan_cached_spec fuel dev blockno l1 x l2 :
  HEAD :: order = l1 ++ x :: l2 -> (length l2 < fuel)%nat ->
  exists r, scan_cached fuel c dev blockno (bnext c x) = Ret r /\
    match r with
    | Some i => i ∈ l2 /\ b_dev (bufs c i) = dev /\ b_blockno (bufs c i) = blockno
    | None => forall i, i ∈ l2 -> ~ (b_dev (bufs c i) = dev /\ b_blockno (bufs c i) = blockno)
    end.
Proof.
  revert fuel l1 x. induction l2 as [|y l2 IH]; intros fuel l1 x E Hf.
  - rewrite (ring_nx _ _ _ _ _ _ _ Hring E). destruct fuel; [simpl in Hf; lia|].
    exists None. split; [done|]. set_solver.
  - rewrite (ring_nx _ _ _ _ _ _ _ Hring E). change (default HEAD (head (y :: l2))) with y.
    destruct fuel as [|f]; [simpl in Hf; lia|]. cbn [scan_cached deref].
    assert (y ∈ order) as Hy.
    { destruct l1; simplify_eq/=; set_solver. }
    rewrite (proj2 (Z.eqb_neq y HEAD)) by (intros ->; by apply head_notin).
    destruct ((b_dev (bufs c y) =? dev) && (b_blockno (bufs c y) =? blockno)) eqn:Em.
    + exists (Some y). split; [done|]. apply andb_true_iff in Em as [?%Z.eqb_eq ?%Z.eqb_eq]. set_solver.
    + destruct (IH f (l1 ++ [x]) y) as (r & Hr & Hspec).
      { by rewrite <- app_assoc. } { simpl in Hf. lia. }
      exists r. split; [done|]. destruct r as [i|].
      * set_solver.
      * intros i [->|Hi]%elem_of_cons; [|by apply Hspec].
        intros [<- <-]. by rewrite !Z.eqb_refl in Em.
Qed.

Lemma scan_unused_spec fuel l1 p :
  (exists l2, order = l1 ++ l2) -> p = Some (default HEAD (last l1)) -> (length l1 < fuel)%nat ->
  exists r, scan_unused fuel c p = Ret r /\
    match r with
    | Some i => i ∈ l1 /\ b_refcnt (bufs c i) = 0
    | None => forall i, i ∈ l1 -> b_refcnt (bufs c i) <> 0
    end.
Proof.
  revert fuel p. induction l1 as [|y l1 IH] using rev_ind; intros fuel p [l2 E] -> Hf.
  - destruct fuel; [simpl in Hf; lia|]. exists None. split; [done|]. set_solver.
  - rewrite length_app in Hf. simpl in Hf. destruct fuel as [|f]; [lia|].
    rewrite last_snoc. change (default HEAD (Some y)) with y. cbn [scan_unused deref].
    assert (y ∈ order) as Hy by (rewrite E; set_solver).
    rewrite (proj2 (Z.eqb_neq y HEAD)) by (intros ->; by apply head_notin).
    destruct (Z.eqb_spec (b_refcnt (bufs c y)) 0) as [E0|E0].
    + exists (Some y). split; [done|]. set_solver.
    + destruct (IH f (bprev c y)) as (r & Hr & Hspec).
      { exists (y :: l2). by rewrite E, <- app_assoc. }
      { apply (ring_pv _ _ _ _ l1 y l2 Hring). by rewrite E, <- app_assoc. }
      { lia. }
      exists r. split; [done|]. destruct r as [i|]; set_solver.
Qed.
End scan.

(** * What the cache represents *)
Definition inb (i : Z) : Prop := 0 <= i < NBUF.
Abbreviation bval c i := (b_valid (bufs c i)).
Abbreviation bno c i := (b_blockno (bufs c i)).

(** No valid buffer holds block [b]. *)
Definition uncached (c : bcache) (b : Z) : Prop :=
  forall i, inb i -> bval c i = true -> bno c i <> b.

Record bio_inv (pid : Z) (c : bcache) (a : astate) (order : list Z) : Prop := {
  bi_ring : ring (bnext c) (bprev c) (HEAD :: order);
  bi_order i : i ∈ order <-> inb i;
  bi_invalid i : inb i -> bval c i = false ->
    b_dev (bufs c i) = 0 /\ bno c i = 0 /\ b_refcnt (bufs c i) = 0;
  bi_dev i : inb i -> bval c i = true -> b_dev (bufs c i) = blkdev (bno c i);
  bi_uniq i j : inb i -> inb j -> bval c i = true -> bval c j = true -> bno c i = bno c j -> i = j;
  bi_refcnt i : inb i -> 0 <= b_refcnt (bufs c i);
  bi_clean i : inb i -> bval c i = true -> b_refcnt (bufs c i) = 0 ->
    b_data (bufs c i) = disk c (bno c i);
  bi_lock i : inb i -> sl_locked (b_lock (bufs c i)) = true ->
    sl_pid (b_lock (bufs c i)) = pid /\ 0 < b_refcnt (bufs c i);
  bi_view i : inb i -> bval c i = true -> a_view a (bno c i) = b_data (bufs c i);
  bi_view_disk b : uncached c b -> a_view a b = disk c b;
  bi_disk : a_disk a = disk c;
  bi_writes : a_writes a = dwrites c;
  bi_refs i : inb i -> bval c i = true ->
    a_refs a !! bno c i =
    if b_refcnt (bufs c i) =? 0 then None else Some (Z.to_nat (b_refcnt (bufs c i)));
  bi_refs_none b : uncached c b -> a_refs a !! b = None;
  bi_held h b : a_held a !! h = Some b <->
    inb h /\ bval c h = true /\ sl_locked (b_lock (bufs c h)) = true /\ bno c h = b }.

Definition bio_rel (pid : Z) (c : bcache) (a : astate) : Prop := exists order, bio_inv pid c a order.

(** Case on whether index [j] is the updated buffer [i]. *)
Ltac bufcase j i :=
  destruct (decide (j = i)) as [->|?]; cbn [bufs upd_buf disk] in *;
  rewrite ?upd_eq, ?upd_ne in * by done;
  cbn [b_valid b_dev b_blockno b_lock b_refcnt b_data set_lock set_refcnt set_data set_valid
       sl_locked sl_pid] in *.

Section laws.
Context (pid : Z).
Implicit Types (c : bcache) (a : astate).

Lemma uncached_dec c b : (exists i, inb i /\ bval c i = true /\ bno c i = b) \/ uncached c b.
Proof.
  destruct (decide (Exists (fun i => bval c i = true /\ bno c i = b) (seqZ 0 NBUF))) as [H|H].
  - left. apply Exists_exists in H as (i & Hi%elem_of_seqZ & ? & ?). exists i. split_and!; try done; unfold inb; lia.
  - right. intros i Hi Hv Hb. apply H, Exists_exists. exists i. split; [|done].
    apply elem_of_seqZ. unfold inb in Hi. lia.
Qed.

Lemma bio_clean c a b : bio_rel pid c a -> a_refs a !! b = None -> a_view a b = a_disk a b.
Proof.
  intros [order I] Hr. rewrite (bi_disk _ _ _ _ I).
  destruct (uncached_dec c b) as [(i & Hi & Hv & <-)|Hu].
  - rewrite (bi_refs _ _ _ _ I i) in Hr by done. rewrite (bi_view _ _ _ _ I i) by done.
    apply (bi_clean _ _ _ _ I); try done. by destruct (Z.eqb_spec (b_refcnt (bufs c i)) 0).
  - by apply (bi_view_disk _ _ _ _ I).
Qed.

Lemma bio_held_refs c a h b : bio_rel pid c a -> a_held a !! h = Some b -> is_Some (a_refs a !! b).
Proof.
  intros [order I] (Hi & Hv & Hl & <-)%(bi_held _ _ _ _ I).
  rewrite (bi_refs _ _ _ _ I) by done. destruct (bi_lock _ _ _ _ I h Hi Hl) as [_ Hp].
  rewrite (proj2 (Z.eqb_neq _ _)) by lia. eauto.
Qed.

Lemma bio_held_inj c a h h' b :
  bio_rel pid c a -> a_held a !! h = Some b -> a_held a !! h' = Some b -> h = h'.
Proof.
  intros [order I] (Hi & Hv & _ & E)%(bi_held _ _ _ _ I) (Hi' & Hv' & _ & E')%(bi_held _ _ _ _ I).
  apply (bi_uniq _ _ _ _ I); congruence.
Qed.

Lemma bio_data c a h b :
  bio_rel pid c a -> a_held a !! h = Some b ->
  b_data (bufs c h) = a_view a b /\ b_blockno (bufs c h) = b.
Proof.
  intros [order I] (Hi & Hv & _ & <-)%(bi_held _ _ _ _ I).
  by rewrite (bi_view _ _ _ _ I).
Qed.

Lemma bio_update c a h b f :
  bio_rel pid c a -> a_held a !! h = Some b ->
  bio_rel pid (upd_buf h (fun x => set_data (f (b_data x)) x) c) (a_set b (f (a_view a b)) a).
Proof.
  intros [order I] Hh. pose proof (bio_data c a h b (ex_intro _ _ I) Hh) as [Hd Hb].
  apply (bi_held _ _ _ _ I) in Hh as (Hi & Hv & Hl & _).
  destruct (bi_lock _ _ _ _ I h Hi Hl) as [_ Hp]. exists order.
  assert (forall x, uncached (upd_buf h (fun x => set_data (f (b_data x)) x) c) x -> uncached c x) as Hunc.
  { intros x Hu i Hii Hvi. specialize (Hu i Hii). bufcase i h; auto. }
  split; cbn [a_view a_disk a_refs a_held a_set disk upd_buf bnext bprev].
  - apply (bi_ring _ _ _ _ I).
  - apply (bi_order _ _ _ _ I).
  - intros i. bufcase i h; apply (bi_invalid _ _ _ _ I).
  - intros i. bufcase i h; apply (bi_dev _ _ _ _ I).
  - intros i j. bufcase i h; bufcase j h; try done; apply (bi_uniq _ _ _ _ I).
  - intros i. bufcase i h; apply (bi_refcnt _ _ _ _ I).
  - intros i. bufcase i h; [lia|apply (bi_clean _ _ _ _ I)].
  - intros i. bufcase i h; apply (bi_lock _ _ _ _ I).
  - intros i Hii. bufcase i h.
    + intros _. rewrite Hb, upd_eq. by rewrite Hd.
    + intros Hvi. rewrite upd_ne; [by apply (bi_view _ _ _ _ I)|].
      rewrite <- Hb. intros E. apply n. by apply (bi_uniq _ _ _ _ I).
  - intros x Hu. rewrite upd_ne; [by apply (bi_view_disk _ _ _ _ I), Hunc|].
    intros ->. apply (Hunc _ Hu h Hi Hv Hb).
  - apply (bi_disk _ _ _ _ I).
  - apply (bi_writes _ _ _ _ I).
  - intros i. bufcase i h; apply (bi_refs _ _ _ _ I).
  - intros x Hu. apply (bi_refs_none _ _ _ _ I). auto.
  - intros i x. rewrite (bi_held _ _ _ _ I). bufcase i h; done.
Qed.

Lemma bio_bwrite_ok c a h b :
  bio_rel pid c a -> a_held a !! h = Some b ->
  exists c', bio_bwrite pid h c = Ret (tt, c') /\ bio_rel pid c' (a_flush b a).
Proof.
  intros [order I] Hh. pose proof (bio_data c a h b (ex_intro _ _ I) Hh) as [Hd Hb].
  apply (bi_held _ _ _ _ I) in Hh as (Hi & Hv & Hl & _).
  destruct (bi_lock _ _ _ _ I h Hi Hl) as [Hpid Hp].
  eexists. split.
  { unfold bio_bwrite. mrun. unfold holdingsleep. rewrite Hl, Hpid, Z.eqb_refl. reflexivity. }
  exists order. unfold disk_rw.
  split; cbn [a_view a_disk a_refs a_held a_flush disk bufs bnext bprev]; try apply I.
  - intros i Hii Hvi Hr. destruct (decide (i = h)) as [->|Hne]; [lia|].
    rewrite upd_ne; [by apply (bi_clean _ _ _ _ I)|].
    intros E. apply Hne. by apply (bi_uniq _ _ _ _ I).
  - intros x Hu. rewrite upd_ne; [by apply (bi_view_disk _ _ _ _ I)|].
    intros ->. by apply (Hu h Hi Hv).
  - by rewrite (bi_disk _ _ _ _ I), Hb, Hd.
  - cbn. by rewrite (bi_writes _ _ _ _ I), Hb, Hd.
Qed.

(** Changing only the lock and the reference count of one valid buffer. *)
Lemma inv_relock c a order c' order' refs' held' i lk n :
  bio_inv pid c a order -> inb i -> bval c i = true ->
  bufs c' i = Buf true (b_dev (bufs c i)) (bno c i) lk n (b_data (bufs c i)) ->
  (forall j, j <> i -> bufs c' j = bufs c j) -> disk c' = disk c -> dwrites c' = dwrites c ->
  ring (bnext c') (bprev c') (HEAD :: order') -> (forall j, j ∈ order' <-> inb j) ->
  0 <= n -> (n = 0 -> b_data (bufs c i) = disk c (bno c i)) ->
  (sl_locked lk = true -> sl_pid lk = pid /\ 0 < n) ->
  refs' !! bno c i = (if n =? 0 then None else Some (Z.to_nat n)) ->
  (forall b, b <> bno c i -> refs' !! b = a_refs a !! b) ->
  (forall b, held' !! i = Some b <-> sl_locked lk = true /\ bno c i = b) ->
  (forall h, h <> i -> held' !! h = a_held a !! h) ->
  bio_inv pid c' (AState (a_view a) (a_disk a) refs' held' (a_writes a)) order'.
Proof.
  intros I Hi Hv Hbi Hbj Hd Hw Hring Hord Hn Hcl Hlk Hr1 Hr2 Hh1 Hh2.
  assert (forall x, uncached c' x -> uncached c x) as Hunc.
  { intros x Hu j Hj Hvj. specialize (Hu j Hj).
    destruct (decide (j = i)) as [->|Hne]; [rewrite Hbi in Hu|rewrite Hbj in Hu by done]; auto. }
  split; cbn [a_view a_disk a_refs a_held a_writes]; rewrite ?Hd, ?Hw; try done;
    [intros j Hj|intros j Hj|intros j k Hj Hk|intros j Hj|intros j Hj|intros j Hj|intros j Hj| | | |
     intros j Hj| |]; try (destruct (decide (j = i)) as [->|Hne]; [rewrite Hbi; cbn|rewrite Hbj by done]).
  - done.
  - by apply (bi_invalid _ _ _ _ I).
  - intros _. by apply (bi_dev _ _ _ _ I).
  - by apply (bi_dev _ _ _ _ I).
  - destruct (decide (k = i)) as [->|Hne']; [by rewrite Hbi|rewrite Hbj by done].
    intros _ ? ?. by apply (bi_uniq _ _ _ _ I).
  - destruct (decide (k = i)) as [->|Hne']; [rewrite Hbi; cbn|rewrite Hbj by done].
    + intros ? _ ?. by apply (bi_uniq _ _ _ _ I).
    + by apply (bi_uniq _ _ _ _ I).
  - done.
  - by apply (bi_refcnt _ _ _ _ I).
  - auto.
  - by apply (bi_clean _ _ _ _ I).
  - auto.
  - by apply (bi_lock _ _ _ _ I).
  - intros _. by apply (bi_view _ _ _ _ I).
  - by apply (bi_view _ _ _ _ I).
  - intros x Hu. apply (bi_view_disk _ _ _ _ I). auto.
  - apply (bi_disk _ _ _ _ I).
  - apply (bi_writes _ _ _ _ I).
  - done.
  - intros Hvj. rewrite Hr2; [by apply (bi_refs _ _ _ _ I)|].
    intros E. apply Hne. by apply (bi_uniq _ _ _ _ I).
  - intros x Hu. rewrite Hr2; [apply (bi_refs_none _ _ _ _ I); auto|].
    intros ->. specialize (Hu i Hi). rewrite Hbi in Hu. by apply Hu.
  - intros h b. destruct (decide (h = i)) as [->|Hne].
    + rewrite Hh1, Hbi. cbn. naive_solver.
    + rewrite Hh2, Hbj by done. apply (bi_held _ _ _ _ I).
Qed.

Lemma bio_refs_held c a h b order :
  bio_inv pid c a order -> a_held a !! h = Some b ->
  bno c h = b /\ 0 < b_refcnt (bufs c h) /\
  a_refs a !! b = Some (Z.to_nat (b_refcnt (bufs c h))).
Proof.
  intros I (Hi & Hv & Hl & <-)%(bi_held _ _ _ _ I).
  destruct (bi_lock _ _ _ _ I h Hi Hl) as [_ Hp]. split_and!; try done.
  rewrite (bi_refs _ _ _ _ I) by done. by rewrite (proj2 (Z.eqb_neq _ _)) by lia.
Qed.

Lemma bio_bpin_ok c a h b :
  bio_rel pid c a -> a_held a !! h = Some b ->
  exists c', bio_bpin h c = Ret (tt, c') /\ bio_rel pid c' (a_pin b a).
Proof.
  intros [order I] Hh. destruct (bio_refs_held _ _ _ _ _ I Hh) as (Hb & Hp & Hr).
  eexists. split; [reflexivity|]. exists order.
  pose proof Hh as (Hi & Hv & Hl & _)%(bi_held _ _ _ _ I).
  eapply (inv_relock c a order _ order _ _ h (b_lock (bufs c h)) (b_refcnt (bufs c h) + 1)); eauto;
    cbn [bufs upd_buf disk bnext bprev].
  - rewrite upd_eq. unfold set_refcnt. by rewrite Hv.
  - intros j Hj. by rewrite upd_ne.
  - apply (bi_ring _ _ _ _ I).
  - apply (bi_order _ _ _ _ I).
  - lia.
  - lia.
  - intros _. split; [|lia]. by apply (bi_lock _ _ _ _ I).
  - rewrite Hb, refs_inc_lookup, Hr, (proj2 (Z.eqb_neq _ _)) by lia. simpl. f_equal. lia.
  - intros x Hx. rewrite refs_inc_lookup_ne by congruence. done.
  - intros x. rewrite (bi_held _ _ _ _ I). naive_solver.
Qed.

Lemma bio_bunpin_ok c a h b :
  bio_rel pid c a -> a_held a !! h = Some b -> (2 <= default 0 (a_refs a !! b))%nat ->
  exists c', bio_bunpin h c = Ret (tt, c') /\ bio_rel pid c' (a_unpin b a).
Proof.
  intros [order I] Hh H2. destruct (bio_refs_held _ _ _ _ _ I Hh) as (Hb & Hp & Hr).
  rewrite Hr in H2. simpl in H2.
  eexists. split; [reflexivity|]. exists order.
  pose proof Hh as (Hi & Hv & Hl & _)%(bi_held _ _ _ _ I).
  eapply (inv_relock c a order _ order _ _ h (b_lock (bufs c h)) (b_refcnt (bufs c h) - 1)); eauto;
    cbn [bufs upd_buf disk bnext bprev].
  - rewrite upd_eq. unfold set_refcnt. by rewrite Hv.
  - intros j Hj. by rewrite upd_ne.
  - apply (bi_ring _ _ _ _ I).
  - apply (bi_order _ _ _ _ I).
  - lia.
  - lia.
  - intros _. split; [|lia]. by apply (bi_lock _ _ _ _ I).
  - rewrite Hb, (refs_dec_lookup _ _ (Z.to_nat (b_refcnt (bufs c h) - 1))), (proj2 (Z.eqb_neq _ _)), bool_decide_false;
      [done|lia|lia|]. rewrite Hr. f_equal. lia.
  - intros x Hx. rewrite refs_dec_lookup_ne by congruence. done.
  - intros x. rewrite (bi_held _ _ _ _ I). naive_solver.
Qed.

(** After unlinking [i] the head's successor exists and is not [i]. *)
Lemma unlink_head nx pv l1 i l2 :
  ring nx pv (HEAD :: l1 ++ i :: l2) ->
  exists f, upd nx (default HEAD (last l1)) (nx i) HEAD = Some f /\ i <> f.
Proof.
  intros H. pose proof (ring_nodup _ _ _ H) as Hnd.
  rewrite (ring_nx _ _ _ _ (HEAD :: l1) i l2 H eq_refl).
  destruct l1 as [|x l1].
  - simpl. rewrite upd_eq. eexists. split; [done|]. simpl in Hnd.
    destruct l2; simpl; repeat (rewrite NoDup_cons in Hnd); set_solver.
  - exists x. rewrite upd_ne.
    + split; [by rewrite (ring_nx _ _ _ _ [] HEAD _ H eq_refl)|]. rewrite NoDup_cons in Hnd.
      destruct Hnd as [_ Hnd]. simpl in Hnd. rewrite NoDup_cons in Hnd. set_solver.
    + destruct (last (x :: l1)) as [y|] eqn:E; [|by apply last_None in E].
      simpl. apply last_Some_elem_of in E. rewrite NoDup_cons in Hnd. intros <-. set_solver.
Qed.

Lemma move_front_ok c l1 i l2 :
  ring (bnext c) (bprev c) (HEAD :: l1 ++ i :: l2) ->
  exists c', move_front i c = Ret c' /\ bufs c' = bufs c /\ disk c' = disk c /\ dwrites c' = dwrites c /\
             ring (bnext c') (bprev c') (HEAD :: i :: l1 ++ l2).
Proof.
  intros H. assert (i <> HEAD) as Hi.
  { intros ->. apply ring_nodup, NoDup_cons in H as [H _]. set_solver. }
  pose proof (ring_nx _ _ _ _ (HEAD :: l1) i l2 H eq_refl) as En.
  pose proof (ring_pv _ _ _ _ l1 i l2 H eq_refl) as Eq.
  set (n := default HEAD (head l2)) in *. set (q := default HEAD (last l1)) in *.
  unfold move_front, link_front, deref, mbind, outcome_bind, set_nextp, set_prevp.
  cbn [bufs bnext bprev disk]. rewrite En. cbn [bufs bnext bprev disk].
  assert (upd (bprev c) n (bprev c i) i = Some q) as Eq'.
  { unfold upd. by case_match. }
  rewrite Eq'. cbn [bufs bnext bprev disk]. rewrite upd_ne by done.
  assert (exists f, upd (bnext c) q (bnext c i) HEAD = Some f /\ i <> f) as (f & Ef & Hif).
  { apply (unlink_head _ _ _ _ _ H). }
  rewrite Ef. eexists. split; [done|]. cbn [bufs bnext bprev disk]. split_and!; try done.
  eapply (ring_move_front _ _ _ l1 i l2 n q (upd (bnext c) q (bnext c i)) (upd (bprev c) n (bprev c i))); eauto.
  - intros z. unfold upd. rewrite En. repeat case_match; bools; congruence.
  - intros z. unfold upd. rewrite Eq. repeat case_match; bools; congruence.
  - rewrite upd_ne by done. by rewrite upd_eq, Ef.
  - by rewrite upd_ne, upd_eq by done.
  - intros z ? ?. by rewrite !upd_ne by done.
  - intros z Hz. rewrite Ef. case_bool_decide as E; simplify_eq.
    + by rewrite upd_eq.
    + rewrite !upd_ne by congruence. done.
Qed.

Lemma holdingsleep_ok c a order h b :
  bio_inv pid c a order -> a_held a !! h = Some b ->
  holdingsleep pid (b_lock (bufs c h)) = true.
Proof.
  intros I (Hi & _ & Hl & _)%(bi_held _ _ _ _ I).
  destruct (bi_lock _ _ _ _ I h Hi Hl) as [E _]. unfold holdingsleep. rewrite Hl, E. by bools.
Qed.

Lemma bio_brelse_ok c a h b :
  bio_rel pid c a -> a_held a !! h = Some b ->
  (a_view a b = a_disk a b \/ (2 <= default 0 (a_refs a !! b))%nat) ->
  exists c', bio_brelse pid h c = Ret (tt, c') /\ bio_rel pid c' (a_release h b a).
Proof.
  intros [order I] Hh H2. destruct (bio_refs_held _ _ _ _ _ I Hh) as (Hb & Hp & Hr).
  pose proof Hh as (Hi & Hv & Hl & _)%(bi_held _ _ _ _ I).
  rewrite Hr in H2. simpl in H2.
  assert (forall c1 order', bufs c1 h = Buf true (b_dev (bufs c h)) (bno c h)
              (releasesleep (b_lock (bufs c h))) (b_refcnt (bufs c h) - 1) (b_data (bufs c h)) ->
            (forall j, j <> h -> bufs c1 j = bufs c j) -> disk c1 = disk c -> dwrites c1 = dwrites c ->
            ring (bnext c1) (bprev c1) (HEAD :: order') -> (forall j, j ∈ order' <-> inb j) ->
            bio_rel pid c1 (a_release h b a)) as K.
  { intros c1 order' E1 E2 E3 E4 Hring Hord. exists order'.
    eapply (inv_relock c a order c1 order' _ _ h); eauto; cbn.
    - lia.
    - intros E. rewrite <- (bi_view _ _ _ _ I), <- (bi_disk _ _ _ _ I), Hb by done.
      destruct H2; [done|lia].
    - done.
    - rewrite Hb, (refs_dec_lookup _ _ (Z.to_nat (b_refcnt (bufs c h) - 1)));
        [|rewrite Hr; f_equal; lia].
      destruct (Z.eqb_spec (b_refcnt (bufs c h) - 1) 0); case_bool_decide; done || lia.
    - intros x Hx. rewrite refs_dec_lookup_ne by congruence. done.
    - intros x. rewrite lookup_delete_eq. naive_solver.
    - intros x Hx. by rewrite lookup_delete_ne. }
  unfold bio_brelse. rewrite (holdingsleep_ok _ _ _ _ _ I Hh). cbn [negb bufs upd_buf]. rewrite !upd_eq.
  cbn [b_refcnt set_lock set_refcnt].
  destruct (Z.eqb_spec (b_refcnt (bufs c h) - 1) 0) as [E|E].
  - assert (h ∈ order) as (l1 & l2 & ->)%list_elem_of_split by by apply (bi_order _ _ _ _ I).
    edestruct move_front_ok as (c' & Hc' & Eb & Ed & Ew & Hr'); cycle 1.
    { rewrite Hc'. unfold mbind, outcome_bind. eexists. split; [done|].
      apply (K c' (h :: l1 ++ l2)); try done.
      - rewrite Eb. cbn [bufs upd_buf]. rewrite !upd_eq. unfold set_refcnt, set_lock. simpl. by rewrite Hv.
      - intros j Hj. rewrite Eb. cbn [bufs upd_buf]. by rewrite !upd_ne by done.
      - intros j. rewrite <- (bi_order _ _ _ _ I). set_solver. }
    apply (bi_ring _ _ _ _ I).
  - eexists. split; [done|]. apply (K _ order); try done; cbn [bufs upd_buf].
    + rewrite !upd_eq. unfold set_refcnt, set_lock. simpl. by rewrite Hv.
    + intros j Hj. by rewrite !upd_ne by done.
    + apply (bi_ring _ _ _ _ I).
    + apply (bi_order _ _ _ _ I).
Qed.

(** Recycling buffer [i] for block [b]. *)
Lemma inv_recycle c a order c' i b lk :
  bio_inv pid c a order -> inb i -> b_refcnt (bufs c i) = 0 -> uncached c b ->
  sl_locked lk = true -> sl_pid lk = pid ->
  bufs c' i = Buf true (blkdev b) b lk 1 (disk c b) ->
  (forall j, j <> i -> bufs c' j = bufs c j) -> disk c' = disk c -> dwrites c' = dwrites c ->
  bnext c' = bnext c -> bprev c' = bprev c ->
  bio_inv pid c' (a_hold i b a) order.
Proof.
  intros I Hi H0 Hu Hlk Hpid Hbi Hbj Hd Hw Hn Hp.
  assert (forall x, uncached c' x -> x <> b) as Hxb.
  { intros x Hx ->. specialize (Hx i Hi). rewrite Hbi in Hx. by apply Hx. }
  (* a block that leaves the cache or never was there is clean *)
  assert (forall x, uncached c' x -> a_view a x = disk c x /\ a_refs a !! x = None) as Hunc.
  { intros x Hx. destruct (uncached_dec c x) as [(j & Hj & Hvj & <-)|Hxu].
    - destruct (decide (j = i)) as [->|Hne].
      + rewrite (bi_view _ _ _ _ I), (bi_clean _ _ _ _ I), (bi_refs _ _ _ _ I), H0 by done. done.
      + specialize (Hx j Hj). rewrite Hbj in Hx by done. by destruct Hx.
    - split; [by apply (bi_view_disk _ _ _ _ I)|by apply (bi_refs_none _ _ _ _ I)]. }
  assert (a_held a !! i = None) as Hih.
  { destruct (a_held a !! i) as [x|] eqn:E; [|done].
    apply (bi_held _ _ _ _ I) in E as (_ & _ & E & _). apply (bi_lock _ _ _ _ I) in E; [|done]. lia. }
  split; unfold a_hold; cbn [a_view a_disk a_refs a_held a_writes]; rewrite ?Hd, ?Hw, ?Hn, ?Hp;
    [apply (bi_ring _ _ _ _ I)|apply (bi_order _ _ _ _ I)|intros j Hj|intros j Hj|
     intros j k Hj Hk|intros j Hj|intros j Hj|intros j Hj|intros j Hj| |apply (bi_disk _ _ _ _ I)|apply (bi_writes _ _ _ _ I)|
     intros j Hj| |]; try (destruct (decide (j = i)) as [->|Hne]; [rewrite Hbi; cbn|rewrite Hbj by done]);
    try done.
  - by apply (bi_invalid _ _ _ _ I).
  - by apply (bi_dev _ _ _ _ I).
  - destruct (decide (k = i)) as [->|Hne']; [by rewrite Hbi|rewrite Hbj by done].
    intros _ Hvk E. by destruct (Hu k Hk Hvk).
  - destruct (decide (k = i)) as [->|Hne']; [rewrite Hbi; cbn|rewrite Hbj by done].
    + intros Hvj _ E. by destruct (Hu j Hj Hvj).
    + by apply (bi_uniq _ _ _ _ I).
  - by apply (bi_refcnt _ _ _ _ I).
  - by apply (bi_clean _ _ _ _ I).
  - by apply (bi_lock _ _ _ _ I).
  - intros _. by apply (bi_view_disk _ _ _ _ I).
  - by apply (bi_view _ _ _ _ I).
  - intros x Hx. by apply Hunc.
  - intros _. by rewrite refs_inc_lookup, (bi_refs_none _ _ _ _ I) by done.
  - intros Hvj. rewrite refs_inc_lookup_ne by auto. by apply (bi_refs _ _ _ _ I).
  - intros x Hx. rewrite refs_inc_lookup_ne by auto. by apply Hunc.
  - intros h x. destruct (decide (h = i)) as [->|Hne].
    + rewrite lookup_insert_eq, Hbi. cbn. naive_solver.
    + rewrite lookup_insert_ne, Hbj by done. apply (bi_held _ _ _ _ I).
Qed.

(** With fewer than [NBUF] blocks in use some buffer is unused. *)
Lemma unused_exists c a order :
  bio_inv pid c a order -> (size (a_refs a) < Z.to_nat NBUF)%nat ->
  exists i, i ∈ order /\ b_refcnt (bufs c i) = 0.
Proof.
  intros I Hs. destruct (decide (Exists (fun i => b_refcnt (bufs c i) = 0) order)) as [H|H].
  { by apply Exists_exists in H. }
  exfalso. assert (forall i, inb i -> b_refcnt (bufs c i) <> 0) as Hall.
  { intros i Hi E. apply H, Exists_exists. exists i. by rewrite (bi_order _ _ _ _ I). }
  assert (forall i, inb i -> bval c i = true) as Hval.
  { intros i Hi. destruct (bval c i) eqn:E; [done|]. by destruct (bi_invalid _ _ _ _ I i Hi E) as (_ & _ & ?%Hall). }
  set (l := (fun i => bno c i) <$> seqZ 0 NBUF).
  assert (NoDup l) as Hnd.
  { apply NoDup_fmap_2_strong; [|apply NoDup_seqZ].
    intros x y Hx%elem_of_seqZ Hy%elem_of_seqZ E.
    apply (bi_uniq _ _ _ _ I); try done; try apply Hval; unfold inb; lia. }
  assert (size (list_to_set l :> gset Z) <= size (dom (a_refs a)))%nat as Hle.
  { apply subseteq_size. intros x. rewrite elem_of_list_to_set, elem_of_dom.
    intros (i & -> & Hi%elem_of_seqZ)%list_elem_of_fmap.
    assert (inb i) as Hi' by (unfold inb; lia).
    rewrite (bi_refs _ _ _ _ I) by auto. rewrite (proj2 (Z.eqb_neq _ _)) by auto. eauto. }
  rewrite size_list_to_set, size_dom in Hle by done.
  unfold l in Hle. rewrite length_fmap, length_seqZ in Hle. lia.
Qed.

Lemma order_length c a order : bio_inv pid c a order -> (length order < scan_fuel)%nat.
Proof.
  intros I. assert (order ≡ₚ seqZ 0 NBUF) as ->.
  { apply NoDup_Permutation; [|apply NoDup_seqZ|].
    - pose proof (ring_nodup _ _ _ (bi_ring _ _ _ _ I)) as H. by apply NoDup_cons in H as [_ H].
    - intros x. rewrite (bi_order _ _ _ _ I), elem_of_seqZ. unfold inb. lia. }
  rewrite length_seqZ. unfold scan_fuel. lia.
Qed.

Lemma bio_bread_cached c a order b i :
  bio_inv pid c a order -> (forall h, a_held a !! h <> Some b) ->
  inb i -> bval c i = true -> bno c i = b ->
  exists c', acquire_buf pid i (upd_buf i (set_refcnt (b_refcnt (bufs c i) + 1)) c) = Ret (i, c') /\
    bval c' i = true /\ a_held a !! i = None /\ bio_rel pid c' (a_hold i b a).
Proof.
  intros I Hnh Hi Hv Hb.
  assert (sl_locked (b_lock (bufs c i)) = false) as Hl.
  { destruct (sl_locked _) eqn:E; [|done]. destruct (Hnh i). by apply (bi_held _ _ _ _ I). }
  assert (a_held a !! i = None) as Hih.
  { destruct (a_held a !! i) as [x|] eqn:E; [|done].
    apply (bi_held _ _ _ _ I) in E as (_ & _ & E & _). congruence. }
  unfold acquire_buf, acquiresleep. cbn [bufs upd_buf]. rewrite !upd_eq. cbn [b_lock set_refcnt].
  rewrite Hl. unfold mbind, outcome_bind. eexists. split_and!; try done.
  { cbn [bufs upd_buf]. by rewrite !upd_eq. }
  exists order. pose proof (bi_refcnt _ _ _ _ I i Hi) as Hn.
  eapply (inv_relock c a order _ order _ _ i _ (b_refcnt (bufs c i) + 1)); eauto; cbn [bufs upd_buf disk].
  - rewrite !upd_eq. unfold set_lock, set_refcnt. cbn. by rewrite Hv.
  - intros j Hj. by rewrite !upd_ne by done.
  - apply (bi_ring _ _ _ _ I).
  - apply (bi_order _ _ _ _ I).
  - lia.
  - lia.
  - cbn. split; [done|lia].
  - rewrite Hb, refs_inc_lookup, (proj2 (Z.eqb_neq _ _)) by lia.
    rewrite <- Hb, (bi_refs _ _ _ _ I) by done. case_bool; simpl; f_equal; lia.
  - intros x Hx. by rewrite refs_inc_lookup_ne by congruence.
  - intros x. rewrite lookup_insert_eq. naive_solver.
  - intros x Hx. by rewrite lookup_insert_ne.
Qed.

Lemma bio_bread_ok c a b :
  bio_rel pid c a -> 0 <= b < FSSIZE -> (forall h, a_held a !! h <> Some b) -> a_room b a ->
  exists h c', bio_bread pid (blkdev b) b c = Ret (h, c') /\ a_held a !! h = None /\
               bio_rel pid c' (a_hold h b a).
Proof.
  intros [order I] Hb Hnh Hroom. pose proof (order_length _ _ _ I) as Hlen.
  destruct (scan_cached_spec c order (bi_ring _ _ _ _ I) scan_fuel (blkdev b) b [] HEAD order eq_refl)
    as (r & Hr & Hspec); [lia|].
  unfold bio_bread, bget. unfold mbind at 1, M_bind. rewrite Hr. unfold mbind at 1, outcome_bind at 1.
  destruct r as [i|].
  - destruct Hspec as (Hi%(bi_order _ _ _ _ I) & Hdev & Hbno).
    assert (bval c i = true) as Hv.
    { destruct (bval c i) eqn:E; [done|]. destruct (bi_invalid _ _ _ _ I i Hi E) as (E1 & E2 & _).
      rewrite Hdev in E1. rewrite E2 in Hbno. subst b. done. }
    destruct (bio_bread_cached c a order b i I Hnh Hi Hv Hbno) as (c' & -> & Hv' & Hih & Hrel).
    unfold mbind, M_bind, gets. rewrite Hv'. eauto.
  - assert (uncached c b) as Hu.
    { intros i Hi Hv Hbi. apply (Hspec i); [by apply (bi_order _ _ _ _ I)|]. split; [|done].
      by rewrite (bi_dev _ _ _ _ I), Hbi by done. }
    destruct Hroom as [Hroom|Hroom]; [by rewrite (bi_refs_none _ _ _ _ I) in Hroom; destruct Hroom|].
    destruct (scan_unused_spec c order (bi_ring _ _ _ _ I) scan_fuel order (bprev c HEAD))
      as (r & Hr' & Hspec'); [by exists []; rewrite app_nil_r| |lia|].
    { apply (ring_pv_sentinel _ _ _ _ (bi_ring _ _ _ _ I)). }
    rewrite Hr'. destruct r as [i|]; cycle 1.
    { destruct (unused_exists _ _ _ I Hroom) as (i & Hi & E). by destruct (Hspec' i). }
    destruct Hspec' as [Hi%(bi_order _ _ _ _ I) H0].
    assert (sl_locked (b_lock (bufs c i)) = false) as Hl.
    { destruct (sl_locked _) eqn:E; [|done]. apply (bi_lock _ _ _ _ I) in E; [lia|done]. }
    unfold acquire_buf, acquiresleep. unfold mbind, M_bind, outcome_bind, gets, modify. cbn. rewrite !upd_eq. cbn. rewrite Hl. cbn. rewrite !upd_eq. cbn.
    eexists _, _. split; [done|]. split.
    { destruct (a_held a !! i) as [x|] eqn:E; [|done].
      apply (bi_held _ _ _ _ I) in E as (_ & _ & E & _). congruence. }
    exists order. eapply (inv_recycle c a order _ i b (Sleeplock true pid)); try done; cbn [bufs upd_buf disk bnext bprev].
    + rewrite !upd_eq. done.
    + intros j Hj. by rewrite !upd_ne by done.
Qed.
End laws.

(** * Initialisation *)
(** Unused buffers as the C runtime leaves them, with the contents of the disk. *)
Definition zero_buf : buf := Buf false 0 0 (Sleeplock false 0) 0 (fun _ => 0).
Definition bss_bcache (d : Z -> mem) : bcache :=
  BCache (fun _ => zero_buf) (fun _ => None) (fun _ => None) d [].

Lemma link_front_ok c order i :
  ring (bnext c) (bprev c) (HEAD :: order) -> i ∉ HEAD :: order ->
  exists c', link_front i c = Ret c' /\ bufs c' = bufs c /\ disk c' = disk c /\ dwrites c' = dwrites c /\
             ring (bnext c') (bprev c') (HEAD :: i :: order).
Proof.
  intros H Hi. assert (i <> HEAD) as Hih by set_solver.
  pose proof (ring_nx _ _ _ _ [] HEAD order H eq_refl) as En.
  unfold link_front, deref, set_nextp, set_prevp. cbn [bufs bnext bprev disk].
  rewrite upd_ne, En by done. set (f := default HEAD (head order)) in *.
  eexists. split; [done|]. cbn [bufs bnext bprev disk]. split_and!; try done.
  assert (i <> f) as Hif by (unfold f; destruct order; set_solver).
  apply (ring_rotate _ _ (i :: order) [HEAD]). cbn [app].
  apply (ring_rotate _ _ (order ++ [HEAD]) [i]).
  assert (head (order ++ [HEAD]) = Some f) as Hf by (unfold f; by destruct order).
  eapply (ring_insert (bnext c) (bprev c) _ _ (order ++ [HEAD]) f HEAD i); try done.
  - by apply (ring_rotate _ _ [HEAD] order).
  - by rewrite last_snoc.
  - set_solver.
  - by rewrite upd_ne, upd_eq by done.
  - by rewrite upd_ne, upd_eq by done.
  - by rewrite upd_eq.
  - intros z ? ?. by rewrite !upd_ne by done.
  - intros z ? ?. by rewrite !upd_ne by done.
Qed.

Lemma binit_loop_ok k i c order :
  ring (bnext c) (bprev c) (HEAD :: order) -> (forall j, j ∈ order <-> 0 <= j < i) ->
  0 <= i -> i + Z.of_nat k <= NBUF ->
  exists c' order', binit_loop k i c = Ret c' /\ disk c' = disk c /\ dwrites c' = dwrites c /\
    ring (bnext c') (bprev c') (HEAD :: order') /\ (forall j, j ∈ order' <-> 0 <= j < i + Z.of_nat k) /\
    (forall j, bufs c' j = bufs c j \/ bufs c' j = set_lock initsleeplock (bufs c j)).
Proof.
  revert i c order. induction k as [|k IH]; intros i c order H Ho Hi Hk; cbn [binit_loop].
  { exists c, order. split_and!; auto. intros j. rewrite Ho. lia. }
  destruct (link_front_ok (upd_buf i (set_lock initsleeplock) c) order i) as (c1 & -> & Eb & Ed & Ew & H1).
  { done. }
  { rewrite elem_of_cons, Ho. unfold HEAD. lia. }
  unfold mbind, outcome_bind.
  destruct (IH (i + 1) c1 (i :: order)) as (c' & o' & E & Ed' & Ew' & H' & Ho' & Hb'); auto; [|lia|lia|].
  { intros j. rewrite elem_of_cons, Ho. lia. }
  exists c', o'. split_and!; auto.
  - by rewrite Ed', Ed.
  - by rewrite Ew', Ew.
  - intros j. rewrite Ho'. lia.
  - intros j. destruct (Hb' j) as [->| ->]; rewrite Eb; cbn [bufs upd_buf]; unfold upd; case_bool; subst; auto.
Qed.

(** [binit] makes an empty cache over the disk. *)
Lemma binit_ok pid d : exists c, binit (bss_bcache d) = Ret c /\ bio_rel pid c (a_init d).
Proof.
  unfold binit.
  edestruct (binit_loop_ok (Z.to_nat NBUF) 0) with (order := @nil Z)
    as (c & o & -> & Ed & Ew & Hr & Ho & Hb); auto; cycle -1.
  { exists c. split; [done|]. exists o.
    assert (forall j, bufs c j = zero_buf) as Hz by (intros j; by destruct (Hb j) as [->| ->]).
    split; rewrite ?Ed, ?Ew; try done; try (intros j; rewrite Hz; done).
    - intros h b. rewrite Hz. cbn [a_held a_init]. rewrite lookup_empty. naive_solver. }
  { cbn [bnext bprev set_nextp set_prevp]. split; [apply NoDup_singleton|].
    intros x y [([|? l1] & l2 & E)|[E1 E2]]; simplify_eq/=.
    - by destruct l1.
    - by rewrite !upd_eq. }
  { intros j. split; [set_solver|lia]. }
  all: by vm_compute.
Qed.

(** * The interface *)
Section instance.
Context (pid : Z).
Lemma bio_refs_pos c a b : bio_rel pid c a -> a_refs a !! b <> Some 0%nat.
Proof.
  intros [order I]. destruct (uncached_dec c b) as [(i & Hi & Hv & <-)|Hu].
  - rewrite (bi_refs _ _ _ _ I) by done. pose proof (bi_refcnt _ _ _ _ I i Hi).
    case_bool; [done|]. intros [= E]. lia.
  - by rewrite (bi_refs_none _ _ _ _ I).
Qed.
Lemma bio_writes c a : bio_rel pid c a -> dwrites c = a_writes a.
Proof. intros [order I]. by rewrite (bi_writes _ _ _ _ I). Qed.

#[export] Instance bio_cache : BufCache bcache := {|
  bread := bio_bread pid;
  bdata c h := b_data (bufs c h);
  bblockno c h := b_blockno (bufs c h);
  bwrites := dwrites;
  bupdate h f := upd_buf h (fun x => set_data (f (b_data x)) x);
  bwrite := bio_bwrite pid;
  brelse := bio_brelse pid;
  bpin := bio_bpin;
  bunpin := bio_bunpin |}.
#[export] Instance bio_cache_laws : BufCacheLaws bcache := {|
  bc_rel := bio_rel pid;
  bc_clean := bio_clean pid;
  bc_refs_pos := bio_refs_pos;
  bc_writes := bio_writes;
  bc_held_refs := bio_held_refs pid;
  bc_held_inj := bio_held_inj pid;
  bc_bread := bio_bread_ok pid;
  bc_data := bio_data pid;
  bc_update := bio_update pid;
  bc_bwrite := bio_bwrite_ok pid;
  bc_brelse := bio_brelse_ok pid;
  bc_bpin := bio_bpin_ok pid;
  bc_bunpin := bio_bunpin_ok pid |}.
End instance.

(** * Forward simulation *)
Inductive bop :=
  | OpRead (b : Z)
  | OpUpdate (h : Z) (f : mem -> mem)
  | OpWrite (h : Z)
  | OpRelse (h : Z)
  | OpPin (h : Z)
  | OpUnpin (h : Z).

(** One call into the cache; the result is the buffer for [bread]. *)
Definition bio_op (pid : Z) (op : bop) : M bcache Z :=
  match op with
  | OpRead b => bio_bread pid (blkdev b) b
  | OpUpdate h f => _ ← modify (upd_buf h (fun x => set_data (f (b_data x)) x)); mret 0
  | OpWrite h => _ ← bio_bwrite pid h; mret 0
  | OpRelse h => _ ← bio_brelse pid h; mret 0
  | OpPin h => _ ← bio_bpin h; mret 0
  | OpUnpin h => _ ← bio_bunpin h; mret 0
  end.

(** When a client may make the call. *)
Definition enabled (a : astate) (op : bop) : Prop :=
  match op with
  | OpRead b => 0 <= b < FSSIZE /\ (forall h, a_held a !! h <> Some b) /\ a_room b a
  | OpUpdate h _ | OpWrite h | OpPin h => is_Some (a_held a !! h)
  | OpRelse h => exists b, a_held a !! h = Some b /\
      (a_view a b = a_disk a b \/ (2 <= default 0 (a_refs a !! b))%nat)
  | OpUnpin h => exists b, a_held a !! h = Some b /\ (2 <= default 0 (a_refs a !! b))%nat
  end.

(** What the call does to the abstract state. *)
Inductive aop : astate -> bop -> Z -> astate -> Prop :=
  | AOpRead a b h : a_held a !! h = None -> aop a (OpRead b) h (a_hold h b a)
  | AOpUpdate a h f b : a_held a !! h = Some b ->
      aop a (OpUpdate h f) 0 (a_set b (f (a_view a b)) a)
  | AOpWrite a h b : a_held a !! h = Some b -> aop a (OpWrite h) 0 (a_flush b a)
  | AOpRelse a h b : a_held a !! h = Some b -> aop a (OpRelse h) 0 (a_release h b a)
  | AOpPin a h b : a_held a !! h = Some b -> aop a (OpPin h) 0 (a_pin b a)
  | AOpUnpin a h b : a_held a !! h = Some b -> aop a (OpUnpin h) 0 (a_unpin b a).

(** C4. Every operation of the buffer cache a client is entitled to make
    returns (it neither panics nor runs out of list to scan), does what the
    abstract cache does, and leaves the cache representing the result: the
    list stays a ring of all buffers, a block is cached at most once, buffers
    nobody references are clean, and [bread] hands out the current contents. *)
Theorem bio_forward_simulation pid c a op :
  bio_rel pid c a -> enabled a op ->
  exists r c' a', bio_op pid op c = Ret (r, c') /\ aop a op r a' /\ bio_rel pid c' a' /\
    match op with OpRead b => b_data (bufs c' r) = a_view a b | _ => True end.
Proof.
  intros R En. destruct op as [b|h f|h|h|h|h]; cbn in En.
  - destruct En as (Hb & Hn & Hr).
    destruct (bio_bread_ok pid c a b R Hb Hn Hr) as (h & c' & E & Hh & R').
    exists h, c', (a_hold h b a). split_and!; [done|by constructor|done|].
    apply (bio_data pid c' (a_hold h b a) h b R'). apply lookup_insert_eq.
  - destruct En as [b Hh]. eexists 0, _, _. split_and!; [done|by econstructor|by apply bio_update|done].
  - destruct En as [b Hh]. destruct (bio_bwrite_ok pid c a h b R Hh) as (c' & E & R').
    eexists 0, c', _. cbn [bio_op]. rewrite (bind_Ret _ _ _ _ _ E). split_and!; [done|by econstructor|done|done].
  - destruct En as (b & Hh & H2). destruct (bio_brelse_ok pid c a h b R Hh H2) as (c' & E & R').
    eexists 0, c', _. cbn [bio_op]. rewrite (bind_Ret _ _ _ _ _ E). split_and!; [done|by econstructor|done|done].
  - destruct En as [b Hh]. destruct (bio_bpin_ok pid c a h b R Hh) as (c' & E & R').
    eexists 0, c', _. cbn [bio_op]. rewrite (bind_Ret _ _ _ _ _ E). split_and!; [done|by econstructor|done|done].
  - destruct En as (b & Hh & H2). destruct (bio_bunpin_ok pid c a h b R Hh H2) as (c' & E & R').
    eexists 0, c', _. cbn [bio_op]. rewrite (bind_Ret _ _ _ _ _ E). split_and!; [done|by econstructor|done|done].
Qed.

Lemma bio_forward_simulation_witness :
  exists c, binit (bss_bcache (fun b _ => b)) = Ret c /\
  exists r c' a', bio_op 7 (OpRead 33) c = Ret (r, c') /\
    aop (a_init (fun b _ => b)) (OpRead 33) r a' /\ bio_rel 7 c' a' /\ b_data (bufs c' r) = fun _ => 33.
Proof.
  destruct (binit_ok 7 (fun b _ => b)) as (c & E & R). exists c. split; [done|].
  apply (bio_forward_simulation 7 c _ (OpRead 33) R). split_and!.
  - by vm_compute. - by vm_compute. - done. - right. vm_compute. lia.
Defined.
