(* ===== verification/Log.v ===== *)
(** The write-ahead log (kernel/log.c) over any buffer cache that keeps the
    promises of Blocks.v, and its crash safety. *)
From S2P Require Import Prelude Riscv Memory Blocks.

Record log := Log {
  l_start : Z;
  l_size : Z;
  l_outstanding : Z;
  l_committing : bool;
  l_dev : Z;
  lh_n : Z;
  lh_block : Z -> Z }.

Definition set_lh (n : Z) (blk : Z -> Z) (g : log) : log :=
  Log (l_start g) (l_size g) (l_outstanding g) (l_committing g) (l_dev g) n blk.
Definition set_ops (out : Z) (com : bool) (g : log) : log :=
  Log (l_start g) (l_size g) out com (l_dev g) (lh_n g) (lh_block g).

(** The cache and the log together. *)
Record lstate (C : Type) := LState { ls_cache : C; ls_log : log }.
Arguments LState {C} _ _.
Arguments ls_cache {C} _.
Arguments ls_log {C} _.

(** [struct logheader] in a block: [n] at offset 0, [block\[i\]] after it. *)
Definition hdr_n (d : mem) : Z := s32 (ld32 d 0).
Definition hdr_block (d : mem) (i : Z) : Z := s32 (ld32 d (4 + 4 * i)).
Fixpoint put_blocks (k : nat) (i : Z) (blk : Z -> Z) (d : mem) : mem :=
  match k with
  | O => d
  | S k' => put_blocks k' (i + 1) blk (st32 d (4 + 4 * i) (blk i))
  end.
Definition put_head (n : Z) (blk : Z -> Z) (d : mem) : mem :=
  put_blocks (Z.to_nat n) 0 blk (st32 d 0 n).
Fixpoint get_blocks (k : nat) (i : Z) (d : mem) (blk : Z -> Z) : Z -> Z :=
  match k with
  | O => blk
  | S k' => get_blocks k' (i + 1) d (upd blk i (hdr_block d i))
  end.

(** The scan of [log_write] for a block that is already in the transaction. *)
Fixpoint absorb (k : nat) (i : Z) (blk : Z -> Z) (b : Z) : Z :=
  match k with
  | O => i
  | S k' => if blk i =? b then i else absorb k' (i + 1) blk b
  end.

Section log.
Context {C : Type} `{BufCache C}.

Definition on_cache {A} (m : M C A) : M (lstate C) A := fun s =>
  match m (ls_cache s) with
  | Ret (a, c) => Ret (a, LState c (ls_log s))
  | Panic e => Panic e
  | Blocked => Blocked
  | NoFuel => NoFuel
  end.
Definition get_log {A} (f : log -> A) : M (lstate C) A := gets (fun s => f (ls_log s)).
Definition mod_log (f : log -> log) : M (lstate C) unit :=
  modify (fun s => LState (ls_cache s) (f (ls_log s))).
Definition mod_cache (f : C -> C) : M (lstate C) unit :=
  modify (fun s => LState (f (ls_cache s)) (ls_log s)).
(** [memmove(dst->data, src->data, BSIZE)] between two buffers. *)
Definition copy_buf (dst src : Z) : M (lstate C) unit :=
  mod_cache (fun c => bupdate dst (blk_copy (bdata c src)) c).

(** The bodies of the loops over [tail]. *)
Definition install_one (tail : Z) (recovering : bool) : M (lstate C) unit :=
  g ← get_log id;
  lbuf ← on_cache (bread (l_dev g) (l_start g + tail + 1));
  dbuf ← on_cache (bread (l_dev g) (lh_block g tail));
  _ ← copy_buf dbuf lbuf;
  _ ← on_cache (bwrite dbuf);
  _ ← (if recovering then mret tt else on_cache (bunpin dbuf));
  _ ← on_cache (brelse lbuf);
  on_cache (brelse dbuf).
Fixpoint install_loop (k : nat) (tail : Z) (recovering : bool) : M (lstate C) unit :=
  match k with
  | O => mret tt
  | S k' => _ ← install_one tail recovering; install_loop k' (tail + 1) recovering
  end.
Definition install_trans (recovering : bool) : M (lstate C) unit :=
  n ← get_log lh_n; install_loop (Z.to_nat n) 0 recovering.

Definition read_head : M (lstate C) unit :=
  g ← get_log id;
  buf ← on_cache (bread (l_dev g) (l_start g));
  d ← gets (fun s => bdata (ls_cache s) buf);
  _ ← mod_log (fun g => set_lh (hdr_n d) (get_blocks (Z.to_nat (hdr_n d)) 0 d (lh_block g)) g);
  on_cache (brelse buf).

Definition write_head : M (lstate C) unit :=
  g ← get_log id;
  buf ← on_cache (bread (l_dev g) (l_start g));
  _ ← mod_cache (bupdate buf (put_head (lh_n g) (lh_block g)));
  _ ← on_cache (bwrite buf);
  on_cache (brelse buf).

Definition recover_from_log : M (lstate C) unit :=
  _ ← read_head;
  _ ← install_trans true;
  _ ← mod_log (fun g => set_lh 0 (lh_block g) g);
  write_head.

(** [sizeof(struct logheader)] is [4 + 4 * LOGSIZE]. *)
Definition initlog (dev logstart nlog : Z) : M (lstate C) unit :=
  if 4 + 4 * LOGSIZE >=? BSIZE then panic "initlog: too big logheader"
  else
    _ ← mod_log (fun g => Log logstart nlog (l_outstanding g) (l_committing g) dev (lh_n g) (lh_block g));
    recover_from_log.

(** A call that has to wait is [Blocked]: [begin_op] sleeps and tests again. *)
Definition begin_op : M (lstate C) unit :=
  g ← get_log id;
  if l_committing g then blocked
  else if lh_n g + (l_outstanding g + 1) * MAXOPBLOCKS >? LOGSIZE then blocked
  else mod_log (fun g => set_ops (l_outstanding g + 1) (l_committing g) g).

Definition write_log_one (tail : Z) : M (lstate C) unit :=
  g ← get_log id;
  to ← on_cache (bread (l_dev g) (l_start g + tail + 1));
  from ← on_cache (bread (l_dev g) (lh_block g tail));
  _ ← copy_buf to from;
  _ ← on_cache (bwrite to);
  _ ← on_cache (brelse from);
  on_cache (brelse to).
Fixpoint write_log_loop (k : nat) (tail : Z) : M (lstate C) unit :=
  match k with
  | O => mret tt
  | S k' => _ ← write_log_one tail; write_log_loop k' (tail + 1)
  end.
Definition write_log : M (lstate C) unit :=
  n ← get_log lh_n; write_log_loop (Z.to_nat n) 0.

Definition commit : M (lstate C) unit :=
  n ← get_log lh_n;
  if n >? 0 then
    _ ← write_log;
    _ ← write_head;
    _ ← install_trans false;
    _ ← mod_log (fun g => set_lh 0 (lh_block g) g);
    write_head
  else mret tt.

Definition end_op : M (lstate C) unit :=
  _ ← mod_log (fun g => set_ops (l_outstanding g - 1) (l_committing g) g);
  g ← get_log id;
  if l_committing g then panic "log.committing"
  else if l_outstanding g =? 0 then
    _ ← mod_log (fun g => set_ops (l_outstanding g) true g);
    _ ← commit;
    mod_log (fun g => set_ops (l_outstanding g) false g)
  else mret tt.

Definition log_write (b : Z) : M (lstate C) unit :=
  g ← get_log id;
  if (lh_n g >=? LOGSIZE) || (lh_n g >=? l_size g - 1) then panic "too big a transaction"
  else if l_outstanding g <? 1 then panic "log_write outside of trans"
  else
    bno ← gets (fun s => bblockno (ls_cache s) b);
    let i := absorb (Z.to_nat (lh_n g)) 0 (lh_block g) bno in
    _ ← mod_log (fun g => set_lh (lh_n g) (upd (lh_block g) i bno) g);
    if i =? lh_n g then
      _ ← on_cache (bpin b);
      mod_log (fun g => set_lh (lh_n g + 1) (lh_block g) g)
    else mret tt.
End log.

(** * Invariants *)
(** The log is where the superblock says, inside the file system's blocks. *)
Record geom (g : log) : Prop := {
  geo_dev : l_dev g = ROOTDEV;
  geo_start : 0 <= l_start g;
  geo_size : 1 <= l_size g <= LOGSIZE;
  geo_end : l_start g + l_size g <= SWAPBASE }.
Definition in_log (g : log) (b : Z) : Prop := l_start g <= b < l_start g + l_size g.
Definition home (g : log) (b : Z) : Prop := 0 <= b < SWAPBASE /\ ~ in_log g b.

(** No buffer is held and exactly the blocks of [P] are pinned. *)
Record quiet (P : list Z) (a : astate) : Prop := {
  q_held : a_held a = ∅;
  q_refs : forall b, a_refs a !! b = if decide (b ∈ P) then Some 1%nat else None }.

(** [W] was written through, from [a] to [a']. *)
Definition effect (W : list (Z * mem)) (a a' : astate) : Prop :=
  a_view a' = dwrite W (a_view a) /\ a_disk a' = dwrite W (a_disk a) /\
  a_writes a' = a_writes a ++ W.

Lemma effect_nil a : effect [] a a.
Proof. unfold effect. by rewrite app_nil_r. Qed.
Lemma effect_app W1 W2 a1 a2 a3 : effect W1 a1 a2 -> effect W2 a2 a3 -> effect (W1 ++ W2) a1 a3.
Proof.
  unfold effect. intros (V1 & D1 & W1') (-> & -> & ->). by rewrite V1, D1, W1', !dwrite_app, app_assoc.
Qed.

Lemma quiet_size P a : quiet P a -> NoDup P -> size (a_refs a) = length P.
Proof.
  intros [_ Hr] Hnd. rewrite <- size_dom.
  assert (dom (a_refs a) = list_to_set P) as ->; [|by apply size_list_to_set].
  apply set_eq. intros b. rewrite elem_of_dom, elem_of_list_to_set, Hr.
  case_decide as Hb; split; intros Hx; done.
Qed.
Lemma quiet_init d : quiet [] (a_init d).
Proof. by split. Qed.

Lemma insert_not_held (m : gmap Z Z) h1 b1 h b :
  b1 <> b -> (m !! h <> Some b) -> <[h1 := b1]> m !! h <> Some b.
Proof.
  intros Hb Hm. destruct (decide (h = h1)) as [->|Hne];
    [rewrite lookup_insert_eq; congruence|by rewrite lookup_insert_ne].
Qed.

Lemma home_not_log g b x : home g b -> in_log g x -> b <> x.
Proof. intros [_ Hb] Hx ->. done. Qed.

Section laws.
Context {C : Type} `{HL : BufCacheLaws C}.
Implicit Types (c : C) (a : astate) (g : log).

Lemma wp_on_cache {A} (m : M C A) c g Q :
  (exists r c', m c = Ret (r, c') /\ Q r (LState c' g)) -> wp (on_cache m) (LState c g) Q.
Proof. intros (r & c' & E & HQ). exists r, (LState c' g). unfold on_cache. cbn. by rewrite E. Qed.

Lemma wp_bread c a g b dev Q :
  bc_rel c a -> 0 <= b < FSSIZE -> dev = blkdev b -> (forall h, a_held a !! h <> Some b) -> a_room b a ->
  (forall h c', a_held a !! h = None -> bc_rel c' (a_hold h b a) -> Q h (LState c' g)) ->
  wp (on_cache (bread dev b)) (LState c g) Q.
Proof.
  intros R Hb -> Hn Hr HQ. apply wp_on_cache.
  destruct (bc_bread c a b R Hb Hn Hr) as (h & c' & E & Hh & R'). eauto.
Qed.
Lemma wp_bwrite c a g h b Q :
  bc_rel c a -> a_held a !! h = Some b ->
  (forall c', bc_rel c' (a_flush b a) -> Q tt (LState c' g)) -> wp (on_cache (bwrite h)) (LState c g) Q.
Proof. intros R Hh HQ. apply wp_on_cache. destruct (bc_bwrite c a h b R Hh) as (c' & E & R'). eauto. Qed.
Lemma wp_brelse c a g h b Q :
  bc_rel c a -> a_held a !! h = Some b ->
  (a_view a b = a_disk a b \/ (2 <= default 0 (a_refs a !! b))%nat) ->
  (forall c', bc_rel c' (a_release h b a) -> Q tt (LState c' g)) -> wp (on_cache (brelse h)) (LState c g) Q.
Proof. intros R Hh H2 HQ. apply wp_on_cache. destruct (bc_brelse c a h b R Hh H2) as (c' & E & R'). eauto. Qed.
Lemma wp_bpin c a g h b Q :
  bc_rel c a -> a_held a !! h = Some b ->
  (forall c', bc_rel c' (a_pin b a) -> Q tt (LState c' g)) -> wp (on_cache (bpin h)) (LState c g) Q.
Proof. intros R Hh HQ. apply wp_on_cache. destruct (bc_bpin c a h b R Hh) as (c' & E & R'). eauto. Qed.
Lemma wp_bunpin c a g h b Q :
  bc_rel c a -> a_held a !! h = Some b -> (2 <= default 0 (a_refs a !! b))%nat ->
  (forall c', bc_rel c' (a_unpin b a) -> Q tt (LState c' g)) -> wp (on_cache (bunpin h)) (LState c g) Q.
Proof. intros R Hh H2 HQ. apply wp_on_cache. destruct (bc_bunpin c a h b R Hh H2) as (c' & E & R'). eauto. Qed.
Lemma wp_update c a g h b f Q :
  bc_rel c a -> a_held a !! h = Some b ->
  (forall c', bc_rel c' (a_set b (f (a_view a b)) a) -> Q tt (LState c' g)) ->
  wp (mod_cache (bupdate h f)) (LState c g) Q.
Proof. intros R Hh HQ. apply wp_modify, HQ. by apply bc_update. Qed.
Lemma wp_copy_buf c a g dst src b bs Q :
  bc_rel c a -> a_held a !! dst = Some b -> a_held a !! src = Some bs ->
  (forall c', bc_rel c' (a_set b (blk_copy (a_view a bs) (a_view a b)) a) -> Q tt (LState c' g)) ->
  wp (copy_buf dst src) (LState c g) Q.
Proof.
  intros R Hd Hs HQ. apply wp_modify. cbn. destruct (bc_data c a src bs R Hs) as [-> _].
  apply HQ. by apply bc_update.
Qed.

(** ** Body of [write_log] *)
Lemma write_log_one_ok c a g P tail b :
  bc_rel c a -> quiet P a -> NoDup P -> (length P < Z.to_nat NBUF)%nat -> geom g ->
  0 <= tail -> tail + 1 < l_size g -> lh_block g tail = b -> b ∈ P -> Forall (home g) P ->
  wp (write_log_one tail) (LState c g) (fun _ s => exists d a',
    ls_log s = g /\ bc_rel (ls_cache s) a' /\ quiet P a' /\
    effect [(l_start g + tail + 1, d)] a a' /\ blk_eq d (a_view a b)).
Proof.
  intros R Q Hnd Hlen G Ht Hts Hb HbP Hhome.
  destruct (proj1 (Forall_forall _ _) Hhome b HbP) as [Hbr Hbl].
  pose proof (geo_end _ G). pose proof (geo_start _ G). unfold in_log in Hbl.
  set (L := l_start g + tail + 1) in *.
  assert (L ∉ P) as HL'.
  { intros HL'. apply (proj1 (Forall_forall _ _) Hhome) in HL' as [_ H']. unfold in_log, L in H'. lia. }
  pose proof (quiet_size _ _ Q Hnd) as Hsz. destruct Q as [Qh Qr].
  assert (SWAPBASE < FSSIZE) by done. assert (b <> L) by (intros E; apply HL'; by rewrite <- E).
  unfold write_log_one. apply wp_bind, wp_gets. cbn [ls_log id]. rewrite Hb, (geo_dev _ G). fold L.
  apply wp_bind. eapply (wp_bread c a g L); [done|lia| | | |].
  { unfold blkdev. by bools. } { rewrite Qh. done. } { right. lia. }
  intros h1 c1 Hh1 R1.
  apply wp_bind. eapply (wp_bread c1 _ g b); [done|lia| | | |].
  { unfold blkdev. by bools. }
  { intros h. cbn. rewrite Qh. apply insert_not_held; set_solver. }
  { left. cbn. rewrite refs_inc_lookup_ne, Qr, decide_True by done. eauto. }
  intros h2 c2 Hh2 R2. cbn [a_held a_hold] in Hh2.
  assert (h2 <> h1) as Hne by (intros ->; by rewrite lookup_insert_eq in Hh2).
  apply wp_bind. eapply (wp_copy_buf c2 _ g h1 h2 L b); [done| | |].
  { cbn. by rewrite lookup_insert_ne, lookup_insert_eq. } { cbn. by rewrite lookup_insert_eq. }
  intros c3 R3. cbn [a_view a_hold] in R3. set (d := blk_copy (a_view a b) (a_view a L)) in *.
  apply wp_bind. eapply (wp_bwrite c3 _ g h1 L); [done| |].
  { cbn. by rewrite lookup_insert_ne, lookup_insert_eq. }
  intros c4 R4.
  apply wp_bind. eapply (wp_brelse c4 _ g h2 b); [done| | |].
  { cbn. by rewrite lookup_insert_eq. }
  { right. cbn. rewrite refs_inc_lookup, refs_inc_lookup_ne, Qr, decide_True by done. simpl. lia. }
  intros c5 R5.
  eapply (wp_brelse c5 _ g h1 L); [done| | |].
  { cbn. rewrite delete_insert_id by done. by rewrite lookup_insert_eq. }
  { left. cbn. by rewrite !upd_eq. }
  intros c6 R6. exists d. eexists. split; [done|]. split; [exact R6|]. cbn. split_and!.
  - split; cbn.
    + rewrite !delete_insert_id by (done || by rewrite Qh). done.
    + intros x. rewrite !refs_dec_inc; [done| |]; rewrite ?refs_inc_lookup_ne, Qr by done; case_decide; done.
  - unfold effect. cbn. by rewrite upd_eq.
  - apply blk_copy_eq.
Qed.

Lemma write_log_loop_ok P g bl tail c a :
  bc_rel c a -> quiet P a -> NoDup P -> (length P < Z.to_nat NBUF)%nat -> geom g ->
  0 <= tail -> tail + Z.of_nat (length bl) < l_size g ->
  (forall i b, bl !! i = Some b -> lh_block g (tail + Z.of_nat i) = b) ->
  bl ⊆ P -> Forall (home g) P ->
  wp (write_log_loop (length bl) tail) (LState c g) (fun _ s => exists W a',
    ls_log s = g /\ bc_rel (ls_cache s) a' /\ quiet P a' /\ effect W a a' /\
    W.*1 = seqZ (l_start g + tail + 1) (Z.of_nat (length bl)) /\
    Forall2 (fun w b => blk_eq w.2 (a_view a b)) W bl).
Proof.
  intros R Q Hnd Hlen G. revert tail c a R Q.
  induction bl as [|b bl IH]; intros tail c a R Q Ht Hts Hi Hsub Hhome.
  { apply wp_ret. exists [], a. split_and!; auto using effect_nil. }
  cbn [length] in Hts. apply wp_bind. eapply wp_mono.
  { eapply (write_log_one_ok c a g P tail b); try done; [lia| |set_solver].
    specialize (Hi 0%nat b eq_refl). by rewrite Z.add_0_r in Hi. }
  intros _ [c1 g1] (d & a1 & Eg & R1 & Q1 & E1 & Hd). cbn in Eg, R1. subst g1.
  eapply wp_mono.
  { apply (IH (tail + 1) c1 a1); try done; [lia|lia| |set_solver].
    intros i x Hx. specialize (Hi (S i) x Hx). replace (tail + 1 + Z.of_nat i) with (tail + Z.of_nat (S i)) by lia. done. }
  intros _ [c2 g2] (W & a2 & Eg & R2 & Q2 & E2 & HW & HF). cbn in Eg, R2. subst g2.
  exists ((l_start g + tail + 1, d) :: W), a2. split_and!; try done.
  - by apply (effect_app [_] W a a1 a2).
  - cbn. rewrite HW. rewrite seqZ_S. do 2 f_equal; lia.
  - constructor; [done|]. eapply Forall2_impl_r; [apply HF|]. cbn. intros w x Hx Hw. rewrite Hw.
    destruct E1 as (-> & _ & _). cbn. rewrite upd_ne; [done|].
    apply (home_not_log g); [|unfold in_log; lia]. apply (proj1 (Forall_forall _ _) Hhome). set_solver.
Qed.

(** ** Body of [install_trans] *)
(** The pinned blocks before and after installing [b]. *)
Definition unpinned (recovering : bool) (b : Z) (P P' : list Z) : Prop :=
  if recovering then P = [] /\ P' = [] else P = b :: P'.

Lemma install_refs a P P' b L h1 h2 r V D W :
  quiet P a -> NoDup P -> unpinned r b P P' -> b <> L -> h2 <> h1 -> L ∉ P ->
  a_held a !! h1 = None -> <[h1 := L]> (a_held a) !! h2 = None ->
  let r4 := refs_inc b (refs_inc L (a_refs a)) in
  quiet P' (AState V D (refs_dec b (refs_dec L (if r then r4 else refs_dec b r4)))
              (delete h2 (delete h1 (<[h2 := b]> (<[h1 := L]> (a_held a))))) W).
Proof.
  intros [Qh Qr] Hnd HP HbL Hh HL' Hh1 Hh2 r4. split; cbn.
  - rewrite delete_delete, delete_insert_id, delete_insert_id by done. done.
  - assert (forall x, a_refs a !! x <> Some 0%nat) as Hp by (intros x; rewrite Qr; by case_decide).
    assert (a_refs a !! L = None) as HLn by by rewrite Qr, decide_False.
    intros x. destruct r; cbn in HP.
    + destruct HP as [-> ->]. unfold r4.
      rewrite refs_dec_inc_comm, (refs_dec_inc L), refs_dec_inc by done. by rewrite Qr.
    + subst P. unfold r4. rewrite refs_dec_inc by (rewrite refs_inc_lookup_ne; done).
      rewrite refs_dec_inc by done. apply NoDup_cons in Hnd as [Hb Hnd].
      destruct (decide (x = b)) as [->|Hx].
      * rewrite (refs_dec_lookup _ _ 0), decide_False by (done || rewrite Qr, decide_True by set_solver; done).
        done.
      * rewrite refs_dec_lookup_ne, Qr by done. repeat case_decide; set_solver.
Qed.

Lemma install_one_ok c a g P P' tail b r :
  bc_rel c a -> quiet P a -> NoDup P -> (length P < Z.to_nat NBUF)%nat -> geom g ->
  0 <= tail -> tail + 1 < l_size g -> lh_block g tail = b -> home g b -> Forall (home g) P ->
  unpinned r b P P' ->
  wp (install_one tail r) (LState c g) (fun _ s => exists d a',
    ls_log s = g /\ bc_rel (ls_cache s) a' /\ quiet P' a' /\
    effect [(b, d)] a a' /\ blk_eq d (a_view a (l_start g + tail + 1))).
Proof.
  intros R Q Hnd Hlen G Ht Hts Hb [Hbr Hbl] Hhome HP.
  pose proof (geo_end _ G). pose proof (geo_start _ G).
  set (L := l_start g + tail + 1) in *.
  assert (in_log g L) as HLl by (unfold in_log, L; lia).
  assert (L ∉ P) as HL'.
  { intros HL'. by apply (proj1 (Forall_forall _ _) Hhome) in HL' as [_ H']. }
  pose proof (quiet_size _ _ Q Hnd) as Hsz. destruct Q as [Qh Qr].
  assert (SWAPBASE < FSSIZE) by done. assert (b <> L) by (intros E; apply Hbl; by rewrite E).
  assert (0 <= L < SWAPBASE) as HLr by (unfold in_log in HLl; lia).
  unfold install_one. apply wp_bind, wp_gets. cbn [ls_log id]. rewrite Hb, (geo_dev _ G). fold L.
  apply wp_bind. eapply (wp_bread c a g L); [done|lia| | | |].
  { unfold blkdev. by bools. } { rewrite Qh. done. } { right. lia. }
  intros h1 c1 Hh1 R1.
  apply wp_bind. eapply (wp_bread c1 _ g b); [done|lia| | | |].
  { unfold blkdev. by bools. }
  { intros h. cbn. rewrite Qh. apply insert_not_held; set_solver. }
  { unfold a_room. cbn. rewrite refs_inc_lookup_ne, Qr by done. destruct r; cbn in HP.
    - right. destruct HP as [-> _]. assert (a_refs a = ∅) as -> by (apply map_eq; intros x; by rewrite Qr).
      unfold refs_inc. rewrite insert_empty, map_size_singleton. vm_compute. lia.
    - left. rewrite decide_True by set_solver. eauto. }
  intros h2 c2 Hh2 R2. cbn [a_held a_hold] in Hh2.
  assert (h2 <> h1) as Hne by (intros ->; by rewrite lookup_insert_eq in Hh2).
  apply wp_bind. eapply (wp_copy_buf c2 _ g h2 h1 b L); [done| | |].
  { cbn. by rewrite lookup_insert_eq. } { cbn. by rewrite lookup_insert_ne, lookup_insert_eq. }
  intros c3 R3. cbn [a_view a_hold] in R3. set (d := blk_copy (a_view a L) (a_view a b)) in *.
  apply wp_bind. eapply (wp_bwrite c3 _ g h2 b); [done| |].
  { cbn. by rewrite lookup_insert_eq. }
  intros c4 R4. set (r4 := refs_inc b (refs_inc L (a_refs a))).
  set (r5 := if r then r4 else refs_dec b r4).
  apply wp_bind. apply wp_mono with (Q := fun _ s => exists c5, s = LState c5 g /\
    bc_rel c5 (AState (upd (a_view a) b d) (upd (a_disk a) b d) r5 (<[h2:=b]> (<[h1:=L]> (a_held a)))
                 (a_writes a ++ [(b, d)]))).
  { unfold a_flush, a_set in R4. cbn in R4. rewrite upd_eq in R4. destruct r; cbn in HP.
    - apply wp_ret. by exists c4.
    - eapply wp_bunpin; [exact R4| | |].
      + cbn. apply lookup_insert_eq.
      + cbn. rewrite refs_inc_lookup, refs_inc_lookup_ne, Qr, decide_True by set_solver. simpl. lia.
      + intros c5 R5. by exists c5. }
  intros _ _ (c5 & -> & R5).
  apply wp_bind. eapply (wp_brelse c5 _ g h1 L); [done| | |].
  { cbn. by rewrite lookup_insert_ne, lookup_insert_eq. }
  { left. cbn. rewrite !upd_ne by done. apply (bc_clean c a); [done|]. by rewrite Qr, decide_False. }
  intros c6 R6.
  eapply (wp_brelse c6 _ g h2 b); [done| | |].
  { cbn. rewrite lookup_delete_ne by done. by rewrite lookup_insert_eq. }
  { left. cbn. by rewrite !upd_eq. }
  intros c7 R7. exists d. eexists. split; [done|]. split; [exact R7|]. cbn. split_and!.
  - apply (install_refs a P P' b L h1 h2 r); done.
  - done.
  - apply blk_copy_eq.
Qed.

Lemma install_loop_ok g r bl : forall P tail c a,
  bc_rel c a -> quiet P a -> NoDup bl -> (length P < Z.to_nat NBUF)%nat -> geom g ->
  0 <= tail -> tail + Z.of_nat (length bl) < l_size g ->
  (forall i b, bl !! i = Some b -> lh_block g (tail + Z.of_nat i) = b) ->
  Forall (home g) bl -> P = (if r : bool then [] else bl) ->
  wp (install_loop (length bl) tail r) (LState c g) (fun _ s => exists W a',
    ls_log s = g /\ bc_rel (ls_cache s) a' /\ quiet [] a' /\ effect W a a' /\
    W.*1 = bl /\
    Forall2 (fun w l => blk_eq w.2 (a_view a l)) W (seqZ (l_start g + tail + 1) (Z.of_nat (length bl)))).
Proof.
  induction bl as [|b bl IH]; intros P tail c a R Q Hnd Hlen G Ht Hts Hi Hhome HP.
  { apply wp_ret. exists [], a. destruct r; subst P; split_and!; auto using effect_nil. }
  cbn [length] in Hts. apply NoDup_cons in Hnd as [Hb Hnd].
  pose proof (Forall_inv Hhome) as Hhb. pose proof (Forall_inv_tail Hhome) as Hht.
  apply wp_bind. eapply wp_mono.
  { eapply (install_one_ok c a g P (if r then [] else bl) tail b r); try done; [|lia| | |].
    - subst P. destruct r; [constructor|by constructor].
    - specialize (Hi 0%nat b eq_refl). by rewrite Z.add_0_r in Hi.
    - subst P. destruct r; [constructor|done].
    - subst P. by destruct r. }
  intros _ [c1 g1] (d & a1 & Eg & R1 & Q1 & E1 & Hd). cbn in Eg, R1. subst g1.
  eapply wp_mono.
  { apply (IH (if r then [] else bl) (tail + 1) c1 a1); try done; [|lia|lia|].
    - subst P. destruct r; cbn in *; lia.
    - intros i x Hx. specialize (Hi (S i) x Hx).
      replace (tail + 1 + Z.of_nat i) with (tail + Z.of_nat (S i)) by lia. done. }
  intros _ [c2 g2] (W & a2 & Eg & R2 & Q2 & E2 & HW & HF). cbn in Eg, R2. subst g2.
  exists ((b, d) :: W), a2. split_and!; try done.
  - by apply (effect_app [_] W a a1 a2).
  - cbn. by rewrite HW.
  - cbn [length]. rewrite seqZ_S. constructor; [done|].
    replace (l_start g + tail + 1 + 1) with (l_start g + (tail + 1) + 1) by lia.
    eapply Forall2_impl_r; [apply HF|]. cbn. intros w x Hx%elem_of_seqZ Hw. rewrite Hw.
    destruct E1 as (-> & _ & _). cbn. rewrite upd_ne; [done|]. intros ->.
    apply (home_not_log g b b Hhb); [|done]. unfold in_log. lia.
Qed.

(** ** The header block *)
Lemma put_blocks_other k i blk d j :
  0 <= i -> 4 + 4 * i + 4 * Z.of_nat k <= j \/ j + 4 <= 4 + 4 * i ->
  ld32 (put_blocks k i blk d) j = ld32 d j.
Proof.
  revert i d. induction k as [|k IH]; intros i d Hi Hj; [done|]. cbn [put_blocks].
  rewrite IH, ld_st_other by lia. done.
Qed.
Lemma put_blocks_at k i blk d j :
  0 <= i <= j -> j < i + Z.of_nat k -> ld32 (put_blocks k i blk d) (4 + 4 * j) = u32 (blk j).
Proof.
  revert i d. induction k as [|k IH]; intros i d Hi Hj; [lia|]. cbn [put_blocks].
  destruct (decide (j = i)) as [->|Hne]; [|apply IH; lia].
  rewrite put_blocks_other by lia. apply ld32_st32_same.
Qed.

(** The header block records the list [bl]. *)
Definition hdr_is (d : mem) (bl : list Z) : Prop :=
  hdr_n d = Z.of_nat (length bl) /\
  forall i b, bl !! i = Some b -> hdr_block d (Z.of_nat i) = b.

Lemma put_head_is bl blk d :
  (length bl <= Z.to_nat LOGSIZE)%nat ->
  (forall i b, bl !! i = Some b -> blk (Z.of_nat i) = b /\ 0 <= b < 2 ^ 31) ->
  hdr_is (put_head (Z.of_nat (length bl)) blk d) bl.
Proof.
  intros Hl Hb. unfold hdr_is, hdr_n, hdr_block, put_head. assert (Z.to_nat LOGSIZE = 30%nat) as E by done.
  rewrite E in Hl. rewrite Nat2Z.id. split.
  - rewrite put_blocks_other, ld32_st32_same, u32_small, s32_small by lia. done.
  - intros i b Hi. destruct (Hb i b Hi) as [Hbi Hr]. apply lookup_lt_Some in Hi.
    rewrite put_blocks_at, Hbi, u32_small, s32_small by lia. done.
Qed.
Lemma hdr_is_ext d d' bl :
  (length bl <= Z.to_nat LOGSIZE)%nat -> blk_eq d d' -> hdr_is d bl -> hdr_is d' bl.
Proof.
  intros Hl Hd [Hn Hb]. assert (Z.to_nat LOGSIZE = 30%nat) as E by done. rewrite E in Hl.
  assert (forall o, 0 <= o <= 1000 -> ld32 d' o = ld32 d o) as Hld.
  { intros o Ho. apply ld_ext. intros i Hi. symmetry. apply Hd. unfold BSIZE. lia. }
  unfold hdr_is, hdr_n, hdr_block in *. split; [by rewrite Hld by lia|].
  intros i b Hi. rewrite Hld; [by apply Hb|]. apply lookup_lt_Some in Hi. lia.
Qed.

(** The in-memory header lists [bl]. *)
Record logged (g : log) (bl : list Z) : Prop := {
  lg_n : lh_n g = Z.of_nat (length bl);
  lg_blk : forall i b, bl !! i = Some b -> lh_block g (Z.of_nat i) = b;
  lg_nodup : NoDup bl;
  lg_home : Forall (home g) bl;
  lg_len : Z.of_nat (length bl) < l_size g }.

Lemma start_notin g P : geom g -> Forall (home g) P -> l_start g ∉ P.
Proof.
  intros G HP Hin. apply (proj1 (Forall_forall _ _) HP) in Hin as [_ Hx]. apply Hx.
  unfold in_log. pose proof (geo_size _ G). lia.
Qed.

Lemma nbuf_pos : (0 < Z.to_nat NBUF)%nat.
Proof. vm_compute. lia. Qed.
Lemma blkdev_home b : b < SWAPBASE -> ROOTDEV = blkdev b.
Proof. intros. unfold blkdev. by bools. Qed.

(** [bread] of a block nobody uses, from a quiet state. *)
Lemma wp_bread_quiet c a g P b Q :
  bc_rel c a -> quiet P a -> NoDup P -> (length P < Z.to_nat NBUF)%nat -> geom g -> 0 <= b < SWAPBASE ->
  (forall h c', bc_rel c' (a_hold h b a) -> Q h (LState c' g)) ->
  wp (on_cache (bread (l_dev g) b)) (LState c g) Q.
Proof.
  intros R [Qh Qr] Hnd Hlen G Hb HQ. assert (SWAPBASE < FSSIZE) by done.
  eapply (wp_bread c a g b); [done|lia| | | |].
  - rewrite (geo_dev _ G). apply blkdev_home. lia.
  - by rewrite Qh.
  - right. rewrite (quiet_size P) by done. lia.
  - auto.
Qed.

Lemma quiet_put a P b h V D W :
  quiet P a -> b ∉ P -> a_held a !! h = None ->
  quiet P (AState V D (refs_dec b (refs_inc b (a_refs a))) (delete h (<[h := b]> (a_held a))) W).
Proof.
  intros [Qh Qr] Hb Hh. split; cbn.
  - by rewrite delete_insert_id.
  - intros x. rewrite refs_dec_inc; [done|]. rewrite Qr. by case_decide.
Qed.

Lemma write_head_ok c a g P bl :
  bc_rel c a -> quiet P a -> NoDup P -> (length P < Z.to_nat NBUF)%nat -> geom g -> Forall (home g) P ->
  logged g bl ->
  wp write_head (LState c g) (fun _ s => exists d a',
    ls_log s = g /\ bc_rel (ls_cache s) a' /\ quiet P a' /\ effect [(l_start g, d)] a a' /\ hdr_is d bl).
Proof.
  intros R Q Hnd Hlen G HP HL'. pose proof (start_notin g P G HP) as Hs.
  pose proof (geo_end _ G). pose proof (geo_start _ G). pose proof (geo_size _ G).
  assert (forall h, a_held a !! h = None) as Hheld by (intros; by rewrite (q_held _ _ Q)).
  unfold write_head. apply wp_bind, wp_gets. cbn [ls_log id]. apply wp_bind.
  eapply (wp_bread_quiet c a g P); try done; [lia|]. intros h c1 R1.
  apply wp_bind. eapply (wp_update c1 _ g h (l_start g)); [done|cbn; apply lookup_insert_eq|].
  intros c2 R2. apply wp_bind. eapply (wp_bwrite c2 _ g h (l_start g)); [done|cbn; apply lookup_insert_eq|].
  intros c3 R3. eapply (wp_brelse c3 _ g h (l_start g)); [done|cbn; apply lookup_insert_eq| |].
  { left. cbn. by rewrite !upd_eq. }
  intros c4 R4. eexists _, _. split; [done|]. split; [exact R4|]. split_and!.
  - by apply quiet_put.
  - unfold effect. cbn. rewrite upd_eq. done.
  - cbn [a_view a_hold]. rewrite (lg_n _ _ HL'). apply put_head_is.
    + pose proof (lg_len _ _ HL'). lia.
    + intros i b Hi. split; [by apply (lg_blk _ _ HL')|].
      apply list_elem_of_lookup_2 in Hi. apply (proj1 (Forall_forall _ _) (lg_home _ _ HL')) in Hi as [Hi _].
      assert (SWAPBASE < 2 ^ 31) by done. lia.
Qed.

Lemma get_blocks_at k i d blk j :
  get_blocks k i d blk j = if decide (i <= j < i + Z.of_nat k) then hdr_block d j else blk j.
Proof.
  revert i blk. induction k as [|k IH]; intros i blk; cbn [get_blocks].
  - rewrite decide_False; [done|lia].
  - rewrite IH. unfold upd. repeat case_decide; bools; subst; done || lia.
Qed.

Lemma read_head_ok c a g bl :
  bc_rel c a -> quiet [] a -> geom g -> hdr_is (a_view a (l_start g)) bl ->
  NoDup bl -> Forall (home g) bl -> Z.of_nat (length bl) < l_size g ->
  wp read_head (LState c g) (fun _ s => bc_rel (ls_cache s) a /\ logged (ls_log s) bl /\
    exists blk, ls_log s = set_lh (Z.of_nat (length bl)) blk g).
Proof.
  intros R Q G [Hn Hb] Hnd Hh Hlen.
  pose proof (geo_end _ G). pose proof (geo_start _ G). pose proof (geo_size _ G).
  assert (forall h, a_held a !! h = None) as Hheld by (intros; by rewrite (q_held _ _ Q)).
  unfold read_head. apply wp_bind, wp_gets. cbn [ls_log id]. apply wp_bind.
  eapply (wp_bread_quiet c a g []); try done; [apply NoDup_nil_2|apply nbuf_pos|lia|].
  intros h c1 R1. apply wp_bind, wp_gets. cbn [ls_cache].
  destruct (bc_data c1 _ h (l_start g) R1) as [-> _]; [cbn; apply lookup_insert_eq|]. cbn [a_view a_hold].
  apply wp_bind, wp_modify. cbn [ls_log ls_cache].
  eapply (wp_brelse c1 _ _ h (l_start g)); [done|cbn; apply lookup_insert_eq| |].
  { left. cbn. apply (bc_clean c); [done|]. by rewrite (q_refs _ _ Q). }
  intros c2 R2. rewrite release_hold in R2; [|by apply (bc_refs_pos c)|done].
  cbn. split; [done|]. rewrite Hn. split; [|eauto]. split; cbn; try done.
  intros i b Hi. rewrite get_blocks_at. rewrite decide_True; [by apply Hb|].
  apply lookup_lt_Some in Hi. lia.
Qed.

Lemma install_trans_ok g r bl P c a :
  bc_rel c a -> quiet P a -> (length P < Z.to_nat NBUF)%nat -> geom g -> logged g bl ->
  P = (if r : bool then [] else bl) ->
  wp (install_trans r) (LState c g) (fun _ s => exists W a',
    ls_log s = g /\ bc_rel (ls_cache s) a' /\ quiet [] a' /\ effect W a a' /\ W.*1 = bl /\
    Forall2 (fun w l => blk_eq w.2 (a_view a l)) W (seqZ (l_start g + 1) (Z.of_nat (length bl)))).
Proof.
  intros R Q Hlen G HL' HP. unfold install_trans. apply wp_bind, wp_gets. cbn [ls_log].
  rewrite (lg_n _ _ HL'), Nat2Z.id.
  replace (l_start g + 1) with (l_start g + 0 + 1) by lia.
  eapply (install_loop_ok g r bl P 0 c a); try done; try apply HL'; try lia.
Qed.

Lemma logged_nil g blk : 1 <= l_size g -> logged (set_lh 0 blk g) [].
Proof. intros. split; cbn; try done; [apply NoDup_nil_2|lia]. Qed.
Lemma geom_set_lh n blk g : geom g -> geom (set_lh n blk g).
Proof. by intros [? ? ? ?]. Qed.

Lemma recover_ok c a g bl :
  bc_rel c a -> quiet [] a -> geom g -> hdr_is (a_view a (l_start g)) bl ->
  NoDup bl -> Forall (home g) bl -> Z.of_nat (length bl) < l_size g ->
  wp recover_from_log (LState c g) (fun _ s => exists W hd a',
    bc_rel (ls_cache s) a' /\ quiet [] a' /\ logged (ls_log s) [] /\
    (exists blk, ls_log s = set_lh 0 blk g) /\
    effect (W ++ [(l_start g, hd)]) a a' /\ W.*1 = bl /\ hdr_is hd [] /\
    Forall2 (fun w l => blk_eq w.2 (a_view a l)) W (seqZ (l_start g + 1) (Z.of_nat (length bl)))).
Proof.
  intros R Q G Hh Hnd Hhome Hlen. pose proof (geo_size _ G).
  unfold recover_from_log. apply wp_bind. eapply wp_mono; [by eapply read_head_ok|].
  intros _ [c1 g1] (R1 & HL1 & blk & Eg). cbn in *. subst g1.
  apply wp_bind. eapply wp_mono.
  { eapply (install_trans_ok _ true bl [] c1 a); try done; [apply nbuf_pos|by apply geom_set_lh]. }
  intros _ [c2 g2] (W & a2 & Eg & R2 & Q2 & E2 & HW & HF). cbn in *. subst g2.
  apply wp_bind, wp_modify. cbn.
  eapply wp_mono.
  { eapply (write_head_ok c2 a2 _ [] []); try done.
    - apply NoDup_nil_2.
    - apply nbuf_pos.
    - by repeat apply geom_set_lh.
    - apply logged_nil. cbn. lia. }
  intros _ [c3 g3] (d & a3 & Eg & R3 & Q3 & E3 & Hd). cbn in *. subst g3.
  exists W, d, a3. split_and!; try done.
  - apply logged_nil. cbn. lia.
  - by exists blk.
  - by eapply effect_app.
Qed.

(** ** Commit *)
(** The writes of a commit of [bl] whose new contents are [v]. *)
Record commit_trace (g : log) (v : Z -> mem) (bl : list Z) (W1 : list (Z * mem)) (h1 : mem)
    (W3 : list (Z * mem)) (h2 : mem) : Prop := {
  ct_log : W1.*1 = seqZ (l_start g + 1) (Z.of_nat (length bl));
  ct_log_data : Forall2 (fun w b => blk_eq w.2 (v b)) W1 bl;
  ct_head : hdr_is h1 bl;
  ct_home : W3.*1 = bl;
  ct_home_data : Forall2 (fun w b => blk_eq w.2 (v b)) W3 bl;
  ct_clear : hdr_is h2 [] }.

Lemma seqZ_in_log g (bl : list Z) x :
  Z.of_nat (length bl) < l_size g ->
  x ∈ seqZ (l_start g + 1) (Z.of_nat (length bl)) -> in_log g x /\ x <> l_start g.
Proof. intros Hl Hx%elem_of_seqZ. unfold in_log. lia. Qed.

(** What [install_trans] reads from the log after [write_log] and [write_head]. *)
Lemma log_contents g v (bl : list Z) W1 h1 (d : Z -> mem) (W3 : list (Z * mem)) :
  Z.of_nat (length bl) < l_size g ->
  W1.*1 = seqZ (l_start g + 1) (Z.of_nat (length bl)) ->
  Forall2 (fun w b => blk_eq w.2 (v b)) W1 bl ->
  Forall2 (fun w l => blk_eq w.2 (dwrite (W1 ++ [(l_start g, h1)]) d l)) W3
          (seqZ (l_start g + 1) (Z.of_nat (length bl))) ->
  Forall2 (fun w b => blk_eq w.2 (v b)) W3 bl.
Proof.
  intros Hl Hk HF1 HF3.
  apply Forall2_same_length_lookup_2.
  { apply Forall2_length in HF3. rewrite length_seqZ in HF3. lia. }
  intros i [b3 d3] b H3 Hb.
  destruct (Forall2_lookup_r _ _ _ _ _ HF1 Hb) as ([l1 d1] & H1 & E1). cbn in *.
  destruct (Forall2_lookup_l _ _ _ _ _ HF3 H3) as (l & Hl' & E3). cbn in *.
  assert (l = l1) as ->.
  { assert (W1.*1 !! i = Some l1) as E by by rewrite list_lookup_fmap, H1. rewrite Hk, Hl' in E. by injection E. }
  rewrite E3, dwrite_app. rewrite dwrite_notin.
  - rewrite (dwrite_in _ _ l1 d1 i); [done| |done]. rewrite Hk. apply NoDup_seqZ.
  - apply list_elem_of_lookup_2 in Hl'. apply (seqZ_in_log g bl) in Hl' as [_ Hne]; [|done]. set_solver.
Qed.

Lemma commit_ok c a g bl :
  bc_rel c a -> quiet bl a -> geom g -> logged g bl -> bl <> [] ->
  wp commit (LState c g) (fun _ s => exists W1 h1 W3 h2 a',
    bc_rel (ls_cache s) a' /\ quiet [] a' /\ (exists blk, ls_log s = set_lh 0 blk g) /\
    effect (W1 ++ (l_start g, h1) :: W3 ++ [(l_start g, h2)]) a a' /\
    commit_trace g (a_view a) bl W1 h1 W3 h2).
Proof.
  intros R Q G HL' Hne. pose proof (lg_len _ _ HL') as Hlen. pose proof (geo_size _ G) as Hsz.
  assert (length bl < Z.to_nat NBUF)%nat as Hnb by (unfold LOGSIZE, NBUF in *; lia).
  unfold commit. apply wp_bind, wp_gets. cbn [ls_log]. rewrite (lg_n _ _ HL').
  destruct (Z.gtb_spec (Z.of_nat (length bl)) 0) as [_|E]; [|destruct bl; [done|cbn [length] in E; lia]].
  apply wp_bind. unfold write_log. eapply wp_mono.
  { apply wp_bind, wp_gets. cbn [ls_log]. rewrite (lg_n _ _ HL'), Nat2Z.id.
    apply (write_log_loop_ok bl g bl 0 c a); try done; try apply HL'; lia. }
  intros _ [c1 g1] (W1 & a1 & Eg & R1 & Q1 & E1 & HW1 & HF1). cbn in *. subst g1.
  replace (l_start g + 0 + 1) with (l_start g + 1) in HW1 by lia.
  apply wp_bind. eapply wp_mono; [eapply (write_head_ok c1 a1 g bl bl); try done; apply HL'|].
  intros _ [c2 g2] (h1 & a2 & Eg & R2 & Q2 & E2 & Hh1). cbn in *. subst g2.
  apply wp_bind. eapply wp_mono; [by eapply (install_trans_ok g false bl bl c2 a2)|].
  intros _ [c3 g3] (W3 & a3 & Eg & R3 & Q3 & E3 & HW3 & HF3). cbn in *. subst g3.
  apply wp_bind, wp_modify. cbn. eapply wp_mono.
  { eapply (write_head_ok c3 a3 _ [] []); try done; [apply NoDup_nil_2|apply nbuf_pos|by apply geom_set_lh|].
    apply logged_nil. lia. }
  intros _ [c4 g4] (h2 & a4 & Eg & R4 & Q4 & E4 & Hh2). cbn in *. subst g4.
  exists W1, h1, W3, h2, a4. pose proof (effect_app _ _ _ _ _ E1 E2) as E12.
  split_and!; try done; [by eexists| |].
  - pose proof (effect_app _ _ _ _ _ E12 (effect_app _ _ _ _ _ E3 E4)) as E. by rewrite <- app_assoc in E.
  - split; try done. destruct E12 as (V2 & _ & _). rewrite V2 in HF3.
    by eapply log_contents.
Qed.

(** * Crash safety *)
(** [D] holds a log of [bl] at the place [g] describes. *)
Record log_on_disk (g : log) (bl : list Z) (D : Z -> mem) : Prop := {
  ld_head : hdr_is (D (l_start g)) bl;
  ld_nodup : NoDup bl;
  ld_home : Forall (home g) bl;
  ld_len : Z.of_nat (length bl) < l_size g }.

(** The contents recovery must produce for a home block. *)
Definition recovered (g : log) (bl : list Z) (D D1 : Z -> mem) : Prop :=
  forall b, home g b ->
    (b ∉ bl -> D1 b = D b) /\
    (forall i, bl !! i = Some b -> blk_eq (D1 b) (D (l_start g + 1 + Z.of_nat i))).

Lemma install_result g bl (D : Z -> mem) W hd :
  log_on_disk g bl D -> geom g -> W.*1 = bl ->
  Forall2 (fun w l => blk_eq w.2 (D l)) W (seqZ (l_start g + 1) (Z.of_nat (length bl))) ->
  recovered g bl D (dwrite (W ++ [(l_start g, hd)]) D).
Proof.
  intros HD G HW HF b Hb. pose proof (geo_size _ G).
  assert (b <> l_start g) as Hs by (apply (home_not_log g); [done|unfold in_log; lia]).
  rewrite dwrite_app, dwrite_notin by (cbn; set_solver). split.
  - intros Hn. apply dwrite_notin. by rewrite HW.
  - intros i Hi. rewrite <- HW in Hi. apply list_lookup_fmap_Some in Hi as ([b' d] & -> & Hi).
    rewrite (dwrite_in _ _ _ d i); [|rewrite HW; apply HD|done].
    destruct (Forall2_lookup_l _ _ _ _ _ HF Hi) as (l & Hl & E). cbn in E. rewrite E.
    apply lookup_seqZ in Hl as [-> _]. done.
Qed.

Lemma recover_disk c g bl D :
  bc_rel c (a_init D) -> geom g -> log_on_disk g bl D ->
  wp recover_from_log (LState c g) (fun _ s => exists a1 W hd,
    bc_rel (ls_cache s) a1 /\ quiet [] a1 /\ a_writes a1 = W ++ [(l_start g, hd)] /\
    a_disk a1 = dwrite (W ++ [(l_start g, hd)]) D /\ W.*1 = bl /\ hdr_is hd [] /\
    recovered g bl D (a_disk a1)).
Proof.
  intros R G HD. eapply wp_mono.
  { eapply (recover_ok c (a_init D) g bl); try done; apply HD. }
  intros _ s (W & hd & a' & R' & Q' & _ & _ & (_ & E & Ew) & HW & Hh & HF).
  exists a', W, hd. split_and!; try done. rewrite E. by apply install_result.
Qed.

Lemma geom_recover_hdr D g W hd : dwrite (W ++ [(l_start g, hd)]) D (l_start g) = hd.
Proof. rewrite dwrite_app. cbn. apply upd_eq. Qed.

End laws.

(** ** The disks a crash can leave *)
Section crash_disk.
Context (g : log) (v d : Z -> mem) (bl : list Z) (W1 W3 : list (Z * mem)) (h1 h2 : mem).
Context (G : geom g) (HL : logged g bl) (CT : commit_trace g v bl W1 h1 W3 h2).
Context (Hd : hdr_is (d (l_start g)) []).
Context (Hclean : forall b, home g b -> b ∉ bl -> v b = d b).

Lemma start_in_log : in_log g (l_start g).
Proof. pose proof (geo_size _ G). unfold in_log. lia. Qed.
Lemma log_keys x : x ∈ W1.*1 -> in_log g x /\ x <> l_start g.
Proof. rewrite (ct_log _ _ _ _ _ _ _ CT). apply seqZ_in_log, HL. Qed.
Lemma home_not_key b : home g b -> b ∉ W1.*1.
Proof. intros Hb [Hin _]%log_keys. by apply Hb. Qed.
Lemma start_not_key : l_start g ∉ W1.*1.
Proof. by intros [_ ?]%log_keys. Qed.
Lemma empty_log D : hdr_is (D (l_start g)) [] -> log_on_disk g [] D.
Proof.
  intros HD. pose proof (geo_size _ G).
  split; [done|apply NoDup_nil_2|constructor|cbn; lia].
Qed.
Lemma take_notin (k : nat) (W : list (Z * mem)) x : x ∉ W.*1 -> x ∉ (take k W).*1.
Proof.
  intros Hx Hin. apply Hx. rewrite fmap_take in Hin.
  by eapply elem_of_take in Hin as (? & ?%list_elem_of_lookup_2 & _).
Qed.

(** Before the header is written. *)
Lemma crash_before k :
  let D := dwrite (take k W1) d in
  log_on_disk g [] D /\ forall b, home g b -> D b = d b.
Proof.
  intros D. unfold D. split.
  - apply empty_log. by rewrite dwrite_notin by apply take_notin, start_not_key.
  - intros b Hb. by apply dwrite_notin, take_notin, home_not_key.
Qed.

(** Between the two header writes: any part [m] of the home blocks is installed. *)
Lemma crash_during m :
  let D := dwrite (take m W3) (upd (dwrite W1 d) (l_start g) h1) in
  log_on_disk g bl D /\ (forall b, home g b -> b ∉ bl -> D b = v b) /\
  (forall i b, bl !! i = Some b -> blk_eq (D (l_start g + 1 + Z.of_nat i)) (v b)).
Proof.
  intros D. pose proof start_in_log as Hs. destruct CT as [HW1 HF1 Hh1 HW3 HF3 Hh2].
  assert (forall x, in_log g x -> x ∉ (take m W3).*1) as Hl3.
  { intros x Hx. apply take_notin. rewrite HW3. intros Hin.
    by apply (proj1 (Forall_forall _ _) (lg_home _ _ HL)) in Hin as [_ ?]. }
  unfold D. split_and!.
  - split; [|apply HL..]. by rewrite dwrite_notin, upd_eq by auto.
  - intros b Hb Hn. rewrite dwrite_notin by (apply take_notin; by rewrite HW3).
    rewrite upd_ne by by apply (home_not_log g). rewrite dwrite_notin by by apply home_not_key.
    symmetry. auto.
  - intros i b Hi. pose proof (lookup_lt_Some _ _ _ Hi) as Hlt. pose proof (lg_len _ _ HL).
    rewrite dwrite_notin by (apply Hl3; unfold in_log; lia). rewrite upd_ne by lia.
    destruct (Forall2_lookup_r _ _ _ _ _ HF1 Hi) as ([l e] & Hw & E). cbn in E. rewrite <- E.
    assert (l = l_start g + 1 + Z.of_nat i) as <-.
    { assert (W1.*1 !! i = Some l) as El by by rewrite list_lookup_fmap, Hw.
      rewrite HW1 in El. apply lookup_seqZ in El as [-> _]. done. }
    rewrite (dwrite_in _ _ _ e i); [done| |done]. rewrite HW1. apply NoDup_seqZ.
Qed.

(** After the header is cleared. *)
Lemma crash_after :
  let D := dwrite (W3 ++ [(l_start g, h2)]) (upd (dwrite W1 d) (l_start g) h1) in
  log_on_disk g [] D /\ forall b, home g b -> blk_eq (D b) (v b).
Proof.
  intros D. pose proof start_in_log as Hs. destruct CT as [HW1 HF1 Hh1 HW3 HF3 Hh2].
  unfold D. rewrite dwrite_app. cbn. split; [apply empty_log; by rewrite upd_eq|].
  intros b Hb. assert (b <> l_start g) by by apply (home_not_log g). rewrite upd_ne by done.
  destruct (decide (b ∈ bl)) as [[i Hi]%list_elem_of_lookup|Hn].
  - destruct (Forall2_lookup_r _ _ _ _ _ HF3 Hi) as ([b' e] & Hw & E). cbn in E.
    assert (b' = b) as ->.
    { assert (W3.*1 !! i = Some b') as El by by rewrite list_lookup_fmap, Hw. rewrite HW3 in El. congruence. }
    change (foldl _ _ W3) with (dwrite W3 (upd (dwrite W1 d) (l_start g) h1)).
    rewrite (dwrite_in _ _ _ e i); [done| |done]. rewrite HW3. apply HL.
  - change (foldl _ _ W3) with (dwrite W3 (upd (dwrite W1 d) (l_start g) h1)).
    rewrite dwrite_notin by by rewrite HW3. rewrite upd_ne by done.
    rewrite dwrite_notin by by apply home_not_key. by rewrite Hclean.
Qed.

(** The disk after the first [k] writes of the commit. *)
Lemma crash_cut k :
  let W := W1 ++ (l_start g, h1) :: W3 ++ [(l_start g, h2)] in
  let D1 := upd (dwrite W1 d) (l_start g) h1 in
  (exists k', dwrite (take k W) d = dwrite (take k' W1) d /\ (k < length W)%nat) \/
  (exists m, dwrite (take k W) d = dwrite (take m W3) D1) \/
  dwrite (take k W) d = dwrite (W3 ++ [(l_start g, h2)]) D1.
Proof.
  intros W D1. unfold W. destruct (decide (k <= length W1)%nat) as [Hk|Hk].
  { left. exists k. rewrite take_app_le by done. split; [done|].
    rewrite !length_app. cbn. rewrite !length_app. cbn. lia. }
  right. rewrite take_app_ge by lia. rewrite dwrite_app.
  destruct (k - length W1)%nat as [|m] eqn:Em; [lia|]. cbn [take]. rewrite dwrite_cons. cbn [fst snd].
  destruct (decide (m <= length W3)%nat) as [Hm|Hm].
  - left. exists m. by rewrite take_app_le.
  - right. rewrite take_ge; [done|]. rewrite length_app. cbn. lia.
Qed.
End crash_disk.

(** The log record [g0] describes the same log area as [g]. *)
Definition same_place (g0 g : log) : Prop :=
  l_start g0 = l_start g /\ l_size g0 = l_size g /\ l_dev g0 = l_dev g.
Lemma same_place_geom g0 g : same_place g0 g -> geom g -> geom g0.
Proof. intros (E1 & E2 & E3) [? ? ? ?]. split; congruence. Qed.
Lemma same_place_home g0 g b : same_place g0 g -> home g0 b <-> home g b.
Proof. intros (E1 & E2 & E3). unfold home, in_log. by rewrite E1, E2. Qed.
Lemma same_place_log g0 g bl D : same_place g0 g -> log_on_disk g bl D -> log_on_disk g0 bl D.
Proof.
  intros SP [? ? Hh ?]. pose proof SP as (E1 & E2 & E3). split; rewrite ?E1, ?E2; try done.
  eapply Forall_impl; [apply Hh|]. intros b. by apply same_place_home.
Qed.

Section crash.
Context {C : Type} `{HL : BufCacheLaws C}.
Implicit Types (c : C) (a : astate) (g : log).

(** Recovery of a disk with an empty log changes no home block; recovery of a
    complete log makes every logged block what the log says. *)
Lemma recover_empty c g D g0 :
  bc_rel c (a_init D) -> same_place g0 g -> geom g -> log_on_disk g [] D ->
  wp recover_from_log (LState c g0) (fun _ s => exists a1,
    bc_rel (ls_cache s) a1 /\ hdr_is (a_disk a1 (l_start g)) [] /\
    forall b, home g b -> a_disk a1 b = D b).
Proof.
  intros R SP G HD. eapply wp_mono.
  { by apply (recover_disk c g0 [] D R); [eapply same_place_geom|eapply same_place_log]. }
  intros _ s (a1 & W & hd & R1 & _ & _ & E & _ & Hh & Hrec). exists a1. split; [done|]. split.
  - destruct SP as (<- & _). by rewrite E, geom_recover_hdr.
  - intros b Hb. apply (same_place_home g0) in Hb; [|done]. apply (Hrec b Hb). set_solver.
Qed.
Lemma recover_full c g D g0 v bl :
  bc_rel c (a_init D) -> same_place g0 g -> geom g -> log_on_disk g bl D ->
  (forall b, home g b -> b ∉ bl -> D b = v b) ->
  (forall i b, bl !! i = Some b -> blk_eq (D (l_start g + 1 + Z.of_nat i)) (v b)) ->
  wp recover_from_log (LState c g0) (fun _ s => exists a1,
    bc_rel (ls_cache s) a1 /\ hdr_is (a_disk a1 (l_start g)) [] /\
    forall b, home g b -> blk_eq (a_disk a1 b) (v b)).
Proof.
  intros R SP G HD Hout Hin. eapply wp_mono.
  { by apply (recover_disk c g0 bl D R); [eapply same_place_geom|eapply same_place_log]. }
  intros _ s (a1 & W & hd & R1 & _ & _ & E & _ & Hh & Hrec). exists a1. split; [done|]. split.
  - destruct SP as (<- & _). by rewrite E, geom_recover_hdr.
  - intros b Hb. destruct (Hrec b) as [H1 H2]; [by eapply same_place_home|].
    destruct (decide (b ∈ bl)) as [[i Hi]%list_elem_of_lookup|Hn].
    + rewrite (H2 i Hi). destruct SP as (-> & _). auto.
    + rewrite H1 by done. by rewrite Hout.
Qed.

(** What a crash leaves after some of the writes [W] that take the disk from [d]
    to [v]: recovery returns and finds, outside the log, all of [d] or all of
    [v], and [v] if every write got through. *)
Definition crash_safe g (d v : Z -> mem) (W : list (Z * mem)) : Prop :=
  forall k c0 g0, bc_rel c0 (a_init (dwrite (take k W) d)) -> same_place g0 g ->
  wp recover_from_log (LState c0 g0) (fun _ s => exists a1,
    bc_rel (ls_cache s) a1 /\ hdr_is (a_disk a1 (l_start g)) [] /\
    ((forall b, home g b -> blk_eq (a_disk a1 b) (d b)) /\ (k < length W)%nat \/
     (forall b, home g b -> blk_eq (a_disk a1 b) (v b)))).

Lemma commit_crash c a g bl :
  bc_rel c a -> quiet bl a -> geom g -> logged g bl -> bl <> [] ->
  hdr_is (a_disk a (l_start g)) [] ->
  wp commit (LState c g) (fun _ s => exists W a',
    (exists blk, ls_log s = set_lh 0 blk g) /\ bc_rel (ls_cache s) a' /\ quiet [] a' /\
    a_writes a' = a_writes a ++ W /\ hdr_is (a_disk a' (l_start g)) [] /\
    (forall b, home g b -> blk_eq (a_disk a' b) (a_view a b)) /\
    crash_safe g (a_disk a) (a_view a) W).
Proof.
  intros R Q G HL' Hne Hd.
  assert (forall b, home g b -> b ∉ bl -> a_view a b = a_disk a b) as Hclean.
  { intros b _ Hb. apply (bc_clean c); [done|]. by rewrite (q_refs _ _ Q), decide_False. }
  eapply wp_mono; [by apply (commit_ok c a g bl)|].
  intros _ [c' g'] (W1 & h1 & W3 & h2 & a' & R' & Q' & Eg & (_ & Ed & Ew) & CT).
  set (W := W1 ++ (l_start g, h1) :: W3 ++ [(l_start g, h2)]) in *.
  destruct (crash_after g (a_view a) (a_disk a) bl W1 W3 h1 h2 G HL' CT Hclean) as [HD Hv].
  assert (dwrite W (a_disk a) = dwrite (W3 ++ [(l_start g, h2)]) (upd (dwrite W1 (a_disk a)) (l_start g) h1)) as EW.
  { unfold W. by rewrite dwrite_app, dwrite_cons. }
  exists W, a'. rewrite Ed, EW. split_and!; try done; [apply HD|].
  intros k c0 g0 R0 SP.
  destruct (crash_cut g (a_disk a) W1 W3 h1 h2 k) as [(k' & Ek & Hk)|[(m & Ek)|Ek]];
    fold W in Ek; rewrite Ek in R0.
  - destruct (crash_before g (a_view a) (a_disk a) bl W1 W3 h1 h2 G HL' CT Hd k') as [HD' Hb].
    eapply wp_mono; [by apply (recover_empty c0 g _ g0 R0 SP)|].
    intros _ s (a1 & R1 & Hh & Heq). exists a1. split_and!; try done. left. split; [|done].
    intros b Hhb. by rewrite Heq, Hb.
  - destruct (crash_during g (a_view a) (a_disk a) bl W1 W3 h1 h2 G HL' CT Hclean m) as (HD' & Ho & Hi).
    eapply wp_mono; [by apply (recover_full c0 g _ g0 (a_view a) bl R0 SP)|].
    intros _ s (a1 & R1 & Hh & Heq). exists a1. auto.
  - eapply wp_mono; [by apply (recover_empty c0 g _ g0 R0 SP)|].
    intros _ s (a1 & R1 & Hh & Heq). exists a1. split_and!; try done. right.
    intros b Hhb. by rewrite Heq, Hv.
Qed.

End crash.

(** * Transactions *)
Section txn.
Context {C : Type} `{BufCache C}.

(** The use of the log that log.c documents for a block: read the buffer, modify
    it, [log_write] it and release it. *)
Definition txn_write (dev b : Z) (f : mem -> mem) : M (lstate C) unit :=
  bp ← on_cache (bread dev b);
  _ ← mod_cache (bupdate bp f);
  _ ← log_write bp;
  on_cache (brelse bp).
Fixpoint txn_writes (dev : Z) (ws : list (Z * (mem -> mem))) : M (lstate C) unit :=
  match ws with
  | [] => mret tt
  | (b, f) :: ws => _ ← txn_write dev b f; txn_writes dev ws
  end.
Definition txn (dev : Z) (ws : list (Z * (mem -> mem))) : M (lstate C) unit :=
  _ ← begin_op; _ ← txn_writes dev ws; end_op.
End txn.

(** What the writes of a transaction mean for the blocks. *)
Definition apply_writes (ws : list (Z * (mem -> mem))) (v : Z -> mem) : Z -> mem :=
  foldl (fun v w => upd v w.1 (w.2 (v w.1))) v ws.

Lemma absorb_spec bl k i blk b :
  k = length bl -> (forall j x, bl !! j = Some x -> blk (i + Z.of_nat j) = x) ->
  ((b ∉ bl) /\ absorb k i blk b = i + Z.of_nat k) \/
  (exists j : nat, bl !! j = Some b /\ absorb k i blk b = i + Z.of_nat j).
Proof.
  revert i bl. induction k as [|k IH]; intros i [|x bl] Hk Hb; try done; cbn [absorb].
  { left. split; [set_solver|lia]. }
  injection Hk as Hk. pose proof (Hb 0%nat x eq_refl) as H0. rewrite Z.add_0_r in H0.
  destruct (Z.eqb_spec (blk i) b) as [E|E].
  { right. exists 0%nat. split; [cbn; congruence|lia]. }
  destruct (IH (i + 1) bl Hk) as [[Hn E']|(j & Hj & E')].
  { intros j y Hy. specialize (Hb (S j) y Hy). rewrite <- Hb. f_equal. lia. }
  - left. split; [set_solver|lia].
  - right. exists (S j). split; [done|lia].
Qed.

Section txn_laws.
Context {C : Type} `{HL : BufCacheLaws C}.
Implicit Types (c : C) (a : astate) (g : log).

(** A transaction is open: [n] operations run and the log holds [bl]. *)
Record open_txn (g : log) (bl : list Z) : Prop := {
  ot_geom : geom g;
  ot_logged : logged g bl;
  ot_out : 1 <= l_outstanding g;
  ot_com : l_committing g = false }.

(** [log_write] of a held buffer: absorbed when the block is in the transaction,
    otherwise the block is pinned and appended. *)
Lemma log_write_ok c a g bl h b :
  bc_rel c a -> open_txn g bl -> a_held a !! h = Some b -> home g b ->
  Z.of_nat (length bl) < l_size g - 1 ->
  wp (log_write h) (LState c g) (fun _ s => exists bl' a' n blk,
    ls_log s = set_lh n blk g /\ bc_rel (ls_cache s) a' /\ open_txn (ls_log s) bl' /\
    (b ∈ bl /\ bl' = bl /\ a' = a \/ (b ∉ bl) /\ bl' = bl ++ [b] /\ a' = a_pin b a)).
Proof.
  intros R [G HLg Ho Hc] Hh Hb Hroom. pose proof (geo_size _ G).
  unfold log_write. apply wp_bind, wp_gets. cbn [ls_log id].
  rewrite (lg_n _ _ HLg). rewrite !Z.geb_leb.
  rewrite (proj2 (Z.leb_gt _ _)) by lia. rewrite (proj2 (Z.leb_gt _ _)) by lia. cbn [orb].
  rewrite (proj2 (Z.ltb_ge _ _)) by lia.
  apply wp_bind, wp_gets. cbn [ls_cache]. destruct (bc_data c a h b R Hh) as [_ ->].
  rewrite Nat2Z.id. apply wp_bind, wp_modify. cbn [ls_log ls_cache set_lh lh_n lh_block].
  destruct (absorb_spec bl (length bl) 0 (lh_block g) b eq_refl) as [[Hn E]|(j & Hj & E)]; [apply HLg| |].
  - rewrite E. cbn [Z.add]. rewrite Z.eqb_refl. apply wp_bind.
    eapply wp_bpin; [done|done|]. intros c' R'. apply wp_modify. cbn.
    exists (bl ++ [b]), (a_pin b a). eexists _, _. split; [done|]. split; [done|]. split; [|by auto].
    split; [by repeat apply geom_set_lh| |done|done]. split; cbn; try done.
    + rewrite (lg_n _ _ HLg), length_app. cbn. lia.
    + intros i x Hi. apply lookup_snoc_Some in Hi as [[Hi Hx]|[-> ->]].
      * rewrite upd_ne by lia. by apply (lg_blk _ _ HLg).
      * apply upd_eq.
    + apply NoDup_app. split_and!; [apply HLg|set_solver|apply NoDup_singleton].
    + apply Forall_app. split; [apply HLg|by apply Forall_singleton].
    + rewrite length_app. cbn. lia.
  - rewrite E. cbn [Z.add]. pose proof (lookup_lt_Some _ _ _ Hj).
    rewrite (proj2 (Z.eqb_neq _ _)) by lia. apply wp_ret. cbn.
    exists bl, a. eexists _, _. split; [done|]. split; [done|]. split; [|left; by eauto using list_elem_of_lookup_2].
    split; [by repeat apply geom_set_lh| |done|done]. destruct HLg as [L1 L2 L3 L4 L5]. split; cbn; try done.
    intros i x Hi. destruct (decide (i = j)) as [->|Hne].
    + rewrite upd_eq. congruence.
    + rewrite upd_ne by lia. by apply L2.
Qed.

Lemma quiet_release bl bl' a h b V D W :
  quiet bl a -> a_held a !! h = None ->
  (b ∈ bl /\ bl' = bl \/ (b ∉ bl) /\ bl' = bl ++ [b]) ->
  let r := refs_inc b (a_refs a) in
  let r' := if decide (b ∈ bl) then r else refs_inc b r in
  (2 <= default 0 (r' !! b))%nat /\
  quiet bl' (AState V D (refs_dec b r') (delete h (<[h := b]> (a_held a))) W).
Proof.
  intros [Qh Qr] Hh Hbl r r'. unfold r', r.
  assert (a_refs a !! b <> Some 0%nat) as Hp by (rewrite Qr; by case_decide).
  destruct Hbl as [[Hb ->]|[Hb ->]].
  - rewrite decide_True by done. split.
    + rewrite refs_inc_lookup, Qr, decide_True by done. simpl. lia.
    + split; cbn; [by rewrite delete_insert_id|]. by rewrite refs_dec_inc.
  - rewrite decide_False by done. split.
    + rewrite !refs_inc_lookup. simpl. lia.
    + split; cbn; [by rewrite delete_insert_id|]. intros x.
      rewrite refs_dec_inc by by rewrite refs_inc_lookup.
      destruct (decide (x = b)) as [->|Hx].
      * rewrite refs_inc_lookup, Qr, decide_False, decide_True by set_solver. done.
      * rewrite refs_inc_lookup_ne, Qr by done. repeat case_decide; set_solver.
Qed.

Lemma txn_write_ok c a g bl b f :
  bc_rel c a -> quiet bl a -> open_txn g bl -> home g b -> Z.of_nat (length bl) < l_size g - 1 ->
  wp (txn_write (l_dev g) b f) (LState c g) (fun _ s => exists bl' a' n blk,
    ls_log s = set_lh n blk g /\ bc_rel (ls_cache s) a' /\ quiet bl' a' /\ open_txn (ls_log s) bl' /\
    a_view a' = upd (a_view a) b (f (a_view a b)) /\ a_disk a' = a_disk a /\ a_writes a' = a_writes a /\
    (b ∈ bl /\ bl' = bl \/ (b ∉ bl) /\ bl' = bl ++ [b])).
Proof.
  intros R Q O Hb Hlen. pose proof (ot_logged _ _ O) as HLg. pose proof (geo_size _ (ot_geom _ _ O)).
  assert (length bl < Z.to_nat NBUF)%nat as Hnb by (unfold LOGSIZE, NBUF, MAXOPBLOCKS in *; lia).
  assert (forall h, a_held a !! h = None) as Hheld by (intros; by rewrite (q_held _ _ Q)).
  unfold txn_write. apply wp_bind.
  eapply (wp_bread_quiet c a g bl); try done; [apply HLg|apply O|apply Hb|].
  intros h c1 R1. apply wp_bind.
  eapply (wp_update c1 _ g h b); [done|cbn; apply lookup_insert_eq|]. intros c2 R2. apply wp_bind.
  eapply wp_mono; [eapply (log_write_ok c2 _ g bl h b); try done; cbn; apply lookup_insert_eq|].
  intros _ [c3 g3] (bl' & a3 & n & blk & Eg & R3 & O3 & Hcase). cbn [ls_log ls_cache] in *. subst g3.
  assert (a_held a3 = <[h := b]> (a_held a) /\ a_view a3 = upd (a_view a) b (f (a_view a b)) /\
          a_disk a3 = a_disk a /\ a_writes a3 = a_writes a /\
          a_refs a3 = (if decide (b ∈ bl) then refs_inc b (a_refs a) else refs_inc b (refs_inc b (a_refs a))))
    as (Eh & Ev & Ed & Ew & Er).
  { destruct Hcase as [(Hin & _ & ->)|(Hin & _ & ->)]; cbn.
    - by rewrite decide_True. - by rewrite decide_False. }
  assert (b ∈ bl /\ bl' = bl \/ (b ∉ bl) /\ bl' = bl ++ [b]) as Hbl by tauto.
  destruct (quiet_release bl bl' a h b (a_view a3) (a_disk a3) (a_writes a3) Q (Hheld h) Hbl) as [H2 Q'].
  rewrite <- Er in H2, Q'.
  eapply (wp_brelse c3 a3 _ h b); [done|rewrite Eh; apply lookup_insert_eq|by right|].
  intros c4 R4. exists bl', (a_release h b a3), n, blk. split_and!; try done.
  unfold a_release. by rewrite Eh.
Qed.

Lemma nodup_length_le (l D : list Z) : NoDup l -> l ⊆ D -> (length l <= length D)%nat.
Proof. intros Hnd Hs. apply submseteq_length, NoDup_submseteq; done. Qed.

Lemma home_set_lh n blk g b : home (set_lh n blk g) b <-> home g b.
Proof. done. Qed.

Lemma txn_writes_ok ws D g0 : forall c a g bl,
  bc_rel c a -> quiet bl a -> open_txn g bl -> (exists n blk, g = set_lh n blk g0) ->
  Forall (fun w => home g0 w.1) ws -> bl ⊆ D -> ws.*1 ⊆ D -> Z.of_nat (length D) < l_size g0 - 1 ->
  wp (txn_writes (l_dev g0) ws) (LState c g) (fun _ s => exists bl' a' n blk,
    ls_log s = set_lh n blk g0 /\ bc_rel (ls_cache s) a' /\ quiet bl' a' /\ open_txn (ls_log s) bl' /\
    a_view a' = apply_writes ws (a_view a) /\ a_disk a' = a_disk a /\ a_writes a' = a_writes a).
Proof.
  induction ws as [|[b f] ws IH]; intros c a g bl R Q O (n & blk & ->) Hh HblD HwD Hlen.
  { apply wp_ret. exists bl, a, n, blk. done. }
  cbn [txn_writes]. pose proof (Forall_inv Hh) as Hb. pose proof (Forall_inv_tail Hh) as Hh'. cbn in Hb.
  assert (length bl <= length D)%nat as Hle by (apply nodup_length_le; [apply O|done]).
  apply wp_bind. eapply wp_mono.
  { change (l_dev g0) with (l_dev (set_lh n blk g0)).
    apply (txn_write_ok c a (set_lh n blk g0) bl b f); try done. cbn. lia. }
  intros _ [c1 g1] (bl1 & a1 & n1 & blk1 & Eg & R1 & Q1 & O1 & Ev & Ed & Ew & Hc). cbn [ls_log ls_cache] in *.
  subst g1. cbn in HwD.
  eapply wp_mono.
  { apply (IH c1 a1 (set_lh n1 blk1 (set_lh n blk g0)) bl1); try done.
    - by exists n1, blk1.
    - destruct Hc as [[_ ->]|[_ ->]]; [done|]. set_solver.
    - set_solver. }
  intros _ s (bl2 & a2 & n2 & blk2 & Eg & R2 & Q2 & O2 & Ev2 & Ed2 & Ew2).
  exists bl2, a2, n2, blk2. split_and!; try done; [|congruence|congruence].
  rewrite Ev2, Ev. done.
Qed.

(** No operation is running and the log is empty, in memory and on disk. *)
Record idle (g : log) (a : astate) : Prop := {
  id_geom : geom g;
  id_logged : logged g [];
  id_out : l_outstanding g = 0;
  id_com : l_committing g = false;
  id_quiet : quiet [] a;
  id_head : hdr_is (a_disk a (l_start g)) [] }.

Lemma idle_clean c a g : bc_rel c a -> idle g a -> forall b, a_view a b = a_disk a b.
Proof.
  intros R I b. apply (bc_clean c); [done|]. by rewrite (q_refs _ _ (id_quiet _ _ I)).
Qed.

Lemma begin_op_ok c g :
  l_committing g = false -> lh_n g + (l_outstanding g + 1) * MAXOPBLOCKS <= LOGSIZE ->
  begin_op (LState c g) = Ret (tt, LState c (set_ops (l_outstanding g + 1) false g)).
Proof.
  intros Hc Ho. unfold begin_op. rewrite bind_run. cbn [get_log gets ls_log id]. rewrite Hc.
  rewrite Z.gtb_ltb, (proj2 (Z.ltb_ge _ _)) by lia.
  unfold mod_log, modify. cbn [ls_log ls_cache]. by rewrite Hc.
Qed.

Lemma end_op_ok c a g bl :
  bc_rel c a -> quiet bl a -> open_txn g bl -> l_outstanding g = 1 -> hdr_is (a_disk a (l_start g)) [] ->
  wp end_op (LState c g) (fun _ s => exists W a',
    (exists n blk, ls_log s = set_ops 0 false (set_lh n blk g)) /\ bc_rel (ls_cache s) a' /\
    idle (ls_log s) a' /\ a_writes a' = a_writes a ++ W /\
    (forall b, home g b -> blk_eq (a_disk a' b) (a_view a b)) /\
    crash_safe g (a_disk a) (a_view a) W).
Proof.
  intros R Q [G HLg Ho Hc] H1 Hh. unfold end_op. apply wp_bind, wp_modify. cbn [ls_log ls_cache].
  apply wp_bind, wp_gets. cbn. rewrite Hc, H1. cbn. apply wp_bind, wp_modify. cbn.
  set (g1 := set_ops 0 true g). apply wp_bind.
  destruct (decide (bl = [])) as [->|Hne].
  - assert (commit (LState c g1) = Ret (tt, LState c g1)) as E.
    { unfold commit. rewrite bind_run. cbn. by rewrite (lg_n _ _ HLg). }
    exists tt, (LState c g1). split; [done|]. apply wp_modify. cbn.
    assert (forall b, a_view a b = a_disk a b) as Hcl.
    { intros b. apply (bc_clean c); [done|]. by rewrite (q_refs _ _ Q). }
    exists [], a. split_and!; try done.
    + exists (lh_n g), (lh_block g). done.
    + destruct G, HLg. by split.
    + by rewrite app_nil_r.
    + intros b _. by rewrite Hcl.
    + intros k c0 g0 R0 SP. rewrite take_nil in R0. cbn in R0.
      eapply wp_mono; [apply (recover_empty c0 g (a_disk a) g0 R0 SP G); by apply empty_log|].
      intros _ s (a1 & R1 & Hh1 & Heq). exists a1. split_and!; try done. right.
      intros b Hb. by rewrite Heq, Hcl.
  - eapply wp_mono; [apply (commit_crash c a g1 bl); try done; by destruct G, HLg|].
    intros _ [c2 g2] (W & a' & (blk & Eg) & R2 & Q2 & Ew & Hh2 & Hv & Hcs). cbn [ls_log ls_cache] in *. subst g2.
    apply wp_modify. cbn. exists W, a'. split_and!; try done.
    + by exists 0, blk.
    + split; try done; [by destruct G|]. apply (logged_nil (set_ops 0 false g)). cbn. apply G.
Qed.

Lemma crash_safe_ext g g' d v v' W :
  same_place g g' -> (forall b, v b = v' b) -> crash_safe g d v W -> crash_safe g' d v' W.
Proof.
  intros SP Hv Hc k c0 g0 R0 SP0. pose proof SP as (E1 & E2 & E3).
  assert (same_place g0 g) as SP1 by (destruct SP0 as (? & ? & ?); split_and!; congruence).
  eapply wp_mono; [by apply (Hc k c0 g0)|].
  intros _ s (a1 & R1 & Hh & [[Ho Hk]|Hn]); exists a1; rewrite <- E1; split_and!; try done; [left|right].
  - split; [|done]. intros b Hb. apply Ho. by eapply same_place_home.
  - intros b Hb. rewrite <- Hv. apply Hn. by eapply same_place_home.
Qed.

Lemma apply_writes_ext ws v v' : (forall b, v b = v' b) -> forall b, apply_writes ws v b = apply_writes ws v' b.
Proof.
  revert v v'. induction ws as [|[x f] ws IH]; intros v v' Hv b; [apply Hv|]. cbn.
  apply IH. intros y. unfold upd. by rewrite !Hv.
Qed.

(** C1. A transaction is atomic, durable and isolated from crashes.  From an
    idle log, [begin_op], any sequence of [bread]/modify/[log_write]/[brelse]
    of blocks outside the log that touches fewer than [log.size - 1] distinct
    blocks, and [end_op] return; afterwards the disk holds the result of the
    writes and the log is idle again; and after a crash at any point of the
    device writes, recovery produces all of the old contents or all of the
    new contents. *)
Theorem txn_atomic c a g ws :
  bc_rel c a -> idle g a -> Forall (fun w => home g w.1) ws ->
  Z.of_nat (size (list_to_set ws.*1 : gset Z)) < l_size g - 1 ->
  exists c' g' a' W,
    txn (l_dev g) ws (LState c g) = Ret (tt, LState c' g') /\
    bc_rel c' a' /\ idle g' a' /\ same_place g' g /\
    (forall b, home g b -> blk_eq (a_disk a' b) (apply_writes ws (a_disk a) b)) /\
    bwrites c' = bwrites c ++ W /\ crash_safe g (a_disk a) (apply_writes ws (a_disk a)) W.
Proof.
  intros R I Hh Hsz. pose proof (idle_clean c a g R I) as Hcl.
  destruct I as [G HLg Ho Hc Q Hhd]. set (D := remove_dups ws.*1).
  assert (length D = size (list_to_set ws.*1 : gset Z)) as HD.
  { unfold D. rewrite <- (size_list_to_set (C := gset Z)) by apply NoDup_remove_dups. f_equal.
    apply set_eq. intros x. rewrite !elem_of_list_to_set, elem_of_remove_dups. done. }
  assert (lh_n g + (l_outstanding g + 1) * MAXOPBLOCKS <= LOGSIZE) as HB by by rewrite (lg_n _ _ HLg), Ho.
  unfold txn. rewrite (bind_Ret _ _ _ _ _ (begin_op_ok c g Hc HB)). rewrite Ho.
  set (g1 := set_ops (0 + 1) false g).
  destruct (txn_writes_ok ws D g1 c a g1 []) as ([] & [c2 g2] & E2 & bl & a2 & n & blk & Eg & R2 & Q2 & O2 & Ev & Ed & Ew);
    try done.
  { split; [by destruct G|by destruct HLg|done|done]. }
  { by exists (lh_n g), (lh_block g). }
  { set_solver. }
  { intros x Hx. by apply elem_of_remove_dups. }
  { cbn. lia. }
  cbn [ls_log ls_cache] in *. subst g2. change (l_dev g) with (l_dev g1).
  rewrite (bind_Ret _ _ _ _ _ E2).
  destruct (end_op_ok c2 a2 (set_lh n blk g1) bl R2 Q2 O2) as ([] & [c3 g3] & E3 & W & a3 & (n3 & blk3 & Eg) & R3 & I3 & Ew3 & Hv & Hcs).
  { done. } { by rewrite Ed. }
  cbn [ls_log ls_cache] in *. subst g3. eexists c3, _, a3, W. split; [exact E3|].
  split_and!; try done.
  - intros b Hb. rewrite (Hv b Hb), Ev. by rewrite (apply_writes_ext ws _ _ Hcl).
  - rewrite (bc_writes _ _ R3), (bc_writes _ _ R), Ew3. by rewrite Ew.
  - rewrite <- Ed. eapply crash_safe_ext; [|intros b|exact Hcs]; [done|].
    rewrite Ev, Ed. by apply apply_writes_ext.
Qed.

End txn_laws.

