(* ===== verification/Stack.v ===== *)
(** The log running on the buffer cache: instances of the theorems of Log.v at
    the implementation of Bio.v. *)
From S2P Require Import Prelude Riscv Memory Locks Blocks Bio Log.

(** The log record mkfs's superblock describes. *)
Definition log0 : log := Log 2 LOGSIZE 0 false ROOTDEV 0 (fun _ => 0).

Lemma geom_log0 : geom log0.
Proof. split; vm_compute; intuition discriminate. Qed.
Lemma hdr_blank : hdr_is (blank 2) [].
Proof. split; [by vm_compute|done]. Qed.
Lemma idle_log0 : idle log0 (a_init blank).
Proof.
  split; [apply geom_log0| |done|done|apply quiet_init|apply hdr_blank].
  apply (logged_nil log0). by vm_compute.
Qed.
Lemma home_log0 b : 32 <= b < SWAPBASE -> home log0 b.
Proof. intros Hb. unfold home, in_log. cbn. unfold LOGSIZE, MAXOPBLOCKS. lia. Qed.

Definition two_writes : list (Z * (mem -> mem)) :=
  [(100, fun m => st8 m 0 7); (101, fun m => st8 m 3 9); (100, fun m => st8 m 1 8)].

Lemma txn_atomic_witness :
  exists c c' g' a' W, binit (bss_bcache blank) = Ret c /\
    @txn _ (bio_cache 1) ROOTDEV two_writes (LState c log0) = Ret (tt, LState c' g') /\
    ld8 (a_disk a' 100) 1 = 8 /\
    @crash_safe _ _ (bio_cache_laws 1) log0 blank (apply_writes two_writes blank) W.
Proof.
  destruct (binit_ok 1 blank) as (c & Ec & R).
  destruct (@txn_atomic _ _ (bio_cache_laws 1) c (a_init blank) log0 two_writes R)
    as (c' & g' & a' & W & E & R' & I' & _ & Hd & _ & Hcs).
  - apply idle_log0.
  - repeat (apply Forall_cons; split; [apply home_log0; vm_compute; intuition discriminate|]). apply Forall_nil_2.
  - by vm_compute.
  - exists c, c', g', a', W. split; [exact Ec|]. split; [exact E|]. split; [|exact Hcs].
    transitivity (ld8 (apply_writes two_writes blank 100) 1); [|by vm_compute].
    apply (Hd 100); [apply home_log0|]; unfold SWAPBASE, BSIZE; lia.
Defined.


