(* ===== verification/Kmem.v ===== *)
(** Physical memory, the user page tables and swapping: the page allocator of
    kernel/kalloc.c, the page-table walk and the swap code of kernel/vm.c, and
    the transfer of pages to the swap area of kernel/fs.c.

    These call each other in a cycle in the source (an allocation may swap a
    page out, which walks a page table, and a walk may allocate), so they are
    one file.  [end], the first address after the kernel, is a parameter. *)
From S2P Require Import Prelude Riscv Memory Lru Blocks.

(** The globals: memory, [kmem.freelist] (0 is the null pointer), the list of
    resident pages, [swap_bitmap] and [swap_slots], the buffer cache, and the
    transfer counters. *)
Record vm (C : Type) := Vm {
  v_mem : mem;
  v_free : Z;
  v_lru : lru;
  v_bitmap : Z;
  v_slots : Z;
  v_cache : C;
  v_nread : Z;
  v_nwrite : Z }.
Arguments Vm {C} _ _ _ _ _ _ _ _.
Arguments v_mem {C} _.
Arguments v_free {C} _.
Arguments v_lru {C} _.
Arguments v_bitmap {C} _.
Arguments v_slots {C} _.
Arguments v_cache {C} _.
Arguments v_nread {C} _.
Arguments v_nwrite {C} _.

Section setters.
Context {C : Type}.
Implicit Types (s : vm C).
Definition set_mem (m : mem) s : vm C :=
  Vm m (v_free s) (v_lru s) (v_bitmap s) (v_slots s) (v_cache s) (v_nread s) (v_nwrite s).
Definition set_free (p : Z) s : vm C :=
  Vm (v_mem s) p (v_lru s) (v_bitmap s) (v_slots s) (v_cache s) (v_nread s) (v_nwrite s).
Definition set_lru (l : lru) s : vm C :=
  Vm (v_mem s) (v_free s) l (v_bitmap s) (v_slots s) (v_cache s) (v_nread s) (v_nwrite s).
Definition set_swap (bm n : Z) s : vm C :=
  Vm (v_mem s) (v_free s) (v_lru s) bm n (v_cache s) (v_nread s) (v_nwrite s).
Definition set_cache (c : C) s : vm C :=
  Vm (v_mem s) (v_free s) (v_lru s) (v_bitmap s) (v_slots s) c (v_nread s) (v_nwrite s).
Definition set_counts (r w : Z) s : vm C :=
  Vm (v_mem s) (v_free s) (v_lru s) (v_bitmap s) (v_slots s) (v_cache s) r w.

(** Loads and stores of the running kernel. *)
Definition rd64 (a : Z) : M (vm C) Z := gets (fun s => ld64 (v_mem s) a).
Definition wr64 (a v : Z) : M (vm C) unit := modify (fun s => set_mem (st64 (v_mem s) a v) s).
Definition kmemset (dst c n : Z) : M (vm C) unit := modify (fun s => set_mem (mfill (v_mem s) dst c n) s).
Definition kmemmove (dst src n : Z) : M (vm C) unit :=
  modify (fun s => set_mem (mcopy (v_mem s) dst src n) s).

Definition vcache {A} (m : M C A) : M (vm C) A := fun s =>
  match m (v_cache s) with
  | Ret (a, c) => Ret (a, set_cache c s)
  | Panic e => Panic e
  | Blocked => Blocked
  | NoFuel => NoFuel
  end.
Definition on_lru (f : lru -> outcome lru) : M (vm C) unit := fun s =>
  l ← f (v_lru s); Ret (tt, set_lru l s).
End setters.

(** [swap_bitmap\[byte\] & (1 << bit)] and the updates of the bit. *)
Definition slot_byte (idx : Z) : Z := Z.quot idx 8.
Definition slot_bit (idx : Z) : Z := Z.shiftl 1 (Z.rem idx 8).
Definition slot_used (m : mem) (bm idx : Z) : bool := nz (Z.land (ld8 m (bm + slot_byte idx)) (slot_bit idx)).
Definition slot_mark (bm idx : Z) (m : mem) : mem :=
  st8 m (bm + slot_byte idx) (Z.lor (ld8 m (bm + slot_byte idx)) (slot_bit idx)).
Definition slot_clear (bm idx : Z) (m : mem) : mem :=
  st8 m (bm + slot_byte idx) (Z.land (ld8 m (bm + slot_byte idx)) (Z.lnot (slot_bit idx))).

(** Copies between memory and a buffer ([either_copyin] and [either_copyout]
    with a kernel address are [memmove]). *)
Definition mem_to_blk (m : mem) (a : Z) (d : mem) : mem :=
  fun i => if (0 <=? i) && (i <? BSIZE) then ld8 m (a + i) else d i.
Definition blk_to_mem (d : mem) (a : Z) (m : mem) : mem :=
  fun x => if (a <=? x) && (x <? a + BSIZE) then ld8 d (x - a) else m x.

Definition BLKS_PER_PG : Z := PGSIZE / BSIZE.
Definition page_to_pa (idx : Z) : Z := KERNBASE + idx * PGSIZE.

Section kmem.
Context {C : Type} `{BufCache C}.
Context (kend : Z).

Definition pa2pageidx (pa : Z) : M (vm C) Z :=
  if (pa <? KERNBASE) || (pa >=? PHYSTOP) then panic "pa2pageidx: pa out of range"
  else mret ((pa - KERNBASE) / PGSIZE).

(** * Swap slots *)
Definition alloc_swap_slot : M (vm C) Z :=
  n ← gets v_slots;
  for_ret (seqZ 0 n)
    (fun i =>
       used ← gets (fun s => slot_used (v_mem s) (v_bitmap s) i);
       if negb used
       then _ ← modify (fun s => set_mem (slot_mark (v_bitmap s) i (v_mem s)) s); mret (Some i)
       else mret None)
    (mret (-1)).

Definition free_swap_slot (idx : Z) : M (vm C) unit :=
  modify (fun s => set_mem (slot_clear (v_bitmap s) idx (v_mem s)) s).

(** * Page transfers (fs.c) *)
Definition slot_block (slot i : Z) : Z := SWAPBASE + BLKS_PER_PG * slot + i.

Definition swapread (pa slot : Z) : M (vm C) unit :=
  if (slot <? 0) || (slot >=? SWAPMAX / BLKS_PER_PG) then panic "swapread: slot exceeded range"
  else for_each (seqZ 0 BLKS_PER_PG) (fun i =>
    _ ← modify (fun s => set_counts (v_nread s + 1) (v_nwrite s) s);
    bp ← vcache (bread 0 (slot_block slot i));
    _ ← modify (fun s => set_mem (blk_to_mem (bdata (v_cache s) bp) (pa + i * BSIZE) (v_mem s)) s);
    vcache (brelse bp)).

Definition swapwrite (pa slot : Z) : M (vm C) unit :=
  if (slot <? 0) || (slot >=? SWAPMAX / BLKS_PER_PG) then panic "swapwrite: slot exceeded range"
  else for_each (seqZ 0 BLKS_PER_PG) (fun i =>
    _ ← modify (fun s => set_counts (v_nread s) (v_nwrite s + 1) s);
    bp ← vcache (bread 0 (slot_block slot i));
    _ ← modify (fun s => set_cache (bupdate bp (mem_to_blk (v_mem s) (pa + i * BSIZE)) (v_cache s)) s);
    _ ← vcache (bwrite bp);
    vcache (brelse bp)).

(** * Page tables *)
(** [walk] with the allocator it calls; 0 is the null pointer. *)
Fixpoint walk_from (ka : M (vm C) Z) (levels : list Z) (pagetable va : Z) (alloc : bool) : M (vm C) Z :=
  match levels with
  | [] => mret (pagetable + 8 * PX 0 va)
  | level :: rest =>
    let pte := pagetable + 8 * PX level va in
    e ← rd64 pte;
    if flag_set e PTE_V then walk_from ka rest (PTE2PA e) va alloc
    else if negb alloc then mret 0
    else
      p ← ka;
      if p =? 0 then mret 0
      else
        _ ← kmemset p 0 PGSIZE;
        _ ← wr64 pte (Z.lor (PA2PTE p) PTE_V);
        walk_from ka rest p va alloc
  end.
Definition walk_with (ka : M (vm C) Z) (pagetable va : Z) (alloc : bool) : M (vm C) Z :=
  if va >=? MAXVA then panic "walk" else walk_from ka [2; 1] pagetable va alloc.
(** [walk(pagetable, va, 0)] never allocates. *)
Definition walk0 (pagetable va : Z) : M (vm C) Z := walk_with (mret 0) pagetable va false.

(** * Allocation *)
Definition kfree (pa : Z) : M (vm C) unit :=
  if negb (pa mod PGSIZE =? 0) || (pa <? kend) || (pa >=? PHYSTOP) then panic "kfree"
  else
    _ ← kmemset pa 1 PGSIZE;
    f ← gets v_free;
    _ ← wr64 pa f;
    modify (set_free pa).

(** The scan for a victim.  Its bound is an argument: each step either leaves a
    page that is not valid behind, gives a page its second chance or ends. *)
Fixpoint clock (fuel : nat) (cand : Z) : M (vm C) Z :=
  match fuel with
  | O => nofuel
  | S fuel =>
    pg ← gets (fun s => pages (v_lru s) cand);
    pte ← walk0 (pg_pagetable pg) (pg_vaddr pg);
    if pte =? 0 then panic "swapout: no pte"
    else
      e ← rd64 pte;
      if negb (flag_set e PTE_V) then
        match pg_next pg with Some n => clock fuel n | None => panic "kerneltrap" end
      else if flag_set e PTE_A then
        _ ← wr64 pte (Z.land e (Z.lnot PTE_A));
        _ ← modify (fun s => set_lru (set_tail (Some cand) (set_head (pg_next pg) (v_lru s))) s);
        match pg_next pg with Some n => clock fuel n | None => panic "kerneltrap" end
      else mret cand
  end.

Definition swapout (fuel : nat) : M (vm C) Z :=
  h ← gets (fun s => lru_head (v_lru s));
  match h with
  | None => mret (-1)
  | Some head =>
    victim ← clock fuel head;
    _ ← on_lru (lru_remove victim);
    slot ← alloc_swap_slot;
    if slot <? 0 then _ ← on_lru (lru_add victim); mret (-1)
    else
      let pa := page_to_pa victim in
      _ ← swapwrite pa slot;
      pg ← gets (fun s => pages (v_lru s) victim);
      pte ← walk0 (pg_pagetable pg) (pg_vaddr pg);
      if pte =? 0 then panic "swapout: pte vanished"
      else
        e ← rd64 pte;
        let flags := Z.land (Z.land (PTE_FLAGS e) (Z.lnot PTE_V)) (Z.lnot PTE_A) in
        _ ← wr64 pte (Z.lor (Z.lor (Z.shiftl slot 10) flags) PTE_SWAPPED);
        _ ← kfree pa;
        _ ← modify (fun s => set_lru (upd_page victim (set_owner 0 0) (v_lru s)) s);
        mret 0
  end.

(** The loop of [kalloc]: a successful [swapout] has put a page on the list, so
    the second round succeeds. *)
Fixpoint kalloc_loop (fuel rounds : nat) : M (vm C) Z :=
  match rounds with
  | O => nofuel
  | S rounds =>
    r ← gets v_free;
    if nz r then
      next ← rd64 r;
      _ ← modify (set_free next);
      mret r
    else
      x ← swapout fuel;
      if x <? 0 then mret 0 else kalloc_loop fuel rounds
  end.
Definition kalloc (fuel : nat) : M (vm C) Z :=
  r ← kalloc_loop fuel 2;
  if nz r then _ ← kmemset r 5 PGSIZE; mret r else mret 0.

Definition freerange (pa_start pa_end : Z) : M (vm C) unit :=
  let p := PGROUNDUP pa_start in
  for_each ((fun k => p + k * PGSIZE) <$> seqZ 0 ((pa_end - p) / PGSIZE)) kfree.
Definition kinit : M (vm C) unit := freerange kend PHYSTOP.

Definition swapinit (fuel : nat) : M (vm C) unit :=
  bm ← kalloc fuel;
  if bm =? 0 then panic "swapinit"
  else
    _ ← kmemset bm 0 PGSIZE;
    modify (set_swap bm (SWAPMAX / BLKS_PER_PG)).
End kmem.
