(* ===== verification/Vm.v ===== *)
(** The rest of kernel/vm.c: mapping, growing, shrinking, copying and freeing
    user address spaces, copies between user and kernel memory, swapping a page
    back in, and the kernel's own page table. *)
From S2P Require Import Prelude Riscv Memory Lru Blocks Kmem.

Definition UART0 : Z := 0x10000000.
Definition VIRTIO0 : Z := 0x10001000.
Definition PLIC : Z := 0x0c000000.

(** The addresses [a, a + PGSIZE, ...] of [n] pages. *)
Definition page_range (a n : Z) : list Z := (fun k => a + k * PGSIZE) <$> seqZ 0 n.
(** The number of iterations of [for(i = 0; i < sz; i += PGSIZE)]. *)
Definition npages (sz : Z) : Z := (sz + PGSIZE - 1) / PGSIZE.

Section vm.
Context {C : Type} `{BufCache C}.
Context (kend : Z) (fuel : nat).

Definition walk (pagetable va : Z) (alloc : bool) : M (vm C) Z :=
  walk_with (kalloc kend fuel) pagetable va alloc.

Definition walkaddr (pagetable va : Z) : M (vm C) Z :=
  if va >=? MAXVA then mret 0
  else
    pte ← walk pagetable va false;
    if pte =? 0 then mret 0
    else
      e ← rd64 pte;
      if negb (flag_set e PTE_V) then mret 0
      else if negb (flag_set e PTE_U) then mret 0
      else mret (PTE2PA e).

(** The body of [mappages] for one page; [Some] is the return value of an early
    return. *)
Definition map_one (pagetable a pa perm : Z) : M (vm C) (option Z) :=
  pte ← walk pagetable a true;
  if pte =? 0 then mret (Some (-1))
  else
    e ← rd64 pte;
    if flag_set e PTE_V then panic "mappages: remap"
    else _ ← wr64 pte (Z.lor (Z.lor (PA2PTE pa) perm) PTE_V); mret None.
Definition mappages (pagetable va size pa perm : Z) : M (vm C) Z :=
  if negb (va mod PGSIZE =? 0) then panic "mappages: va not aligned"
  else if negb (size mod PGSIZE =? 0) then panic "mappages: size not aligned"
  else if size =? 0 then panic "mappages: size"
  else for_ret (page_range va (size / PGSIZE))
         (fun a => map_one pagetable a (pa + (a - va)) perm) (mret 0).

Definition kvmmap (kpgtbl va pa sz perm : Z) : M (vm C) unit :=
  r ← mappages kpgtbl va sz pa perm;
  if negb (r =? 0) then panic "kvmmap" else mret tt.

(** The body of [uvmunmap] for one page. *)
Definition unmap_one (pagetable a : Z) (do_free : bool) : M (vm C) unit :=
  pte ← walk pagetable a false;
  if pte =? 0 then panic "uvmunmap: walk"
  else
    e ← rd64 pte;
    if negb (flag_set e PTE_V) then
      if flag_set e PTE_SWAPPED then
        _ ← (if do_free then free_swap_slot (s32 (PTE2PA e / PGSIZE)) else mret tt);
        wr64 pte 0
      else panic "uvmunmap: not mapped"
    else if PTE_FLAGS e =? PTE_V then panic "uvmunmap: not leaf"
    else
      _ ← (if do_free then
             let pa := PTE2PA e in
             idx ← pa2pageidx pa;
             _ ← on_lru (lru_remove idx);
             kfree kend pa
           else mret tt);
      wr64 pte 0.
Definition uvmunmap (pagetable va n : Z) (do_free : bool) : M (vm C) unit :=
  for_each (page_range va n) (fun a => unmap_one pagetable a do_free).

Definition uvmcreate : M (vm C) Z :=
  pagetable ← kalloc kend fuel;
  if pagetable =? 0 then mret 0
  else _ ← kmemset pagetable 0 PGSIZE; mret pagetable.

Definition uvmfirst (pagetable src sz : Z) : M (vm C) unit :=
  if sz >=? PGSIZE then panic "uvmfirst: more than a page"
  else
    mem ← kalloc kend fuel;
    _ ← kmemset mem 0 PGSIZE;
    _ ← mappages pagetable 0 PGSIZE mem (Z.lor (Z.lor (Z.lor PTE_W PTE_R) PTE_X) PTE_U);
    kmemmove mem src sz.

Definition uvmdealloc (pagetable oldsz newsz : Z) : M (vm C) Z :=
  if newsz >=? oldsz then mret oldsz
  else
    _ ← (if PGROUNDUP newsz <? PGROUNDUP oldsz
         then uvmunmap pagetable (PGROUNDUP newsz) (s32 ((PGROUNDUP oldsz - PGROUNDUP newsz) / PGSIZE)) true
         else mret tt);
    mret newsz.

(** Recording the owner of a frame and adding it to the list. *)
Definition lru_register (pa pagetable va : Z) : M (vm C) unit :=
  idx ← pa2pageidx pa;
  _ ← modify (fun s => set_lru (upd_page idx (set_owner pagetable va) (v_lru s)) s);
  on_lru (lru_add idx).

Definition uvmalloc (pagetable oldsz newsz xperm : Z) : M (vm C) Z :=
  if newsz <? oldsz then mret oldsz
  else
    let oldsz := PGROUNDUP oldsz in
    for_ret (page_range oldsz (npages (newsz - oldsz)))
      (fun a =>
         mem ← kalloc kend fuel;
         if mem =? 0 then _ ← uvmdealloc pagetable a oldsz; mret (Some 0)
         else
           _ ← kmemset mem 0 PGSIZE;
           r ← mappages pagetable a PGSIZE mem (Z.lor (Z.lor PTE_R PTE_U) xperm);
           if negb (r =? 0) then
             _ ← kfree kend mem; _ ← uvmdealloc pagetable a oldsz; mret (Some 0)
           else _ ← lru_register mem pagetable a; mret None)
      (mret newsz).

(** Recursion is on the number of levels below. *)
Fixpoint freewalk (depth : nat) (pagetable : Z) : M (vm C) unit :=
  match depth with
  | O => nofuel
  | S depth =>
    _ ← for_each (seqZ 0 512) (fun i =>
          pte ← rd64 (pagetable + 8 * i);
          if flag_set pte PTE_V && negb (nz (Z.land pte (Z.lor (Z.lor PTE_R PTE_W) PTE_X))) then
            _ ← freewalk depth (PTE2PA pte);
            wr64 (pagetable + 8 * i) 0
          else if flag_set pte PTE_V then panic "freewalk: leaf"
          else mret tt);
    kfree kend pagetable
  end.
Definition uvmfree (pagetable sz : Z) : M (vm C) unit :=
  _ ← (if sz >? 0 then uvmunmap pagetable 0 (PGROUNDUP sz / PGSIZE) true else mret tt);
  freewalk 3 pagetable.

(** Mapping the child's copy [mem] of page [i]; [Some] is the value returned on
    the error path. *)
Definition copy_map (new i mem flags : Z) : M (vm C) (option Z) :=
  r ← mappages new i PGSIZE mem flags;
  if negb (r =? 0) then
    _ ← kfree kend mem; _ ← uvmunmap new 0 (i / PGSIZE) true; mret (Some (-1))
  else _ ← lru_register mem new i; mret None.
Definition uvmcopy (old new sz : Z) : M (vm C) Z :=
  for_ret (page_range 0 (npages sz))
    (fun i =>
       pte ← walk old i false;
       if pte =? 0 then panic "uvmcopy: pte should exist"
       else
         e ← rd64 pte;
         if flag_set e PTE_V then
           let pa := PTE2PA e in
           let flags := PTE_FLAGS e in
           mem ← kalloc kend fuel;
           if mem =? 0 then _ ← uvmunmap new 0 (i / PGSIZE) true; mret (Some (-1))
           else
             _ ← kmemmove mem pa PGSIZE;
             copy_map new i mem flags
         else if flag_set e PTE_SWAPPED then
           let slot := s32 (PTE2PA e / PGSIZE) in
           let flags := Z.land (PTE_FLAGS e) (Z.lnot PTE_SWAPPED) in
           mem ← kalloc kend fuel;
           if mem =? 0 then _ ← uvmunmap new 0 (i / PGSIZE) true; mret (Some (-1))
           else
             _ ← swapread mem slot;
             copy_map new i mem (Z.lor flags PTE_V)
         else panic "uvmcopy: page not present")
    (mret 0).

Definition uvmclear (pagetable va : Z) : M (vm C) unit :=
  pte ← walk pagetable va false;
  if pte =? 0 then panic "uvmclear"
  else e ← rd64 pte; wr64 pte (Z.land e (Z.lnot PTE_U)).

(** Copies between kernel and user memory.  Each round ends at a page boundary,
    so [len / PGSIZE + 3] rounds, the last of which
    only finds nothing left, are enough. *)
Definition copy_rounds (len : Z) : nat := Z.to_nat (len / PGSIZE + 3).
Fixpoint copyout_loop (rounds : nat) (pagetable dstva src len : Z) : M (vm C) Z :=
  match rounds with
  | O => nofuel
  | S rounds =>
    if negb (len >? 0) then mret 0
    else
      let va0 := PGROUNDDOWN dstva in
      if va0 >=? MAXVA then mret (-1)
      else
        pte ← walk pagetable va0 false;
        if pte =? 0 then mret (-1)
        else
          e ← rd64 pte;
          if negb (flag_set e PTE_V) || negb (flag_set e PTE_U) || negb (flag_set e PTE_W) then mret (-1)
          else
            let pa0 := PTE2PA e in
            let n := Z.min (PGSIZE - (dstva - va0)) len in
            _ ← kmemmove (pa0 + (dstva - va0)) src n;
            copyout_loop rounds pagetable (va0 + PGSIZE) (src + n) (len - n)
  end.
Definition copyout (pagetable dstva src len : Z) : M (vm C) Z :=
  copyout_loop (copy_rounds len) pagetable dstva src len.

Fixpoint copyin_loop (rounds : nat) (pagetable dst srcva len : Z) : M (vm C) Z :=
  match rounds with
  | O => nofuel
  | S rounds =>
    if negb (len >? 0) then mret 0
    else
      let va0 := PGROUNDDOWN srcva in
      pa0 ← walkaddr pagetable va0;
      if pa0 =? 0 then mret (-1)
      else
        let n := Z.min (PGSIZE - (srcva - va0)) len in
        _ ← kmemmove dst (pa0 + (srcva - va0)) n;
        copyin_loop rounds pagetable (dst + n) (va0 + PGSIZE) (len - n)
  end.
Definition copyin (pagetable dst srcva len : Z) : M (vm C) Z :=
  copyin_loop (copy_rounds len) pagetable dst srcva len.

(** The inner loop of [copyinstr] over [n] bytes of one page: whether a NUL was
    copied. *)
Fixpoint copy_str (n : nat) (dst p : Z) : M (vm C) bool :=
  match n with
  | O => mret false
  | S n =>
    b ← gets (fun s => ld8 (v_mem s) p);
    if b =? 0 then _ ← modify (fun s => set_mem (st8 (v_mem s) dst 0) s); mret true
    else
      _ ← modify (fun s => set_mem (st8 (v_mem s) dst b) s);
      copy_str n (dst + 1) (p + 1)
  end.
Fixpoint copyinstr_loop (rounds : nat) (pagetable dst srcva max : Z) : M (vm C) Z :=
  match rounds with
  | O => nofuel
  | S rounds =>
    if negb (max >? 0) then mret (-1)
    else
      let va0 := PGROUNDDOWN srcva in
      pa0 ← walkaddr pagetable va0;
      if pa0 =? 0 then mret (-1)
      else
        let n := Z.min (PGSIZE - (srcva - va0)) max in
        got_null ← copy_str (Z.to_nat n) dst (pa0 + (srcva - va0));
        if got_null : bool then mret 0
        else copyinstr_loop rounds pagetable (dst + n) (va0 + PGSIZE) (max - n)
  end.
Definition copyinstr (pagetable dst srcva max : Z) : M (vm C) Z :=
  copyinstr_loop (copy_rounds max) pagetable dst srcva max.

Definition swapin (pagetable va : Z) : M (vm C) Z :=
  let va := PGROUNDDOWN va in
  pte ← walk pagetable va false;
  if pte =? 0 then mret (-1)
  else
    e ← rd64 pte;
    if negb (flag_set e PTE_SWAPPED) || flag_set e PTE_V then mret (-1)
    else
      let slot := s32 (PTE2PA e / PGSIZE) in
      pa ← kalloc kend fuel;
      if pa =? 0 then mret (-1)
      else
        _ ← swapread pa slot;
        _ ← free_swap_slot slot;
        e ← rd64 pte;
        let flags := Z.land (PTE_FLAGS e) (Z.lnot PTE_SWAPPED) in
        _ ← wr64 pte (Z.lor (Z.lor (PA2PTE pa) flags) PTE_V);
        _ ← lru_register pa pagetable va;
        mret 0.

(** proc.c [proc_mapstacks]: a stack page for each process slot. *)
Definition proc_mapstacks (kpgtbl : Z) : M (vm C) unit :=
  for_each (seqZ 0 NPROC) (fun p =>
    pa ← kalloc kend fuel;
    if pa =? 0 then panic "kalloc"
    else kvmmap kpgtbl (KSTACK p) pa PGSIZE (Z.lor PTE_R PTE_W)).

(** [etext] and [trampoline] are addresses the linker chooses. *)
Definition kvmmake (etext trampoline : Z) : M (vm C) Z :=
  kpgtbl ← kalloc kend fuel;
  _ ← kmemset kpgtbl 0 PGSIZE;
  _ ← kvmmap kpgtbl UART0 UART0 PGSIZE (Z.lor PTE_R PTE_W);
  _ ← kvmmap kpgtbl VIRTIO0 VIRTIO0 PGSIZE (Z.lor PTE_R PTE_W);
  _ ← kvmmap kpgtbl PLIC PLIC 0x4000000 (Z.lor PTE_R PTE_W);
  _ ← kvmmap kpgtbl KERNBASE KERNBASE (etext - KERNBASE) (Z.lor PTE_R PTE_X);
  _ ← kvmmap kpgtbl etext etext (PHYSTOP - etext) (Z.lor PTE_R PTE_W);
  _ ← kvmmap kpgtbl TRAMPOLINE trampoline PGSIZE (Z.lor PTE_R PTE_X);
  _ ← proc_mapstacks kpgtbl;
  mret kpgtbl.
End vm.
