(* ===== verification/SwapIO.v ===== *)
(** Transfers of pages to and from the swap area: [swapwrite] and [swapread] of
    kernel/fs.c over any cache with the promises of Blocks.v. *)
From S2P Require Import Prelude Riscv Memory Lru Blocks Kmem.

(** The contents of a slot as one page. *)
Definition slot_ld8 (v : Z -> mem) (slot i : Z) : Z :=
  ld8 (v (slot_block slot (i / BSIZE))) (i mod BSIZE).

(** The cache can serve the swap area: nothing is held, no swap block is in use
    and a buffer is free. *)
Record swap_ready (a : astate) : Prop := {
  sr_held : a_held a = ∅;
  sr_refs : forall b, SWAPBASE <= b -> a_refs a !! b = None;
  sr_room : (size (a_refs a) < Z.to_nat NBUF)%nat }.

Definition slot_ok (slot : Z) : Prop := 0 <= slot < SWAPMAX / BLKS_PER_PG.

Lemma slot_block_range slot i :
  slot_ok slot -> 0 <= i < 4 -> SWAPBASE <= slot_block slot i < FSSIZE.
Proof.
  unfold slot_ok, slot_block. change (SWAPMAX / BLKS_PER_PG) with 7000. change BLKS_PER_PG with 4.
  change SWAPBASE with 2000. change FSSIZE with 30000. lia.
Qed.
Lemma slot_block_inj slot i slot' i' :
  0 <= i < 4 -> 0 <= i' < 4 -> slot_block slot i = slot_block slot' i' -> slot = slot' /\ i = i'.
Proof. unfold slot_block. change BLKS_PER_PG with 4. change SWAPBASE with 2000. lia. Qed.
Lemma blkdev_slot slot i : slot_ok slot -> 0 <= i < 4 -> blkdev (slot_block slot i) = 0.
Proof. intros Hs Hi. pose proof (slot_block_range _ _ Hs Hi). unfold blkdev. by bools. Qed.
Lemma slot_guard slot : slot_ok slot -> (slot <? 0) || (slot >=? SWAPMAX / BLKS_PER_PG) = false.
Proof. unfold slot_ok. intros H. rewrite Z.geb_leb. by bools. Qed.

Section swapio.
Context {C : Type} `{HL : BufCacheLaws C}.
Implicit Types (s : vm C) (a : astate).

Lemma wp_vcache {A} (m : M C A) s Q :
  (exists r c', m (v_cache s) = Ret (r, c') /\ Q r (set_cache c' s)) -> wp (vcache m) s Q.
Proof. intros (r & c' & E & HQ). exists r, (set_cache c' s). unfold vcache. by rewrite E. Qed.

(** Reading one swap block and releasing it leaves the cache as it was. *)
Lemma wp_swap_bread s a slot i Q :
  bc_rel (v_cache s) a -> swap_ready a -> slot_ok slot -> 0 <= i < 4 ->
  (forall h c', a_held a !! h = None -> bc_rel c' (a_hold h (slot_block slot i) a) -> Q h (set_cache c' s)) ->
  wp (vcache (bread 0 (slot_block slot i))) s Q.
Proof.
  intros R SR Hs Hi HQ. apply wp_vcache. rewrite <- (blkdev_slot slot i Hs Hi).
  pose proof (slot_block_range slot i Hs Hi).
  destruct (bc_bread (v_cache s) a (slot_block slot i) R) as (h & c' & E & Hh & R').
  - assert (SWAPBASE >= 0) by done. lia.
  - by rewrite (sr_held _ SR).
  - right. apply SR.
  - eauto.
Qed.

(** The effect of writing block [i] of a page on the abstract cache. *)
Definition a_put (b : Z) (d : mem) a : astate :=
  AState (upd (a_view a) b d) (upd (a_disk a) b d) (a_refs a) (a_held a) (a_writes a ++ [(b, d)]).

Lemma swap_ready_put b d a : swap_ready a -> swap_ready (a_put b d a).
Proof. by intros [? ? ?]. Qed.

Lemma swapwrite_one s a pa slot i :
  bc_rel (v_cache s) a -> swap_ready a -> slot_ok slot -> 0 <= i < 4 ->
  wp (bp ← vcache (bread 0 (slot_block slot i));
      _ ← modify (fun s => set_cache (bupdate bp (mem_to_blk (v_mem s) (pa + i * BSIZE)) (v_cache s)) s);
      _ ← vcache (bwrite bp);
      vcache (brelse bp)) s
     (fun _ s' => exists c', s' = set_cache c' s /\
        bc_rel c' (a_put (slot_block slot i)
                     (mem_to_blk (v_mem s) (pa + i * BSIZE) (a_view a (slot_block slot i))) a)).
Proof.
  intros R SR Hs Hi. set (b := slot_block slot i).
  pose proof (slot_block_range slot i Hs Hi) as Hb.
  apply wp_bind, (wp_swap_bread s a); try done. intros h c1 Hh R1. fold b in R1 |- *.
  apply wp_bind, wp_modify. cbn [v_mem v_cache set_cache].
  apply (bc_update c1 _ h b (mem_to_blk (v_mem s) (pa + i * BSIZE))) in R1; [|apply lookup_insert_eq].
  apply wp_bind, wp_vcache. cbn [v_cache set_cache].
  destruct (bc_bwrite _ _ h b R1) as (c2 & -> & R2); [apply lookup_insert_eq|].
  eexists _, c2. split; [done|]. apply wp_vcache. cbn [v_cache set_cache].
  destruct (bc_brelse _ _ h b R2) as (c3 & -> & R3); [apply lookup_insert_eq| |].
  { left. cbn. by rewrite !upd_eq. }
  eexists _, c3. split; [done|]. exists c3. split; [done|].
  unfold a_release, a_flush, a_set, a_hold in R3. cbn in R3.
  rewrite upd_eq, refs_dec_inc, delete_insert_id in R3; [done|done|].
  rewrite (sr_refs _ SR) by lia. done.
Qed.

Lemma swapread_one s a pa slot i :
  bc_rel (v_cache s) a -> swap_ready a -> slot_ok slot -> 0 <= i < 4 ->
  wp (bp ← vcache (bread 0 (slot_block slot i));
      _ ← modify (fun s => set_mem (blk_to_mem (bdata (v_cache s) bp) (pa + i * BSIZE) (v_mem s)) s);
      vcache (brelse bp)) s
     (fun _ s' => exists c', bc_rel c' a /\
        s' = set_cache c' (set_mem (blk_to_mem (a_view a (slot_block slot i)) (pa + i * BSIZE) (v_mem s)) s)).
Proof.
  intros R SR Hs Hi. set (b := slot_block slot i).
  pose proof (slot_block_range slot i Hs Hi) as Hb.
  apply wp_bind, (wp_swap_bread s a); try done. intros h c1 Hh R1. fold b in R1 |- *.
  apply wp_bind, wp_modify. cbn [v_mem v_cache set_cache].
  destruct (bc_data c1 _ h b R1) as [-> _]; [apply lookup_insert_eq|]. cbn [a_view a_hold].
  apply wp_vcache. cbn [v_cache set_cache set_mem].
  destruct (bc_brelse _ _ h b R1) as (c3 & -> & R3); [apply lookup_insert_eq| |].
  { left. cbn. apply (bc_clean (v_cache s)); [done|]. apply SR. lia. }
  eexists _, c3. split; [done|]. exists c3. split; [|done].
  rewrite release_hold in R3; [done| |done]. by apply (bc_refs_pos (v_cache s)).
Qed.

(** Writing the page at [pa]: block [i] of the slot gets bytes
    [i * BSIZE, (i+1) * BSIZE) of the page. *)
Definition a_put_page (m : mem) (pa slot : Z) a : astate :=
  foldl (fun a i => a_put (slot_block slot i)
                      (mem_to_blk m (pa + i * BSIZE) (a_view a (slot_block slot i))) a) a [0; 1; 2; 3].
Definition mem_put_page (v : Z -> mem) (slot pa : Z) (m : mem) : mem :=
  foldl (fun m i => blk_to_mem (v (slot_block slot i)) (pa + i * BSIZE) m) m [0; 1; 2; 3].

Lemma set_cache_counts c r w s : set_cache c (set_counts r w s) = set_counts r w (set_cache c s).
Proof. done. Qed.

Lemma swapwrite_loop l s a pa slot :
  bc_rel (v_cache s) a -> swap_ready a -> slot_ok slot -> Forall (fun i => 0 <= i < 4) l ->
  wp (for_each l (fun i =>
        _ ← modify (fun s => set_counts (v_nread s) (v_nwrite s + 1) s);
        bp ← vcache (bread 0 (slot_block slot i));
        _ ← modify (fun s => set_cache (bupdate bp (mem_to_blk (v_mem s) (pa + i * BSIZE)) (v_cache s)) s);
        _ ← vcache (bwrite bp);
        vcache (brelse bp))) s
     (fun _ s' => exists c', s' = set_cache c' (set_counts (v_nread s) (v_nwrite s + Z.of_nat (length l)) s) /\
        let a' := foldl (fun a i => a_put (slot_block slot i)
                      (mem_to_blk (v_mem s) (pa + i * BSIZE) (a_view a (slot_block slot i))) a) a l in
        bc_rel c' a' /\ swap_ready a').
Proof.
  revert s a. induction l as [|i l IH]; intros s a R SR Hs Hl.
  { apply wp_ret. exists (v_cache s). rewrite Z.add_0_r. by destruct s. }
  apply Forall_cons in Hl as [Hi Hl]. cbn [for_each].
  apply wp_bind, wp_bind, wp_modify. eapply wp_mono.
  { by apply (swapwrite_one (set_counts (v_nread s) (v_nwrite s + 1) s) a pa slot i). }
  intros _ s1 (c1 & -> & R1). eapply wp_mono.
  { apply IH; [exact R1|by apply swap_ready_put|done|done]. }
  intros _ s2 (c2 & -> & R2 & SR2). exists c2. split; [|done]. cbn.
  unfold set_cache, set_counts. cbn. f_equal. lia.
Qed.

Lemma swapwrite_ok s a pa slot :
  bc_rel (v_cache s) a -> swap_ready a -> slot_ok slot ->
  wp (swapwrite pa slot) s (fun _ s' => exists c',
    s' = set_cache c' (set_counts (v_nread s) (v_nwrite s + 4) s) /\
    bc_rel c' (a_put_page (v_mem s) pa slot a) /\ swap_ready (a_put_page (v_mem s) pa slot a)).
Proof.
  intros R SR Hs. unfold swapwrite. rewrite slot_guard by done.
  change (seqZ 0 BLKS_PER_PG) with [0; 1; 2; 3].
  apply (swapwrite_loop [0; 1; 2; 3] s a pa slot R SR Hs).
  repeat (apply Forall_cons; split; [lia|]). apply Forall_nil_2.
Qed.

Lemma swapread_loop l s a pa slot :
  bc_rel (v_cache s) a -> swap_ready a -> slot_ok slot -> Forall (fun i => 0 <= i < 4) l ->
  wp (for_each l (fun i =>
        _ ← modify (fun s => set_counts (v_nread s + 1) (v_nwrite s) s);
        bp ← vcache (bread 0 (slot_block slot i));
        _ ← modify (fun s => set_mem (blk_to_mem (bdata (v_cache s) bp) (pa + i * BSIZE) (v_mem s)) s);
        vcache (brelse bp))) s
     (fun _ s' => exists c', bc_rel c' a /\
        s' = set_cache c' (set_counts (v_nread s + Z.of_nat (length l)) (v_nwrite s)
               (set_mem (foldl (fun m i => blk_to_mem (a_view a (slot_block slot i)) (pa + i * BSIZE) m)
                  (v_mem s) l) s))).
Proof.
  revert s. induction l as [|i l IH]; intros s R SR Hs Hl.
  { apply wp_ret. exists (v_cache s). rewrite Z.add_0_r. by destruct s. }
  apply Forall_cons in Hl as [Hi Hl]. cbn [for_each].
  apply wp_bind, wp_bind, wp_modify. eapply wp_mono.
  { by apply (swapread_one (set_counts (v_nread s + 1) (v_nwrite s) s) a pa slot i). }
  intros _ s1 (c1 & R1 & ->). eapply wp_mono.
  { apply IH; [exact R1|done|done|done]. }
  intros _ s2 (c2 & R2 & ->). exists c2. split; [done|]. cbn.
  unfold set_cache, set_counts, set_mem. cbn. f_equal. lia.
Qed.

Lemma swapread_ok s a pa slot :
  bc_rel (v_cache s) a -> swap_ready a -> slot_ok slot ->
  wp (swapread pa slot) s (fun _ s' => exists c', bc_rel c' a /\
    s' = set_cache c' (set_counts (v_nread s + 4) (v_nwrite s)
           (set_mem (mem_put_page (a_view a) slot pa (v_mem s)) s))).
Proof.
  intros R SR Hs. unfold swapread. rewrite slot_guard by done.
  change (seqZ 0 BLKS_PER_PG) with [0; 1; 2; 3].
  apply (swapread_loop [0; 1; 2; 3] s a pa slot R SR Hs).
  repeat (apply Forall_cons; split; [lia|]). apply Forall_nil_2.
Qed.
End swapio.

(** ** Contents *)
Lemma ld8_blk_to_mem d a m x :
  ld8 (blk_to_mem d a m) x = if (a <=? x) && (x <? a + BSIZE) then ld8 d (x - a) else ld8 m x.
Proof. unfold ld8, blk_to_mem. case_match; [|done]. unfold ld8, u8. apply Z.mod_mod. lia. Qed.
Lemma ld8_mem_to_blk m a d i :
  ld8 (mem_to_blk m a d) i = if (0 <=? i) && (i <? BSIZE) then ld8 m (a + i) else ld8 d i.
Proof. unfold ld8, mem_to_blk. case_match; [|done]. unfold ld8, u8. apply Z.mod_mod. lia. Qed.

Lemma slot_ld8_put m pa slot a i :
  0 <= i < PGSIZE -> slot_ld8 (a_view (a_put_page m pa slot a)) slot i = ld8 m (pa + i).
Proof.
  intros Hi. unfold slot_ld8. set (k := i / BSIZE).
  assert (0 <= k < 4 /\ i = k * BSIZE + i mod BSIZE /\ 0 <= i mod BSIZE < BSIZE) as (Hk & Ei & Hm).
  { unfold k, BSIZE, PGSIZE in *. zdiv. }
  assert (forall j d d', 0 <= j < 4 -> ld8 (upd d (slot_block slot j) d' (slot_block slot k)) (i mod BSIZE) =
            if j =? k then ld8 d' (i mod BSIZE) else ld8 (d (slot_block slot k)) (i mod BSIZE)) as Hu.
  { intros j d d' Hj. destruct (Z.eqb_spec j k) as [->|Hne]; [by rewrite upd_eq|].
    rewrite upd_ne; [done|]. intros E. apply slot_block_inj in E; lia. }
  cbn [a_put_page foldl a_put a_view]. rewrite !Hu by lia. rewrite !ld8_mem_to_blk.
  rewrite (proj2 (Z.leb_le _ _)), (proj2 (Z.ltb_lt _ _)) by lia. cbn [andb].
  repeat (case_bool; [f_equal; lia|]). lia.
Qed.
Lemma view_put_page_other m pa slot a b :
  (forall i, 0 <= i < 4 -> b <> slot_block slot i) -> a_view (a_put_page m pa slot a) b = a_view a b.
Proof. intros Hb. cbn [a_put_page foldl a_put a_view]. rewrite !upd_ne by (apply Hb; lia). done. Qed.
Lemma slot_ld8_put_other m pa slot slot' a i :
  slot' <> slot -> 0 <= i < PGSIZE ->
  slot_ld8 (a_view (a_put_page m pa slot a)) slot' i = slot_ld8 (a_view a) slot' i.
Proof.
  intros Hs Hi. unfold slot_ld8. rewrite view_put_page_other; [done|].
  intros j Hj E. apply slot_block_inj in E as [? _]; [done| |lia]. unfold BSIZE, PGSIZE in *. zdiv.
Qed.

Lemma ld8_put_page v slot pa m x :
  ld8 (mem_put_page v slot pa m) x =
  if (pa <=? x) && (x <? pa + PGSIZE) then slot_ld8 v slot (x - pa) else ld8 m x.
Proof.
  cbn [mem_put_page foldl]. rewrite !ld8_blk_to_mem. unfold slot_ld8.
  change PGSIZE with 4096. change BSIZE with 1024.
  destruct (Z.leb_spec pa x), (Z.ltb_spec x (pa + 4096)); cbn [andb].
  - assert (exists k, (k = 0 \/ k = 1 \/ k = 2 \/ k = 3) /\ k * 1024 <= x - pa < k * 1024 + 1024) as (k & Hk & Hx).
    { exists ((x - pa) / 1024). zdiv. }
    assert ((x - pa) / 1024 = k) as -> by zdiv. assert ((x - pa) mod 1024 = x - pa - k * 1024) as -> by zdiv.
    destruct Hk as [->|[->|[->| ->]]]; bools; f_equal; lia.
  - by bools.
  - by bools.
  - by bools.
Qed.
