(* ===== verification/PageTable.v ===== *)
(** Page tables as trees in memory: the pure lookup [pwalk] that
    kernel/vm.c [walk(pagetable, va, 0)] computes, and what writes to memory do
    to it. *)
From S2P Require Import Prelude Riscv Memory Lru Blocks Kmem.

(** Entry [i] of the table page at [p]. *)
Definition entry (m : mem) (p i : Z) : Z := ld64 m (p + 8 * i).
Definition idx (i : Z) : Prop := 0 <= i < 512.
Definition aligned (p : Z) : Prop := p mod PGSIZE = 0.
Definition in_page (p x : Z) : Prop := p <= x < p + PGSIZE.

Definition pwalk (m : mem) (root va : Z) : Z :=
  let e2 := entry m root (PX 2 va) in
  if flag_set e2 PTE_V then
    let e1 := entry m (PTE2PA e2) (PX 1 va) in
    if flag_set e1 PTE_V then PTE2PA e1 + 8 * PX 0 va else 0
  else 0.

Lemma walk_pure {C} (ka : M (vm C) Z) root va s :
  va < MAXVA -> walk_with ka root va false s = Ret (pwalk (v_mem s) root va, s).
Proof.
  intros Hva. unfold walk_with. rewrite Z.geb_leb, (proj2 (Z.leb_gt _ _)) by lia.
  cbn [walk_from]. rewrite bind_run. unfold rd64, pwalk, entry. cbn [gets].
  case_match; [|done]. rewrite bind_run. cbn [gets]. by case_match.
Qed.
Lemma wp_walk {C} (ka : M (vm C) Z) root va s Q :
  va < MAXVA -> Q (pwalk (v_mem s) root va) s -> wp (walk_with ka root va false) s Q.
Proof. intros Hva HQ. exists (pwalk (v_mem s) root va), s. by rewrite walk_pure. Qed.

(** * Disjointness of pages and entries *)
Lemma aligned_disjoint p q x : aligned p -> aligned q -> in_page p x -> in_page q x -> p = q.
Proof. unfold aligned, in_page, PGSIZE. intros. zdiv. Qed.
Lemma entry_in_page p i k : idx i -> 0 <= k < 8 -> in_page p (p + 8 * i + k).
Proof. unfold idx, in_page, PGSIZE. lia. Qed.
Lemma entry_addr_inj p q i j : aligned p -> aligned q -> idx i -> idx j -> p + 8 * i = q + 8 * j -> p = q /\ i = j.
Proof. unfold aligned, idx, PGSIZE. intros. zdiv. Qed.
Lemma entry_addr_apart p q i j :
  aligned p -> aligned q -> idx i -> idx j -> p + 8 * i <> q + 8 * j ->
  p + 8 * i + 8 <= q + 8 * j \/ q + 8 * j + 8 <= p + 8 * i.
Proof. unfold aligned, idx, PGSIZE. intros. zdiv. Qed.

(** The same bytes on page [p]. *)
Definition page_eq (m m' : mem) (p : Z) : Prop := forall x, in_page p x -> ld8 m' x = ld8 m x.

Lemma entry_ext m m' p i : idx i -> page_eq m m' p -> entry m' p i = entry m p i.
Proof.
  intros Hi He. apply ld_ext. intros x Hx. apply He.
  unfold idx, in_page, PGSIZE in *. lia.
Qed.
Lemma entry_st m p i q j v :
  aligned p -> aligned q -> idx i -> idx j ->
  entry (st64 m (p + 8 * i) v) q j = if decide (q + 8 * j = p + 8 * i) then u64 v else entry m q j.
Proof.
  intros Hp Hq Hi Hj. unfold entry. case_decide as E.
  - rewrite E. apply ld64_st64_same.
  - apply ld_st_other. destruct (entry_addr_apart q p j i); try done; lia.
Qed.
Lemma page_eq_st m p i q v : aligned p -> aligned q -> idx i -> p <> q -> page_eq m (st64 m (p + 8 * i) v) q.
Proof.
  intros Hp Hq Hi Hne x Hx. apply ld8_st_other.
  destruct (decide (p + 8 * i <= x < p + 8 * i + 8)) as [Hin|]; [|lia].
  destruct Hne. apply (aligned_disjoint p q x); try done. unfold idx, in_page, PGSIZE in *. lia.
Qed.

(** * Well-formed tables *)
Section tables.
Context (T : gmap Z nat).
(** [T] gives the level of every page that is part of a user page table. *)

Record tables_ok (m : mem) : Prop := {
  tk_aligned p k : T !! p = Some k -> aligned p /\ 0 < p;
  tk_down p k i : T !! p = Some (S k) -> idx i -> flag_set (entry m p i) PTE_V = true ->
    T !! PTE2PA (entry m p i) = Some k;
  tk_inj p k i p' k' i' : T !! p = Some (S k) -> T !! p' = Some (S k') -> idx i -> idx i' ->
    flag_set (entry m p i) PTE_V = true -> flag_set (entry m p' i') PTE_V = true ->
    PTE2PA (entry m p i) = PTE2PA (entry m p' i') -> p = p' /\ i = i' }.

(** [w] is the address of a leaf entry. *)
Definition pteaddr (w : Z) : Prop := exists p i, T !! p = Some 0%nat /\ idx i /\ w = p + 8 * i.

(** The entries of the inner levels agree. *)
Definition inner_eq (m m' : mem) : Prop :=
  forall p k i, T !! p = Some (S k) -> idx i -> entry m' p i = entry m p i.

Lemma inner_eq_trans m1 m2 m3 : inner_eq m1 m2 -> inner_eq m2 m3 -> inner_eq m1 m3.
Proof. intros H1 H2 p k i Hp Hi. by rewrite (H2 p k), (H1 p k). Qed.

Lemma tables_ok_ext m m' : inner_eq m m' -> tables_ok m -> tables_ok m'.
Proof.
  intros He [Ha Hd Hi]. split; [done| |].
  - intros p k i Hp Hidx. rewrite (He p k i) by done. by apply Hd.
  - intros p k i p' k' i' Hp Hp' Hidx Hidx'. rewrite (He p k i), (He p' k' i') by done. by eapply Hi.
Qed.
Lemma pwalk_ext m m' root va :
  inner_eq m m' -> tables_ok m -> T !! root = Some 2%nat -> pwalk m' root va = pwalk m root va.
Proof.
  intros He [Ha Hd Hi] Hr. assert (idx (PX 2 va)) as H2 by by apply PX_range.
  unfold pwalk. rewrite (He root 1%nat) by done. case_match eqn:Ev; [|done].
  rewrite (He (PTE2PA (entry m root (PX 2 va))) 0%nat); [done| |by apply PX_range].
  by apply (Hd root 1%nat).
Qed.

Lemma pwalk_pteaddr m root va :
  tables_ok m -> T !! root = Some 2%nat -> pwalk m root va <> 0 -> pteaddr (pwalk m root va).
Proof.
  intros [Ha Hd Hi] Hr. unfold pwalk. case_match eqn:E2; [|done]. case_match eqn:E1; [|done]. intros _.
  exists (PTE2PA (entry m (PTE2PA (entry m root (PX 2 va))) (PX 1 va))), (PX 0 va).
  split; [|by split; [apply PX_range|]].
  apply (Hd _ 0%nat); [|by apply PX_range|done]. apply (Hd root 1%nat); [done|by apply PX_range|done].
Qed.

(** Different pages of different address spaces have different entries. *)
Lemma pwalk_inj m root va root' va' :
  tables_ok m -> T !! root = Some 2%nat -> T !! root' = Some 2%nat ->
  0 <= va < MAXVA -> 0 <= va' < MAXVA -> aligned va -> aligned va' ->
  pwalk m root va = pwalk m root' va' -> pwalk m root va <> 0 -> root = root' /\ va = va'.
Proof.
  intros [Ha Hd Hi] Hr Hr' Hva Hva' Hal Hal'. unfold pwalk.
  destruct (flag_set (entry m root (PX 2 va)) PTE_V) eqn:E2; [|done].
  destruct (flag_set (entry m (PTE2PA (entry m root (PX 2 va))) (PX 1 va)) PTE_V) eqn:E1; [|done].
  destruct (flag_set (entry m root' (PX 2 va')) PTE_V) eqn:E2'; [|intros E ?; congruence].
  destruct (flag_set (entry m (PTE2PA (entry m root' (PX 2 va'))) (PX 1 va')) PTE_V) eqn:E1'; [|intros E ?; congruence].
  assert (forall l v, 0 <= l -> idx (PX l v)) as HPX by (intros; by apply PX_range).
  pose proof (Hd root 1%nat _ Hr (HPX 2 va ltac:(lia)) E2) as H1.
  pose proof (Hd root' 1%nat _ Hr' (HPX 2 va' ltac:(lia)) E2') as H1'.
  pose proof (Hd _ 0%nat _ H1 (HPX 1 va ltac:(lia)) E1) as H0.
  pose proof (Hd _ 0%nat _ H1' (HPX 1 va' ltac:(lia)) E1') as H0'.
  intros E _. apply entry_addr_inj in E as [Ep E0]; [|by eapply Ha|by eapply Ha|by apply HPX|by apply HPX].
  apply (Hi _ 0%nat _ _ 0%nat) in Ep as [Ep1 Ei1]; auto; [|apply HPX; lia|apply HPX; lia].
  apply (Hi _ 1%nat _ _ 1%nat) in Ep1 as [Ep2 Ei2]; auto; [|apply HPX; lia|apply HPX; lia].
  split; [done|]. by apply PX_inj.
Qed.

(** A store to a leaf entry. *)
Lemma inner_eq_st m w v : tables_ok m -> pteaddr w -> inner_eq m (st64 m w v).
Proof.
  intros [Ha _ _] (p & i & Hp & Hi & ->) q k j Hq Hj.
  rewrite entry_st; [|by eapply Ha|by eapply Ha|done|done]. rewrite decide_False; [done|].
  intros E. apply entry_addr_inj in E as [-> _]; [congruence|by eapply Ha|by eapply Ha|done|done].
Qed.
Lemma leaf_st m w v w' :
  tables_ok m -> pteaddr w -> pteaddr w' ->
  ld64 (st64 m w v) w' = if decide (w' = w) then u64 v else ld64 m w'.
Proof.
  intros [Ha _ _] (p & i & Hp & Hi & ->) (q & j & Hq & Hj & ->).
  apply (entry_st m p i q j v); [by eapply Ha|by eapply Ha|done|done].
Qed.
Lemma page_eq_leaf_st m w v q :
  tables_ok m -> pteaddr w -> aligned q -> T !! q = None -> page_eq m (st64 m w v) q.
Proof.
  intros [Ha _ _] (p & i & Hp & Hi & ->) Hq Hn.
  apply page_eq_st; [by eapply Ha|done|done|]. intros ->. congruence.
Qed.
Lemma pteaddr_page w : (exists m, tables_ok m) -> pteaddr w ->
  exists p, T !! p = Some 0%nat /\ aligned p /\ 0 < w /\ forall x, w <= x < w + 8 -> in_page p x.
Proof.
  intros [m [Ha _ _]] (p & i & Hp & Hi & ->). exists p. destruct (Ha p _ Hp) as [? ?].
  split_and!; try done; unfold idx, in_page, PGSIZE in *; lia.
Qed.

(** Changes outside the table pages. *)
Lemma inner_eq_pages m m' : (forall p k, T !! p = Some k -> page_eq m m' p) -> inner_eq m m'.
Proof. intros He p k i Hp Hi. apply entry_ext; [done|]. by eapply He. Qed.
Lemma leaf_eq_pages m m' w :
  (forall p k, T !! p = Some k -> page_eq m m' p) -> pteaddr w -> ld64 m' w = ld64 m w.
Proof. intros He (p & i & Hp & Hi & ->). apply (entry_ext m m' p i Hi). by eapply He. Qed.
End tables.
