(* ===== verification/Pte.v ===== *)
(** The encodings of kernel/vm.c's swap code: clearing the accessed bit, an entry
    that names a swap slot, an entry that is made resident again, and the bits
    of the swap bitmap. *)
From S2P Require Import Prelude Riscv Memory Lru Blocks Kmem SwapIO.

Abbreviation valid e := (flag_set e PTE_V).
Abbreviation swapped e := (flag_set e PTE_SWAPPED).
(** The slot number [swapin], [uvmcopy] and [uvmunmap] extract. *)
Definition slot_of (e : Z) : Z := s32 (PTE2PA e / PGSIZE).
(** The permission bits: all flags but V, A and SWAPPED. *)
Definition perms (e : Z) : Z := Z.land e 0x1BE.

Definition evict_pte (slot e : Z) : Z :=
  Z.lor (Z.lor (Z.shiftl slot 10) (Z.land (Z.land (PTE_FLAGS e) (Z.lnot PTE_V)) (Z.lnot PTE_A))) PTE_SWAPPED.
Definition resident_pte (pa e : Z) : Z :=
  Z.lor (Z.lor (PA2PTE pa) (Z.land (PTE_FLAGS e) (Z.lnot PTE_SWAPPED))) PTE_V.
Definition clear_A (e : Z) : Z := Z.land e (Z.lnot PTE_A).

Lemma perms_ext e e' :
  (forall i, 0 <= i < 10 -> i <> 0 -> i <> 6 -> i <> 9 -> Z.testbit e' i = Z.testbit e i) -> perms e' = perms e.
Proof.
  intros He. unfold perms. apply Z.bits_inj'. intros i Hi. rewrite !Z.land_spec.
  destruct (decide (i < 10)) as [Hlt|Hge].
  - destruct (decide (i = 0)) as [->|]; [by rewrite !andb_false_r|].
    destruct (decide (i = 6)) as [->|]; [by rewrite !andb_false_r|].
    destruct (decide (i = 9)) as [->|]; [by rewrite !andb_false_r|]. by rewrite He.
  - rewrite (testbit_small 10 0x1BE i) by lia. by rewrite !andb_false_r.
Qed.

Lemma flags_testbit e i : 0 <= i < 10 -> Z.testbit (PTE_FLAGS e) i = Z.testbit e i.
Proof.
  intros Hi. unfold PTE_FLAGS. change 0x3FF with (Z.ones 10). rewrite Z.land_spec, Z.ones_spec_low by lia.
  by rewrite andb_true_r.
Qed.

(** ** [*pte &= ~PTE_A] *)
Lemma clear_A_range e : 0 <= e < 2 ^ 64 -> 0 <= clear_A e < 2 ^ 64.
Proof. intros. by apply (land_lnot_range e 6 64). Qed.
Lemma clear_A_bit e i : 0 <= i -> Z.testbit (clear_A e) i = Z.testbit e i && negb (6 =? i).
Proof. intros. by apply (land_lnot_bit e 6 i). Qed.
Lemma clear_A_pa e : PTE2PA (clear_A e) = PTE2PA e.
Proof.
  unfold PTE2PA, clear_A. rewrite Z.shiftr_land. change (Z.shiftr (Z.lnot PTE_A) 10) with (-1).
  by rewrite Z.land_m1_r.
Qed.
Lemma clear_A_facts e :
  valid (clear_A e) = valid e /\ swapped (clear_A e) = swapped e /\ flag_set (clear_A e) PTE_A = false /\
  slot_of (clear_A e) = slot_of e /\ perms (clear_A e) = perms e.
Proof.
  rewrite !flag_set_V, !flag_set_SWAPPED, !flag_set_A, !clear_A_bit by lia.
  cbn [Z.eqb negb]. rewrite !andb_true_r, andb_false_r. unfold slot_of. rewrite clear_A_pa.
  split_and!; try done. apply perms_ext. intros i Hi H0 H6 H9. rewrite clear_A_bit by lia.
  rewrite (proj2 (Z.eqb_neq _ _)) by lia. by rewrite andb_true_r.
Qed.

(** ** [swapout]'s entry *)
Lemma evict_flags_range e :
  0 <= Z.land (Z.land (PTE_FLAGS e) (Z.lnot PTE_V)) (Z.lnot PTE_A) < 2 ^ 10.
Proof.
  apply (land_lnot_range _ 6 10); [|lia]. apply (land_lnot_range _ 0 10); [|lia]. apply PTE_FLAGS_range.
Qed.
Lemma evict_pte_of slot e : 0 <= slot ->
  evict_pte slot e =
  pte_of slot (Z.lor (Z.land (Z.land (PTE_FLAGS e) (Z.lnot PTE_V)) (Z.lnot PTE_A)) PTE_SWAPPED).
Proof.
  intros Hs. unfold evict_pte. rewrite Z.shiftl_mul_pow2 by lia. rewrite <- Z.lor_assoc.
  apply pte_lor. apply (lor_range _ _ 10); [lia|apply evict_flags_range|]. by vm_compute.
Qed.
Lemma evict_bit slot e i : 0 <= slot -> 0 <= i < 10 ->
  Z.testbit (evict_pte slot e) i = Z.testbit e i && negb (0 =? i) && negb (6 =? i) || (9 =? i).
Proof.
  intros Hs Hi. rewrite evict_pte_of by done. rewrite pte_of_testbit.
  - rewrite Z.lor_spec. change (Z.lnot PTE_V) with (Z.lnot (2 ^ 0)). change (Z.lnot PTE_A) with (Z.lnot (2 ^ 6)).
    rewrite !land_lnot_bit, flags_testbit by lia. f_equal.
    change PTE_SWAPPED with (2 ^ 9). rewrite Z.pow2_bits_eqb by lia. done.
  - apply (lor_range _ _ 10); [lia|apply evict_flags_range|]. by vm_compute.
  - done.
Qed.
Lemma evict_pte_range slot e : 0 <= slot < 2 ^ 31 -> 0 <= evict_pte slot e < 2 ^ 64.
Proof.
  intros Hs. rewrite evict_pte_of by lia. unfold pte_of.
  assert (0 <= Z.lor (Z.land (Z.land (PTE_FLAGS e) (Z.lnot PTE_V)) (Z.lnot PTE_A)) PTE_SWAPPED < 2 ^ 10).
  { apply (lor_range _ _ 10); [lia|apply evict_flags_range|]. by vm_compute. }
  lia.
Qed.
Lemma evict_facts slot e : 0 <= slot < 2 ^ 31 ->
  valid (evict_pte slot e) = false /\ swapped (evict_pte slot e) = true /\
  slot_of (evict_pte slot e) = slot /\ perms (evict_pte slot e) = perms e.
Proof.
  intros Hs. rewrite flag_set_V, flag_set_SWAPPED, !evict_bit by lia. cbn [Z.eqb negb orb].
  rewrite !andb_false_r, orb_true_r. split_and!; try done.
  - unfold slot_of. rewrite evict_pte_of by lia. rewrite pte_of_PTE2PA; [|lia|].
    + unfold PGSIZE. rewrite Z.div_mul, s32_small by lia. done.
    + apply (lor_range _ _ 10); [lia|apply evict_flags_range|]. by vm_compute.
  - apply perms_ext. intros i Hi H0 H6 H9. rewrite evict_bit by lia.
    rewrite !(proj2 (Z.eqb_neq _ _)) by lia. by rewrite !andb_true_r, orb_false_r.
Qed.

(** ** [swapin]'s entry *)
Lemma resident_flags_range e : 0 <= Z.lor (Z.land (PTE_FLAGS e) (Z.lnot PTE_SWAPPED)) PTE_V < 2 ^ 10.
Proof.
  apply (lor_range _ _ 10); [lia| |by vm_compute]. apply (land_lnot_range _ 9 10); [|lia]. apply PTE_FLAGS_range.
Qed.
Lemma resident_pte_of pa e : 0 <= pa < 2 ^ 56 ->
  resident_pte pa e = pte_of (pa / 4096) (Z.lor (Z.land (PTE_FLAGS e) (Z.lnot PTE_SWAPPED)) PTE_V).
Proof.
  intros Hp. unfold resident_pte. rewrite PA2PTE_spec by lia. rewrite <- Z.lor_assoc.
  apply pte_lor. apply resident_flags_range.
Qed.
Lemma resident_bit pa e i : 0 <= pa < 2 ^ 56 -> 0 <= i < 10 ->
  Z.testbit (resident_pte pa e) i = Z.testbit e i && negb (9 =? i) || (0 =? i).
Proof.
  intros Hs Hi. rewrite resident_pte_of by done. rewrite pte_of_testbit; [|apply resident_flags_range|done].
  rewrite Z.lor_spec. change (Z.lnot PTE_SWAPPED) with (Z.lnot (2 ^ 9)).
  rewrite land_lnot_bit, flags_testbit by lia. by f_equal.
Qed.
Lemma resident_pte_range pa e : 0 <= pa < 2 ^ 56 -> 0 <= resident_pte pa e < 2 ^ 64.
Proof.
  intros Hp. rewrite resident_pte_of by done. pose proof (resident_flags_range e). unfold pte_of. zdiv.
Qed.
Lemma resident_facts pa e : 0 <= pa < 2 ^ 56 -> pa mod PGSIZE = 0 ->
  valid (resident_pte pa e) = true /\ swapped (resident_pte pa e) = false /\
  PTE2PA (resident_pte pa e) = pa /\ perms (resident_pte pa e) = perms e.
Proof.
  intros Hp Ha. rewrite flag_set_V, flag_set_SWAPPED, !resident_bit by lia. cbn [Z.eqb negb orb].
  rewrite orb_true_r, !andb_false_r. split_and!; try done.
  - rewrite resident_pte_of by done. rewrite pte_of_PTE2PA; [|zdiv|apply resident_flags_range].
    unfold PGSIZE in Ha. zdiv.
  - apply perms_ext. intros i Hi H0 H6 H9. rewrite resident_bit by lia.
    rewrite !(proj2 (Z.eqb_neq _ _)) by lia. by rewrite andb_true_r, orb_false_r.
Qed.

(** ** The bitmap *)
Lemma slot_pos i : 0 <= i -> slot_byte i = i / 8 /\ slot_bit i = 2 ^ (i mod 8).
Proof.
  intros Hi. unfold slot_byte, slot_bit. rewrite Z.quot_div_nonneg, Z.rem_mod_nonneg by lia.
  split; [done|]. rewrite Z.shiftl_mul_pow2 by zdiv. lia.
Qed.
Lemma slot_used_bit m bm i : 0 <= i -> slot_used m bm i = Z.testbit (ld8 m (bm + i / 8)) (i mod 8).
Proof.
  intros Hi. unfold slot_used. destruct (slot_pos i Hi) as [-> ->]. unfold nz.
  rewrite land_pow2_bit by zdiv. by rewrite negb_involutive.
Qed.
Lemma slot_used_ext m m' bm i :
  slot_ok i -> (forall x, bm <= x < bm + PGSIZE -> ld8 m' x = ld8 m x) -> slot_used m' bm i = slot_used m bm i.
Proof.
  intros [H0 H1] He. rewrite !slot_used_bit by done. rewrite He; [done|].
  change (SWAPMAX / BLKS_PER_PG) with 7000 in H1. unfold PGSIZE. zdiv.
Qed.
Lemma slot_addr_eq i j : 0 <= i -> 0 <= j -> i / 8 = j / 8 -> i mod 8 = j mod 8 -> i = j.
Proof. intros. zdiv. Qed.
Lemma u8_testbit x k : 0 <= k < 8 -> Z.testbit (u8 x) k = Z.testbit x k.
Proof. intros. unfold u8. by rewrite Z.mod_pow2_bits_low by lia. Qed.

Lemma slot_used_mark m bm i j : 0 <= i -> 0 <= j ->
  slot_used (slot_mark bm i m) bm j = (j =? i) || slot_used m bm j.
Proof.
  intros Hi Hj. rewrite !slot_used_bit by done. unfold slot_mark. destruct (slot_pos i Hi) as [-> ->].
  rewrite ld8_st8. destruct (Z.eqb_spec (bm + j / 8) (bm + i / 8)) as [E|E].
  - rewrite u8_testbit by zdiv. rewrite Z.lor_spec, Z.pow2_bits_eqb by zdiv.
    assert (j / 8 = i / 8) as E' by lia. rewrite <- E'.
    destruct (Z.eqb_spec j i) as [->|Hne].
    + by rewrite Z.eqb_refl, orb_true_r.
    + rewrite (proj2 (Z.eqb_neq _ _)); [by rewrite orb_false_r|]. intros Em. apply Hne. by apply slot_addr_eq.
  - destruct (Z.eqb_spec j i) as [->|]; [done|done].
Qed.
Lemma slot_used_clear m bm i j : 0 <= i -> 0 <= j ->
  slot_used (slot_clear bm i m) bm j = negb (j =? i) && slot_used m bm j.
Proof.
  intros Hi Hj. rewrite !slot_used_bit by done. unfold slot_clear. destruct (slot_pos i Hi) as [-> ->].
  rewrite ld8_st8. destruct (Z.eqb_spec (bm + j / 8) (bm + i / 8)) as [E|E].
  - rewrite u8_testbit by zdiv. rewrite land_lnot_bit by zdiv.
    assert (j / 8 = i / 8) as E' by lia. rewrite <- E'. rewrite andb_comm. f_equal. f_equal.
    destruct (Z.eqb_spec j i) as [->|Hne]; [apply Z.eqb_refl|].
    apply Z.eqb_neq. intros Em. apply Hne. by apply slot_addr_eq.
  - destruct (Z.eqb_spec j i) as [->|]; [done|done].
Qed.
Lemma slot_mark_other bm i m x : slot_ok i -> ~ (bm <= x < bm + PGSIZE) -> ld8 (slot_mark bm i m) x = ld8 m x.
Proof.
  intros [H0 H1] Hx. unfold slot_mark. destruct (slot_pos i H0) as [-> _]. apply ld8_st8_other.
  change (SWAPMAX / BLKS_PER_PG) with 7000 in H1. unfold PGSIZE in Hx. zdiv.
Qed.
Lemma slot_clear_other bm i m x : slot_ok i -> ~ (bm <= x < bm + PGSIZE) -> ld8 (slot_clear bm i m) x = ld8 m x.
Proof.
  intros [H0 H1] Hx. unfold slot_clear. destruct (slot_pos i H0) as [-> _]. apply ld8_st8_other.
  change (SWAPMAX / BLKS_PER_PG) with 7000 in H1. unfold PGSIZE in Hx. zdiv.
Qed.
