(* ===== verification/VmInv.v ===== *)
(** The invariant of physical memory, user page tables, the resident list, the
    swap bitmap and the free list, and the relation between two states that no
    process can tell apart. *)
From S2P Require Import Prelude Riscv Memory Lru Blocks Kmem SwapIO PageTable Pte.

(** ** Free list *)
Fixpoint flist (m : mem) (h : Z) (fl : list Z) : Prop :=
  match fl with
  | [] => h = 0
  | p :: fl => h = p /\ flist m (ld64 m p) fl
  end.
Lemma flist_ext m m' h fl : (forall p, p ∈ fl -> ld64 m' p = ld64 m p) -> flist m h fl -> flist m' h fl.
Proof.
  revert h. induction fl as [|p fl IH]; intros h He; [done|]. cbn [flist]. intros [-> Hf]. split; [done|].
  rewrite He by set_solver. apply IH; [set_solver|done].
Qed.

(** ** What a process sees of a leaf entry *)
Definition slot_bytes (v : Z -> mem) (slot : Z) : list Z := (fun i => slot_ld8 v slot i) <$> seqZ 0 PGSIZE.
Definition page_bytes (m : mem) (pa : Z) : list Z := (fun i => ld8 m (pa + i)) <$> seqZ 0 PGSIZE.

(** The permissions and the contents of the page, wherever it is. *)
Definition lview (m : mem) (v : Z -> mem) (w : Z) : option (Z * list Z) :=
  let e := ld64 m w in
  if valid e then Some (perms e, page_bytes m (PTE2PA e))
  else if swapped e then Some (perms e, slot_bytes v (slot_of e))
  else None.
(** The page of [va] in the address space [root]. *)
Definition uview (m : mem) (v : Z -> mem) (root va : Z) : option (Z * list Z) :=
  let w := pwalk m root va in if w =? 0 then None else lview m v w.

Lemma page_bytes_ext m m' pa pa' :
  (forall i, 0 <= i < PGSIZE -> ld8 m' (pa' + i) = ld8 m (pa + i)) -> page_bytes m' pa' = page_bytes m pa.
Proof.
  intros He. unfold page_bytes. apply list_fmap_ext. intros i x Hx%lookup_seqZ. apply He. lia.
Qed.
Lemma page_bytes_eq m m' pa : page_eq m m' pa -> page_bytes m' pa = page_bytes m pa.
Proof. intros He. apply page_bytes_ext. intros i Hi. apply He. unfold in_page. lia. Qed.
Lemma slot_bytes_ext v v' slot :
  (forall i, 0 <= i < PGSIZE -> slot_ld8 v' slot i = slot_ld8 v slot i) -> slot_bytes v' slot = slot_bytes v slot.
Proof.
  intros He. unfold slot_bytes. apply list_fmap_ext. intros i x Hx%lookup_seqZ. apply He. lia.
Qed.

Section inv.
Context {C : Type} (kend : Z) (T : gmap Z nat).
Implicit Types (s : vm C).

(** A page the allocator manages. *)
Definition upage (p : Z) : Prop := aligned p /\ kend <= p < PHYSTOP.

(** The entry that maps the resident page [i]. *)
Definition owner_pte (m : mem) (L : lru) (i : Z) : Z :=
  pwalk m (pg_pagetable (pages L i)) (pg_vaddr (pages L i)).
Record owned (m : mem) (L : lru) (i : Z) : Prop := {
  ow_root : T !! pg_pagetable (pages L i) = Some 2%nat;
  ow_va : 0 <= pg_vaddr (pages L i) < MAXVA;
  ow_pte : owner_pte m L i <> 0;
  ow_valid : valid (ld64 m (owner_pte m L i)) = true;
  ow_frame : PTE2PA (ld64 m (owner_pte m L i)) = page_to_pa i }.

(** [T]: the pages of the user page tables with their levels; [fl]: the free
    pages; [l]: the resident pages in clock order. *)
Record vm_ok (s : vm C) (fl l : list Z) : Prop := {
  vo_kend : KERNBASE <= kend;
  vo_tables : tables_ok T (v_mem s);
  vo_tpages p k : T !! p = Some k -> upage p;
  vo_flist : flist (v_mem s) (v_free s) fl;
  vo_fpages p : p ∈ fl -> upage p /\ T !! p = None;
  vo_fnodup : NoDup fl;
  vo_lru : lru_repr (v_lru s) l;
  vo_lpages i : i ∈ l -> upage (page_to_pa i) /\ T !! page_to_pa i = None;
  vo_owned i : i ∈ l -> owned (v_mem s) (v_lru s) i;
  vo_bm : upage (v_bitmap s) /\ T !! v_bitmap s = None /\ v_bitmap s ∉ fl;
  vo_slots : v_slots s = SWAPMAX / BLKS_PER_PG;
  vo_valid w : pteaddr T w -> valid (ld64 (v_mem s) w) = true ->
    let f := PTE2PA (ld64 (v_mem s) w) in (f ∉ fl) /\ T !! f = None /\ f <> v_bitmap s;
  vo_own w i : pteaddr T w -> valid (ld64 (v_mem s) w) = true -> i ∈ l ->
    PTE2PA (ld64 (v_mem s) w) = page_to_pa i -> w = owner_pte (v_mem s) (v_lru s) i;
  vo_slot w : pteaddr T w -> valid (ld64 (v_mem s) w) = false -> swapped (ld64 (v_mem s) w) = true ->
    slot_ok (slot_of (ld64 (v_mem s) w)) /\
    slot_used (v_mem s) (v_bitmap s) (slot_of (ld64 (v_mem s) w)) = true;
  vo_slot_inj w w' : pteaddr T w -> pteaddr T w' ->
    valid (ld64 (v_mem s) w) = false -> swapped (ld64 (v_mem s) w) = true ->
    valid (ld64 (v_mem s) w') = false -> swapped (ld64 (v_mem s) w') = true ->
    slot_of (ld64 (v_mem s) w) = slot_of (ld64 (v_mem s) w') -> w = w' }.

(** No entry maps the frame [q]. *)
Definition unmapped (m : mem) (q : Z) : Prop :=
  forall w, pteaddr T w -> valid (ld64 m w) = true -> PTE2PA (ld64 m w) <> q.

(** A page that is neither a table, nor free, nor resident for a process. *)
Record reserved (s : vm C) (fl l : list Z) (q : Z) : Prop := {
  rs_aligned : aligned q;
  rs_table : T !! q = None;
  rs_free : q ∉ fl;
  rs_bm : q <> v_bitmap s;
  rs_lru i : i ∈ l -> page_to_pa i <> q }.

(** [s'] with disk contents [v'] is indistinguishable from [s] with [v], for
    every process and for the users of reserved pages. *)
Record evolves (s : vm C) (fl l : list Z) (v : Z -> mem) (s' : vm C) (fl' l' : list Z) (v' : Z -> mem)
    : Prop := {
  ev_inner : inner_eq T (v_mem s) (v_mem s');
  ev_view w : pteaddr T w -> lview (v_mem s') v' w = lview (v_mem s) v w;
  ev_keep w : pteaddr T w -> valid (ld64 (v_mem s) w) = false -> ld64 (v_mem s') w = ld64 (v_mem s) w;
  ev_slot j : slot_ok j -> slot_used (v_mem s) (v_bitmap s) j = true ->
    slot_used (v_mem s') (v_bitmap s') j = true /\ slot_bytes v' j = slot_bytes v j;
  ev_reserved q : reserved s fl l q -> reserved s' fl' l' q /\ page_eq (v_mem s) (v_mem s') q;
  ev_bm : v_bitmap s' = v_bitmap s;
  ev_disk b : b < SWAPBASE -> v' b = v b;
  ev_valid w : pteaddr T w -> valid (ld64 (v_mem s') w) = true ->
    valid (ld64 (v_mem s) w) = true /\ PTE2PA (ld64 (v_mem s') w) = PTE2PA (ld64 (v_mem s) w) }.

Lemma evolves_refl s fl l v : evolves s fl l v s fl l v.
Proof. by split. Qed.
Lemma evolves_trans s1 fl1 l1 v1 s2 fl2 l2 v2 s3 fl3 l3 v3 :
  evolves s1 fl1 l1 v1 s2 fl2 l2 v2 -> evolves s2 fl2 l2 v2 s3 fl3 l3 v3 -> evolves s1 fl1 l1 v1 s3 fl3 l3 v3.
Proof.
  intros [I1 V1 K1 S1 R1 B1 D1 F1] [I2 V2 K2 S2 R2 B2 D2 F2]. split.
  - by eapply inner_eq_trans.
  - intros w Hw. by rewrite V2, V1.
  - intros w Hw Hv. rewrite K2; [by apply K1|done|]. by rewrite K1.
  - intros j Hj Hu. destruct (S1 j Hj Hu) as [Hu1 E1]. destruct (S2 j Hj Hu1) as [Hu2 E2]. split; congruence.
  - intros q Hq. destruct (R1 q Hq) as [Hq1 P1]. destruct (R2 q Hq1) as [Hq2 P2]. split; [done|].
    intros x Hx. by rewrite P2, P1.
  - congruence.
  - intros b Hb. by rewrite D2, D1.
  - intros w Hw Hv. destruct (F2 w Hw Hv) as [Hv1 E1]. destruct (F1 w Hw Hv1) as [Hv0 E0]. split; congruence.
Qed.
Lemma evolves_uview s fl l v s' fl' l' v' root va :
  tables_ok T (v_mem s) -> evolves s fl l v s' fl' l' v' -> T !! root = Some 2%nat ->
  uview (v_mem s') v' root va = uview (v_mem s) v root va.
Proof.
  intros Ht E Hr. unfold uview. rewrite (pwalk_ext T (v_mem s) (v_mem s')); [|apply E|done|done].
  case_bool; [done|]. eapply ev_view; [done|]. by apply pwalk_pteaddr.
Qed.

(** ** Memory changes outside tables, bitmap and free list *)
Lemma upage_aligned p : upage p -> aligned p.
Proof. by intros [? _]. Qed.
Lemma ld64_page_eq m m' p : page_eq m m' p -> ld64 m' p = ld64 m p.
Proof. intros He. apply ld_ext. intros x Hx. apply He. unfold in_page, PGSIZE. lia. Qed.

Lemma owner_pte_ext m m' L L' i :
  inner_eq T m m' -> tables_ok T m -> same_owner L L' -> T !! pg_pagetable (pages L i) = Some 2%nat ->
  owner_pte m' L' i = owner_pte m L i.
Proof.
  intros He Ht Ho Hr. unfold owner_pte. destruct (Ho i) as [-> ->]. by apply (pwalk_ext T).
Qed.
Lemma owned_ext m m' L L' i :
  inner_eq T m m' -> tables_ok T m -> same_owner L L' ->
  (forall w, pteaddr T w -> w = owner_pte m L i -> valid (ld64 m w) = true ->
     valid (ld64 m' w) = true /\ PTE2PA (ld64 m' w) = PTE2PA (ld64 m w)) ->
  owned m L i -> owned m' L' i.
Proof.
  intros He Ht Ho Hw [Or Ov Op Ova Of].
  pose proof (owner_pte_ext m m' L L' i He Ht Ho Or) as E.
  destruct (Hw (owner_pte m L i)) as [H1 H2]; [by apply pwalk_pteaddr|done|done|].
  destruct (Ho i) as [E1 E2]. split; rewrite ?E1, ?E2, ?E; congruence.
Qed.

(** A memory that agrees on the tables and the free list links and in which the
    slots in use are marked. *)
Lemma vm_ok_mem s fl l m' :
  vm_ok s fl l ->
  (forall p k, T !! p = Some k -> page_eq (v_mem s) m' p) ->
  (forall p, p ∈ fl -> page_eq (v_mem s) m' p) ->
  (forall w, pteaddr T w -> valid (ld64 (v_mem s) w) = false -> swapped (ld64 (v_mem s) w) = true ->
     slot_used m' (v_bitmap s) (slot_of (ld64 (v_mem s) w)) = true) ->
  vm_ok (set_mem m' s) fl l.
Proof.
  intros I Ht Hf Hb. pose proof (inner_eq_pages T _ _ Ht) as Hin.
  assert (forall w, pteaddr T w -> ld64 m' w = ld64 (v_mem s) w) as Hl by (intros; by apply (leaf_eq_pages T)).
  assert (same_owner (v_lru s) (v_lru s)) as Hso by by intros ?.
  split; cbn [v_mem v_free v_lru v_bitmap v_slots set_mem]; try apply I.
  - eapply tables_ok_ext; [done|apply I].
  - eapply flist_ext; [|apply I]. intros p Hp. by apply ld64_page_eq, Hf.
  - intros i Hi. eapply owned_ext; [done|apply I|done| |by apply (vo_owned _ _ _ I)].
    intros w Hw _ Hv. by rewrite Hl.
  - intros w Hw. rewrite Hl by done. by apply (vo_valid _ _ _ I).
  - intros w i Hw. rewrite Hl by done. intros Hv Hi Hpa. rewrite (vo_own _ _ _ I w i) by done.
    symmetry. apply owner_pte_ext; [done|apply I|done|]. by apply (vo_owned _ _ _ I).
  - intros w Hw. rewrite Hl by done. intros Hv Hs. destruct (vo_slot _ _ _ I w Hw Hv Hs) as [Hok Hu].
    split; [done|]. by apply Hb.
  - intros w w' Hw Hw'. rewrite !Hl by done. by apply (vo_slot_inj _ _ _ I).
Qed.

(** ** A store to a leaf entry *)
Section leaf.
Context (s : vm C) (fl l : list Z) (w e' : Z).
Context (I : vm_ok s fl l) (Hw : pteaddr T w) (He' : 0 <= e' < 2 ^ 64).
Let m := v_mem s.
Let m' := st64 m w e'.

Lemma leaf_new : ld64 m' w = e'.
Proof. unfold m'. rewrite ld64_st64_same. by apply u64_small. Qed.
Lemma leaf_other w' : pteaddr T w' -> w' <> w -> ld64 m' w' = ld64 m w'.
Proof. intros Hw' Hne. unfold m'. rewrite (leaf_st T) by (done || apply I). by rewrite decide_False. Qed.
Lemma leaf_inner : inner_eq T m m'.
Proof. apply inner_eq_st; [apply I|done]. Qed.
Lemma leaf_page q : aligned q -> T !! q = None -> page_eq m m' q.
Proof. apply page_eq_leaf_st; [apply I|done]. Qed.
Lemma leaf_flist : flist m' (v_free s) fl.
Proof.
  eapply flist_ext; [|apply I]. intros p Hp. destruct (vo_fpages _ _ _ I p Hp) as [[? _] ?].
  by apply ld64_page_eq, leaf_page.
Qed.
Lemma leaf_bitmap : page_eq m m' (v_bitmap s).
Proof. destruct (vo_bm _ _ _ I) as ([? _] & ? & _). by apply leaf_page. Qed.
Lemma leaf_owner i : i ∈ l -> owner_pte m' (v_lru s) i = owner_pte m (v_lru s) i.
Proof. intros Hi. apply owner_pte_ext; [apply leaf_inner|apply I|by intros ?|]. by apply (vo_owned _ _ _ I). Qed.

Lemma vm_ok_leaf :
  (forall i, i ∈ l -> owner_pte m (v_lru s) i = w -> valid e' = true /\ PTE2PA e' = page_to_pa i) ->
  (valid e' = true -> let f := PTE2PA e' in (f ∉ fl) /\ T !! f = None /\ f <> v_bitmap s) ->
  (forall i, valid e' = true -> i ∈ l -> PTE2PA e' = page_to_pa i -> w = owner_pte m (v_lru s) i) ->
  (valid e' = false -> swapped e' = true -> slot_ok (slot_of e') /\ slot_used m (v_bitmap s) (slot_of e') = true) ->
  (forall w', valid e' = false -> swapped e' = true -> pteaddr T w' -> w' <> w ->
     valid (ld64 m w') = false -> swapped (ld64 m w') = true -> slot_of (ld64 m w') <> slot_of e') ->
  vm_ok (set_mem m' s) fl l.
Proof.
  intros Hown Hval Hmap Hslot Hinj.
  assert (forall j, slot_ok j -> slot_used m' (v_bitmap s) j = slot_used m (v_bitmap s) j) as Hu.
  { intros j Hj. apply slot_used_ext; [done|]. intros x Hx. by apply leaf_bitmap. }
  pose proof leaf_new as Hn. pose proof leaf_other as Ho.
  split; cbn [v_mem v_free v_lru v_bitmap v_slots set_mem]; try apply I.
  - eapply tables_ok_ext; [apply leaf_inner|apply I].
  - apply leaf_flist.
  - intros i Hi. eapply owned_ext; [apply leaf_inner|apply I|by intros ?| |by apply (vo_owned _ _ _ I)].
    intros x Hx -> Hv. destruct (decide (owner_pte m (v_lru s) i = w)) as [E|E].
    + rewrite E, Hn. destruct (Hown i Hi E) as [-> ->]. split; [done|]. rewrite <- E.
      symmetry. by apply (vo_owned _ _ _ I).
    + by rewrite Ho.
  - intros x Hx. destruct (decide (x = w)) as [->|Hne]; [rewrite Hn; auto|]. rewrite Ho by done. by apply I.
  - intros x i Hx Hv Hi. rewrite leaf_owner by done.
    destruct (decide (x = w)) as [->|Hne]; [rewrite Hn in Hv |- *; auto|]. rewrite Ho in Hv |- * by done.
    by apply (vo_own _ _ _ I).
  - intros x Hx. destruct (decide (x = w)) as [->|Hne].
    + rewrite Hn. intros Hv Hs. destruct (Hslot Hv Hs). by rewrite Hu.
    + rewrite Ho by done. intros Hv Hs. destruct (vo_slot _ _ _ I x Hx Hv Hs). by rewrite Hu.
  - intros x y Hx Hy.
    destruct (decide (x = w)) as [->|Hxw]; destruct (decide (y = w)) as [->|Hyw]; try done;
      rewrite ?Hn, ?(Ho x), ?(Ho y) by done.
    + intros Hv Hs Hv' Hs' E. by destruct (Hinj y).
    + intros Hv Hs Hv' Hs' E. by destruct (Hinj x).
    + by apply (vo_slot_inj _ _ _ I).
Qed.

(** Other leaves are seen as before, and so is [w] when its view is the same. *)
Lemma lview_leaf_other v x : pteaddr T x -> x <> w -> (valid (ld64 m x) = true -> T !! PTE2PA (ld64 m x) = None) ->
  lview m' v x = lview m v x.
Proof.
  intros Hx Hne Hv. unfold lview. rewrite leaf_other by done. case_match eqn:E; [|done].
  f_equal. f_equal. apply page_bytes_eq, leaf_page; [|by apply Hv]. unfold aligned, PTE2PA, u64, PGSIZE.
  change (2 ^ 64) with (4096 * 2 ^ 52). rewrite Z.shiftl_mul_pow2 by lia. change (2 ^ 12) with 4096.
  rewrite (Z.mul_comm _ 4096), Z.mul_mod_distr_l by lia. rewrite Z.mul_comm. by apply Z_mod_mult.
Qed.
Lemma evolves_leaf v :
  valid (ld64 m w) = true -> (valid e' = true -> PTE2PA e' = PTE2PA (ld64 m w)) -> lview m' v w = lview m v w ->
  evolves s fl l v (set_mem m' s) fl l v.
Proof.
  intros Hv Hpa Hlw. split; cbn [v_mem v_bitmap set_mem]; try done.
  - apply leaf_inner.
  - intros x Hx. destruct (decide (x = w)) as [->|Hne]; [done|]. apply lview_leaf_other; try done.
    intros Hvx. by apply (vo_valid _ _ _ I).
  - intros x Hx Hvx. apply leaf_other; [done|]. intros ->. fold m in Hvx. congruence.
  - intros j Hj Hu. split; [|done]. rewrite <- Hu. apply slot_used_ext; [done|]. intros x Hx. by apply leaf_bitmap.
  - intros q Hq. split; [by destruct Hq|]. by apply leaf_page; apply Hq.
  - intros x Hx. destruct (decide (x = w)) as [->|Hne]; [rewrite leaf_new; auto|]. by rewrite leaf_other.
Qed.
End leaf.

(** ** The resident list *)
Lemma vm_ok_lru s fl l L' l' :
  vm_ok s fl l -> lru_repr L' l' -> (forall i, i ∈ l' -> i ∈ l) -> same_owner (v_lru s) L' ->
  vm_ok (set_lru L' s) fl l'.
Proof.
  intros I HL Hsub Hso.
  assert (inner_eq T (v_mem s) (v_mem s)) as Hin by by intros ?.
  split; cbn [v_mem v_free v_lru v_bitmap v_slots set_lru]; try apply I; try done.
  - intros i Hi. by apply (vo_lpages _ _ _ I), Hsub.
  - intros i Hi. eapply owned_ext; [done|apply I|done| |by apply (vo_owned _ _ _ I), Hsub]. done.
  - intros w i Hw Hv Hi Hpa. rewrite (vo_own _ _ _ I w i) by auto. symmetry.
    apply owner_pte_ext; [done|apply I|done|]. by apply (vo_owned _ _ _ I), Hsub.
Qed.
Lemma evolves_lru s fl l v L' l' :
  (forall i, i ∈ l' -> i ∈ l) -> evolves s fl l v (set_lru L' s) fl l' v.
Proof.
  intros Hsub. split; cbn [v_mem v_bitmap set_lru]; try done.
  intros q [? ? ? ? Hq]. split; [|done]. split; try done. intros i Hi. by apply Hq, Hsub.
Qed.

(** Adding the frame [i] that the entry [w] maps. *)
Lemma vm_ok_lru_add s fl l L' i :
  vm_ok s fl l -> lru_repr L' (l ++ [i]) -> same_owner (v_lru s) L' ->
  upage (page_to_pa i) -> T !! page_to_pa i = None -> owned (v_mem s) (v_lru s) i ->
  (forall w, pteaddr T w -> valid (ld64 (v_mem s) w) = true -> PTE2PA (ld64 (v_mem s) w) = page_to_pa i ->
     w = owner_pte (v_mem s) (v_lru s) i) ->
  vm_ok (set_lru L' s) fl (l ++ [i]).
Proof.
  intros I HL Hso Hu Ht Ho Hmap.
  assert (inner_eq T (v_mem s) (v_mem s)) as Hin by by intros ?.
  assert (forall j, j ∈ l ++ [i] -> owned (v_mem s) (v_lru s) j) as Hown.
  { intros j [Hj| ->%list_elem_of_singleton]%elem_of_app; [by apply (vo_owned _ _ _ I)|done]. }
  split; cbn [v_mem v_free v_lru v_bitmap v_slots set_lru]; try apply I; try done.
  - intros j [Hj| ->%list_elem_of_singleton]%elem_of_app; [by apply (vo_lpages _ _ _ I)|done].
  - intros j Hj. eapply owned_ext; [done|apply I|done| |by apply Hown]. done.
  - intros w j Hw Hv Hj Hpa. rewrite (owner_pte_ext _ _ _ _ j Hin (vo_tables _ _ _ I) Hso) by by apply Hown.
    apply elem_of_app in Hj as [Hj| ->%list_elem_of_singleton]; [by apply (vo_own _ _ _ I)|by apply Hmap].
Qed.

(** Changing the recorded owner of a frame that is not resident. *)
Lemma vm_ok_owner s fl l i pt va :
  vm_ok s fl l -> i ∉ l -> vm_ok (set_lru (upd_page i (set_owner pt va) (v_lru s)) s) fl l.
Proof.
  intros I Hi.
  assert (forall j, j ∈ l -> pages (upd_page i (set_owner pt va) (v_lru s)) j = pages (v_lru s) j) as Hp.
  { intros j Hj. cbn. rewrite (proj2 (Z.eqb_neq _ _)); [done|]. by intros ->. }
  assert (forall j, j ∈ l -> owner_pte (v_mem s) (upd_page i (set_owner pt va) (v_lru s)) j =
                             owner_pte (v_mem s) (v_lru s) j) as Hop.
  { intros j Hj. unfold owner_pte. by rewrite Hp. }
  split; cbn [v_mem v_free v_lru v_bitmap v_slots set_lru]; try apply I.
  - apply lru_repr_owner, I.
  - intros j Hj. destruct (vo_owned _ _ _ I j Hj). split; rewrite ?Hp, ?Hop by done; done.
  - intros w j Hw Hv Hj. rewrite Hop by done. by apply (vo_own _ _ _ I).
Qed.

(** ** The bitmap *)
Lemma off_bitmap s fl l m' :
  vm_ok s fl l -> (forall x, ~ in_page (v_bitmap s) x -> ld8 m' x = ld8 (v_mem s) x) ->
  forall q, aligned q -> q <> v_bitmap s -> page_eq (v_mem s) m' q.
Proof.
  intros I Hx q Hq Hne x Hin. apply Hx. intros Hb. apply Hne.
  eapply aligned_disjoint; [done| |done|done]. apply (vo_bm _ _ _ I).
Qed.
Lemma table_not_bm s fl l p k : vm_ok s fl l -> T !! p = Some k -> aligned p /\ p <> v_bitmap s.
Proof.
  intros I Hp. destruct (vo_tpages _ _ _ I p k Hp) as [Ha _]. destruct (vo_bm _ _ _ I) as (_ & Hn & _).
  split; [done|]. intros ->. congruence.
Qed.
Lemma free_not_bm s fl l p : vm_ok s fl l -> p ∈ fl -> aligned p /\ p <> v_bitmap s.
Proof.
  intros I Hp. destruct (vo_fpages _ _ _ I p Hp) as [[Ha _] _]. destruct (vo_bm _ _ _ I) as (_ & _ & Hn).
  split; [done|]. by intros ->.
Qed.

(** A change of the bitmap page that keeps the marks of the slots that entries
    name. *)
Lemma vm_ok_bitmap s fl l m' :
  vm_ok s fl l -> (forall x, ~ in_page (v_bitmap s) x -> ld8 m' x = ld8 (v_mem s) x) ->
  (forall w, pteaddr T w -> valid (ld64 (v_mem s) w) = false -> swapped (ld64 (v_mem s) w) = true ->
     slot_used m' (v_bitmap s) (slot_of (ld64 (v_mem s) w)) = true) ->
  vm_ok (set_mem m' s) fl l.
Proof.
  intros I Hx Hu. pose proof (off_bitmap _ _ _ _ I Hx) as Hoff. apply vm_ok_mem; try done.
  - intros p k Hp. destruct (table_not_bm _ _ _ _ _ I Hp). by apply Hoff.
  - intros p Hp. destruct (free_not_bm _ _ _ _ I Hp). by apply Hoff.
Qed.
Lemma PTE2PA_aligned e : aligned (PTE2PA e).
Proof.
  unfold aligned, PTE2PA, u64, PGSIZE.
  change (2 ^ 64) with (4096 * 2 ^ 52). rewrite Z.shiftl_mul_pow2 by lia. change (2 ^ 12) with 4096.
  rewrite (Z.mul_comm _ 4096), Z.mul_mod_distr_l by lia. rewrite Z.mul_comm. by apply Z_mod_mult.
Qed.
(** A memory change outside the tables and the mapped frames. *)
Lemma evolves_mem s fl l v m' :
  vm_ok s fl l ->
  (forall p k, T !! p = Some k -> page_eq (v_mem s) m' p) ->
  (forall w, pteaddr T w -> valid (ld64 (v_mem s) w) = true -> page_eq (v_mem s) m' (PTE2PA (ld64 (v_mem s) w))) ->
  (forall j, slot_ok j -> slot_used (v_mem s) (v_bitmap s) j = true -> slot_used m' (v_bitmap s) j = true) ->
  (forall q, reserved s fl l q -> page_eq (v_mem s) m' q) ->
  evolves s fl l v (set_mem m' s) fl l v.
Proof.
  intros I Ht Hf Hu Hq.
  assert (forall w, pteaddr T w -> ld64 m' w = ld64 (v_mem s) w) as Hl by (intros; by apply (leaf_eq_pages T)).
  split; cbn [v_mem v_bitmap set_mem]; try done.
  - by apply inner_eq_pages.
  - intros w Hw. unfold lview. rewrite Hl by done. case_match eqn:Ev; [|done].
    f_equal. f_equal. apply page_bytes_eq. by apply Hf.
  - intros w Hw _. by apply Hl.
  - intros j Hj Hj'. split; [by apply Hu|done].
  - intros q Hr. split; [by destruct Hr|by apply Hq].
  - intros w Hw. by rewrite Hl.
Qed.

Lemma mark_ok s fl l v j :
  vm_ok s fl l -> slot_ok j ->
  vm_ok (set_mem (slot_mark (v_bitmap s) j (v_mem s)) s) fl l /\
  evolves s fl l v (set_mem (slot_mark (v_bitmap s) j (v_mem s)) s) fl l v.
Proof.
  intros I Hj. set (m' := slot_mark (v_bitmap s) j (v_mem s)).
  assert (forall x, ~ in_page (v_bitmap s) x -> ld8 m' x = ld8 (v_mem s) x) as Hx.
  { intros x Hx. by apply slot_mark_other. }
  assert (forall k, slot_ok k -> slot_used (v_mem s) (v_bitmap s) k = true -> slot_used m' (v_bitmap s) k = true) as Hu.
  { intros k Hk E. unfold m'. rewrite slot_used_mark, E by (apply Hj || apply Hk). apply orb_true_r. }
  pose proof (off_bitmap _ _ _ _ I Hx) as Hoff. split.
  - apply vm_ok_bitmap; try done. intros w Hw Hv Hs. destruct (vo_slot _ _ _ I w Hw Hv Hs). by apply Hu.
  - apply evolves_mem; try done.
    + intros p k Hp. destruct (table_not_bm _ _ _ _ _ I Hp). by apply Hoff.
    + intros w Hw Hv. apply Hoff; [apply PTE2PA_aligned|]. by apply (vo_valid _ _ _ I).
    + intros q Hq. apply Hoff; apply Hq.
Qed.

(** ** Freeing and allocating a page *)
Definition free_mem (s : vm C) (pa : Z) : mem := st64 (mfill (v_mem s) pa 1 PGSIZE) pa (v_free s).

Lemma free_mem_other s pa q : aligned pa -> aligned q -> pa <> q -> page_eq (v_mem s) (free_mem s pa) q.
Proof.
  intros Hp Hq Hne x Hx.
  assert (~ in_page pa x) as Hn by (intros Hin; apply Hne; by apply (aligned_disjoint pa q x)).
  unfold free_mem. rewrite ld8_st_other by (unfold in_page, PGSIZE in *; lia).
  rewrite ld8_mfill. unfold in_page in Hn. bools; done.
Qed.

Lemma kfree_run s pa :
  upage pa -> kfree kend pa s = Ret (tt, set_free pa (set_mem (free_mem s pa) s)).
Proof.
  intros [Ha Hr]. unfold kfree. unfold aligned in Ha. rewrite Ha, Z.geb_leb.
  rewrite (proj2 (Z.ltb_ge _ _)), (proj2 (Z.leb_gt _ _)) by lia. done.
Qed.

Lemma flist_range fl : (forall p, p ∈ fl -> upage p) -> KERNBASE <= kend ->
  forall m h, flist m h fl -> 0 <= h < 2 ^ 64.
Proof.
  intros Hf Hk m h. destruct fl as [|p fl]; cbn [flist]; [lia|]. intros [-> _].
  destruct (Hf p) as [_ Hr]; [set_solver|]. unfold PHYSTOP, KERNBASE in *. lia.
Qed.

Lemma kfree_ok s fl l v pa :
  vm_ok s fl l -> upage pa -> reserved s fl l pa -> unmapped (v_mem s) pa ->
  let s' := set_free pa (set_mem (free_mem s pa) s) in
  vm_ok s' (pa :: fl) l /\
  (forall q, reserved s fl l q -> q <> pa -> reserved s' (pa :: fl) l q /\ page_eq (v_mem s) (v_mem s') q) /\
  inner_eq T (v_mem s) (v_mem s') /\
  (forall w, pteaddr T w -> lview (v_mem s') v w = lview (v_mem s) v w /\ ld64 (v_mem s') w = ld64 (v_mem s) w) /\
  (forall j, slot_ok j -> slot_used (v_mem s') (v_bitmap s) j = slot_used (v_mem s) (v_bitmap s) j).
Proof.
  intros I Hpa [Hal Hta Hfl Hbm Hlr] Hun s'. pose proof (free_mem_other s pa) as Hoff.
  assert (forall p k, T !! p = Some k -> page_eq (v_mem s) (free_mem s pa) p) as Ht.
  { intros p k Hp. destruct (table_not_bm _ _ _ _ _ I Hp). apply Hoff; try done. intros ->. congruence. }
  assert (forall j, slot_ok j -> slot_used (free_mem s pa) (v_bitmap s) j = slot_used (v_mem s) (v_bitmap s) j) as Hu.
  { intros j Hj. apply slot_used_ext; [done|]. intros x Hx.
    apply (Hoff (v_bitmap s)); try done. apply (vo_bm _ _ _ I). }
  assert (forall w, pteaddr T w -> ld64 (free_mem s pa) w = ld64 (v_mem s) w) as Hl
    by (intros; by apply (leaf_eq_pages T)).
  assert (vm_ok (set_mem (free_mem s pa) s) fl l) as I'.
  { apply vm_ok_mem; try done.
    - intros p Hp. destruct (free_not_bm _ _ _ _ I Hp). apply Hoff; try done. by intros ->.
    - intros w Hw Hv Hs. destruct (vo_slot _ _ _ I w Hw Hv Hs). by rewrite Hu. }
  assert (forall w, pteaddr T w -> lview (free_mem s pa) v w = lview (v_mem s) v w) as Hlv.
  { intros w Hw. unfold lview. rewrite Hl by done. case_match eqn:Ev; [|done].
    f_equal. f_equal. apply page_bytes_eq, Hoff; [done|apply PTE2PA_aligned|].
    intros E. by apply (Hun w Hw Ev). }
  split_and!.
  - split; unfold s'; cbn [v_mem v_free v_lru v_bitmap v_slots set_mem set_free]; try apply I'.
    + split; [done|].
      assert (ld64 (free_mem s pa) pa = v_free s) as ->; [|apply I'].
      unfold free_mem. rewrite ld64_st64_same. apply u64_small.
      eapply flist_range; [|apply I|apply I]. intros p Hp. by apply (vo_fpages _ _ _ I).
    + intros p [->|Hp]%elem_of_cons; [done|by apply (vo_fpages _ _ _ I)].
    + apply NoDup_cons. split; [done|apply I].
    + destruct (vo_bm _ _ _ I) as (? & ? & ?). split_and!; try done. set_solver.
    + intros w Hw Hv. destruct (vo_valid _ _ _ I' w Hw Hv) as (H1 & H2 & H3). split_and!; try done.
      cbn [v_mem set_mem] in *. rewrite not_elem_of_cons. split; [|done]. rewrite Hl in Hv |- * by done. auto.
  - intros q [? ? ? ? ?] Hne. split; [|by apply Hoff]. split; try done. set_solver.
  - by apply inner_eq_pages.
  - intros w Hw. split; [by apply Hlv|by apply Hl].
  - done.
Qed.

(** ** The cache and the counters *)
Lemma vm_ok_cache s fl l c r w : vm_ok s fl l -> vm_ok (set_cache c (set_counts r w s)) fl l.
Proof. intros I. split; cbn [v_mem v_free v_lru v_bitmap v_slots set_cache set_counts]; apply I. Qed.
Lemma evolves_disk s fl l v v' c r w :
  vm_ok s fl l ->
  (forall j, slot_ok j -> slot_used (v_mem s) (v_bitmap s) j = true -> slot_bytes v' j = slot_bytes v j) ->
  (forall b, b < SWAPBASE -> v' b = v b) ->
  evolves s fl l v (set_cache c (set_counts r w s)) fl l v'.
Proof.
  intros I Hs Hb. split; cbn [v_mem v_bitmap set_cache set_counts]; try done.
  - intros x Hx. unfold lview. case_match eqn:Ev; [done|]. case_match eqn:Es; [|done].
    destruct (vo_slot _ _ _ I x Hx Ev Es) as [Hok Hu]. by rewrite Hs.
  - intros j Hj Hu. split; [done|by apply Hs].
  - intros q [? ? ? ? ?]. split; [by split|done].
Qed.

(** ** Writing to a page nobody uses *)
Lemma vm_ok_page s fl l v m' q :
  vm_ok s fl l -> reserved s fl l q -> unmapped (v_mem s) q ->
  (forall q', aligned q' -> q' <> q -> page_eq (v_mem s) m' q') ->
  vm_ok (set_mem m' s) fl l /\ evolves s (q :: fl) l v (set_mem m' s) fl l v /\
  reserved (set_mem m' s) fl l q /\ unmapped m' q.
Proof.
  intros I [Ra Rt Rf Rb Rl] Hun Hoff.
  assert (forall p k, T !! p = Some k -> page_eq (v_mem s) m' p) as Ht.
  { intros p k Hp. destruct (table_not_bm _ _ _ _ _ I Hp). apply Hoff; [done|]. intros ->. congruence. }
  assert (forall w, pteaddr T w -> ld64 m' w = ld64 (v_mem s) w) as Hl by (intros; by apply (leaf_eq_pages T)).
  assert (forall j, slot_ok j -> slot_used m' (v_bitmap s) j = slot_used (v_mem s) (v_bitmap s) j) as Hu.
  { intros j Hj. apply slot_used_ext; [done|]. intros x Hx. apply (Hoff (v_bitmap s)); try done. apply (vo_bm _ _ _ I). }
  split_and!.
  - apply vm_ok_mem; try done.
    + intros p Hp. destruct (free_not_bm _ _ _ _ I Hp). apply Hoff; [done|]. by intros ->.
    + intros w Hw Hv Hs. destruct (vo_slot _ _ _ I w Hw Hv Hs). by rewrite Hu.
  - split; cbn [v_mem v_bitmap set_mem]; try done.
    + by apply inner_eq_pages.
    + intros w Hw. unfold lview. rewrite Hl by done. case_match eqn:Ev; [|done].
      f_equal. f_equal. apply page_bytes_eq, Hoff; [apply PTE2PA_aligned|]. by apply Hun.
    + intros w Hw _. by apply Hl.
    + intros j Hj Hj'. by rewrite Hu.
    + intros x [? ? Hx ? ?]. split; [|apply Hoff; [done|set_solver]]. split; try done. set_solver.
    + intros w Hw. by rewrite Hl.
  - by split.
  - intros w Hw. rewrite Hl by done. by apply Hun.
Qed.

(** Taking the first page of the free list. *)
Lemma pop_ok s p fl l :
  vm_ok s (p :: fl) l ->
  let s' := set_free (ld64 (v_mem s) p) s in
  v_free s = p /\ p <> 0 /\ upage p /\ vm_ok s' fl l /\ reserved s' fl l p /\ unmapped (v_mem s') p.
Proof.
  intros I s'. destruct (vo_flist _ _ _ I) as [Hp Hf].
  destruct (vo_fpages _ _ _ I p) as [Hu Ht]; [set_solver|].
  pose proof (vo_fnodup _ _ _ I) as [Hnd Hnd']%NoDup_cons.
  destruct (vo_bm _ _ _ I) as (Hb1 & Hb2 & Hb3).
  assert (forall w, pteaddr T w -> valid (ld64 (v_mem s) w) = true -> PTE2PA (ld64 (v_mem s) w) ∉ p :: fl) as Hv.
  { intros w Hw Hvw. by apply (vo_valid _ _ _ I). }
  split_and!; try done.
  - destruct Hu as [_ Hr]. pose proof (vo_kend _ _ _ I). unfold KERNBASE in *. lia.
  - split; unfold s'; cbn [v_mem v_free v_lru v_bitmap v_slots set_free]; try apply I; try done.
    + intros q Hq. apply (vo_fpages _ _ _ I). set_solver.
    + split_and!; try done. set_solver.
    + intros w Hw Hvw. destruct (vo_valid _ _ _ I w Hw Hvw) as (? & ? & ?). split_and!; try done. set_solver.
  - split; try done; [apply Hu|set_solver|]. intros i Hi E.
    pose proof (vo_owned _ _ _ I i Hi) as O. apply (Hv (owner_pte (v_mem s) (v_lru s) i)).
    + apply pwalk_pteaddr; [apply I|apply O|apply O].
    + apply O.
    + rewrite (ow_frame _ _ _ O), E. set_solver.
  - intros w Hw Hvw E. apply (Hv w Hw Hvw). change (v_mem s') with (v_mem s) in E. rewrite E. set_solver.
Qed.
End inv.
