(* ===== verification/Swap.v ===== *)
(** Swapping is transparent: the page replacement and swap-in code of
    kernel/vm.c and the allocator of kernel/kalloc.c preserve the invariant of
    VmInv.v and what every process sees of its memory. *)
From S2P Require Import Prelude Riscv Memory Ring Lru Blocks Kmem SwapIO PageTable Pte VmInv.

Section clock.
Context {C : Type} `{BufCache C} (kend : Z) (T : gmap Z nat).
Implicit Types (s : vm C).

(** The accessed bit of the resident page [i]. *)
Definition acc s (i : Z) : bool := flag_set (ld64 (v_mem s) (owner_pte (v_mem s) (v_lru s) i)) PTE_A.

Lemma page_to_pa_inj i j : page_to_pa i = page_to_pa j -> i = j.
Proof. unfold page_to_pa, PGSIZE. lia. Qed.

Lemma owner_pte_inj s fl l i j :
  vm_ok kend T s fl l -> i ∈ l -> j ∈ l ->
  owner_pte (v_mem s) (v_lru s) i = owner_pte (v_mem s) (v_lru s) j -> i = j.
Proof.
  intros I Hi Hj E. apply page_to_pa_inj.
  rewrite <- (ow_frame _ _ _ _ (vo_owned _ _ _ _ _ I i Hi)), <- (ow_frame _ _ _ _ (vo_owned _ _ _ _ _ I j Hj)).
  by rewrite E.
Qed.
Lemma owner_pteaddr s fl l i : vm_ok kend T s fl l -> i ∈ l -> pteaddr T (owner_pte (v_mem s) (v_lru s) i).
Proof.
  intros I Hi. pose proof (vo_owned _ _ _ _ _ I i Hi) as O.
  apply pwalk_pteaddr; [apply I|apply O|apply O].
Qed.

(** Giving the page [i] its second chance. *)
Definition second_chance s (i : Z) : vm C :=
  let w := owner_pte (v_mem s) (v_lru s) i in
  set_mem (st64 (v_mem s) w (clear_A (ld64 (v_mem s) w))) s.

Lemma second_chance_ok s fl l v i :
  vm_ok kend T s fl l -> i ∈ l ->
  vm_ok kend T (second_chance s i) fl l /\ evolves T s fl l v (second_chance s i) fl l v /\
  (forall j, j ∈ l -> acc (second_chance s i) j = acc s j && negb (bool_decide (j = i))) /\
  page_eq (v_mem s) (v_mem (second_chance s i)) (v_bitmap s).
Proof.
  intros I Hi. unfold second_chance. set (m := v_mem s). set (w := owner_pte m (v_lru s) i).
  set (e := ld64 m w). pose proof (owner_pteaddr _ _ _ _ I Hi) as Hw. fold m w in Hw.
  pose proof (vo_owned _ _ _ _ _ I i Hi) as O. pose proof (ow_valid _ _ _ _ O) as Hv. fold m w e in Hv.
  pose proof (clear_A_range e (ld64_range m w)) as Hr.
  destruct (clear_A_facts e) as (Fv & Fs & Fa & Fsl & Fp). pose proof (clear_A_pa e) as Fpa.
  split_and!.
  - apply vm_ok_leaf; try done; fold m e; rewrite ?Fv, ?Fs, ?Hv; try done.
    + intros j Hj E. rewrite Fpa. split; [done|]. rewrite <- (ow_frame _ _ _ _ (vo_owned _ _ _ _ _ I j Hj)).
      fold m. by rewrite E.
    + intros _. rewrite Fpa. apply (vo_valid _ _ _ _ _ I w Hw Hv).
    + intros j _ Hj E. rewrite Fpa in E. by apply (vo_own _ _ _ _ _ I).
  - apply (evolves_leaf kend); try done. fold m. unfold lview. rewrite (leaf_new s w) by done. fold e.
    rewrite Fv, Hv, Fpa, Fp. f_equal. f_equal. apply page_bytes_eq.
    apply (leaf_page kend T s fl l w); [done|done|apply PTE2PA_aligned|].
    apply (vo_valid _ _ _ _ _ I w Hw Hv).
  - intros j Hj. unfold acc. cbn [v_mem v_lru set_mem].
    pose proof (leaf_owner kend T s fl l w (clear_A e) I Hw j Hj) as Ew. fold m in Ew |- *. rewrite Ew.
    destruct (decide (j = i)) as [->|Hne].
    + rewrite bool_decide_true, andb_false_r by done. fold w. by rewrite (leaf_new s w).
    + rewrite bool_decide_false, andb_true_r by done.
      pose proof (leaf_other kend T s fl l w (clear_A e) I Hw (owner_pte m (v_lru s) j)) as El.
      fold m in El. rewrite El; [done| |].
      * by apply (owner_pteaddr s fl l j).
      * intros E. apply Hne. by eapply owner_pte_inj.
  - by apply (leaf_bitmap kend T s fl l w).
Qed.

(** Moving the clock hand past the head. *)
Definition advance s (c : Z) : vm C :=
  set_lru (set_tail (Some c) (set_head (nexts (v_lru s) c) (v_lru s))) s.

Lemma advance_ok s fl v c l :
  vm_ok kend T s fl (c :: l) ->
  vm_ok kend T (advance s c) fl (l ++ [c]) /\ evolves T s fl (c :: l) v (advance s c) fl (l ++ [c]) v /\
  (forall j, acc (advance s c) j = acc s j) /\ nexts (v_lru s) c = head (l ++ [c]).
Proof.
  intros I. pose proof (lru_repr_rotate (v_lru s) [] c l (vo_lru _ _ _ _ _ I)) as HL. cbn [app] in HL.
  split_and!.
  - apply (vm_ok_lru kend T s fl (c :: l)); [done|done| |by intros ?]. set_solver.
  - apply evolves_lru. set_solver.
  - done.
  - apply (lr_head _ _ HL).
Qed.

Lemma clock_unfold fuel s fl c l Q :
  vm_ok kend T s fl (c :: l) ->
  (acc s c = false -> Q c s) ->
  (acc s c = true -> forall n, head (l ++ [c]) = Some n -> wp (clock fuel n) (advance (second_chance s c) c) Q) ->
  wp (clock (S fuel) c) s Q.
Proof.
  intros I H0 H1. assert (c ∈ c :: l) as Hc by set_solver.
  pose proof (vo_owned _ _ _ _ _ I c Hc) as O.
  cbn [clock]. apply wp_bind, wp_gets. apply wp_bind, wp_walk; [apply O|].
  change (pwalk _ _ _) with (owner_pte (v_mem s) (v_lru s) c).
  rewrite (proj2 (Z.eqb_neq _ _)) by apply O. apply wp_bind, wp_gets.
  rewrite (ow_valid _ _ _ _ O). cbn [negb].
  change (flag_set (ld64 _ (owner_pte _ _ _)) PTE_A) with (acc s c).
  destruct (acc s c) eqn:Ea; [|by apply wp_ret, H0].
  destruct (second_chance_ok s fl (c :: l) (fun _ _ => 0) c I Hc) as (I1 & _ & _ & _).
  destruct (advance_ok (second_chance s c) fl (fun _ _ => 0) c l I1) as (_ & _ & _ & Hn).
  apply wp_bind, wp_modify. apply wp_bind, wp_modify.
  change (v_lru (second_chance s c)) with (v_lru s) in Hn. unfold nexts in Hn.
  destruct (head (l ++ [c])) as [n|] eqn:Eh; [|by destruct l].
  rewrite Hn. specialize (H1 eq_refl n eq_refl). unfold advance, nexts in H1.
  change (v_lru (second_chance s c)) with (v_lru s) in H1. rewrite Hn in H1. exact H1.
Qed.

(** The page the clock chooses from [l]: the first that has not been accessed, or
    the first of all when every page has been. *)
Definition chosen s (l : list Z) (victim : Z) : Prop :=
  (exists l1 l2, l = l1 ++ victim :: l2 /\ (forall i, i ∈ l1 -> acc s i = true) /\ acc s victim = false) \/
  ((forall i, i ∈ l -> acc s i = true) /\ head l = Some victim).

(** The scan, started in [s0]: pages of [rest] are not yet looked at, pages of
    [seen] had their second chance. *)
Lemma clock_scan s0 v fl rest : forall (seen : list Z) s (fuel : nat) c,
  vm_ok kend T s fl (rest ++ seen) -> (forall i, i ∈ seen -> acc s i = false /\ acc s0 i = true) ->
  (forall i, i ∈ rest -> acc s i = acc s0 i) ->
  head (rest ++ seen) = Some c -> (length rest < fuel)%nat ->
  wp (clock fuel c) s (fun victim s' => exists l',
    vm_ok kend T s' fl (victim :: l') /\ evolves T s fl (rest ++ seen) v s' fl (victim :: l') v /\
    victim :: l' ≡ₚ rest ++ seen /\ v_cache s' = v_cache s /\ page_eq (v_mem s) (v_mem s') (v_bitmap s) /\
    chosen s0 (seen ++ rest) victim).
Proof.
  induction rest as [|x rest IH]; intros seen s fuel c I Hseen Hrest Hc Hf.
  - destruct fuel as [|fuel]; [lia|]. destruct seen as [|x seen]; [done|]. injection Hc as ->.
    eapply clock_unfold; [exact I| |].
    + intros Ha. exists seen. split_and!; try done. right.
      rewrite app_nil_r. split; [|done]. intros i Hi. by apply Hseen.
    + intros Ha. destruct (Hseen c) as [E _]; [set_solver|congruence].
  - destruct fuel as [|fuel]; [lia|]. injection Hc as ->. cbn [app] in I.
    eapply clock_unfold; [exact I| |].
    + intros Ha. exists (rest ++ seen). split_and!; try done. left.
      exists seen, rest. split_and!; [done|intros i Hi; by apply Hseen|]. rewrite <- Hrest; [done|set_solver].
    + intros Ha n Hn.
      destruct (second_chance_ok s fl (c :: rest ++ seen) v c I) as (I1 & E1 & A1 & B1); [set_solver|].
      destruct (advance_ok (second_chance s c) fl v c (rest ++ seen) I1) as (I2 & E2 & A2 & _).
      set (s2 := advance (second_chance s c) c) in *. rewrite <- app_assoc in I2, E2, Hn.
      assert (NoDup (c :: rest ++ seen)) as Hnd by apply (vo_lru _ _ _ _ _ I).
      eapply wp_mono.
      { apply (IH (seen ++ [c]) s2 fuel n I2); [| |done|cbn in Hf; lia].
        - intros i [Hi| ->%list_elem_of_singleton]%elem_of_app; rewrite A2, A1 by set_solver.
          + destruct (Hseen i Hi) as [-> ?]. done.
          + rewrite bool_decide_true, andb_false_r by done. split; [done|]. rewrite <- Hrest; [done|set_solver].
        - intros i Hi. rewrite A2, A1 by set_solver. rewrite bool_decide_false, andb_true_r; [apply Hrest; set_solver|].
          intros ->. apply NoDup_cons in Hnd as [Hnd _]. set_solver. }
      intros victim s' (l' & I' & E' & HP & Hcache & B' & Hsel). exists l'. split_and!; try done.
      * eapply evolves_trans; [exact E1|]. eapply evolves_trans; [exact E2|exact E'].
      * rewrite HP. cbn [app]. rewrite app_assoc. by rewrite Permutation_app_comm.
      * intros x Hx. rewrite (B' x Hx). by apply B1.
      * by rewrite <- app_assoc in Hsel.
Qed.

Lemma clock_ok s v fl l c fuel :
  vm_ok kend T s fl l -> head l = Some c -> (length l < fuel)%nat ->
  wp (clock fuel c) s (fun victim s' => exists l',
    vm_ok kend T s' fl (victim :: l') /\ evolves T s fl l v s' fl (victim :: l') v /\
    victim :: l' ≡ₚ l /\ v_cache s' = v_cache s /\ page_eq (v_mem s) (v_mem s') (v_bitmap s) /\
    chosen s l victim).
Proof.
  intros I Hc Hf. pose proof (clock_scan s v fl l [] s fuel c) as K. rewrite app_nil_r in K.
  apply K; try done; set_solver.
Qed.

(** ** Slots *)
Lemma alloc_slot_scan s (k : nat) i :
  0 <= i -> (forall j, 0 <= j < i -> slot_used (v_mem s) (v_bitmap s) j = true) ->
  wp (for_ret (seqZ i (Z.of_nat k))
        (fun i =>
           used ← gets (fun s => slot_used (v_mem s) (v_bitmap s) i);
           if negb used
           then _ ← modify (fun s => set_mem (slot_mark (v_bitmap s) i (v_mem s)) s); mret (Some i)
           else mret None)
        (mret (-1))) s
     (fun r s' =>
        (r = -1 /\ s' = s /\ forall j, 0 <= j < i + Z.of_nat k -> slot_used (v_mem s) (v_bitmap s) j = true) \/
        (0 <= r < i + Z.of_nat k /\ slot_used (v_mem s) (v_bitmap s) r = false /\
         (forall j, 0 <= j < r -> slot_used (v_mem s) (v_bitmap s) j = true) /\
         s' = set_mem (slot_mark (v_bitmap s) r (v_mem s)) s)).
Proof.
  revert i. induction k as [|k IH]; intros i Hi Hlt.
  { apply wp_ret. left. rewrite Z.add_0_r. done. }
  rewrite seqZ_S. cbn [for_ret]. apply wp_bind, wp_bind, wp_gets.
  destruct (slot_used (v_mem s) (v_bitmap s) i) eqn:Eu; cbn [negb].
  - apply wp_ret. eapply wp_mono; [apply (IH (i + 1)); [lia|]|].
    + intros j Hj. destruct (decide (j = i)) as [->|]; [done|]. apply Hlt. lia.
    + intros r s' [(-> & -> & Hj)|(Hr & Hu & Hj & ->)]; [left|right]; split_and!; try done; try lia.
      intros j Hj'. apply Hj. lia.
  - apply wp_bind, wp_modify, wp_ret, wp_ret. right. split_and!; try done. lia.
Qed.

Lemma alloc_swap_slot_ok s fl l :
  vm_ok kend T s fl l ->
  wp alloc_swap_slot s (fun r s' =>
    (r = -1 /\ s' = s /\ forall j, slot_ok j -> slot_used (v_mem s) (v_bitmap s) j = true) \/
    (slot_ok r /\ slot_used (v_mem s) (v_bitmap s) r = false /\
     (forall j, 0 <= j < r -> slot_used (v_mem s) (v_bitmap s) j = true) /\
     s' = set_mem (slot_mark (v_bitmap s) r (v_mem s)) s)).
Proof.
  intros I. unfold alloc_swap_slot. apply wp_bind, wp_gets. rewrite (vo_slots _ _ _ _ _ I).
  unfold slot_ok. rewrite <- (Z2Nat.id (SWAPMAX / BLKS_PER_PG)) by done.
  apply (alloc_slot_scan s (Z.to_nat (SWAPMAX / BLKS_PER_PG)) 0); [done|lia].
Qed.
End clock.

Section swapout.
Context {C : Type} `{HL : BufCacheLaws C} (kend : Z) (T : gmap Z nat).
Implicit Types (s : vm C).

(** Memory, page tables and the swap area are consistent. *)
Record sys_ok s (a : astate) (fl l : list Z) : Prop := {
  so_vm : vm_ok kend T s fl l;
  so_cache : bc_rel (v_cache s) a;
  so_ready : swap_ready a }.

(** The victim's page goes to an unused slot: the cache, the bitmap and the entry
    change. *)
Definition evict_state s c' (slot : Z) (w : Z) : vm C :=
  let m := slot_mark (v_bitmap s) slot (v_mem s) in
  set_mem (st64 m w (evict_pte slot (ld64 m w))) (set_cache c' (set_counts (v_nread s) (v_nwrite s + 4) s)).

Lemma evolves_cons s fl l v s' v' i :
  v_bitmap s' = v_bitmap s -> evolves T s fl l v s' fl l v' -> evolves T s fl (i :: l) v s' fl (i :: l) v'.
Proof.
  intros Eb [Ei Ev Ek Es Er _ Ed Ef]. split; try done. intros q [? ? ? ? Hq].
  destruct (Er q) as [_ Hp].
  - split; try done. intros j Hj. apply Hq. set_solver.
  - split; [|done]. split; try done. by rewrite Eb.
Qed.

(** The entry [w] of the frame [i] now names the slot that holds its contents. *)
Lemma evict_leaf s fl l v i w slot :
  let e := ld64 (v_mem s) w in
  let s' := set_mem (st64 (v_mem s) w (evict_pte slot e)) s in
  vm_ok kend T s fl l -> pteaddr T w -> valid e = true -> PTE2PA e = page_to_pa i ->
  T !! page_to_pa i = None -> i ∉ l ->
  (forall x, pteaddr T x -> valid (ld64 (v_mem s) x) = true -> PTE2PA (ld64 (v_mem s) x) = page_to_pa i -> x = w) ->
  slot_ok slot -> slot_used (v_mem s) (v_bitmap s) slot = true ->
  (forall x, pteaddr T x -> valid (ld64 (v_mem s) x) = false -> swapped (ld64 (v_mem s) x) = true ->
     slot_of (ld64 (v_mem s) x) <> slot) ->
  slot_bytes v slot = page_bytes (v_mem s) (page_to_pa i) ->
  vm_ok kend T s' fl l /\ unmapped T (v_mem s') (page_to_pa i) /\ evolves T s fl l v s' fl l v.
Proof.
  intros e s' I Hw Hv Hf Ht Hi Hown Hok Hu Hno Hb.
  assert (0 <= slot < 2 ^ 31) as Hs31.
  { unfold slot_ok in Hok. change (SWAPMAX / BLKS_PER_PG) with 7000 in Hok. lia. }
  destruct (evict_facts slot e Hs31) as (Fv & Fs & Fsl & Fp).
  pose proof (evict_pte_range slot e Hs31) as Fr.
  split_and!.
  - apply (vm_ok_leaf kend T s fl l w (evict_pte slot e) I Hw Fr); rewrite ?Fv, ?Fs, ?Fsl.
    + intros j Hj E. pose proof (ow_frame _ _ _ _ (vo_owned _ _ _ _ _ I j Hj)) as Hfj. rewrite E in Hfj.
      fold e in Hfj. rewrite Hf in Hfj. apply page_to_pa_inj in Hfj. exfalso. apply Hi. rewrite Hfj. exact Hj.
    + discriminate.
    + discriminate.
    + auto.
    + intros x _ _ Hx _. by apply Hno.
  - intros x Hx Hvx Ex. destruct (decide (x = w)) as [->|Hne].
    + unfold s' in Hvx. cbn [v_mem set_mem] in Hvx. rewrite (leaf_new s w _ Fr) in Hvx. congruence.
    + unfold s' in Hvx, Ex. cbn [v_mem set_mem] in Hvx, Ex.
      rewrite (leaf_other kend T s fl l w _ I Hw x Hx Hne) in Hvx, Ex. apply Hne. by apply Hown.
  - apply (evolves_leaf kend T s fl l w _ I Hw Fr v Hv); [congruence|]. unfold lview. rewrite (leaf_new s w _ Fr).
    rewrite Fv, Fs, Fsl, Fp. fold e. rewrite Hv. f_equal. f_equal. by rewrite Hb, Hf.
Qed.

Lemma evict_ok s a fl l i c' slot L :
  let s1 := set_lru L s in
  let a' := a_put_page (slot_mark (v_bitmap s) slot (v_mem s)) (page_to_pa i) slot a in
  let s' := evict_state s1 c' slot (owner_pte (v_mem s) (v_lru s) i) in
  vm_ok kend T s fl (i :: l) -> vm_ok kend T s1 fl l -> i ∉ l ->
  slot_ok slot -> slot_used (v_mem s) (v_bitmap s) slot = false ->
  vm_ok kend T s' fl l /\ unmapped T (v_mem s') (page_to_pa i) /\
  evolves T s fl (i :: l) (a_view a) s' fl (i :: l) (a_view a').
Proof.
  intros s1 a' s' I0 I1 Hil Hok Hun. set (w := owner_pte (v_mem s) (v_lru s) i) in *.
  assert (i ∈ i :: l) as Hi by set_solver.
  pose proof (vo_owned _ _ _ _ _ I0 i Hi) as O. pose proof (owner_pteaddr kend T _ _ _ _ I0 Hi) as Hw. fold w in Hw.
  pose proof (ow_valid _ _ _ _ O) as Hv. pose proof (ow_frame _ _ _ _ O) as Hf. fold w in Hv, Hf.
  set (s2 := set_cache c' (set_counts (v_nread s1) (v_nwrite s1 + 4) s1)).
  pose proof (vm_ok_cache kend T s1 fl l c' (v_nread s1) (v_nwrite s1 + 4) I1) as I2. fold s2 in I2.
  assert (evolves T s1 fl l (a_view a) s2 fl l (a_view a')) as E2.
  { apply (evolves_disk kend); [done| |].
    - intros j Hj Hu. apply slot_bytes_ext. intros k Hk. apply slot_ld8_put_other; [|done].
      intros ->. change (slot_used (v_mem s) (v_bitmap s) slot = true) in Hu. congruence.
    - intros b Hb. apply view_put_page_other. intros k Hk E'. pose proof (slot_block_range slot k Hok Hk). lia. }
  destruct (mark_ok kend T s2 fl l (a_view a') slot I2 Hok) as [I3 E3].
  set (m3 := slot_mark (v_bitmap s2) slot (v_mem s2)) in *. set (s3 := set_mem m3 s2) in *.
  assert (forall q, aligned q -> q <> v_bitmap s -> page_eq (v_mem s) m3 q) as Hoff.
  { apply (off_bitmap kend T s fl (i :: l)); [done|]. intros y Hy. by apply slot_mark_other. }
  assert (forall x, pteaddr T x -> ld64 m3 x = ld64 (v_mem s) x) as Hl3.
  { intros x Hx. apply (leaf_eq_pages T); [|done]. intros p k Hp.
    destruct (table_not_bm kend T _ _ _ _ _ I0 Hp). by apply Hoff. }
  destruct (vo_valid _ _ _ _ _ I0 w Hw Hv) as (_ & Ht & Hbm). rewrite Hf in Ht, Hbm.
  destruct (evict_leaf s3 fl l (a_view a') i w slot) as (I4 & U4 & E4); cbn [v_mem set_mem s3]; try done.
  { by rewrite Hl3. } { by rewrite Hl3. }
  { intros x Hx. rewrite Hl3 by done. intros Hvx Ex. by apply (vo_own _ _ _ _ _ I0). }
  { change (v_bitmap s3) with (v_bitmap s2). unfold m3. rewrite slot_used_mark by apply Hok. by rewrite Z.eqb_refl. }
  { intros x Hx. rewrite Hl3 by done. intros Hvx Hsx E.
    destruct (vo_slot _ _ _ _ _ I0 x Hx Hvx Hsx) as [_ Hux]. rewrite E in Hux. congruence. }
  { unfold slot_bytes, page_bytes. apply list_fmap_ext. intros k x Hx%lookup_seqZ.
    unfold a'. rewrite slot_ld8_put by lia. done. }
  split; [exact I4|]. split; [exact U4|].
  eapply evolves_trans; [apply (evolves_lru T s fl (i :: l) (a_view a) L (i :: l)); set_solver|].
  eapply evolves_trans; [apply evolves_cons; [|exact E2]; done|].
  eapply evolves_trans; [apply evolves_cons; [|exact E3]; done|].
  apply evolves_cons; [done|exact E4].
Qed.

Lemma wp_on_lru f s L Q : f (v_lru s) = Ret L -> Q tt (set_lru L s) -> wp (on_lru f) s Q.
Proof. intros E HQ. exists tt, (set_lru L s). unfold on_lru. by rewrite E. Qed.

Lemma filter_head i (l : list Z) : NoDup (i :: l) -> filter (fun x => x <> i) (i :: l) = l.
Proof.
  intros [Hi _]%NoDup_cons. rewrite filter_cons_False by (intros H'; by apply H').
  by apply filter_ne_notin.
Qed.

(** Unlinking the victim. *)
Lemma unlink_ok s fl i l :
  vm_ok kend T s fl (i :: l) ->
  exists L, lru_remove i (v_lru s) = Ret L /\ vm_ok kend T (set_lru L s) fl l /\ same_owner (v_lru s) L /\
            lru_repr L l /\ i ∉ l.
Proof.
  intros I. pose proof (ring_nodup _ _ _ (lr_ring _ _ (vo_lru _ _ _ _ _ I))) as Hnd.
  destruct (lru_remove_refines (v_lru s) (i :: l) i (vo_lru _ _ _ _ _ I)) as (L & E & HL' & Hso).
  rewrite filter_head in HL' by done. exists L. split_and!; try done.
  - apply (vm_ok_lru kend T s fl (i :: l)); try done. set_solver.
  - by apply NoDup_cons in Hnd as [? _].
Qed.

(** Linking it again when no slot is left. *)
Lemma relink_ok s fl i l L L' :
  vm_ok kend T s fl (i :: l) -> vm_ok kend T (set_lru L s) fl l -> same_owner (v_lru s) L ->
  lru_repr L' (l ++ [i]) -> same_owner L L' ->
  vm_ok kend T (set_lru L' (set_lru L s)) fl (l ++ [i]).
Proof.
  intros I I1 Hso HL' Hso'. assert (i ∈ i :: l) as Hi by set_solver.
  assert (inner_eq T (v_mem s) (v_mem s)) as Hin by by intros ?.
  destruct (vo_lpages _ _ _ _ _ I i Hi) as [Hu Ht].
  pose proof (vo_owned _ _ _ _ _ I i Hi) as O.
  apply (vm_ok_lru_add kend T (set_lru L s)); try done; cbn [v_mem v_lru set_lru].
  - eapply owned_ext; [done|apply I|done| |done]. done.
  - intros w Hw Hv Hpa. rewrite (owner_pte_ext T _ _ _ _ i Hin (vo_tables _ _ _ _ _ I) Hso) by apply O.
    by apply (vo_own _ _ _ _ _ I).
Qed.

(** What [swapout] promises: either a page of memory was freed, or nothing was,
    because no page is resident or no slot is free. *)
Definition swapout_post s a fl l (r : Z) (s' : vm C) : Prop :=
  exists fl' l' a', sys_ok s' a' fl' l' /\ evolves T s fl l (a_view a) s' fl' l' (a_view a') /\
    (r = 0 /\ (exists victim, chosen s l victim /\ victim :: l' ≡ₚ l /\ fl' = page_to_pa victim :: fl) \/
     r = -1 /\ fl' = fl /\ l' ≡ₚ l /\
       (l = [] \/ forall j, slot_ok j -> slot_used (v_mem s) (v_bitmap s) j = true)).

(** Freeing the frame of the evicted page. *)
Lemma evict_free s fl l v i :
  let pa := page_to_pa i in
  let s' := set_free pa (set_mem (free_mem s pa) s) in
  let s'' := set_lru (upd_page i (set_owner 0 0) (v_lru s')) s' in
  vm_ok kend T s fl l -> upage kend pa -> reserved T s fl l pa -> unmapped T (v_mem s) pa -> i ∉ l ->
  vm_ok kend T s'' (pa :: fl) l /\ evolves T s fl (i :: l) v s'' (pa :: fl) l v.
Proof.
  intros pa s' s'' I Hpa Hres Hun Hi.
  destruct (kfree_ok kend T s fl l v pa I Hpa Hres Hun) as (I' & Hr & Hin & Hl & Hu). split.
  - by apply vm_ok_owner.
  - split; try done.
    + intros w Hw. by apply Hl.
    + intros w Hw _. by apply Hl.
    + intros j Hj Huj. split; [|done]. etransitivity; [by apply Hu|done].
    + intros q [Q1 Q2 Q3 Q4 Q5]. destruct (Hr q) as [[R1 R2 R3 R4 R5] Hp].
      * split; try done. intros j Hj. apply Q5. set_solver.
      * intros ->. apply (Q5 i); [set_solver|done].
      * split; [|done]. by split.
    + intros w Hw Hv. destruct (Hl w Hw) as [_ E]. change (v_mem s'') with (v_mem s') in *. unfold s' in *.
      rewrite E in Hv. by rewrite E.
Qed.

(** The part of [swapout] after a slot was found. *)
Definition swapout_tail (victim slot : Z) : M (vm C) Z :=
  let pa := page_to_pa victim in
  _ ← swapwrite pa slot;
  pg ← gets (fun s => pages (v_lru s) victim);
  pte ← walk0 (pg_pagetable pg) (pg_vaddr pg);
  if pte =? 0 then panic "swapout: pte vanished"
  else
    e ← rd64 pte;
    let flags := Z.land (Z.land (PTE_FLAGS e) (Z.lnot PTE_V)) (Z.lnot PTE_A) in
    _ ← wr64 pte (Z.lor (Z.lor (Z.shiftl slot 10) flags) PTE_SWAPPED);
    _ ← kfree kend pa;
    _ ← modify (fun s => set_lru (upd_page victim (set_owner 0 0) (v_lru s)) s);
    mret 0.

Lemma swapout_tail_ok s a fl l i L slot :
  let s1 := set_lru L s in
  vm_ok kend T s fl (i :: l) -> vm_ok kend T s1 fl l -> same_owner (v_lru s) L -> i ∉ l ->
  bc_rel (v_cache s) a -> swap_ready a -> slot_ok slot -> slot_used (v_mem s) (v_bitmap s) slot = false ->
  wp (swapout_tail i slot) (set_mem (slot_mark (v_bitmap s1) slot (v_mem s1)) s1) (fun r s' => exists a',
    r = 0 /\ sys_ok s' a' (page_to_pa i :: fl) l /\
    evolves T s fl (i :: l) (a_view a) s' (page_to_pa i :: fl) l (a_view a')).
Proof.
  intros s1 I0 I1 Hso Hil R SR Hok Hun. assert (i ∈ i :: l) as Hi by set_solver.
  pose proof (vo_owned _ _ _ _ _ I0 i Hi) as O. pose proof (owner_pteaddr kend T _ _ _ _ I0 Hi) as Hw.
  set (pa := page_to_pa i). set (s3 := set_mem (slot_mark (v_bitmap s1) slot (v_mem s1)) s1).
  set (w := owner_pte (v_mem s) (v_lru s) i) in *.
  destruct (vo_lpages _ _ _ _ _ I0 i Hi) as [Hpa Hta].
  destruct (vo_valid _ _ _ _ _ I0 w Hw (ow_valid _ _ _ _ O)) as (Hfl & _ & Hbm).
  unfold w in Hfl, Hbm. rewrite (ow_frame _ _ _ _ O) in Hfl, Hbm. fold w in Hfl, Hbm.
  unfold swapout_tail. fold pa. apply wp_bind. eapply wp_mono; [by apply (swapwrite_ok s3 a pa slot)|].
  intros _ s4 (c' & -> & R4 & SR4).
  destruct (evict_ok s a fl l i c' slot L I0 I1 Hil Hok Hun) as (I5 & U5 & E5). fold s1 in I5, U5, E5.
  set (s5 := evict_state s1 c' slot w) in *.
  assert (inner_eq T (v_mem s) (v_mem s3)) as Hin.
  { apply inner_eq_pages. intros p k Hp. destruct (table_not_bm kend T _ _ _ _ _ I0 Hp).
    apply (off_bitmap kend T s fl (i :: l)); try done. intros y Hy. by apply slot_mark_other. }
  apply wp_bind, wp_gets. cbn [v_lru set_cache set_counts s3 set_mem s1 set_lru].
  destruct (Hso i) as [-> ->]. apply wp_bind, wp_walk; [apply O|]. cbn [v_mem set_cache set_counts].
  rewrite (pwalk_ext T (v_mem s) (v_mem s3)); [|done|apply I0|apply O].
  change (pwalk _ _ _) with w. rewrite (proj2 (Z.eqb_neq w 0)) by apply O.
  apply wp_bind, wp_gets. apply wp_bind, wp_modify.
  change (set_mem _ (set_cache _ _)) with s5. apply wp_bind.
  exists tt, (set_free pa (set_mem (free_mem s5 pa) s5)). split; [by apply kfree_run|].
  apply wp_bind, wp_modify, wp_ret. eexists. split; [done|].
  destruct (evict_free s5 fl l (a_view (a_put_page (v_mem s3) pa slot a)) i I5 Hpa) as [I6 E6]; try done.
  { split; try done. - apply Hpa. - intros j Hj E. apply page_to_pa_inj in E. by subst. }
  split; [by split|]. eapply evolves_trans; [exact E5|exact E6].
Qed.

Lemma swapout_ok s a fl l fuel :
  sys_ok s a fl l -> (length l < fuel)%nat -> wp (swapout kend fuel) s (swapout_post s a fl l).
Proof.
  intros [I R SR] Hf. unfold swapout. apply wp_bind, wp_gets. rewrite (lr_head _ _ (vo_lru _ _ _ _ _ I)).
  destruct (head l) as [c|] eqn:Ec; cycle 1.
  { apply head_None in Ec as ->. apply wp_ret. exists fl, [], a. split_and!; [done|apply evolves_refl|].
    right. auto. }
  apply wp_bind. eapply wp_mono; [apply (clock_ok kend T s (a_view a) fl l c fuel I Ec Hf)|].
  intros i s1 (l1 & I1 & E1 & HP & Hc1 & B1 & Hch).
  assert (forall j, slot_ok j -> slot_used (v_mem s1) (v_bitmap s1) j = slot_used (v_mem s) (v_bitmap s) j) as Hu1.
  { intros j Hj. rewrite (ev_bm _ _ _ _ _ _ _ _ _ E1). by apply slot_used_ext. }
  destruct (unlink_ok s1 fl i l1 I1) as (L & EL & I2 & Hso & HL2 & Hil).
  apply wp_bind, (wp_on_lru _ s1 L); [done|]. set (s2 := set_lru L s1) in *.
  apply wp_bind. eapply wp_mono; [apply (alloc_swap_slot_ok kend T s2 fl l1 I2)|].
  intros slot s3 [(-> & -> & Hall)|(Hok & Hun & _ & ->)].
  - cbn [Z.ltb]. apply wp_bind. destruct (lru_add_refines L l1 i HL2 Hil) as (L' & EL' & HL' & Hso').
    apply (wp_on_lru _ s2 L'); [done|]. apply wp_ret. exists fl, (l1 ++ [i]), a. split_and!.
    + split; [by apply (relink_ok s1 fl i l1 L L')| |done]. change (bc_rel (v_cache s1) a). by rewrite Hc1.
    + eapply evolves_trans; [exact E1|]. apply (evolves_lru T s1 fl (i :: l1) _ L' (l1 ++ [i])). set_solver.
    + right. split_and!; try done.
      * rewrite <- HP. by rewrite Permutation_app_comm.
      * right. intros j Hj. rewrite <- Hu1 by done. by apply Hall.
  - rewrite (proj2 (Z.ltb_ge _ _)) by apply Hok.
    eapply wp_mono.
    { apply (swapout_tail_ok s1 a fl l1 i L slot); try done. by rewrite Hc1. }
    intros r s' (a' & -> & S' & E'). exists (page_to_pa i :: fl), l1, a'. split_and!; [done| |].
    + eapply evolves_trans; [exact E1|exact E'].
    + left. split; [done|]. by exists i.
Qed.

(** ** Allocation *)
Lemma fill_page m q c q' :
  aligned q -> aligned q' -> q' <> q -> page_eq m (mfill m q c PGSIZE) q'.
Proof.
  intros Hq Hq' Hne x Hx. rewrite ld8_mfill.
  destruct ((q <=? x) && (x <? q + PGSIZE)) eqn:E; [|done]. exfalso. apply Hne.
  apply andb_true_iff in E as [?%Z.leb_le ?%Z.ltb_lt]. apply (aligned_disjoint q' q x); try done.
Qed.

(** A page of the kernel's own, filled with [c]. *)
Record owned_page s (fl l : list Z) (q c : Z) : Prop := {
  op_page : upage kend q;
  op_reserved : reserved T s fl l q;
  op_unmapped : unmapped T (v_mem s) q;
  op_bytes : forall x, in_page q x -> ld8 (v_mem s) x = u8 c }.

Definition kalloc_post s a fl l (r : Z) (s' : vm C) : Prop :=
  exists fl' l' a', sys_ok s' a' fl' l' /\ evolves T s fl l (a_view a) s' fl' l' (a_view a') /\
    (r <> 0 /\ owned_page s' fl' l' r 5 /\ ~ reserved T s fl l r /\
       (forall p fl0, fl = p :: fl0 -> r = p /\ fl' = fl0 /\ l' = l /\ v_mem s' = mfill (v_mem s) p 5 PGSIZE) \/
     r = 0 /\ fl = [] /\ fl' = [] /\ l' ≡ₚ l /\
       (l = [] \/ forall j, slot_ok j -> slot_used (v_mem s) (v_bitmap s) j = true)).

(** Taking a page of a non-empty list and filling it. *)
Lemma kalloc_pop s a p fl l (k : Z) :
  let s' := set_free (ld64 (v_mem s) p) s in
  let s'' := set_mem (mfill (v_mem s') p k PGSIZE) s' in
  sys_ok s a (p :: fl) l ->
  v_free s = p /\ p <> 0 /\ sys_ok s'' a fl l /\ evolves T s (p :: fl) l (a_view a) s'' fl l (a_view a) /\
  owned_page s'' fl l p k.
Proof.
  intros s' s'' [I R SR]. destruct (pop_ok kend T s p fl l I) as (Hp & Hne & Hu & I' & Hr & Hun).
  destruct (vm_ok_page kend T s' fl l (a_view a) (mfill (v_mem s') p k PGSIZE) p I' Hr Hun) as (I'' & E & Hr' & Hun').
  { intros q Hq Hqp. apply fill_page; try done. apply Hu. }
  split_and!; try done.
  - destruct E as [? ? ? ? Er ? ? ?]. split; try done. intros q [? ? ? ? ?]. by apply Er.
  - split; try done. intros x [Hx1 Hx2]. unfold s''. cbn [v_mem set_mem]. rewrite ld8_mfill.
    by rewrite (proj2 (Z.leb_le _ _)), (proj2 (Z.ltb_lt _ _)).
Qed.

Lemma kalloc_ok s a fl l fuel :
  sys_ok s a fl l -> (length l < fuel)%nat -> wp (kalloc kend fuel) s (kalloc_post s a fl l).
Proof.
  intros S Hf. unfold kalloc. apply wp_bind. destruct fl as [|p fl].
  - pose proof (vo_flist _ _ _ _ _ (so_vm _ _ _ _ S)) as E0. cbn [flist] in E0.
    cbn [kalloc_loop]. apply wp_bind, wp_gets. rewrite E0. cbn [nz Z.eqb negb].
    apply wp_bind. eapply wp_mono; [by apply (swapout_ok s a [] l fuel S)|].
    intros r s1 (fl1 & l1 & a1 & S1 & E1 & [(-> & victim & Hch & HP & ->)|(-> & -> & HP & Hwhy)]).
    + cbn [Z.ltb]. destruct (kalloc_pop s1 a1 (page_to_pa victim) [] l1 5 S1) as (Hp & Hne & S2 & E2 & O2).
      apply wp_bind, wp_gets. rewrite Hp. unfold nz at 1. rewrite (proj2 (Z.eqb_neq _ _) Hne). cbn [negb].
      apply wp_bind, wp_gets. apply wp_bind, wp_modify, wp_ret.
      unfold nz. rewrite (proj2 (Z.eqb_neq _ _) Hne). cbn [negb]. apply wp_bind, wp_modify, wp_ret.
      exists [], l1, a1. split_and!; [done|by eapply evolves_trans|]. left. split_and!; [done|done| |done].
      intros Hres. apply (rs_lru _ _ _ _ _ Hres victim); [|done]. rewrite <- HP. set_solver.
    + cbn [Z.ltb]. apply wp_ret. cbn [nz Z.eqb negb]. apply wp_ret.
      exists [], l1, a1. split_and!; [done|done|]. right. auto.
  - destruct (kalloc_pop s a p fl l 5 S) as (Hp & Hne & S2 & E2 & O2).
    cbn [kalloc_loop]. apply wp_bind, wp_gets. rewrite Hp. unfold nz at 1.
    rewrite (proj2 (Z.eqb_neq _ _) Hne). cbn [negb].
    apply wp_bind, wp_gets. apply wp_bind, wp_modify, wp_ret.
    unfold nz. rewrite (proj2 (Z.eqb_neq _ _) Hne). cbn [negb]. apply wp_bind, wp_modify, wp_ret.
    exists fl, l, a. split_and!; [done|done|]. left. split_and!; [done|done| |by intros ? ? [= -> ->]].
    intros Hres. apply (rs_free _ _ _ _ _ Hres). set_solver.
Qed.
End swapout.
