(* ===== verification/SwapIn.v ===== *)
(** Bringing a page back: kernel/vm.c [swapin], and the round trip of a page
    through the swap area. *)
From S2P Require Import Prelude Riscv Memory Ring Lru Blocks Kmem Vm SwapIO PageTable Pte VmInv Swap.

Section swapin.
Context {C : Type} `{HL : BufCacheLaws C} (kend : Z) (T : gmap Z nat).
Implicit Types (s : vm C).

(** Every leaf is seen as before. *)
Definition same_view s (v : Z -> mem) s' (v' : Z -> mem) : Prop :=
  forall w, pteaddr T w -> lview (v_mem s') v' w = lview (v_mem s) v w.

Lemma same_view_trans s1 v1 s2 v2 s3 v3 : same_view s1 v1 s2 v2 -> same_view s2 v2 s3 v3 -> same_view s1 v1 s3 v3.
Proof. intros H1 H2 w Hw. by rewrite H2, H1. Qed.

Lemma vm_ok_ext s fl l m' :
  vm_ok kend T s fl l -> m' ≈m v_mem s -> vm_ok kend T (set_mem m' s) fl l.
Proof.
  intros I Hm. assert (forall p, page_eq (v_mem s) m' p) as Hp by (intros p x _; apply Hm).
  apply vm_ok_mem; try done. intros w Hw Hv Hs. destruct (vo_slot _ _ _ _ _ I w Hw Hv Hs) as [Hok Hu].
  rewrite <- Hu. apply slot_used_ext; [done|]. intros x _. apply Hm.
Qed.
Lemma lview_ext m m' v w : m' ≈m m -> lview m' v w = lview m v w.
Proof.
  intros Hm. unfold lview. assert (ld64 m' w = ld64 m w) as -> by (apply ld_ext; intros; apply Hm).
  case_match; [|done]. do 2 f_equal. apply page_bytes_ext. intros. apply Hm.
Qed.

(** Releasing a slot that no entry names. *)
Lemma clear_slot_ok s fl l v j :
  vm_ok kend T s fl l -> slot_ok j ->
  (forall w, pteaddr T w -> valid (ld64 (v_mem s) w) = false -> swapped (ld64 (v_mem s) w) = true ->
     slot_of (ld64 (v_mem s) w) <> j) ->
  let s' := set_mem (slot_clear (v_bitmap s) j (v_mem s)) s in
  vm_ok kend T s' fl l /\ same_view s v s' v /\ inner_eq T (v_mem s) (v_mem s') /\
  (forall w, pteaddr T w -> ld64 (v_mem s') w = ld64 (v_mem s) w).
Proof.
  intros I Hj Hno s'. set (m' := slot_clear (v_bitmap s) j (v_mem s)).
  assert (forall q, aligned q -> q <> v_bitmap s -> page_eq (v_mem s) m' q) as Hoff.
  { apply (off_bitmap kend T s fl l); [done|]. intros x Hx. by apply slot_clear_other. }
  assert (forall p k, T !! p = Some k -> page_eq (v_mem s) m' p) as Ht.
  { intros p k Hp. destruct (table_not_bm kend T _ _ _ _ _ I Hp). by apply Hoff. }
  assert (forall w, pteaddr T w -> ld64 m' w = ld64 (v_mem s) w) as Hl by (intros; by apply (leaf_eq_pages T)).
  split_and!; [| |by apply inner_eq_pages|done].
  - apply vm_ok_mem; try done.
    + intros p Hp. destruct (free_not_bm kend T _ _ _ _ I Hp). by apply Hoff.
    + intros w Hw Hv Hs. destruct (vo_slot _ _ _ _ _ I w Hw Hv Hs) as [Hok Hu].
      unfold m'. rewrite slot_used_clear by (apply Hj || apply Hok). rewrite Hu, andb_true_r.
      specialize (Hno w Hw Hv Hs). by rewrite (proj2 (Z.eqb_neq _ _)).
  - intros w Hw. unfold s', lview. cbn [v_mem set_mem]. rewrite Hl by done. case_match eqn:Ev; [|done].
    do 2 f_equal. apply page_bytes_eq, Hoff; [apply PTE2PA_aligned|]. by apply (vo_valid _ _ _ _ _ I).
Qed.

Lemma slot_clear_st bm j m w e :
  slot_ok j -> ~ (exists x, bm <= x < bm + PGSIZE /\ w <= x < w + 8) ->
  st64 (slot_clear bm j m) w e ≈m slot_clear bm j (st64 m w e).
Proof.
  intros [H0 H1] Hd x. unfold slot_clear. destruct (slot_pos j H0) as [-> _].
  change (SWAPMAX / BLKS_PER_PG) with 7000 in H1. set (y := bm + j / 8).
  assert (bm <= y < bm + PGSIZE) as Hy by (unfold y, PGSIZE; zdiv).
  assert (~ (w <= y < w + 8)) as Hyw by (intros Hin; apply Hd; by exists y).
  rewrite ld8_st8. rewrite (ld8_st_other 8 m w e y) by lia.
  destruct (decide (w <= x < w + 8)) as [Hx|Hx].
  - rewrite (proj2 (Z.eqb_neq x y)) by lia.
    by apply (ld8_st_in 8).
  - rewrite !ld8_st_other by lia. rewrite ld8_st8. done.
Qed.

(** Making the swapped leaf [w] resident in the page [pa], which holds the
    contents of its slot, and releasing the slot. *)
Lemma resident_ok s fl l v w pa :
  let e := ld64 (v_mem s) w in
  let m2 := st64 (slot_clear (v_bitmap s) (slot_of e) (v_mem s)) w (resident_pte pa e) in
  let s' := set_mem m2 s in
  vm_ok kend T s fl l -> pteaddr T w -> valid e = false -> swapped e = true ->
  upage kend pa -> reserved T s fl l pa -> unmapped T (v_mem s) pa ->
  page_bytes (v_mem s) pa = slot_bytes v (slot_of e) ->
  vm_ok kend T s' fl l /\ same_view s v s' v /\ inner_eq T (v_mem s) (v_mem s') /\
  ld64 (v_mem s') w = resident_pte pa e /\
  (forall x, pteaddr T x -> valid (ld64 (v_mem s') x) = true -> PTE2PA (ld64 (v_mem s') x) = pa -> x = w).
Proof.
  intros e m2 s' I Hw Hv Hs Hpa [Ra Rt Rf Rb Rl] Hun Hb. destruct (vo_slot _ _ _ _ _ I w Hw Hv Hs) as [Hok Hu].
  fold e in Hok, Hu. set (j := slot_of e) in *.
  assert (0 <= pa < 2 ^ 56) as Hr.
  { destruct Hpa as [_ Hr]. pose proof (vo_kend _ _ _ _ _ I). unfold PHYSTOP, KERNBASE in *. lia. }
  destruct (resident_facts pa e Hr Ra) as (Fv & Fs & Fpa & Fp). pose proof (resident_pte_range pa e Hr) as Fr.
  set (e' := resident_pte pa e) in *. set (m1 := st64 (v_mem s) w e').
  assert (vm_ok kend T (set_mem m1 s) fl l) as I1.
  { apply (vm_ok_leaf kend T s fl l w e' I Hw Fr); rewrite ?Fv, ?Fs, ?Fpa.
    - intros i Hi E. pose proof (ow_valid _ _ _ _ (vo_owned _ _ _ _ _ I i Hi)) as Hvi. rewrite E in Hvi.
      fold e in Hvi. congruence.
    - auto.
    - intros i _ Hi E. by destruct (Rl i Hi).
    - discriminate.
    - discriminate. }
  assert (ld64 m1 w = e') as Hnew by by apply (leaf_new s w).
  assert (forall x, pteaddr T x -> x <> w -> ld64 m1 x = ld64 (v_mem s) x) as Hoth.
  { intros x Hx Hne. by apply (leaf_other kend T s fl l w). }
  assert (same_view s v (set_mem m1 s) v) as V1.
  { intros x Hx. cbn [v_mem set_mem]. destruct (decide (x = w)) as [->|Hne].
    - unfold lview. rewrite Hnew, Fv, Fpa, Fp. fold e. rewrite Hv, Hs. fold j. rewrite <- Hb.
      do 2 f_equal. apply page_bytes_eq. by apply (leaf_page kend T s fl l w).
    - apply (lview_leaf_other kend T s fl l w e' I Hw v x Hx Hne). intros Hvx. by apply (vo_valid _ _ _ _ _ I). }
  destruct (clear_slot_ok (set_mem m1 s) fl l v j I1 Hok) as (I2 & V2 & N2 & L2).
  { intros x Hx. cbn [v_mem set_mem]. destruct (decide (x = w)) as [->|Hne]; [rewrite Hnew; congruence|].
    rewrite Hoth by done. intros Hvx Hsx E. apply Hne. by apply (vo_slot_inj _ _ _ _ _ I). }
  unfold inner_eq in N2. cbn [v_mem v_bitmap set_mem] in N2, L2.
  assert (m2 ≈m slot_clear (v_bitmap s) j m1) as Em.
  { apply slot_clear_st; [done|]. intros (x & Hx & Hwx).
    destruct (pteaddr_page T w) as (p & Hp & Hap & _ & Hin); [by exists (v_mem s); apply I|done|].
    destruct (table_not_bm kend T _ _ _ _ _ I Hp) as [_ Hne]. apply Hne.
    apply (aligned_disjoint p _ x); [done|apply (vo_bm _ _ _ _ _ I)|by apply Hin|done]. }
  assert (forall x, ld64 m2 x = ld64 (slot_clear (v_bitmap s) j m1) x) as El by (intros; apply ld_ext; intros; apply Em).
  split_and!.
  - apply (vm_ok_ext _ fl l m2 I2 Em).
  - intros x Hx. unfold s'. cbn [v_mem set_mem]. rewrite (lview_ext _ _ _ _ Em). etransitivity; [by apply V2|by apply V1].
  - intros p k i Hp Hi. unfold s'. cbn [v_mem set_mem].
    assert (entry m2 p i = entry (slot_clear (v_bitmap s) j m1) p i) as -> by apply El.
    rewrite (N2 p k i Hp Hi). by apply (leaf_inner kend T s fl l w e' I Hw p k).
  - unfold s'. cbn [v_mem set_mem]. rewrite El. by rewrite L2.
  - intros x Hx. unfold s'. cbn [v_mem set_mem]. rewrite El, (L2 x Hx). destruct (decide (x = w)) as [->|Hne]; [done|].
    rewrite Hoth by done. intros Hvx Ex. by destruct (Hun x Hx Hvx).
Qed.

Definition pageidx (pa : Z) : Z := (pa - KERNBASE) / PGSIZE.
Lemma pageidx_pa pa : KERNBASE <= pa -> aligned pa -> page_to_pa (pageidx pa) = pa.
Proof. unfold page_to_pa, pageidx, aligned, PGSIZE, KERNBASE. intros. zdiv. Qed.

(** Registering the frame that the leaf of [va] maps. *)
Lemma lru_register_ok s fl l pa root va :
  let w := pwalk (v_mem s) root va in
  vm_ok kend T s fl l -> upage kend pa -> T !! pa = None -> (forall i, i ∈ l -> page_to_pa i <> pa) ->
  T !! root = Some 2%nat -> 0 <= va < MAXVA -> w <> 0 ->
  valid (ld64 (v_mem s) w) = true -> PTE2PA (ld64 (v_mem s) w) = pa ->
  (forall x, pteaddr T x -> valid (ld64 (v_mem s) x) = true -> PTE2PA (ld64 (v_mem s) x) = pa -> x = w) ->
  wp (lru_register pa root va) s (fun _ s' => exists L,
    s' = set_lru L s /\ vm_ok kend T s' fl (l ++ [pageidx pa])).
Proof.
  intros w I Hpa Ht Hnl Hr Hva Hw Hv Hf Hun. destruct Hpa as [Hal Hrange].
  pose proof (vo_kend _ _ _ _ _ I) as Hk.
  assert (page_to_pa (pageidx pa) = pa) as Hidx by (apply pageidx_pa; [lia|done]).
  assert (pageidx pa ∉ l) as Hil by (intros Hin; by apply (Hnl _ Hin)).
  unfold lru_register, pa2pageidx. rewrite Z.geb_leb, (proj2 (Z.ltb_ge _ _)), (proj2 (Z.leb_gt _ _)) by lia.
  cbn [orb]. apply wp_bind, wp_ret. fold (pageidx pa). apply wp_bind, wp_modify.
  pose proof (vm_ok_owner kend T s fl l (pageidx pa) root va I Hil) as I1.
  set (L1 := upd_page (pageidx pa) (set_owner root va) (v_lru s)) in *.
  destruct (lru_add_refines L1 l (pageidx pa)) as (L & EL & HL' & Hso); [apply I1|done|].
  apply (wp_on_lru _ (set_lru L1 s) L); [done|]. exists L. split; [done|].
  assert (pages L1 (pageidx pa) = set_owner root va (pages (v_lru s) (pageidx pa))) as Epg.
  { unfold L1, upd_page. cbn. by rewrite Z.eqb_refl. }
  assert (owner_pte (v_mem s) L1 (pageidx pa) = w) as Eo by (unfold owner_pte; by rewrite Epg).
  apply (vm_ok_lru_add kend T (set_lru L1 s) fl l L (pageidx pa) I1 HL' Hso); rewrite ?Hidx; try done.
  - split; cbn [v_mem v_lru set_lru]; rewrite ?Eo, ?Epg, ?Hidx; done.
  - cbn [v_mem v_lru set_lru]. rewrite Eo. done.
Qed.

(** Reading the slot into the new page. *)
Lemma read_slot_ok s a fl l pa j c' :
  let m' := mem_put_page (a_view a) j pa (v_mem s) in
  let s' := set_cache c' (set_counts (v_nread s + 4) (v_nwrite s) (set_mem m' s)) in
  sys_ok kend T s a fl l -> upage kend pa -> reserved T s fl l pa -> unmapped T (v_mem s) pa -> bc_rel c' a ->
  sys_ok kend T s' a fl l /\ evolves T s (pa :: fl) l (a_view a) s' fl l (a_view a) /\
  reserved T s' fl l pa /\ unmapped T (v_mem s') pa /\ page_bytes (v_mem s') pa = slot_bytes (a_view a) j.
Proof.
  intros m' s' [I R SR] Hpa Hres Hun R'.
  destruct (vm_ok_page kend T s fl l (a_view a) m' pa I Hres Hun) as (I' & E & Hres' & Hun').
  { intros q Hq Hne x Hx. unfold m'. rewrite ld8_put_page.
    destruct ((pa <=? x) && (x <? pa + PGSIZE)) eqn:Ex; [|done]. exfalso. apply Hne.
    apply andb_true_iff in Ex as [?%Z.leb_le ?%Z.ltb_lt].
    apply (aligned_disjoint q pa x); try done. apply Hpa. }
  split_and!.
  - split; [by apply vm_ok_cache|done|done].
  - destruct E as [? ? ? ? Er ? ? ?]. split; try done. intros q Hq. destruct (Er q Hq) as [[? ? ? ? ?] ?]. by split.
  - destruct Hres'. by split.
  - done.
  - unfold s', page_bytes, slot_bytes. cbn [v_mem set_cache set_counts set_mem]. apply list_fmap_ext.
    intros k x Hx%lookup_seqZ. unfold m'. rewrite ld8_put_page.
    rewrite (proj2 (Z.leb_le _ _)), (proj2 (Z.ltb_lt _ _)) by lia. cbn [andb]. f_equal. lia.
Qed.

Definition swapin_post s a (fl l : list Z) (w r : Z) s' : Prop :=
  exists fl' l' a', sys_ok kend T s' a' fl' l' /\ same_view s (a_view a) s' (a_view a') /\
    inner_eq T (v_mem s) (v_mem s') /\
    (r = 0 /\ valid (ld64 (v_mem s') w) = true \/
     r = -1 /\ fl = [] /\ (l = [] \/ forall j, slot_ok j -> slot_used (v_mem s) (v_bitmap s) j = true)).

Lemma PGROUNDDOWN_range va : 0 <= va < MAXVA -> 0 <= PGROUNDDOWN va < MAXVA.
Proof. intros Hva. rewrite PGROUNDDOWN_spec. unfold PGSIZE. zdiv. Qed.

Lemma evolves_view s fl l v s' fl' l' v' : evolves T s fl l v s' fl' l' v' -> same_view s v s' v'.
Proof. intros E w Hw. by apply E. Qed.

(** [swapin] once a page [pa] is allocated. *)
Definition swapin_tail (pagetable va pte slot pa : Z) : M (vm C) Z :=
  _ ← swapread pa slot;
  _ ← free_swap_slot slot;
  e ← rd64 pte;
  let flags := Z.land (PTE_FLAGS e) (Z.lnot PTE_SWAPPED) in
  _ ← wr64 pte (Z.lor (Z.lor (PA2PTE pa) flags) PTE_V);
  _ ← lru_register pa pagetable va;
  mret 0.

Lemma swapin_tail_ok s a fl l root va pa :
  let w := pwalk (v_mem s) root va in
  let e := ld64 (v_mem s) w in
  sys_ok kend T s a fl l -> T !! root = Some 2%nat -> 0 <= va < MAXVA -> w <> 0 ->
  valid e = false -> swapped e = true ->
  upage kend pa -> reserved T s fl l pa -> unmapped T (v_mem s) pa ->
  wp (swapin_tail root va w (slot_of e) pa) s (fun r s' => exists l',
    r = 0 /\ sys_ok kend T s' a fl l' /\ same_view s (a_view a) s' (a_view a) /\
    inner_eq T (v_mem s) (v_mem s') /\ valid (ld64 (v_mem s') w) = true).
Proof.
  intros w e S Hr Hva Hw Hv Hs Hpa Hres Hun. pose proof (so_vm _ _ _ _ _ _ S) as I.
  pose proof (pwalk_pteaddr T _ _ _ (vo_tables _ _ _ _ _ I) Hr Hw) as Hwa. fold w in Hwa.
  destruct (vo_slot _ _ _ _ _ I w Hwa Hv Hs) as [Hok Hu]. fold e in Hok. set (j := slot_of e) in *.
  unfold swapin_tail. apply wp_bind. eapply wp_mono; [by apply (swapread_ok s a pa j); [apply S|apply S|]|].
  intros _ s2' (c2 & R2 & ->).
  destruct (read_slot_ok s a fl l pa j c2 S Hpa Hres Hun R2) as (S2 & E2 & Hres2 & Hun2 & Hb2).
  set (s2 := set_cache _ _) in *. pose proof (so_vm _ _ _ _ _ _ S2) as I2.
  pose proof (ev_keep _ _ _ _ _ _ _ _ _ E2 w Hwa Hv) as Ek. fold e in Ek.
  apply wp_bind, wp_modify. apply wp_bind, wp_gets. apply wp_bind, wp_modify.
  set (m3 := slot_clear (v_bitmap s2) j (v_mem s2)).
  assert (ld64 m3 w = e) as E3.
  { rewrite <- Ek. apply (leaf_eq_pages T); [|done]. intros p k Hp.
    destruct (table_not_bm kend T _ _ _ _ _ I2 Hp).
    apply (off_bitmap kend T s2 fl l); [done| |done|done]. intros x Hx. by apply slot_clear_other. }
  cbn [v_mem set_mem]. rewrite E3. fold (resident_pte pa e).
  destruct (resident_ok s2 fl l (a_view a) w pa I2 Hwa) as (I4 & V4 & N4 & L4 & U4);
    rewrite ?Ek; [exact Hv|exact Hs|exact Hpa|exact Hres2|exact Hun2|exact Hb2|].
  rewrite Ek in I4, V4, N4, L4, U4. fold j in I4, V4, N4, L4, U4. fold m3 in I4, V4, N4, L4, U4.
  set (s4 := set_mem (st64 m3 w (resident_pte pa e)) s2) in *.
  assert (0 <= pa < 2 ^ 56) as Hpr.
  { destruct Hpa as [_ Hp]. pose proof (vo_kend _ _ _ _ _ I). unfold PHYSTOP, KERNBASE in *. lia. }
  destruct (resident_facts pa e Hpr (proj1 Hpa)) as (Fv & _ & Fpa & _).
  assert (inner_eq T (v_mem s) (v_mem s4)) as N by (eapply inner_eq_trans; [apply E2|exact N4]).
  assert (pwalk (v_mem s4) root va = w) as Ew by (apply (pwalk_ext T); [done|apply I|done]).
  apply wp_bind. eapply wp_mono.
  { apply (lru_register_ok s4 fl l pa root va I4 Hpa (rs_table _ _ _ _ _ Hres) (rs_lru _ _ _ _ _ Hres) Hr Hva);
      rewrite Ew; [exact Hw| | |exact U4]; rewrite L4; [exact Fv|exact Fpa]. }
  intros _ s5 (L & -> & I5). apply wp_ret. exists (l ++ [pageidx pa]). split_and!; [done| | |done|].
  - split; [exact I5|apply S2|apply S2].
  - eapply same_view_trans; [by eapply evolves_view|exact V4].
  - cbn [v_mem set_lru]. rewrite L4. exact Fv.
Qed.

Lemma swapin_ok s a fl l root va fuel :
  let w := pwalk (v_mem s) root (PGROUNDDOWN va) in
  sys_ok kend T s a fl l -> T !! root = Some 2%nat -> 0 <= va < MAXVA -> w <> 0 ->
  valid (ld64 (v_mem s) w) = false -> swapped (ld64 (v_mem s) w) = true -> (length l < fuel)%nat ->
  wp (swapin kend fuel root va) s (swapin_post s a fl l w).
Proof.
  intros w S Hr Hva Hw Hv Hs Hf. pose proof (PGROUNDDOWN_range va Hva) as Hva0.
  pose proof (vo_tables _ _ _ _ _ (so_vm _ _ _ _ _ _ S)) as Ht.
  pose proof (pwalk_pteaddr T _ _ _ Ht Hr Hw) as Hwa. fold w in Hwa.
  unfold swapin, walk. apply wp_bind, wp_walk; [lia|]. fold w. rewrite (proj2 (Z.eqb_neq _ _) Hw).
  apply wp_bind, wp_gets. rewrite Hs, Hv. cbn [negb orb].
  apply wp_bind. eapply wp_mono; [by apply (kalloc_ok kend T s a fl l fuel S)|].
  intros pa s1 (fl1 & l1 & a1 & S1 & E1 & [(Hne & [Hpa Hres Hun _] & _)|(-> & -> & -> & _ & Hwhy)]); cycle 1.
  { cbn [Z.eqb]. apply wp_ret. exists [], l1, a1. split_and!; [done|by eapply evolves_view|apply E1|]. right. auto. }
  rewrite (proj2 (Z.eqb_neq _ _) Hne).
  pose proof (ev_keep _ _ _ _ _ _ _ _ _ E1 w Hwa Hv) as Ek.
  assert (pwalk (v_mem s1) root (PGROUNDDOWN va) = w) as Ew by (apply (pwalk_ext T); [apply E1|done|done]).
  pose proof (swapin_tail_ok s1 a1 fl1 l1 root (PGROUNDDOWN va) pa S1 Hr Hva0) as K.
  rewrite Ew, Ek in K. eapply wp_mono; [by apply K|].
  intros r s' (l' & -> & S' & V' & N' & Hv'). exists fl1, l', a1. split_and!; [done| | |by left].
  - eapply same_view_trans; [by eapply evolves_view|exact V'].
  - eapply inner_eq_trans; [apply E1|exact N'].
Qed.

(** * Transparency *)
(** Every page of every address space, before and after. *)
Definition same_uview s (v : Z -> mem) s' (v' : Z -> mem) : Prop :=
  forall root va, T !! root = Some 2%nat -> uview (v_mem s') v' root va = uview (v_mem s) v root va.

Lemma same_view_uview s v s' v' :
  tables_ok T (v_mem s) -> inner_eq T (v_mem s) (v_mem s') -> same_view s v s' v' -> same_uview s v s' v'.
Proof.
  intros Ht Hin Hv root va Hr. unfold uview. rewrite (pwalk_ext T (v_mem s) (v_mem s')) by done.
  case_bool; [done|]. apply Hv. by apply pwalk_pteaddr.
Qed.

(** C2. Swapping out is transparent.  From a consistent system [swapout]
    returns: its scan ends within one round and one step.  The system stays
    consistent and every process sees the same permissions and contents of
    every page.  Either it returns 0, the page it chose is the first page in
    clock order that was not accessed (the first of all when every page was)
    and the page's frame is the new head of the free list; or it returns -1,
    no page is freed, and no page was resident or no slot was free. *)
Theorem swapout_transparent s a fl l fuel :
  sys_ok kend T s a fl l -> (length l < fuel)%nat ->
  exists r s' fl' l' a', swapout kend fuel s = Ret (r, s') /\ sys_ok kend T s' a' fl' l' /\
    same_uview s (a_view a) s' (a_view a') /\
    (r = 0 /\ (exists victim, chosen s l victim /\ victim :: l' ≡ₚ l /\ fl' = page_to_pa victim :: fl) \/
     r = -1 /\ fl' = fl /\ l' ≡ₚ l /\
       (l = [] \/ forall j, slot_ok j -> slot_used (v_mem s) (v_bitmap s) j = true)).
Proof.
  intros S Hf. destruct (swapout_ok kend T s a fl l fuel S Hf) as (r & s' & E & fl' & l' & a' & S' & Ev & Hr).
  exists r, s', fl', l', a'. split_and!; [done|done| |done].
  intros root va Hroot. eapply evolves_uview; [apply S|exact Ev|done].
Qed.

(** C5. [kalloc] returns.  The page it hands out, if any, is aligned, filled
    with 5, on no list and mapped by no process, and was not in use by the
    kernel before; no process sees a difference; and it fails only when the free list is empty and nothing can be swapped
    out.  A page from the free list is taken without
    swapping, and only its own bytes change. *)
Theorem kalloc_fresh s a fl l fuel :
  sys_ok kend T s a fl l -> (length l < fuel)%nat ->
  exists r s' fl' l' a', kalloc kend fuel s = Ret (r, s') /\ sys_ok kend T s' a' fl' l' /\
    same_uview s (a_view a) s' (a_view a') /\
    (r <> 0 /\ owned_page kend T s' fl' l' r 5 /\ ~ reserved T s fl l r /\
       (forall p fl0, fl = p :: fl0 -> r = p /\ fl' = fl0 /\ l' = l /\ v_mem s' = mfill (v_mem s) p 5 PGSIZE) \/
     r = 0 /\ fl = [] /\ fl' = [] /\ l' ≡ₚ l /\
       (l = [] \/ forall j, slot_ok j -> slot_used (v_mem s) (v_bitmap s) j = true)).
Proof.
  intros S Hf. destruct (kalloc_ok kend T s a fl l fuel S Hf) as (r & s' & E & fl' & l' & a' & S' & Ev & Hr).
  exists r, s', fl', l', a'. split_and!; [done|done| |done].
  intros root va Hroot. eapply evolves_uview; [apply S|exact Ev|done].
Qed.

(** C3. A page fault on a swapped page is repaired transparently: [swapin]
    returns, the system stays consistent, every process sees the same
    permissions and contents of every page, and unless memory and slots are
    exhausted the page is valid again. *)
Theorem swapin_transparent s a fl l root va fuel :
  let w := pwalk (v_mem s) root (PGROUNDDOWN va) in
  sys_ok kend T s a fl l -> T !! root = Some 2%nat -> 0 <= va < MAXVA -> w <> 0 ->
  valid (ld64 (v_mem s) w) = false -> swapped (ld64 (v_mem s) w) = true -> (length l < fuel)%nat ->
  exists r s' fl' l' a', swapin kend fuel root va s = Ret (r, s') /\ sys_ok kend T s' a' fl' l' /\
    same_uview s (a_view a) s' (a_view a') /\
    (r = 0 /\ pwalk (v_mem s') root (PGROUNDDOWN va) = w /\ valid (ld64 (v_mem s') w) = true \/
     r = -1 /\ fl = [] /\ (l = [] \/ forall j, slot_ok j -> slot_used (v_mem s) (v_bitmap s) j = true)).
Proof.
  intros w S Hr Hva Hw Hv Hs Hf. pose proof (vo_tables _ _ _ _ _ (so_vm _ _ _ _ _ _ S)) as Ht.
  destruct (swapin_ok s a fl l root va fuel S Hr Hva Hw Hv Hs Hf)
    as (r & s' & E & fl' & l' & a' & S' & V & N & Hres).
  exists r, s', fl', l', a'. split_and!; [done|done|by apply same_view_uview|].
  destruct Hres as [[-> Hvr]|Hres]; [left|by right]. split_and!; try done. by apply (pwalk_ext T).
Qed.

End swapin.
