(* ===== verification/VmFrame.v ===== *)
(** What an operation on one address space leaves alone: the pages of every
    other address space, the pages the kernel holds and the blocks of the file
    system.  The frame relation between two configurations of memory, and how
    the elementary changes of kernel/vm.c satisfy it: a changed leaf entry, a
    freed page, a released slot and a new page of a page table. *)
From S2P Require Import Prelude Riscv Memory Ring Lru Blocks Kmem Vm SwapIO PageTable Pte VmInv Swap SwapIn.

(** A page-aligned user address. *)
Definition uva (va : Z) : Prop := aligned va /\ 0 <= va < MAXVA.

Section frame.
Context {C : Type} `{HL : BufCacheLaws C} (kend : Z).
Implicit Types (s : vm C) (T : gmap Z nat).

(** A state of memory with what the invariant says it consists of: the pages of
    the page tables, the free pages, the resident pages, the cache. *)
Record cfg := Cfg { x_T : gmap Z nat; x_s : vm C; x_fl : list Z; x_l : list Z; x_a : astate }.
Definition x_m (x : cfg) : mem := v_mem (x_s x).
Definition good (x : cfg) : Prop := sys_ok kend (x_T x) (x_s x) (x_a x) (x_fl x) (x_l x).
Lemma good_vm x : good x -> vm_ok kend (x_T x) (x_s x) (x_fl x) (x_l x).
Proof. apply so_vm. Qed.
Lemma good_tables x : good x -> tables_ok (x_T x) (x_m x).
Proof. intros G. apply (vo_tables _ _ _ _ _ (good_vm x G)). Qed.

(** What the process with page table [root] sees at [va]. *)
Definition xview (x : cfg) (root va : Z) : option (Z * list Z) := uview (x_m x) (a_view (x_a x)) root va.

(** The frame of the leaf [w], if it is resident, belongs to the allocator and
    no other entry maps it. *)
Definition sole T (m : mem) (w : Z) : Prop :=
  valid (ld64 m w) = true ->
  upage kend (PTE2PA (ld64 m w)) /\
  forall y, pteaddr T y -> valid (ld64 m y) = true -> PTE2PA (ld64 m y) = PTE2PA (ld64 m w) -> y = w.
Definition private (x : cfg) (root va : Z) : Prop :=
  let w := pwalk (x_m x) root va in w <> 0 -> sole (x_T x) (x_m x) w.

(** A page of the kernel's own. *)
Record held (x : cfg) (q : Z) : Prop := {
  hd_page : upage kend q;
  hd_reserved : reserved (x_T x) (x_s x) (x_fl x) (x_l x) q;
  hd_unmapped : unmapped (x_T x) (x_m x) q }.

(** From [x] to [x'] only the pages [X] of address spaces and the kernel pages
    [Y] change. *)
Record frame (X : Z -> Z -> Prop) (Y : Z -> Prop) (x x' : cfg) : Prop := {
  fr_sub : x_T x ⊆ x_T x';
  fr_roots p : x_T x' !! p = Some 2%nat -> x_T x !! p = Some 2%nat;
  fr_inner p k i : x_T x !! p = Some (S k) -> idx i -> valid (entry (x_m x) p i) = true ->
    entry (x_m x') p i = entry (x_m x) p i;
  fr_view root va : x_T x !! root = Some 2%nat -> uva va -> ~ X root va -> xview x' root va = xview x root va;
  fr_private root va : x_T x !! root = Some 2%nat -> uva va -> ~ X root va -> private x root va -> private x' root va;
  fr_held q : held x q -> ~ Y q -> held x' q /\ page_eq (x_m x) (x_m x') q;
  fr_disk b : b < SWAPBASE -> a_view (x_a x') b = a_view (x_a x) b }.

Definition noX : Z -> Z -> Prop := fun _ _ => False.
Definition noY : Z -> Prop := fun _ => False.

Lemma fr_root X Y x x' root : frame X Y x x' -> x_T x !! root = Some 2%nat -> x_T x' !! root = Some 2%nat.
Proof. intros F Hr. eapply lookup_weaken; [exact Hr|apply F]. Qed.
Lemma frame_refl X Y x : frame X Y x x.
Proof. by split. Qed.
Lemma frame_trans X Y x1 x2 x3 : frame X Y x1 x2 -> frame X Y x2 x3 -> frame X Y x1 x3.
Proof.
  intros F1 F2. assert (forall p k, x_T x1 !! p = Some k -> x_T x2 !! p = Some k) as Hsub.
  { intros p k Hp. eapply lookup_weaken; [exact Hp|apply F1]. }
  split.
  - etransitivity; [apply F1|apply F2].
  - intros p Hp. by apply F1, F2.
  - intros p k i Hp Hi Hv. pose proof (fr_inner _ _ _ _ F1 p k i Hp Hi Hv) as E.
    rewrite <- E. apply (fr_inner _ _ _ _ F2 p k); auto. by rewrite E.
  - intros root va Hr Hva HX. rewrite (fr_view _ _ _ _ F2) by auto. by apply F1.
  - intros root va Hr Hva HX HP. apply (fr_private _ _ _ _ F2); auto. by apply F1.
  - intros q Hq HY. destruct (fr_held _ _ _ _ F1 q Hq HY) as [H1 E1].
    destruct (fr_held _ _ _ _ F2 q H1 HY) as [H2 E2]. split; [done|]. intros y Hy. by rewrite E2, E1.
  - intros b Hb. by rewrite (fr_disk _ _ _ _ F2), (fr_disk _ _ _ _ F1).
Qed.
Lemma frame_mono (X X' : Z -> Z -> Prop) (Y Y' : Z -> Prop) x x' :
  frame X Y x x' -> (forall root va, X root va -> X' root va) -> (forall q, Y q -> held x q -> Y' q) ->
  frame X' Y' x x'.
Proof.
  intros F HX HY. split; try apply F.
  - intros root va Hr Hva HnX. apply F; auto.
  - intros root va Hr Hva HnX. apply F; auto.
  - intros q Hq HnY. apply F; auto.
Qed.

Lemma frame_weak X Y x x' : frame noX noY x x' -> frame X Y x x'.
Proof. intros F. by apply (frame_mono noX X noY Y). Qed.
Lemma fr_view0 Y x x' root va : frame noX Y x x' -> x_T x !! root = Some 2%nat -> uva va -> xview x' root va = xview x root va.
Proof. intros F Hr Hva. apply (fr_view _ _ _ _ F); [done|done|by intros []]. Qed.
Lemma fr_private0 Y x x' root va :
  frame noX Y x x' -> x_T x !! root = Some 2%nat -> uva va -> private x root va -> private x' root va.
Proof. intros F Hr Hva. apply (fr_private _ _ _ _ F); [done|done|by intros []]. Qed.
(** Pages that the kernel did not hold before need not be kept. *)
Lemma frame_drop X (Y : Z -> Prop) x x' : frame X Y x x' -> (forall q, Y q -> ~ held x q) -> frame X noY x x'.
Proof. intros F HY. apply (frame_mono X X Y noY); [done|done|]. intros q Hq Hh. by destruct (HY q Hq). Qed.

Lemma reserved_cons T s fl l q p : reserved T s fl l q -> q <> p -> reserved T s (p :: fl) l q.
Proof. intros [? ? Hf ? ?] Hne. split; try done. by rewrite not_elem_of_cons. Qed.

(** ** Changes that no entry sees *)
Lemma evolves_frame (Y : Z -> Prop) x fl0 s' fl' l' a' :
  good x -> evolves (x_T x) (x_s x) fl0 (x_l x) (a_view (x_a x)) s' fl' l' (a_view a') ->
  (forall q, reserved (x_T x) (x_s x) (x_fl x) (x_l x) q -> ~ Y q -> reserved (x_T x) (x_s x) fl0 (x_l x) q) ->
  frame noX Y x (Cfg (x_T x) s' fl' l' a').
Proof.
  intros G E HY. pose proof (good_tables x G) as Ht.
  assert (forall y, pteaddr (x_T x) y -> valid (ld64 (v_mem s') y) = true ->
    valid (ld64 (x_m x) y) = true /\ PTE2PA (ld64 (v_mem s') y) = PTE2PA (ld64 (x_m x) y)) as Hv by apply E.
  split; cbn [x_T x_s x_fl x_l x_a]; try done.
  - intros p k i Hp Hi _. by apply (ev_inner _ _ _ _ _ _ _ _ _ E p k).
  - intros root va Hr _ _. by apply (evolves_uview _ _ _ _ _ _ _ _ _ root va Ht E).
  - intros root va Hr _ _ HP. change (let w := pwalk (v_mem s') root va in w <> 0 -> sole (x_T x) (v_mem s') w).
    rewrite (pwalk_ext (x_T x) (x_m x) (v_mem s') root va) by (done || apply E).
    cbv zeta. intros Hw Hvw.
    pose proof (pwalk_pteaddr _ _ _ _ Ht Hr Hw) as Hwa. destruct (Hv _ Hwa Hvw) as [Hv0 ->].
    destruct (HP Hw Hv0) as [Hu Hs]. split; [done|]. intros y Hy Hvy Ey. destruct (Hv y Hy Hvy) as [Hvy0 Ey0].
    apply Hs; [done|done|]. by rewrite <- Ey0.
  - intros q [Hu Hr Hun] HnY. destruct (ev_reserved _ _ _ _ _ _ _ _ _ E q (HY q Hr HnY)) as [Hr' Hp].
    split; [|done]. split; [done|done|]. change (unmapped (x_T x) (v_mem s') q).
    intros y Hy Hvy. destruct (Hv y Hy Hvy) as [Hvy0 ->]. by apply Hun.
  - apply E.
Qed.

(** The same tables, leaves and views. *)
Lemma frame_same (Y : Z -> Prop) x s' fl' l' :
  good x -> inner_eq (x_T x) (x_m x) (v_mem s') ->
  (forall w, pteaddr (x_T x) w -> ld64 (v_mem s') w = ld64 (x_m x) w) ->
  same_view (x_T x) (x_s x) (a_view (x_a x)) s' (a_view (x_a x)) ->
  (forall q, reserved (x_T x) (x_s x) (x_fl x) (x_l x) q -> ~ Y q ->
     reserved (x_T x) s' fl' l' q /\ page_eq (x_m x) (v_mem s') q) ->
  frame noX Y x (Cfg (x_T x) s' fl' l' (x_a x)).
Proof.
  intros G Hin Hl Hv Hq. pose proof (good_tables x G) as Ht.
  split; cbn [x_T x_s x_fl x_l x_a]; try done.
  - intros p k i Hp Hi _. by apply (Hin p k).
  - intros root va Hr _ _. by apply (same_view_uview (x_T x) (x_s x) _ s').
  - intros root va Hr _ _ HP. change (let w := pwalk (v_mem s') root va in w <> 0 -> sole (x_T x) (v_mem s') w).
    rewrite (pwalk_ext (x_T x) (x_m x) (v_mem s') root va) by done.
    cbv zeta. intros Hw. unfold sole.
    rewrite Hl by by apply pwalk_pteaddr. intros Hvw. destruct (HP Hw Hvw) as [Hu Hs]. split; [done|].
    intros y Hy. rewrite Hl by done. by apply Hs.
  - intros q [Hu Hr Hun] HnY. destruct (Hq q Hr HnY) as [Hr' Hp].
    split; [|done]. split; [done|done|]. change (unmapped (x_T x) (v_mem s') q).
    intros y Hy. rewrite Hl by done. by apply Hun.
Qed.

(** Replacing the state of a configuration. *)
Definition x_set (x : cfg) s' (fl' l' : list Z) : cfg := Cfg (x_T x) s' fl' l' (x_a x).

(** The same memory, written differently. *)
Lemma frame_ext x m' :
  good x -> m' ≈m x_m x ->
  let x' := x_set x (set_mem m' (x_s x)) (x_fl x) (x_l x) in good x' /\ frame noX noY x x'.
Proof.
  intros G Hm x'. split.
  - destruct G as [I R SR]. split; [by apply vm_ok_ext|done|done].
  - apply frame_same; cbn [v_mem set_mem]; try done.
    + intros p k i _ _. apply ld_ext. intros; apply Hm.
    + intros w _. apply ld_ext. intros; apply Hm.
    + intros w _. by apply lview_ext.
    + intros q [? ? ? ? ?] _. split; [by split|]. intros y _. apply Hm.
Qed.

(** Linking or unlinking frames of the resident list. *)
Lemma frame_lru (Y : Z -> Prop) x L l' :
  good x -> (forall i, i ∈ l' -> i ∈ x_l x \/ Y (page_to_pa i)) ->
  frame noX Y x (x_set x (set_lru L (x_s x)) (x_fl x) l').
Proof.
  intros G Hl. apply frame_same; cbn [v_mem set_lru]; try done.
  intros q [? ? ? ? Hq] HY. split; [|done]. split; try done.
  intros i Hi. destruct (Hl i Hi) as [?|HYi]; [by apply Hq|]. intros E. apply HY. by rewrite <- E.
Qed.

(** ** Freeing a page *)
Lemma frame_free x pa :
  good x -> held x pa ->
  let x' := x_set x (set_free pa (set_mem (free_mem (x_s x) pa) (x_s x))) (pa :: x_fl x) (x_l x) in
  good x' /\ frame noX (fun q => q = pa) x x'.
Proof.
  intros G [Hu Hr Hun] x'. pose proof G as [I R SR].
  destruct (kfree_ok kend (x_T x) (x_s x) (x_fl x) (x_l x) (a_view (x_a x)) pa I Hu Hr Hun) as (I' & Hq & Hin & Hl & _).
  split; [by split|]. apply frame_same; try done.
  - intros w Hw. by apply Hl.
  - intros w Hw. by apply Hl.
Qed.

(** ** Releasing a slot *)
Lemma frame_clear x j :
  good x -> slot_ok j ->
  (forall w, pteaddr (x_T x) w -> valid (ld64 (x_m x) w) = false -> swapped (ld64 (x_m x) w) = true ->
     slot_of (ld64 (x_m x) w) <> j) ->
  let x' := x_set x (set_mem (slot_clear (v_bitmap (x_s x)) j (x_m x)) (x_s x)) (x_fl x) (x_l x) in
  good x' /\ frame noX noY x x'.
Proof.
  intros G Hj Hno x'. pose proof G as [I R SR].
  destruct (clear_slot_ok kend (x_T x) (x_s x) (x_fl x) (x_l x) (a_view (x_a x)) j I Hj Hno) as (I' & Hv & Hin & Hl).
  split; [by split|]. apply frame_same; try done.
  intros q [Ha ? ? Hb ?] _. split; [by split|].
  apply (off_bitmap kend (x_T x) (x_s x) (x_fl x) (x_l x)); try done. intros y Hy. by apply slot_clear_other.
Qed.

(** ** A changed leaf entry *)
(** The page of address space [root] at [va]. *)
Definition at_page (root va : Z) : Z -> Z -> Prop := fun root' va' => root' = root /\ va' = va.

Lemma frame_leaf x root va e' :
  let w := pwalk (x_m x) root va in
  let x' := x_set x (set_mem (st64 (x_m x) w e') (x_s x)) (x_fl x) (x_l x) in
  good x -> x_T x !! root = Some 2%nat -> uva va -> w <> 0 -> 0 <= e' < 2 ^ 64 ->
  (valid e' = true -> unmapped (x_T x) (x_m x) (PTE2PA e')) ->
  frame (at_page root va) (fun q => valid e' = true /\ q = PTE2PA e') x x'.
Proof.
  intros w x' G Hr Hva Hw He' Hun. pose proof (good_vm x G) as I. pose proof (good_tables x G) as Ht.
  pose proof (pwalk_pteaddr _ _ _ _ Ht Hr Hw) as Hwa. fold w in Hwa.
  set (m' := st64 (x_m x) w e').
  assert (inner_eq (x_T x) (x_m x) m') as Hin by by apply (leaf_inner kend (x_T x) (x_s x) (x_fl x) (x_l x)).
  assert (forall y, pteaddr (x_T x) y -> y <> w -> ld64 m' y = ld64 (x_m x) y) as Hoth.
  { intros y Hy Hne. by apply (leaf_other kend (x_T x) (x_s x) (x_fl x) (x_l x) w e' I Hwa). }
  assert (ld64 m' w = e') as Hnew by by apply (leaf_new (x_s x) w).
  assert (forall root' va', x_T x !! root' = Some 2%nat -> uva va' -> ~ at_page root va root' va' ->
    pwalk (x_m x) root' va' <> 0 -> pwalk (x_m x) root' va' <> w) as Hne.
  { intros root' va' Hr' [Hal Hra] HX Hw' E. apply HX. destruct Hva as [Hal0 Hra0].
    by apply (pwalk_inj (x_T x) (x_m x) root' va' root va). }
  split; cbn [x_T x_s x_fl x_l x_a x_set]; try done.
  - intros p k i Hp Hi _. by apply (Hin p k).
  - intros root' va' Hr' Hva' HX. change (uview m' (a_view (x_a x)) root' va' = xview x root' va').
    unfold uview, xview. rewrite (pwalk_ext (x_T x) (x_m x) m') by done. unfold uview.
    case_bool; [done|]. apply (lview_leaf_other kend (x_T x) (x_s x) (x_fl x) (x_l x) w e' I Hwa).
    + by apply pwalk_pteaddr.
    + by apply Hne.
    + intros Hv. apply (vo_valid _ _ _ _ _ I); [by apply pwalk_pteaddr|done].
  - intros root' va' Hr' Hva' HX HP. change (let w := pwalk m' root' va' in w <> 0 -> sole (x_T x) m' w).
    rewrite (pwalk_ext (x_T x) (x_m x) m') by done. cbv zeta. intros Hw'.
    pose proof (pwalk_pteaddr _ _ _ _ Ht Hr' Hw') as Hwa'. unfold sole.
    rewrite Hoth by auto. intros Hv'. destruct (HP Hw' Hv') as [Hu Hs]. split; [done|]. intros y Hy.
    destruct (decide (y = w)) as [->|Hyw]; [|rewrite Hoth by done; by apply Hs].
    rewrite Hnew. intros Hve E. by destruct (Hun Hve _ Hwa' Hv').
  - intros q [Hu [? ? ? ? ?] Hqu] HY. split; [split; [done|by split|]|].
    + change (unmapped (x_T x) m' q). intros y Hy. destruct (decide (y = w)) as [->|Hyw].
      * rewrite Hnew. intros Hve E. by apply HY.
      * rewrite Hoth by done. by apply Hqu.
    + by apply (leaf_page kend (x_T x) (x_s x) (x_fl x) (x_l x) w e' I Hwa).
Qed.

(** ** A new page of a page table *)
(** The entry of an inner table that points to the table [q]. *)
Definition inner_pte (q : Z) : Z := Z.lor (PA2PTE q) PTE_V.
Lemma inner_pte_facts q : 0 <= q < 2 ^ 56 -> aligned q ->
  valid (inner_pte q) = true /\ PTE2PA (inner_pte q) = q /\ 0 <= inner_pte q < 2 ^ 64.
Proof.
  intros Hq Ha. unfold inner_pte. rewrite PA2PTE_spec by lia. rewrite pte_lor by done.
  unfold aligned, PGSIZE in Ha. split; [|split].
  - by rewrite flag_set_V, pte_of_testbit.
  - rewrite pte_of_PTE2PA by (done || zdiv). zdiv.
  - change PTE_V with 1. unfold pte_of. change (2 ^ 64) with (2 ^ 54 * 1024). change (2 ^ 56) with (2 ^ 44 * 4096) in Hq.
    zdiv.
Qed.

Section table.
Context (x : cfg) (q p i : Z) (k : nat).
Context (G : good x) (Hq : held x q) (Hz : forall y, in_page q y -> ld8 (x_m x) y = 0).
Context (Hp : x_T x !! p = Some (S k)) (Hi : idx i) (Hv : valid (entry (x_m x) p i) = false).
Let T := x_T x.
Let T' := <[q := k]> T.
Let m := x_m x.
Let m' := st64 m (p + 8 * i) (inner_pte q).

Lemma tn_range : 0 <= q < 2 ^ 56 /\ aligned q /\ 0 < q.
Proof.
  destruct (hd_page _ _ Hq) as [Ha Hr]. pose proof (vo_kend _ _ _ _ _ (good_vm x G)).
  split; [|split; [done|]]; unfold PHYSTOP, KERNBASE in *; lia.
Qed.
Lemma tn_none : T !! q = None.
Proof. apply (hd_reserved _ _ Hq). Qed.
Lemma tn_aligned : aligned p.
Proof. by eapply (tk_aligned _ _ (good_tables x G)). Qed.
Lemma tn_ne : q <> p.
Proof. intros E. pose proof tn_none as Hn. rewrite E in Hn. unfold T in Hn. congruence. Qed.

Lemma tn_page r : aligned r -> r <> p -> page_eq m m' r.
Proof. intros Hr Hne. apply page_eq_st; [apply tn_aligned|done|done|congruence]. Qed.
Lemma tn_entry r j : aligned r -> idx j ->
  entry m' r j = if decide (r = p /\ j = i) then inner_pte q else entry m r j.
Proof.
  intros Hr Hj. unfold m'. rewrite entry_st by (done || apply tn_aligned).
  destruct (decide (r + 8 * j = p + 8 * i)) as [E|E].
  - apply entry_addr_inj in E as [-> ->]; [|done|apply tn_aligned|done|done]. rewrite decide_True by done.
    apply u64_small. destruct tn_range as (? & ? & _). by apply inner_pte_facts.
  - rewrite decide_False; [done|]. by intros [-> ->].
Qed.
Lemma tn_zero j : idx j -> entry m' q j = 0.
Proof.
  intros Hj. destruct tn_range as (_ & Ha & _). rewrite tn_entry by done.
  rewrite decide_False by (intros [E _]; by apply tn_ne).
  transitivity (entry (fun _ => 0) q j); [|reflexivity]. apply ld_ext. intros y Hy.
  rewrite Hz; [done|]. unfold idx, in_page, PGSIZE in *. lia.
Qed.
Lemma tn_pte : valid (inner_pte q) = true /\ PTE2PA (inner_pte q) = q.
Proof. destruct tn_range as (? & ? & _). split; by apply inner_pte_facts. Qed.

(** The entries of the new tables are the old ones, the new inner entry and
    those of the empty page. *)
Lemma tn_inner r n j : T' !! r = Some (S n) -> idx j -> valid (entry m' r j) = true ->
  (r = p /\ j = i /\ n = k /\ entry m' r j = inner_pte q) \/
  (T !! r = Some (S n) /\ valid (entry m r j) = true /\ entry m' r j = entry m r j).
Proof.
  intros Hr Hj Hvr. unfold T' in Hr. apply lookup_insert_Some in Hr as [[<- _]|[Hne Hr]].
  { rewrite tn_zero in Hvr by done. discriminate. }
  assert (aligned r) as Ha by by eapply (tk_aligned _ _ (good_tables x G)).
  rewrite tn_entry in Hvr |- * by done. case_decide as E; [|by right]. destruct E as [-> ->].
  left. unfold T in Hr. split_and!; try done. congruence.
Qed.
Lemma tn_leaf w : pteaddr T' w -> pteaddr T w /\ ld64 m' w = ld64 m w \/ ld64 m' w = 0.
Proof.
  intros (r & j & Hr & Hj & ->). unfold T' in Hr. apply lookup_insert_Some in Hr as [[<- _]|[Hne Hr]].
  { right. by apply tn_zero. }
  left. assert (aligned r) as Ha by by eapply (tk_aligned _ _ (good_tables x G)).
  split; [by exists r, j|]. change (entry m' r j = entry m r j). rewrite tn_entry by done.
  rewrite decide_False; [done|]. intros [-> _]. unfold T in Hr. congruence.
Qed.
Lemma tn_pteaddr w : pteaddr T w -> pteaddr T' w.
Proof.
  intros (r & j & Hr & Hj & ->). exists r, j. split_and!; try done. unfold T'. rewrite lookup_insert_ne; [done|].
  intros E. pose proof tn_none. congruence.
Qed.
Lemma tn_old w : pteaddr T w -> ld64 m' w = ld64 m w.
Proof.
  intros (r & j & Hr & Hj & ->). assert (aligned r) as Ha by by eapply (tk_aligned _ _ (good_tables x G)).
  change (entry m' r j = entry m r j). rewrite tn_entry by done.
  rewrite decide_False; [done|]. intros [-> _]. unfold T in Hr. congruence.
Qed.

Lemma tn_tables : tables_ok T' m'.
Proof.
  pose proof (good_tables x G) as [Ha Hd Hinj]. destruct tn_pte as [_ Epa]. destruct tn_range as (_ & Haq & Hq0).
  assert (forall r n j, T !! r = Some (S n) -> idx j -> valid (entry m r j) = true -> PTE2PA (entry m r j) <> q) as Hnq.
  { intros r n j Hr Hj Hvr E. pose proof (Hd r n j Hr Hj Hvr) as Ht. unfold m in E. rewrite E in Ht.
    pose proof tn_none as Hn. unfold T in Hn. congruence. }
  split.
  - intros r n [[<- _]|[_ Hr]]%lookup_insert_Some; [done|by eapply Ha].
  - intros r n j Hr Hj Hvr. destruct (tn_inner r n j Hr Hj Hvr) as [(_ & _ & -> & ->)|(Hr' & Hv' & ->)].
    + rewrite Epa. unfold T'. by rewrite lookup_insert_eq.
    + unfold T'. rewrite lookup_insert_ne; [by apply Hd|]. intros E. by apply (Hnq r n j).
  - intros r n j r' n' j' Hr Hr' Hj Hj' Hvr Hvr'.
    destruct (tn_inner r n j Hr Hj Hvr) as [(-> & -> & -> & ->)|(Hr1 & Hv1 & ->)];
      destruct (tn_inner r' n' j' Hr' Hj' Hvr') as [(-> & -> & -> & ->)|(Hr1' & Hv1' & ->)]; rewrite ?Epa; try done.
    + intros E. by destruct (Hnq r' n' j' Hr1' Hj' Hv1').
    + intros E. by destruct (Hnq r n j Hr1 Hj Hv1).
    + by apply (Hinj r n j r' n').
Qed.

(** The new table changes no leaf of an existing address space. *)
Lemma tn_pwalk root va : T !! root = Some 2%nat ->
  pwalk m' root va = pwalk m root va \/
  pwalk m root va = 0 /\ ld64 m' (pwalk m' root va) = 0.
Proof.
  intros Hr. pose proof (good_tables x G) as [Ha Hd Hinj].
  assert (forall l v, 0 <= l -> idx (PX l v)) as HPX by (intros; by apply PX_range).
  assert (valid (entry m p i) = false) as Hv' by exact Hv.
  destruct tn_pte as [Ev Epa]. unfold pwalk. rewrite (tn_entry root) by (eapply Ha, Hr || by apply HPX).
  case_decide as E2.
  - destruct E2 as [-> E2]. rewrite Ev, Epa, tn_zero by by apply HPX. left.
    rewrite E2, Hv'. reflexivity.
  - destruct (valid (entry m root (PX 2 va))) eqn:V2; [|by left].
    set (c := PTE2PA (entry m root (PX 2 va))).
    assert (T !! c = Some 1%nat) as Hc by (apply Hd; [done|by apply HPX|done]).
    rewrite (tn_entry c) by (eapply Ha, Hc || by apply HPX).
    case_decide as E1; [|by left]. destruct E1 as [-> E1]. rewrite E1, Hv'. right.
    rewrite Ev, Epa. split; [done|]. apply tn_zero. by apply HPX.
Qed.
Lemma tn_lview v w : pteaddr T w -> lview m' v w = lview m v w.
Proof.
  intros Hw. unfold lview. rewrite tn_old by done. case_match eqn:Evw; [|done]. do 2 f_equal.
  apply page_bytes_eq, tn_page; [apply PTE2PA_aligned|]. intros E.
  destruct (vo_valid _ _ _ _ _ (good_vm x G) w Hw Evw) as (_ & Hn & _).
  change (T !! PTE2PA (ld64 m w) = None) in Hn. rewrite E in Hn. unfold T in Hn. congruence.
Qed.

Let s' := set_mem m' (x_s x).
Let I := good_vm x G.

Lemma tn_lookup r : r <> q -> T' !! r = T !! r.
Proof. intros Hne. unfold T'. by rewrite lookup_insert_ne. Qed.
Lemma tn_owner j : j ∈ x_l x -> owner_pte m' (v_lru (x_s x)) j = owner_pte m (v_lru (x_s x)) j.
Proof.
  intros Hj. pose proof (vo_owned _ _ _ _ _ I j Hj) as O. unfold owner_pte.
  destruct (tn_pwalk _ (pg_vaddr (pages (v_lru (x_s x)) j)) (ow_root _ _ _ _ O)) as [E|[E _]]; [done|].
  by destruct (ow_pte _ _ _ _ O).
Qed.
Lemma tn_slots j : slot_ok j -> slot_used m' (v_bitmap (x_s x)) j = slot_used m (v_bitmap (x_s x)) j.
Proof.
  intros Hj. apply slot_used_ext; [done|]. destruct (vo_bm _ _ _ _ _ I) as ([Ha _] & Hn & _).
  apply (tn_page (v_bitmap (x_s x))); [done|]. intros E. rewrite E in Hn. congruence.
Qed.
(** An entry of the new tables that is not 0 is an old one. *)
Lemma tn_leaf_nz w : pteaddr T' w -> ld64 m' w <> 0 -> pteaddr T w /\ ld64 m' w = ld64 m w.
Proof. intros Hw Hn. by destruct (tn_leaf w Hw). Qed.
Lemma valid_nz e : valid e = true -> e <> 0.
Proof. by intros Hve ->. Qed.
Lemma swapped_nz e : swapped e = true -> e <> 0.
Proof. by intros Hve ->. Qed.

Lemma tn_vm_ok : vm_ok kend T' s' (x_fl x) (x_l x).
Proof.
  destruct (hd_reserved _ _ Hq) as [Ra Rt Rf Rb Rl]. pose proof tn_tables as Ht.
  assert (forall j, j ∈ x_l x -> owned T' m' (v_lru (x_s x)) j) as Hown.
  { intros j Hj. pose proof (tn_owner j Hj) as Eo. destruct (vo_owned _ _ _ _ _ I j Hj) as [O1 O2 O3 O4 O5].
    assert (pteaddr T (owner_pte m (v_lru (x_s x)) j)) as Hw by (apply pwalk_pteaddr; [apply I|done|done]).
    split; rewrite ?Eo, ?tn_old by done; try done. rewrite tn_lookup; [done|]. intros E.
    rewrite E in O1. congruence. }
  split; cbn [v_mem v_free v_lru v_bitmap v_slots set_mem s']; try apply I; try done.
  - intros r n [[<- _]|[_ Hr]]%lookup_insert_Some; [apply Hq|by apply (vo_tpages _ _ _ _ _ I r n)].
  - eapply flist_ext; [|apply I]. intros r Hr. destruct (vo_fpages _ _ _ _ _ I r Hr) as [[Har _] Hn].
    apply ld64_page_eq, tn_page; [done|]. intros ->. congruence.
  - intros r Hr. destruct (vo_fpages _ _ _ _ _ I r Hr). split; [done|]. rewrite tn_lookup; [done|]. by intros ->.
  - intros j Hj. destruct (vo_lpages _ _ _ _ _ I j Hj). split; [done|]. rewrite tn_lookup; [done|]. by apply Rl.
  - destruct (vo_bm _ _ _ _ _ I) as (? & ? & ?). split_and!; try done. by rewrite tn_lookup.
  - intros w Hw Hvw. destruct (tn_leaf_nz w Hw (valid_nz _ Hvw)) as [Hw' E]. rewrite E in Hvw |- *.
    destruct (vo_valid _ _ _ _ _ I w Hw' Hvw) as (? & ? & ?). split_and!; try done.
    rewrite tn_lookup; [done|]. by apply (hd_unmapped _ _ Hq).
  - intros w j Hw Hvw Hj. destruct (tn_leaf_nz w Hw (valid_nz _ Hvw)) as [Hw' E]. rewrite E in Hvw |- *.
    rewrite tn_owner by done. by apply (vo_own _ _ _ _ _ I).
  - intros w Hw Hvw Hsw. destruct (tn_leaf_nz w Hw (swapped_nz _ Hsw)) as [Hw' E]. rewrite E in Hvw, Hsw |- *.
    destruct (vo_slot _ _ _ _ _ I w Hw' Hvw Hsw) as [Hok Hu]. split; [done|]. by rewrite tn_slots.
  - intros w w' Hw Hw' Hvw Hsw Hvw' Hsw'. destruct (tn_leaf_nz w Hw (swapped_nz _ Hsw)) as [Hw1 E].
    destruct (tn_leaf_nz w' Hw' (swapped_nz _ Hsw')) as [Hw1' E']. rewrite E in Hvw, Hsw |- *.
    rewrite E' in Hvw', Hsw' |- *. by apply (vo_slot_inj _ _ _ _ _ I).
Qed.

Definition table_cfg : cfg := Cfg T' s' (x_fl x) (x_l x) (x_a x).
Lemma tn_good : good table_cfg.
Proof. split; [apply tn_vm_ok|apply G|apply G]. Qed.

Lemma tn_private root va : T !! root = Some 2%nat -> private x root va -> private table_cfg root va.
Proof.
  intros Hr HP. change (let w := pwalk m' root va in w <> 0 -> sole T' m' w). cbv zeta. intros Hw Hvw.
  destruct (tn_pwalk root va Hr) as [E|[_ E]]; [|by destruct (valid_nz _ Hvw)].
  rewrite E in Hw, Hvw |- *.
  assert (pteaddr T (pwalk m root va)) as Hwa by (apply pwalk_pteaddr; [apply I|done|done]).
  rewrite tn_old in Hvw |- * by done. destruct (HP Hw Hvw) as [Hu Hs]. split; [done|].
  intros y Hy Hvy. destruct (tn_leaf_nz y Hy (valid_nz _ Hvy)) as [Hy' Ey]. rewrite Ey in Hvy |- *. by apply Hs.
Qed.
Lemma tn_frame : (k < 2)%nat -> frame noX (fun r => r = q) x table_cfg.
Proof.
  intros Hk. split; cbn [x_T x_s x_fl x_l x_a table_cfg]; try done.
  - apply insert_subseteq, tn_none.
  - intros r Hr. unfold T' in Hr. apply lookup_insert_Some in Hr as [[_ E]|[_ Hr]]; [lia|done].
  - intros r n j Hr Hj Hvr. assert (aligned r) as Ha by by eapply (tk_aligned _ _ (good_tables x G)).
    change (entry m' r j = entry m r j). rewrite tn_entry by done. rewrite decide_False; [done|].
    intros [-> ->]. congruence.
  - intros root va Hr _ _. change (uview m' (a_view (x_a x)) root va = uview m (a_view (x_a x)) root va). unfold uview.
    destruct (tn_pwalk root va Hr) as [->|[-> E]].
    + case_bool; [done|]. apply tn_lview, pwalk_pteaddr; [apply I|done|done].
    + case_bool; [done|]. unfold lview. by rewrite E.
  - intros root va Hr _ _. by apply tn_private.
  - intros r [Hu [Ra Rt Rf Rb Rl] Hun] Hne. split; [|by apply tn_page; [|intros ->; congruence]].
    split; [done| |].
    + split; try done. change (T' !! r = None). by rewrite tn_lookup.
    + change (unmapped T' m' r). intros w Hw Hvw. destruct (tn_leaf_nz w Hw (valid_nz _ Hvw)) as [Hw' E].
      rewrite E in Hvw |- *. by apply Hun.
Qed.
End table.
End frame.
