(* ===== verification/VmGrow.v ===== *)
(** Growing and shrinking an address space: kernel/vm.c [walk] with allocation,
    [mappages], [uvmunmap], [uvmalloc] and [uvmdealloc] give and take exactly the
    pages they should, while allocations may swap out any page of any process. *)
From S2P Require Import Prelude Riscv Memory Ring Lru Blocks Kmem Vm SwapIO PageTable Pte VmInv Swap SwapIn VmFrame.

Section pages.
Context {C : Type} `{HL : BufCacheLaws C} (kend : Z).
Implicit Types (x : cfg (C := C)).
Abbreviation good := (good kend).
Abbreviation frame := (frame kend).
Abbreviation held := (held kend).

(** ** Clearing a page *)
Lemma write_x x q m' : good x -> held x q ->
  (forall q', aligned q' -> q' <> q -> page_eq (x_m x) m' q') ->
  let x' := x_set x (set_mem m' (x_s x)) (x_fl x) (x_l x) in
  good x' /\ frame noX (fun r => r = q) x x' /\ held x' q.
Proof.
  intros G [Hu Hr Hun] Hoff x'. pose proof G as [I R SR].
  destruct (vm_ok_page kend (x_T x) (x_s x) (x_fl x) (x_l x) (a_view (x_a x)) m' q I Hr Hun) as (I' & E & Hr' & Hun');
    [done|]. split_and!.
  - by split.
  - eapply evolves_frame; [done|exact E|]. intros r Hrr Hne. by apply reserved_cons.
  - by split.
Qed.
Lemma fill_x x q c : good x -> held x q ->
  let x' := x_set x (set_mem (mfill (x_m x) q c PGSIZE) (x_s x)) (x_fl x) (x_l x) in
  good x' /\ frame noX (fun r => r = q) x x' /\ held x' q /\ (forall y, in_page q y -> ld8 (x_m x') y = u8 c).
Proof.
  intros G Hq x'. destruct (write_x x q (mfill (x_m x) q c PGSIZE) G Hq) as (G' & F & H').
  { intros q' Hq' Hne. apply fill_page; try done. apply Hq. }
  split_and!; try done. intros y [Hy1 Hy2]. change (x_m x') with (mfill (x_m x) q c PGSIZE). rewrite ld8_mfill.
  by rewrite (proj2 (Z.leb_le _ _)), (proj2 (Z.ltb_lt _ _)).
Qed.

Lemma held_range x q : good x -> held x q -> 0 <= q < 2 ^ 56.
Proof.
  intros G [[_ Hr] _ _]. pose proof (vo_kend _ _ _ _ _ (good_vm _ _ G)). unfold PHYSTOP, KERNBASE in *. lia.
Qed.

(** ** A new table *)
Lemma walk_new x q p i k : (k < 2)%nat ->
  good x -> held x q -> x_T x !! p = Some (S k) -> idx i -> valid (entry (x_m x) p i) = false ->
  let s1 := set_mem (mfill (x_m x) q 0 PGSIZE) (x_s x) in
  let s2 := set_mem (st64 (v_mem s1) (p + 8 * i) (inner_pte q)) s1 in
  exists x', x_s x' = s2 /\ good x' /\ frame noX (fun r => r = q) x x' /\ x_fl x' = x_fl x /\
    x_T x' !! q = Some k /\ entry (x_m x') p i = inner_pte q.
Proof.
  intros Hk G Hq Hp Hi Hv s1 s2. destruct (fill_x x q 0 G Hq) as (G1 & F1 & H1 & Hz).
  set (x1 := x_set _ _ _ _) in *.
  assert (x_T x1 !! p = Some (S k)) as Hp1 by exact Hp.
  assert (q <> p) as Hne. { intros ->. destruct Hq as [_ [_ Hn _ _ _] _]. congruence. }
  assert (valid (entry (x_m x1) p i) = false) as Hv1.
  { change (x_m x1) with (mfill (x_m x) q 0 PGSIZE). rewrite (entry_ext (x_m x)); [done|done|].
    apply fill_page; [apply Hq|by eapply (tk_aligned _ _ (good_tables _ _ G))|congruence]. }
  exists (table_cfg x1 q p i k). split_and!; try done.
  - by apply tn_good.
  - eapply frame_trans; [exact F1|]. by apply tn_frame.
  - cbn [x_T table_cfg]. by rewrite lookup_insert_eq.
  - change (x_m (table_cfg x1 q p i k)) with (st64 (x_m x1) (p + 8 * i) (inner_pte q)).
    rewrite (tn_entry kend x1 q p i k G1 H1 Hp1 Hi p i); [by rewrite decide_True| |done].
    by eapply (tk_aligned _ _ (good_tables _ _ G)).
Qed.

(** ** Mapping a page *)
Definition map_pte (pa perm : Z) : Z := Z.lor (Z.lor (PA2PTE pa) perm) PTE_V.
Lemma map_pte_facts pa perm : 0 <= pa < 2 ^ 56 -> aligned pa -> 0 <= perm < 1024 ->
  valid (map_pte pa perm) = true /\ PTE2PA (map_pte pa perm) = pa /\ 0 <= map_pte pa perm < 2 ^ 64 /\
  perms (map_pte pa perm) = perms perm.
Proof.
  intros Hpa Ha Hp. assert (0 <= Z.lor perm PTE_V < 1024) as Hf by (apply (lor_range _ _ 10); done).
  assert (map_pte pa perm = pte_of (pa / 4096) (Z.lor perm PTE_V)) as ->.
  { unfold map_pte. rewrite PA2PTE_spec by lia. rewrite <- Z.lor_assoc. by apply pte_lor. }
  unfold aligned, PGSIZE in Ha. split; [|split; [|split]].
  - rewrite flag_set_V, pte_of_testbit by done. rewrite Z.lor_spec. apply orb_true_r.
  - rewrite pte_of_PTE2PA by (done || zdiv). zdiv.
  - unfold pte_of. change (2 ^ 64) with (2 ^ 54 * 1024). change (2 ^ 56) with (2 ^ 44 * 4096) in Hpa. zdiv.
  - apply perms_ext. intros i Hi H0 _ _. rewrite pte_of_testbit by done. rewrite Z.lor_spec.
    change PTE_V with (2 ^ 0). rewrite Z.pow2_bits_eqb by lia. rewrite (proj2 (Z.eqb_neq _ _)) by lia. apply orb_false_r.
Qed.

Lemma xview_none x root va : xview x root va = None -> pwalk (x_m x) root va <> 0 ->
  valid (ld64 (x_m x) (pwalk (x_m x) root va)) = false /\ swapped (ld64 (x_m x) (pwalk (x_m x) root va)) = false.
Proof.
  unfold xview, uview, lview. intros Hx Hw. rewrite (proj2 (Z.eqb_neq _ _) Hw) in Hx.
  destruct (valid _); [done|]. by destruct (swapped _).
Qed.

(** Storing the entry for the page [pa] that the kernel held. *)
Lemma map_leaf x root va pa perm :
  let w := pwalk (x_m x) root va in
  let x' := x_set x (set_mem (st64 (x_m x) w (map_pte pa perm)) (x_s x)) (x_fl x) (x_l x) in
  good x -> x_T x !! root = Some 2%nat -> uva va -> w <> 0 -> xview x root va = None -> held x pa ->
  0 <= perm < 1024 ->
  good x' /\ frame (at_page root va) (fun q => q = pa) x x' /\ pwalk (x_m x') root va = w /\
  ld64 (x_m x') w = map_pte pa perm /\ page_eq (x_m x) (x_m x') pa /\
  (forall y, pteaddr (x_T x) y -> valid (ld64 (x_m x') y) = true -> PTE2PA (ld64 (x_m x') y) = pa -> y = w).
Proof.
  intros w x' G Hr Hva Hw Hx Hh Hperm. destruct (xview_none x root va Hx Hw) as [Hv Hs]. fold w in Hv, Hs.
  pose proof (good_vm _ _ G) as I. pose proof (good_tables _ _ G) as Ht.
  pose proof (pwalk_pteaddr _ _ _ _ Ht Hr Hw) as Hwa. fold w in Hwa.
  destruct (hd_reserved _ _ _ Hh) as [Ra Rt Rf Rb Rl].
  destruct (map_pte_facts pa perm (held_range x pa G Hh) Ra Hperm) as (Fv & Fpa & Fr & Fp).
  set (e' := map_pte pa perm) in *.
  assert (forall y, pteaddr (x_T x) y -> y <> w -> ld64 (x_m x') y = ld64 (x_m x) y) as Hoth.
  { intros y Hy Hne. by apply (leaf_other kend (x_T x) (x_s x) (x_fl x) (x_l x) w e' I Hwa). }
  assert (ld64 (x_m x') w = e') as Hnew by by apply (leaf_new (x_s x) w).
  split_and!; try done.
  - split; [|apply G|apply G].
    apply (vm_ok_leaf kend (x_T x) (x_s x) (x_fl x) (x_l x) w e' I Hwa Fr); rewrite ?Fv, ?Fpa; try done.
    + intros i Hi E. pose proof (ow_valid _ _ _ _ (vo_owned _ _ _ _ _ I i Hi)) as Hvi. rewrite E in Hvi.
      change (valid (ld64 (x_m x) w) = true) in Hvi. congruence.
    + intros i _ Hi E. by destruct (Rl i Hi).
  - eapply frame_mono; [apply (frame_leaf kend x root va e' G Hr Hva Hw Fr)| |].
    + intros _. rewrite Fpa. apply Hh.
    + done.
    + intros q [_ ->] _. done.
  - apply (pwalk_ext (x_T x)); [|done|done]. by apply (leaf_inner kend (x_T x) (x_s x) (x_fl x) (x_l x)).
  - by apply (leaf_page kend (x_T x) (x_s x) (x_fl x) (x_l x) w e' I Hwa).
  - intros y Hy. destruct (decide (y = w)) as [->|Hne]; [done|]. rewrite Hoth by done.
    intros Hvy Ey. by destruct (hd_unmapped _ _ _ Hh y Hy Hvy).
Qed.

(** Recording the owner of the page [pa] that the leaf of [va] maps. *)
Lemma register_x x root va pa :
  let w := pwalk (x_m x) root va in
  good x -> upage kend pa -> x_T x !! pa = None -> (forall i, i ∈ x_l x -> page_to_pa i <> pa) ->
  x_T x !! root = Some 2%nat -> uva va -> w <> 0 ->
  valid (ld64 (x_m x) w) = true -> PTE2PA (ld64 (x_m x) w) = pa ->
  (forall y, pteaddr (x_T x) y -> valid (ld64 (x_m x) y) = true -> PTE2PA (ld64 (x_m x) y) = pa -> y = w) ->
  wp (lru_register pa root va) (x_s x) (fun _ s' => exists L l',
    let x' := x_set x (set_lru L (x_s x)) (x_fl x) l' in
    x_s x' = s' /\ good x' /\ frame noX (fun q => q = pa) x x').
Proof.
  intros w G Hu Ht Hl Hr [_ Hva] Hw Hv Hpa Hun. pose proof (good_vm _ _ G) as I. eapply wp_mono.
  { by apply (lru_register_ok kend (x_T x) (x_s x) (x_fl x) (x_l x) pa root va I Hu). }
  intros _ s' (L & -> & I'). exists L, (x_l x ++ [pageidx pa]). split_and!; [done| |].
  - split; [done|apply G|apply G].
  - apply frame_lru; [done|]. intros i [?| ->%list_elem_of_singleton]%elem_of_app; [by left|right].
    apply pageidx_pa; [|apply Hu]. destruct Hu as [_ ?]. pose proof (vo_kend _ _ _ _ _ I). lia.
Qed.
End pages.

Section grow.
Context {C : Type} `{HL : BufCacheLaws C} (kend : Z) (fuel : nat).
(** The clock visits every page of memory at most once, and one again. *)
Context (Hfuel : (PHYSTOP - KERNBASE) / PGSIZE < Z.of_nat fuel).
Implicit Types (x : cfg (C := C)).
Abbreviation good := (good kend).
Abbreviation frame := (frame kend).
Abbreviation held := (held kend).
Abbreviation private := (private kend).

Lemma lru_fits x : good x -> (length (x_l x) < fuel)%nat.
Proof.
  intros G. pose proof (good_vm _ _ G) as I. pose proof (ring_nodup _ _ _ (lr_ring _ _ (vo_lru _ _ _ _ _ I))) as Hnd.
  change ((PHYSTOP - KERNBASE) / PGSIZE) with 32768 in Hfuel.
  assert (x_l x ⊆+ seqZ 0 32768) as Hs.
  { apply NoDup_submseteq; [done|]. intros i Hi. apply elem_of_seqZ.
    destruct (vo_lpages _ _ _ _ _ I i Hi) as [[_ Hr] _]. pose proof (vo_kend _ _ _ _ _ I).
    unfold page_to_pa, PHYSTOP, KERNBASE, PGSIZE in *. lia. }
  apply submseteq_length in Hs. rewrite length_seqZ in Hs. lia.
Qed.

(** ** Allocating a page *)
Lemma kalloc_x x : good x ->
  wp (kalloc kend fuel) (x_s x) (fun r s' => exists x', x_s x' = s' /\ good x' /\ frame noX noY x x' /\
    x_T x' = x_T x /\ inner_eq (x_T x) (x_m x) (x_m x') /\ (length (x_fl x) <= S (length (x_fl x')))%nat /\
    (r = 0 /\ x_fl x = [] \/
     r <> 0 /\ held x' r /\ ~ held x r /\ (x_fl x <> [] -> x_m x' = mfill (x_m x) r 5 PGSIZE))).
Proof.
  intros G. eapply wp_mono; [apply (kalloc_ok kend (x_T x) (x_s x) (x_a x) (x_fl x) (x_l x) fuel G), (lru_fits x G)|].
  intros r s' (fl' & l' & a' & S' & E & Hr). exists (Cfg (x_T x) s' fl' l' a'). split_and!; try done.
  - by eapply evolves_frame.
  - apply E.
  - cbn [x_fl]. destruct Hr as [(_ & _ & _ & Hp)|(_ & -> & _)]; [|cbn; lia].
    destruct (x_fl x) as [|p fl0]; [cbn; lia|]. destruct (Hp p fl0 eq_refl) as (_ & -> & _). done.
  - destruct Hr as [(Hne & [? ? ? _] & Hnr & Hp)|(-> & ? & _)]; [right|by left].
    split_and!; [done|by split|by intros [_ ? _]|]. intros Hfl. destruct (x_fl x) as [|p fl0]; [done|].
    by destruct (Hp p fl0 eq_refl) as (-> & _ & _ & ?).
Qed.

(** ** [walk] that allocates *)
(** The pure walk below the page [p]. *)
Fixpoint pw (m : mem) (levels : list Z) (p va : Z) : Z :=
  match levels with
  | [] => p + 8 * PX 0 va
  | level :: rest =>
    let e := entry m p (PX level va) in if valid e then pw m rest (PTE2PA e) va else 0
  end.
Lemma pwalk_pw m root va : pwalk m root va = pw m [2; 1] root va.
Proof. done. Qed.

(** What [walk] promises: the missing tables are there, or memory is short. *)
Definition walk_post x (levels : list Z) (p va : Z) (w : Z) (s' : vm C) : Prop :=
  exists x', x_s x' = s' /\ good x' /\ frame noX noY x x' /\
    (length (x_fl x) <= length levels + length (x_fl x'))%nat /\
    (w = 0 /\ (length (x_fl x) < length levels)%nat \/ w <> 0 /\ w = pw (x_m x') levels p va).

Lemma walk_from_x levels : forall x p va,
  Forall (fun l => 0 <= l) levels -> (length levels <= 2)%nat -> good x -> x_T x !! p = Some (length levels) ->
  wp (walk_from (kalloc kend fuel) levels p va true) (x_s x) (walk_post x levels p va).
Proof.
  induction levels as [|lv rest IH]; intros x p va Hlv Hlen G Hp.
  { apply wp_ret. exists x. split_and!; try done. right. cbn. split; [|done].
    pose proof (PX_range 0 va ltac:(lia)). destruct (tk_aligned _ _ (good_tables _ _ G) p _ Hp). lia. }
  apply Forall_cons in Hlv as [Hl0 Hlv]. cbn [length] in Hlen, Hp.
  assert (idx (PX lv va)) as Hi by by apply PX_range.
  cbn [walk_from]. apply wp_bind, wp_gets. change (ld64 _ _) with (entry (x_m x) p (PX lv va)).
  destruct (valid (entry (x_m x) p (PX lv va))) eqn:Hv.
  - pose proof (tk_down _ _ (good_tables _ _ G) p _ _ Hp Hi Hv) as Hc.
    eapply wp_mono; [apply (IH x _ va Hlv); [lia|done|done]|].
    intros w s' (x' & Es & G' & F & Hf & Hw). exists x'. split_and!; try done; [cbn; lia|].
    destruct Hw as [[-> Hs]|[Hne ->]]; [left; cbn; lia|right].
    cbn [pw]. by rewrite (fr_inner _ _ _ _ _ F p _ _ Hp Hi Hv), Hv.
  - cbn [negb]. apply wp_bind. eapply wp_mono; [by apply kalloc_x|].
    intros q s1 (x1 & <- & G1 & F1 & ET & Hin & Hf1 & [[-> Hfl]|(Hne & Hq & Hnq & _)]).
    { cbn [Z.eqb]. apply wp_ret. exists x1. rewrite Hfl. split_and!; try done; [cbn; lia|]. left. cbn. lia. }
    rewrite (proj2 (Z.eqb_neq _ _) Hne). apply wp_bind, wp_modify, wp_bind, wp_modify.
    assert (valid (entry (x_m x1) p (PX lv va)) = false) as Hv1 by by rewrite (Hin p _ _ Hp Hi).
    rewrite <- ET in Hp.
    destruct (walk_new kend x1 q p (PX lv va) (length rest) ltac:(lia) G1 Hq Hp Hi Hv1) as (x2 & Es2 & G2 & F2 & Efl & Hq2 & Ee).
    fold (inner_pte q). unfold x_m in Es2. rewrite <- Es2.
    eapply wp_mono; [apply (IH x2 q va Hlv); [lia|done|done]|].
    intros w s' (x' & Es & G' & F & Hf & Hw). exists x'.
    destruct (inner_pte_facts q) as (Ev & Epa & _); [by apply (held_range kend x1)|apply Hq|]. split_and!; try done.
    + apply (frame_drop kend _ (fun r => r = q)); [|by intros ? ->].
      eapply frame_trans; [by apply frame_weak|]. eapply frame_trans; [exact F2|by apply frame_weak].
    + rewrite Efl in Hf. cbn [length]. lia.
    + destruct Hw as [[-> Hs]|[Hnw ->]]; [left; rewrite Efl in Hs; cbn; lia|right]. split; [done|].
      cbn [pw]. rewrite (fr_inner _ _ _ _ _ F p (length rest) _), Ee, Ev, Epa; try done.
      * eapply lookup_weaken; [exact Hp|apply F2].
      * by rewrite Ee.
Qed.

Lemma walk_x x root va : good x -> x_T x !! root = Some 2%nat -> uva va ->
  wp (walk kend fuel root va true) (x_s x) (fun w s' => exists x', x_s x' = s' /\ good x' /\ frame noX noY x x' /\
    (length (x_fl x) <= 2 + length (x_fl x'))%nat /\
    (w = 0 /\ (length (x_fl x) < 2)%nat \/ w <> 0 /\ w = pwalk (x_m x') root va)).
Proof.
  intros G Hr [_ Hva]. unfold walk, walk_with. rewrite Z.geb_leb, (proj2 (Z.leb_gt _ _)) by lia.
  apply (walk_from_x [2; 1]); [|done|done|done]. repeat constructor; done.
Qed.

(** ** [mappages] of one page *)
Lemma wp_mappages root va pa perm s Q :
  aligned va -> wp (map_one kend fuel root va pa perm) s (fun r s' => Q (default 0 r) s') ->
  wp (mappages kend fuel root va PGSIZE pa perm) s Q.
Proof.
  intros Ha Hw. unfold mappages. unfold aligned in Ha. rewrite Ha. cbn [negb Z.eqb].
  change (page_range va (PGSIZE / PGSIZE)) with [va + 0 * PGSIZE]. rewrite Z.mul_0_l, Z.add_0_r.
  cbn [for_ret]. rewrite Z.sub_diag, Z.add_0_r. apply wp_bind. eapply wp_mono; [exact Hw|].
  intros [r|] s'; intros HQ; apply wp_ret; exact HQ.
Qed.

(** A page that the kernel holds becomes the page of [va], or the tables for it
    cannot be allocated. *)
Lemma wp_place {A} (bad ok : M (vm C) A) x root va pa perm (Q : A -> vm C -> Prop) :
  good x -> x_T x !! root = Some 2%nat -> uva va -> xview x root va = None -> held x pa -> 0 <= perm < 1024 ->
  (forall x', good x' -> frame noX noY x x' -> (length (x_fl x) < 2)%nat -> wp bad (x_s x') Q) ->
  (forall x', good x' -> frame (at_page root va) (fun q => q = pa) x x' ->
     (length (x_fl x) <= 2 + length (x_fl x'))%nat ->
     xview x' root va = Some (perms perm, page_bytes (x_m x) pa) -> private x' root va -> wp ok (x_s x') Q) ->
  wp (r ← mappages kend fuel root va PGSIZE pa perm;
      if negb (r =? 0) then bad else _ ← lru_register pa root va; ok) (x_s x) Q.
Proof.
  intros G Hr Hva Hx Hh Hperm Hbad Hok. apply wp_bind, wp_mappages; [apply Hva|].
  unfold map_one. apply wp_bind. eapply wp_mono; [by apply (walk_x x root va)|].
  intros w s1 (x1 & <- & G1 & F1 & Hf & [[-> Hfl]|[Hw Ew]]).
  { cbn [Z.eqb]. apply wp_ret. cbn [default Z.eqb negb id]. by apply Hbad. }
  rewrite (proj2 (Z.eqb_neq _ _) Hw). apply wp_bind, wp_gets. subst w.
  assert (xview x1 root va = None) as Hx1 by by rewrite (fr_view0 _ _ _ _ _ _ F1).
  assert (x_T x1 !! root = Some 2%nat) as Hr1 by by apply (fr_root _ _ _ _ _ _ F1).
  destruct (fr_held _ _ _ _ _ F1 pa Hh) as [Hh1 Hp1]; [by intros ?|].
  destruct (xview_none x1 root va Hx1 Hw) as [Hv _]. change (v_mem (x_s x1)) with (x_m x1). rewrite Hv.
  apply wp_bind, wp_modify, wp_ret. cbn [default Z.eqb negb id].
  destruct (map_leaf kend x1 root va pa perm G1 Hr1 Hva Hw Hx1 Hh1 Hperm) as (G2 & F2 & Ew & El & Hp2 & Hs).
  set (w := pwalk (x_m x1) root va) in *. set (x2 := x_set _ _ _ _) in *.
  destruct (hd_reserved _ _ _ Hh1) as [Ra Rt Rf Rb Rl].
  destruct (map_pte_facts pa perm (held_range kend x1 pa G1 Hh1) Ra Hperm) as (Fv & Fpa & Fr & Fp).
  assert (ld64 (x_m x2) (pwalk (x_m x2) root va) = map_pte pa perm) as El2 by by rewrite Ew.
  apply wp_bind. change (set_mem _ _) with (x_s x2). eapply wp_mono.
  { apply (register_x kend x2 root va pa); rewrite ?El2, ?Ew; try done. apply Hh1. }
  intros _ s3 (L & l3 & <- & G3 & F3). set (x3 := x_set _ _ _ _) in *. apply Hok; try done.
  - eapply frame_trans; [by apply frame_weak|]. eapply frame_trans; [exact F2|]. by apply (frame_mono kend noX _ _ _ _ _ F3).
  - change (uview (x_m x2) (a_view (x_a x2)) root va = Some (perms perm, page_bytes (x_m x) pa)).
    unfold uview, lview. rewrite El2, Ew, Fv, Fpa, Fp. rewrite (proj2 (Z.eqb_neq _ _) Hw). do 2 f_equal.
    rewrite (page_bytes_eq _ _ _ Hp2). by apply page_bytes_eq.
  - change (private x2 root va). unfold private, sole. cbv zeta. intros _. rewrite El2, Fpa, Ew. intros _.
    split; [apply Hh1|exact Hs].
Qed.
End grow.
