(* ===== verification/VmShrink.v ===== *)
(** Unmapping pages of an address space: kernel/vm.c [uvmunmap] and
    [uvmdealloc] return the frames and the swap slots of the pages, and nothing
    else changes for anyone. *)
From S2P Require Import Prelude Riscv Memory Ring Lru Blocks Kmem Vm SwapIO PageTable Pte VmInv Swap SwapIn VmFrame VmGrow.

Section shrink.
Context {C : Type} `{HL : BufCacheLaws C} (kend : Z) (fuel : nat).
Implicit Types (x : cfg (C := C)).
Abbreviation good := (good kend).
Abbreviation frame := (frame kend).
Abbreviation held := (held kend).
Abbreviation private := (private kend).

(** [va] is a page of the process: resident or swapped out, accessible in some
    way, and shared with nobody. *)
Definition mapped x (root va : Z) : Prop :=
  (exists p b, xview x root va = Some (p, b) /\ p <> 0) /\ private x root va.
Lemma mapped_leaf x root va : mapped x root va ->
  let w := pwalk (x_m x) root va in let e := ld64 (x_m x) w in
  w <> 0 /\ perms e <> 0 /\ (valid e = true \/ valid e = false /\ swapped e = true).
Proof.
  intros [(p & b & Hx & Hp) _] w e. unfold xview, uview, lview in Hx. fold w e in Hx.
  case_bool; [done|]. split; [done|].
  destruct (valid e); [simplify_eq; auto|]. destruct (swapped e); [simplify_eq; auto|done].
Qed.
Lemma frame_mapped X Y x x' root va :
  frame X Y x x' -> x_T x !! root = Some 2%nat -> uva va -> ~ X root va -> mapped x root va -> mapped x' root va.
Proof.
  intros F Hr Hva HX [Hv HP]. split; [by rewrite (fr_view _ _ _ _ _ F)|by apply (fr_private _ _ _ _ _ F)].
Qed.

Lemma perms_not_table e : perms e <> 0 -> PTE_FLAGS e <> PTE_V.
Proof.
  intros Hp E. apply Hp. transitivity (Z.land (PTE_FLAGS e) 0x1BE); [|by rewrite E].
  unfold perms, PTE_FLAGS. by rewrite <- Z.land_assoc.
Qed.

(** Clearing the entry of a page that is no longer resident for the list. *)
Lemma clear_leaf x root va :
  let w := pwalk (x_m x) root va in
  let x' := x_set x (set_mem (st64 (x_m x) w 0) (x_s x)) (x_fl x) (x_l x) in
  good x -> x_T x !! root = Some 2%nat -> uva va -> w <> 0 ->
  (forall i, i ∈ x_l x -> owner_pte (x_m x) (v_lru (x_s x)) i <> w) ->
  good x' /\ frame (at_page root va) noY x x' /\ xview x' root va = None /\ ld64 (x_m x') w = 0 /\
  (forall y, pteaddr (x_T x) y -> y <> w -> ld64 (x_m x') y = ld64 (x_m x) y).
Proof.
  intros w x' G Hr Hva Hw Hno. pose proof (good_vm _ _ G) as I. pose proof (good_tables _ _ G) as Ht.
  pose proof (pwalk_pteaddr _ _ _ _ Ht Hr Hw) as Hwa. fold w in Hwa.
  assert (0 <= 0 < 2 ^ 64) as F0 by done.
  assert (ld64 (x_m x') w = 0) as Hnew by by apply (leaf_new (x_s x) w).
  split_and!; try done.
  - split; [|apply G|apply G].
    apply (vm_ok_leaf kend (x_T x) (x_s x) (x_fl x) (x_l x) w 0 I Hwa F0); try done.
    intros i Hi E. by destruct (Hno i Hi).
  - eapply frame_mono; [by apply (frame_leaf kend x root va 0 G Hr Hva Hw F0)|done|by intros ? [? _]].
  - unfold xview, uview. assert (pwalk (x_m x') root va = w) as ->.
    { apply (pwalk_ext (x_T x)); [|done|done]. by apply (leaf_inner kend (x_T x) (x_s x) (x_fl x) (x_l x)). }
    rewrite (proj2 (Z.eqb_neq _ _) Hw). unfold lview. by rewrite Hnew.
  - intros y Hy Hne. by apply (leaf_other kend (x_T x) (x_s x) (x_fl x) (x_l x) w 0 I Hwa).
Qed.

Definition unmap_post x (root va : Z) (s' : vm C) : Prop :=
  exists x', x_s x' = s' /\ good x' /\ frame (at_page root va) noY x x' /\ xview x' root va = None /\ x_T x' = x_T x.

(** Stores to a table entry and to a page that is not a table commute. *)
Lemma free_mem_st m (s : vm C) pa w :
  m = v_mem s -> (forall y, w <= y < w + 8 -> ~ in_page pa y) ->
  st64 (free_mem s pa) w 0 ≈m free_mem (set_mem (st64 m w 0) s) pa.
Proof.
  intros -> Hd y. unfold free_mem. cbn [v_mem v_free set_mem].
  destruct (decide (w <= y < w + 8)) as [Hy|Hy].
  - specialize (Hd y Hy). rewrite (ld8_st_other 8 _ pa) by (unfold in_page, PGSIZE in Hd; lia).
    rewrite ld8_mfill. rewrite (ld8_st_in 8 _ (v_mem s)) by done. case_match eqn:Ex; [|done].
    apply andb_true_iff in Ex as [?%Z.leb_le ?%Z.ltb_lt]. by destruct Hd.
  - rewrite (ld8_st_other 8 _ w) by lia.
    destruct (decide (pa <= y < pa + 8)) as [Hp|Hp]; [by apply (ld8_st_in 8)|].
    rewrite !(ld8_st_other 8 _ pa) by lia. rewrite !ld8_mfill. case_match; [done|]. by rewrite (ld8_st_other 8) by lia.
Qed.

(** The entry of a process' page is apart from the page [pa]. *)
Lemma entry_off x w pa : good x -> pteaddr (x_T x) w -> aligned pa -> x_T x !! pa = None ->
  forall y, w <= y < w + 8 -> ~ in_page pa y.
Proof.
  intros G Hw Ha Hn y Hy Hin.
  destruct (pteaddr_page (x_T x) w) as (p & Hp & Hap & _ & Hpg); [by exists (x_m x); apply good_tables in G|done|].
  assert (p = pa) as -> by (apply (aligned_disjoint p pa y); auto). congruence.
Qed.

(** A resident page: off the list, its frame to the free list, its entry cleared. *)
Lemma unmap_resident x root va :
  let w := pwalk (x_m x) root va in
  let pa := PTE2PA (ld64 (x_m x) w) in
  good x -> x_T x !! root = Some 2%nat -> uva va -> w <> 0 -> valid (ld64 (x_m x) w) = true -> private x root va ->
  wp (idx ← pa2pageidx pa; _ ← on_lru (lru_remove idx); kfree kend pa) (x_s x) (fun _ s1 =>
    unmap_post x root va (set_mem (st64 (v_mem s1) w 0) s1)).
Proof.
  intros w pa G Hr Hva Hw Hv HP. pose proof (good_vm _ _ G) as I.
  pose proof (pwalk_pteaddr _ _ _ _ (good_tables _ _ G) Hr Hw) as Hwa. fold w in Hwa.
  destruct (HP Hw Hv) as [Hu Hs]. fold w pa in Hu, Hs. pose proof (vo_kend _ _ _ _ _ I) as Hk.
  destruct (vo_valid _ _ _ _ _ I w Hwa Hv) as (Hfl & Ht & Hbm). fold pa in Hfl, Ht, Hbm.
  unfold pa2pageidx. destruct Hu as [Ha Hrg]. rewrite Z.geb_leb, (proj2 (Z.ltb_ge _ _)), (proj2 (Z.leb_gt _ _)) by lia.
  cbn [orb]. apply wp_bind, wp_ret. fold (pageidx pa).
  assert (page_to_pa (pageidx pa) = pa) as Hpi by (apply pageidx_pa; [lia|done]).
  destruct (lru_remove_refines (v_lru (x_s x)) (x_l x) (pageidx pa) (vo_lru _ _ _ _ _ I)) as (L & EL & HL' & Hso).
  apply wp_bind, (wp_on_lru _ _ L); [done|]. set (l' := filter _ _) in HL'.
  assert (forall i, i ∈ l' -> i ∈ x_l x /\ i <> pageidx pa) as Hl'.
  { intros i [? ?]%list_elem_of_filter. done. }
  set (x1 := x_set x (set_lru L (x_s x)) (x_fl x) l').
  assert (vm_ok kend (x_T x) (x_s x1) (x_fl x) l') as I1 by (apply (vm_ok_lru _ _ _ _ (x_l x)); [done|done|apply Hl'|done]).
  assert (good x1) as G1 by (split; [done|apply G|apply G]).
  assert (frame noX noY x x1) as F1 by (apply frame_lru; [done|]; intros i Hi; left; by apply Hl').
  destruct (clear_leaf x1 root va G1 Hr Hva Hw) as (G2 & F2 & V2 & L2 & O2).
  { intros i Hi E. apply (Hl' i Hi). apply (page_to_pa_inj i). rewrite Hpi.
    rewrite <- (ow_frame _ _ _ _ (vo_owned _ _ _ _ _ I1 i Hi)). change (v_mem (x_s x1)) with (x_m x1). by rewrite E. }
  change (x_m x1) with (x_m x) in *. fold w in L2, O2 |- *. set (x2 := x_set x1 _ _ _) in *.
  assert (held x2 pa) as H2.
  { split; [done| |].
    - split; try done. intros i Hi E. apply (Hl' i Hi). apply page_to_pa_inj. by rewrite Hpi.
    - intros y Hy. destruct (decide (y = w)) as [->|Hne]; [by rewrite L2|]. rewrite O2 by done.
      intros Hvy Ey. apply Hne. by apply Hs. }
  destruct (frame_free kend x2 pa G2 H2) as [G3 F3]. set (x3 := x_set x2 _ _ _) in *.
  destruct (frame_ext kend x3 (st64 (free_mem (x_s x1) pa) w 0) G3) as [G4 F4].
  { apply free_mem_st; [done|]. by apply (entry_off x). }
  set (x4 := x_set x3 _ _ _) in *.
  exists tt, (set_free pa (set_mem (free_mem (x_s x1) pa) (x_s x1))). split; [by apply kfree_run|].
  exists x4. split_and!; try done.
  - apply (frame_drop kend _ (fun q => q = pa)); [|intros ? -> [_ _ Hun]; by apply (Hun w)].
    eapply frame_trans; [by apply frame_weak|]. eapply frame_trans; [eapply frame_mono; [exact F2|done|by intros ? []]|].
    eapply frame_trans; [by apply (frame_mono kend noX _ _ _ _ _ F3)|by apply frame_weak].
  - rewrite (fr_view0 _ _ _ _ _ _ F4), (fr_view0 _ _ _ _ _ _ F3); done.
Qed.

(** A swapped page: its slot is released and its entry cleared. *)
Lemma unmap_swapped x root va :
  let w := pwalk (x_m x) root va in
  let j := slot_of (ld64 (x_m x) w) in
  good x -> x_T x !! root = Some 2%nat -> uva va -> w <> 0 ->
  valid (ld64 (x_m x) w) = false -> swapped (ld64 (x_m x) w) = true ->
  unmap_post x root va (set_mem (st64 (slot_clear (v_bitmap (x_s x)) j (x_m x)) w 0) (x_s x)).
Proof.
  intros w j G Hr Hva Hw Hv Hsw. pose proof (good_vm _ _ G) as I.
  pose proof (pwalk_pteaddr _ _ _ _ (good_tables _ _ G) Hr Hw) as Hwa. fold w in Hwa.
  destruct (vo_slot _ _ _ _ _ I w Hwa Hv Hsw) as [Hok Hu]. fold j in Hok, Hu.
  destruct (clear_leaf x root va G Hr Hva Hw) as (G1 & F1 & V1 & L1 & O1).
  { intros i Hi E. pose proof (ow_valid _ _ _ _ (vo_owned _ _ _ _ _ I i Hi)) as Hvi.
    change (v_mem (x_s x)) with (x_m x) in Hvi. rewrite E in Hvi. fold w in Hvi. congruence. }
  fold w in L1, O1. set (x1 := x_set x _ _ _) in *.
  destruct (frame_clear kend x1 j G1 Hok) as [G2 F2].
  { intros y Hy. destruct (decide (y = w)) as [->|Hne]; [by rewrite L1|]. rewrite O1 by done.
    intros Hvy Hsy E. apply Hne. by apply (vo_slot_inj _ _ _ _ _ I). }
  set (x2 := x_set x1 _ _ _) in *.
  destruct (frame_ext kend x2 (st64 (slot_clear (v_bitmap (x_s x)) j (x_m x)) w 0) G2) as [G3 F3].
  { apply slot_clear_st; [done|]. intros (y & Hy & Hwy). destruct (vo_bm _ _ _ _ _ I) as ([Ha _] & Hn & _).
    by apply (entry_off x w (v_bitmap (x_s x)) G Hwa Ha Hn y). }
  exists (x_set x2 (set_mem (st64 (slot_clear (v_bitmap (x_s x)) j (x_m x)) w 0) (x_s x2)) (x_fl x2) (x_l x2)).
  split_and!; try done.
  - eapply frame_trans; [exact F1|]. eapply frame_trans; by apply frame_weak.
  - rewrite (fr_view0 _ _ _ _ _ _ F3), (fr_view0 _ _ _ _ _ _ F2); done.
Qed.

Lemma unmap_one_x x root va :
  good x -> x_T x !! root = Some 2%nat -> uva va -> mapped x root va ->
  wp (unmap_one kend fuel root va true) (x_s x) (fun _ s' => unmap_post x root va s').
Proof.
  intros G Hr Hva Hm. destruct (mapped_leaf x root va Hm) as (Hw & Hp & Hcase).
  unfold unmap_one, walk. apply wp_bind, wp_walk; [apply Hva|]. change (v_mem (x_s x)) with (x_m x).
  rewrite (proj2 (Z.eqb_neq _ _) Hw). apply wp_bind, wp_gets. change (v_mem (x_s x)) with (x_m x).
  destruct Hcase as [Hv|[Hv Hs]]; rewrite Hv; cbn [negb].
  - rewrite (proj2 (Z.eqb_neq _ _) (perms_not_table _ Hp)). apply wp_bind.
    eapply wp_mono; [by apply (unmap_resident x root va); try apply Hm|]. intros ? s1 HQ. apply wp_modify, HQ.
  - rewrite Hs. apply wp_bind, wp_modify. apply wp_modify. by apply (unmap_swapped x root va).
Qed.

(** ** Ranges of pages *)
Definition at_range (root lo hi : Z) : Z -> Z -> Prop := fun root' va => root' = root /\ lo <= va < hi.
Lemma page_range_S a (n : nat) : page_range a (Z.of_nat (S n)) = a :: page_range (a + PGSIZE) (Z.of_nat n).
Proof.
  unfold page_range. rewrite seqZ_S, fmap_cons. f_equal; [lia|].
  change (0 + 1) with 1. rewrite <- (fmap_add_seqZ 1 0). rewrite <- list_fmap_compose.
  apply list_fmap_ext. intros ? k _. cbn. lia.
Qed.
Lemma aligned_add va : aligned va -> aligned (va + PGSIZE).
Proof. unfold aligned, PGSIZE. intros. zdiv. Qed.
Lemma aligned_next lo va : aligned lo -> aligned va -> lo <= va -> va <> lo -> lo + PGSIZE <= va.
Proof. unfold aligned, PGSIZE. intros. zdiv. Qed.

(** What becomes of the pages of a range. *)
Definition over (P : Z -> Prop) (lo hi : Z) : Prop := forall va, aligned va -> lo <= va < hi -> P va.
Lemma over_split (P : Z -> Prop) lo hi :
  aligned lo -> lo < hi -> over P lo hi <-> P lo /\ over P (lo + PGSIZE) hi.
Proof.
  intros Ha Hlt. split.
  - intros HP. split; [apply HP; [done|lia]|]. intros va Hva Hr. apply HP; [done|]. unfold PGSIZE in Hr. lia.
  - intros [H0 HP] va Hva Hr. destruct (decide (va = lo)) as [->|Hne]; [done|]. apply HP; [done|].
    pose proof (aligned_next lo va Ha Hva). lia.
Qed.

Lemma uvmunmap_x root (n : nat) : forall x lo,
  good x -> x_T x !! root = Some 2%nat -> aligned lo -> 0 <= lo -> lo + Z.of_nat n * PGSIZE <= MAXVA ->
  over (mapped x root) lo (lo + Z.of_nat n * PGSIZE) ->
  wp (uvmunmap kend fuel root lo (Z.of_nat n) true) (x_s x) (fun _ s' => exists x',
    x_s x' = s' /\ good x' /\ x_T x' = x_T x /\ frame (at_range root lo (lo + Z.of_nat n * PGSIZE)) noY x x' /\
    over (fun va => xview x' root va = None) lo (lo + Z.of_nat n * PGSIZE)).
Proof.
  induction n as [|n IH]; intros x lo G Hr Ha H0 Hm Hov.
  { apply wp_ret. exists x. split_and!; try done. intros va _ Hva. lia. }
  set (hi := lo + Z.of_nat (S n) * PGSIZE) in *.
  assert (hi = lo + PGSIZE + Z.of_nat n * PGSIZE) as Ehi by (unfold hi; lia).
  assert (lo < hi) as Hlt by (unfold hi, PGSIZE; lia).
  apply over_split in Hov as [Hlo Hov]; [|done|done]. assert (uva lo) as Hul by (split; [done|lia]).
  unfold uvmunmap. rewrite page_range_S. cbn [for_each]. apply wp_bind.
  eapply wp_mono; [by apply unmap_one_x|]. intros ? s1 (x1 & <- & G1 & F1 & V1 & ET1).
  assert (x_T x1 !! root = Some 2%nat) as Hr1 by by rewrite ET1.
  eapply wp_mono.
  { apply (IH x1 (lo + PGSIZE)); [done|done|by apply aligned_add|unfold PGSIZE; lia|lia|].
    rewrite <- Ehi. intros va Hva Hrg. eapply frame_mapped; [exact F1|done| |intros [_ ->]; unfold PGSIZE in Hrg; lia|].
    - split; [done|]. unfold PGSIZE in Hrg. lia.
    - by apply Hov. }
  rewrite <- Ehi. intros ? s2 (x2 & <- & G2 & ET2 & F2 & V2). exists x2. split_and!; try done.
  - congruence.
  - eapply frame_trans; [eapply frame_mono; [exact F1| |done]|eapply frame_mono; [exact F2| |done]].
    + intros root' va' [-> ->]. split; [done|lia].
    + intros root' va' [-> ?]. split; [done|unfold PGSIZE in *; lia].
  - apply over_split; [done|done|]. split; [|done]. rewrite (fr_view _ _ _ _ _ F2); [done|done|done|].
    intros [_ ?]. unfold PGSIZE in *. lia.
Qed.

(** ** [uvmdealloc] *)
Lemma PGROUNDUP_bounds sz : 0 <= sz <= MAXVA -> aligned (PGROUNDUP sz) /\ sz <= PGROUNDUP sz < sz + PGSIZE /\ PGROUNDUP sz <= MAXVA.
Proof.
  intros Hsz. change MAXVA with (2 ^ 38) in *. rewrite PGROUNDUP_spec by (unfold PGSIZE; lia).
  unfold aligned, PGSIZE. split; [|split]; zdiv.
Qed.
Lemma PGROUNDUP_mono a b : 0 <= a <= b -> b <= MAXVA -> PGROUNDUP a <= PGROUNDUP b.
Proof.
  intros Hab Hb. change MAXVA with (2 ^ 38) in *. rewrite !PGROUNDUP_spec by (unfold PGSIZE; lia). unfold PGSIZE. zdiv.
Qed.
Lemma PGROUNDUP_aligned a : aligned a -> 0 <= a <= MAXVA -> PGROUNDUP a = a.
Proof.
  intros Ha Hr. change MAXVA with (2 ^ 38) in *. rewrite PGROUNDUP_spec by (unfold PGSIZE; lia).
  unfold aligned, PGSIZE in *. zdiv.
Qed.

Definition dealloc_post x (root lo hi : Z) (s' : vm C) : Prop :=
  exists x', x_s x' = s' /\ good x' /\ x_T x' = x_T x /\ frame (at_range root lo hi) noY x x' /\
    over (fun va => xview x' root va = None) lo hi.

Lemma dealloc_none x root lo : good x -> dealloc_post x root lo lo (x_s x).
Proof. intros G. exists x. split_and!; try done. intros va _ ?. lia. Qed.

Lemma uvmdealloc_x x root oldsz newsz :
  good x -> x_T x !! root = Some 2%nat -> 0 <= oldsz <= MAXVA -> 0 <= newsz ->
  (newsz < oldsz -> over (mapped x root) (PGROUNDUP newsz) (PGROUNDUP oldsz)) ->
  wp (uvmdealloc kend fuel root oldsz newsz) (x_s x) (fun r s' =>
    r = oldsz /\ oldsz <= newsz /\ s' = x_s x \/
    r = newsz /\ newsz < oldsz /\ dealloc_post x root (PGROUNDUP newsz) (PGROUNDUP oldsz) s').
Proof.
  intros G Hr Ho Hn Hov. unfold uvmdealloc. rewrite Z.geb_leb. destruct (Z.leb_spec oldsz newsz) as [Hle|Hlt].
  { apply wp_ret. left. auto. }
  specialize (Hov Hlt).
  destruct (PGROUNDUP_bounds oldsz Ho) as (Ha & Hb & Hc). destruct (PGROUNDUP_bounds newsz) as (Ha' & Hb' & Hc'); [lia|].
  apply wp_bind. case_bool; cycle 1.
  { pose proof (PGROUNDUP_mono newsz oldsz). assert (PGROUNDUP newsz = PGROUNDUP oldsz) as -> by lia.
    apply wp_ret, wp_ret. right. split_and!; [done|done|by apply dealloc_none]. }
  set (n := (PGROUNDUP oldsz - PGROUNDUP newsz) / PGSIZE).
  assert (PGROUNDUP newsz + n * PGSIZE = PGROUNDUP oldsz /\ 0 <= n < 2 ^ 31) as [En Hn31].
  { change MAXVA with (2 ^ 38) in Hc. unfold n, aligned, PGSIZE in *. split; zdiv. }
  rewrite (s32_small n) by lia. rewrite <- (Z2Nat.id n) by lia.
  eapply wp_mono; [apply (uvmunmap_x root (Z.to_nat n) x); rewrite ?Z2Nat.id by lia; rewrite ?En; try done; lia|].
  rewrite Z2Nat.id, En by lia. intros ? s' (x' & Es & G' & ET & F & V). apply wp_ret. right. split_and!; try done. by exists x'.
Qed.
End shrink.
