(* ===== verification/VmSpec.v ===== *)
(** Address spaces grow, shrink and are copied as they should: kernel/vm.c
    [uvmalloc], [uvmdealloc] and [uvmcopy] on the pages of a process, with
    everything else in the system left as it was. *)
From S2P Require Import Prelude Riscv Memory Ring Lru Blocks Kmem Vm SwapIO PageTable Pte VmInv Swap SwapIn VmFrame VmGrow VmShrink.

Section spec.
Context {C : Type} `{HL : BufCacheLaws C} (kend : Z).
Implicit Types (x : cfg (C := C)).
Abbreviation good := (good kend).
Abbreviation frame := (frame kend).
Abbreviation held := (held kend).
Abbreviation private := (private kend).
Abbreviation mapped := (mapped kend).

(** ** Frames of loops *)
Lemma frame_range_at x x' root lo hi va :
  frame (at_page root va) noY x x' -> lo <= va < hi -> frame (at_range root lo hi) noY x x'.
Proof. intros F Hva. eapply frame_mono; [exact F| |done]. by intros ? ? [-> ->]. Qed.
Lemma frame_range_mono x x' root lo hi lo' hi' :
  frame (at_range root lo hi) noY x x' -> lo' <= lo -> hi <= hi' -> frame (at_range root lo' hi') noY x x'.
Proof. intros F Hl Hh. eapply frame_mono; [exact F| |done]. intros ? ? [-> ?]. split; [done|lia]. Qed.
(** A range that was empty and is empty again has not changed. *)
Lemma frame_restore x x' root lo hi :
  frame (at_range root lo hi) noY x x' -> x_T x !! root = Some 2%nat ->
  over (fun va => xview x root va = None) lo hi -> over (fun va => xview x' root va = None) lo hi ->
  frame noX noY x x'.
Proof.
  intros F Hr H1 H2. pose proof F as [F1 F2 F3 F4 F5 F6 F7]. split; try done.
  - intros root' va Hr' Hva _. destruct (decide (root' = root /\ lo <= va < hi)) as [[-> Hin]|Hout]; [|by apply F4].
    rewrite H1, H2; [done|apply Hva|done|apply Hva|done].
  - intros root' va Hr' Hva _ HP. destruct (decide (root' = root /\ lo <= va < hi)) as [[-> Hin]|Hout]; [|by apply F5].
    unfold VmFrame.private, sole. cbv zeta. intros Hw Hv.
    destruct (xview_none x' root va) as [Hv' _]; [apply H2; [apply Hva|done]|done|]. congruence.
Qed.

(** ** [uvmalloc] *)
Definition zero_page : list Z := replicate (Z.to_nat PGSIZE) 0.
Lemma page_bytes_zero m pa : (forall y, in_page pa y -> ld8 m y = 0) -> page_bytes m pa = zero_page.
Proof.
  intros Hz. unfold page_bytes, zero_page. apply list_eq_same_length with (n := Z.to_nat PGSIZE).
  - by rewrite length_replicate.
  - by rewrite length_fmap, length_seqZ.
  - intros i a b Hi Ha Hb. apply lookup_replicate in Hb as [-> _].
    apply list_lookup_fmap_Some in Ha as (k & -> & [-> Hk]%lookup_seqZ). apply Hz. unfold in_page. lia.
Qed.

(** A new page of a grown address space. *)
Definition fresh (perm : Z) x (root va : Z) : Prop :=
  xview x root va = Some (perms perm, zero_page) /\ private x root va.
Lemma fresh_mapped perm x root va : perms perm <> 0 -> fresh perm x root va -> mapped x root va.
Proof. intros Hp [Hv HP]. split; [by eexists _, _|done]. Qed.
Lemma frame_fresh perm X Y x x' root va :
  frame X Y x x' -> x_T x !! root = Some 2%nat -> uva va -> ~ X root va -> fresh perm x root va -> fresh perm x' root va.
Proof.
  intros F Hr Hva HX [Hv HP]. split; [by rewrite (fr_view _ _ _ _ _ F)|by apply (fr_private _ _ _ _ _ F)].
Qed.

Context (fuel : nat) (Hfuel : (PHYSTOP - KERNBASE) / PGSIZE < Z.of_nat fuel).

Section alloc.
Context (root perm newsz base : Z).
Context (Hperm : 0 <= perm < 1024) (Hp0 : perms perm <> 0) (Hb0 : 0 <= base) (Hba : aligned base).

(** The body of the loop of [uvmalloc]. *)
Definition grow_one (a : Z) : M (vm C) (option Z) :=
  mem ← kalloc kend fuel;
  if mem =? 0 then _ ← uvmdealloc kend fuel root a base; mret (Some 0)
  else
    _ ← kmemset mem 0 PGSIZE;
    r ← mappages kend fuel root a PGSIZE mem perm;
    if negb (r =? 0) then
      _ ← kfree kend mem; _ ← uvmdealloc kend fuel root a base; mret (Some 0)
    else _ ← lru_register mem root a; mret None.

(** Giving back what was allocated so far. *)
Lemma grow_undo x a :
  good x -> x_T x !! root = Some 2%nat -> aligned a -> base <= a <= MAXVA -> over (fresh perm x root) base a ->
  wp (_ ← uvmdealloc kend fuel root a base; mret (Some 0)) (x_s x) (fun r s' =>
    r = Some 0 /\ dealloc_post kend x root base a s').
Proof.
  intros G Hr Ha Hrg Hov. apply wp_bind. eapply wp_mono.
  { apply (uvmdealloc_x kend fuel x root a base G Hr); [lia|done|]. intros _.
    rewrite !PGROUNDUP_aligned by (done || lia). intros va Hva Hr'. eapply fresh_mapped; [done|by apply Hov]. }
  intros r s' [(-> & Hle & ->)|(_ & _ & HD)]; apply wp_ret; (split; [done|]).
  - assert (a = base) as -> by lia. by apply dealloc_none.
  - by rewrite !PGROUNDUP_aligned in HD by (done || lia).
Qed.

Lemma grow_one_x x a :
  good x -> x_T x !! root = Some 2%nat -> aligned a -> base <= a < MAXVA -> over (fresh perm x root) base a ->
  xview x root a = None ->
  wp (grow_one a) (x_s x) (fun r s' => exists x', x_s x' = s' /\ good x' /\
    (r = None /\ frame (at_page root a) noY x x' /\ (length (x_fl x) <= 3 + length (x_fl x'))%nat /\
       fresh perm x' root a \/
     r = Some 0 /\ frame (at_range root base a) noY x x' /\ (length (x_fl x) < 3)%nat /\
       over (fun va => xview x' root va = None) base a)).
Proof.
  intros G Hr Ha Hrg Hov Hx. assert (uva a) as Hua by (split; [done|lia]).
  assert (forall x1 Y, frame noX Y x x1 -> over (fresh perm x1 root) base a) as Hkeep.
  { intros x1 Y F va Hva Hin. eapply frame_fresh; [exact F|done|split; [done|lia]|by intros []|by apply Hov]. }
  unfold grow_one. apply wp_bind. eapply wp_mono; [by apply kalloc_x|].
  intros mem s1 (x1 & <- & G1 & F1 & ET & _ & Hf1 & [[-> Hfl]|(Hne & Hm1 & Hnm & _)]).
  { cbn [Z.eqb]. eapply wp_mono; [apply (grow_undo x1 a); [done|by rewrite ET|done|lia|by eapply Hkeep]|].
    intros ? s2 (-> & x2 & <- & G2 & _ & F2 & V2). exists x2. split_and!; try done. right. split_and!; try done.
    - eapply frame_trans; [by apply frame_weak|done].
    - rewrite Hfl. cbn. lia. }
  rewrite (proj2 (Z.eqb_neq _ _) Hne). apply wp_bind, wp_modify.
  destruct (fill_x kend x1 mem 0 G1 Hm1) as (G2 & F2 & H2 & Hz). set (x2 := x_set x1 _ _ _) in *.
  change (set_mem _ (x_s x1)) with (x_s x2).
  assert (frame noX (fun q => q = mem) x x2) as F02 by (eapply frame_trans; [by apply frame_weak|exact F2]).
  assert (x_T x2 !! root = Some 2%nat) as Hr2 by by apply (fr_root _ _ _ _ _ _ F02).
  apply (wp_place kend fuel Hfuel _ _ x2 root a mem perm); try done.
  - by rewrite (fr_view0 _ _ _ _ _ _ F02).
  - intros x3 G3 F3 Hfl3. destruct (fr_held _ _ _ _ _ F3 mem H2) as [H3 _]; [by intros []|].
    destruct (frame_free kend x3 mem G3 H3) as [G4 F4]. set (x4 := x_set x3 _ _ _) in *.
    assert (frame noX noY x x4) as F04.
    { apply (frame_drop kend _ (fun q => q = mem)); [|by intros ? ->].
      eapply frame_trans; [exact F02|]. eapply frame_trans; [by apply frame_weak|exact F4]. }
    apply wp_bind. exists tt, (x_s x4). split; [apply kfree_run, H3|].
    eapply wp_mono; [apply (grow_undo x4 a); [done|by apply (fr_root _ _ _ _ _ _ F04)|done|lia|by eapply Hkeep]|].
    intros ? s5 (-> & x5 & <- & G5 & _ & F5 & V5). exists x5. split_and!; try done. right. split_and!; try done.
    + eapply frame_trans; [by apply frame_weak|done].
    + change (x_fl x2) with (x_fl x1) in Hfl3. lia.
  - intros x3 G3 F3 Hfl3 V3 P3. apply wp_ret. exists x3. split_and!; try done. left. split_and!; try done.
    + apply (frame_drop kend _ (fun q => q = mem)); [|by intros ? ->].
      eapply frame_trans; [eapply frame_mono; [exact F02|done|done]|exact F3].
    + change (x_fl x2) with (x_fl x1) in Hfl3. lia.
    + split; [|done]. rewrite V3. do 2 f_equal. by apply page_bytes_zero.
Qed.

Lemma grow_loop (n : nat) : forall x a,
  good x -> x_T x !! root = Some 2%nat -> aligned a -> base <= a -> a + Z.of_nat n * PGSIZE <= MAXVA ->
  over (fresh perm x root) base a ->
  over (fun va => xview x root va = None) a (a + Z.of_nat n * PGSIZE) ->
  wp (for_ret (page_range a (Z.of_nat n)) grow_one (mret newsz)) (x_s x) (fun r s' => exists x',
    x_s x' = s' /\ good x' /\ frame (at_range root base (a + Z.of_nat n * PGSIZE)) noY x x' /\
    (r = newsz /\ over (fresh perm x' root) base (a + Z.of_nat n * PGSIZE) \/
     r = 0 /\ (length (x_fl x) < 3 * n)%nat /\
       over (fun va => xview x' root va = None) base (a + Z.of_nat n * PGSIZE))).
Proof.
  induction n as [|n IH]; intros x a G Hr Ha Hb Hm Hov Hno.
  { apply wp_ret. rewrite Z.add_0_r in *. exists x. split_and!; try done. by left. }
  set (hi := a + Z.of_nat (S n) * PGSIZE) in *.
  assert (hi = a + PGSIZE + Z.of_nat n * PGSIZE) as Ehi by (unfold hi; lia).
  assert (a + PGSIZE <= hi) as Hlt by (unfold hi, PGSIZE; lia).
  assert (a < a + PGSIZE) as Hpg by (unfold PGSIZE; lia).
  apply over_split in Hno as [Hno0 Hno]; [|done|lia].
  rewrite page_range_S. cbn [for_ret]. apply wp_bind.
  eapply wp_mono; [apply grow_one_x; try done; lia|].
  intros r s1 (x1 & <- & G1 & [(-> & F1 & Hf & Hn)|(-> & F1 & Hf & V1)]).
  - assert (x_T x1 !! root = Some 2%nat) as Hr1 by by apply (fr_root _ _ _ _ _ _ F1).
    eapply wp_mono.
    { apply (IH x1 (a + PGSIZE)); [done|done|by apply aligned_add|lia|lia| |].
      - intros va Hva Hin. destruct (decide (va = a)) as [->|Hne]; [done|].
        assert (va < a) by (pose proof (aligned_next a va Ha Hva); lia).
        eapply frame_fresh; [exact F1|done|split; [done|lia]|by intros [_ ?]|apply Hov; [done|lia]].
      - rewrite <- Ehi. intros va Hva Hin. rewrite (fr_view _ _ _ _ _ F1); [by apply Hno|done|split; [done|lia]|].
        intros [_ ->]. lia. }
    rewrite <- Ehi. intros r s2 (x2 & <- & G2 & F2 & Hres). exists x2. split_and!; try done.
    + eapply frame_trans; [eapply frame_range_at; [exact F1|lia]|exact F2].
    + destruct Hres as [?|(-> & ? & ?)]; [by left|right]. split_and!; try done. lia.
  - apply wp_ret. exists x1. split_and!; try done.
    + eapply frame_range_mono; [exact F1|lia|lia].
    + right. split_and!; [done|lia|]. intros va Hva Hin.
      destruct (decide (va < a)) as [|Hge]; [by apply V1; [|lia]|].
      rewrite (fr_view _ _ _ _ _ F1); [|done|split; [done|lia]|intros [_ ?]; lia].
      destruct (decide (va = a)) as [->|Hne]; [done|]. apply Hno; [done|].
      pose proof (aligned_next a va Ha Hva). lia.
Qed.
End alloc.

Lemma npages_range oldsz newsz : 0 <= oldsz <= newsz -> newsz <= MAXVA ->
  0 <= npages (newsz - PGROUNDUP oldsz) /\
  PGROUNDUP oldsz + npages (newsz - PGROUNDUP oldsz) * PGSIZE = PGROUNDUP newsz.
Proof.
  clear Hfuel. intros Ho Hn. change MAXVA with (2 ^ 38) in *. rewrite !PGROUNDUP_spec by (unfold PGSIZE; lia).
  unfold npages, PGSIZE. split; zdiv.
Qed.

(** The permissions of a page that [uvmalloc] makes. *)
Definition alloc_perm (xperm : Z) : Z := Z.lor (Z.lor PTE_R PTE_U) xperm.
Lemma alloc_perm_ok xperm : 0 <= xperm < 1024 -> 0 <= alloc_perm xperm < 1024 /\ perms (alloc_perm xperm) <> 0.
Proof.
  intros Hx. split; [by apply (lor_range _ _ 10)|]. intros E.
  assert (Z.testbit (perms (alloc_perm xperm)) 1 = true) as Hb; [|by rewrite E in Hb].
  unfold perms, alloc_perm. rewrite Z.land_spec, Z.lor_spec. done.
Qed.

(** C6. [uvmalloc] grows the address space of [root] by fresh zeroed pages of its own
    with the requested permissions, or takes back everything it did and returns
    0, which it does only when memory is short; a call that asks for no more than
    the process has does nothing.  It always returns, even if allocations swap
    pages out on the way.  No page of any process outside the range, no page the
    kernel holds and no block of the file system changes. *)
Theorem uvmalloc_grows x root oldsz newsz xperm :
  good x -> x_T x !! root = Some 2%nat -> 0 <= oldsz -> 0 <= newsz <= MAXVA -> 0 <= xperm < 1024 ->
  over (fun va => xview x root va = None) (PGROUNDUP oldsz) (PGROUNDUP newsz) ->
  exists r x', uvmalloc kend fuel root oldsz newsz xperm (x_s x) = Ret (r, x_s x') /\ good x' /\
    (newsz < oldsz /\ r = oldsz /\ x' = x \/
     oldsz <= newsz /\ r = newsz /\ frame (at_range root (PGROUNDUP oldsz) (PGROUNDUP newsz)) noY x x' /\
       over (fresh (alloc_perm xperm) x' root) (PGROUNDUP oldsz) (PGROUNDUP newsz) \/
     oldsz <= newsz /\ r = 0 /\ frame noX noY x x' /\
       Z.of_nat (length (x_fl x)) < 3 * npages (newsz - PGROUNDUP oldsz)).
Proof.
  intros G Hr Ho Hn Hxp Hno. unfold uvmalloc. destruct (Z.ltb_spec newsz oldsz) as [Hlt|Hle].
  { exists oldsz, x. split_and!; [done|done|]. by left. }
  destruct (PGROUNDUP_bounds oldsz) as (Ha & Hb & _); [lia|]. destruct (alloc_perm_ok xperm Hxp) as [Hp Hp0].
  destruct (PGROUNDUP_bounds newsz Hn) as (_ & _ & Hmx).
  destruct (npages_range oldsz newsz) as [Hn0 En]; [lia|lia|]. cbv zeta. set (n := npages _) in *.
  destruct (grow_loop root (alloc_perm xperm) newsz (PGROUNDUP oldsz) Hp Hp0 ltac:(lia) Ha (Z.to_nat n) x (PGROUNDUP oldsz))
    as (r & s' & E & x' & <- & G' & F & Hres); rewrite ?Z2Nat.id, ?En in * by done; try done.
  { intros va _ ?. lia. }
  exists r, x'. split_and!; [exact E|done|]. right. destruct Hres as [[-> Hf]|(-> & Hfl & Hv)]; [by left|right].
  split_and!; [done|done| |lia]. by eapply frame_restore.
Qed.

End spec.
