(* ===== verification/VmCopy.v ===== *)
(** Copying an address space: kernel/vm.c [uvmcopy] gives the child the pages of
    the parent when the free list is long enough that no allocation evicts a
    page. *)
From S2P Require Import Prelude Riscv Memory Ring Lru Blocks Kmem Vm SwapIO PageTable Pte VmInv Swap SwapIn VmFrame VmGrow VmShrink VmSpec.

Section copy.
Context {C : Type} `{HL : BufCacheLaws C} (kend : Z) (fuel : nat).
Context (Hfuel : (PHYSTOP - KERNBASE) / PGSIZE < Z.of_nat fuel).
Implicit Types (x : cfg (C := C)).
Abbreviation good := (good kend).
Abbreviation frame := (frame kend).
Abbreviation held := (held kend).
Abbreviation private := (private kend).

Lemma perms_flags e : perms (PTE_FLAGS e) = perms e.
Proof. apply perms_ext. intros i Hi _ _ _. by apply flags_testbit. Qed.
Lemma perms_swapin_flags e : perms (Z.lor (Z.land (PTE_FLAGS e) (Z.lnot PTE_SWAPPED)) PTE_V) = perms e.
Proof.
  apply perms_ext. intros i Hi H0 _ H9. rewrite Z.lor_spec.
  change PTE_V with (2 ^ 0). change (Z.lnot PTE_SWAPPED) with (Z.lnot (2 ^ 9)).
  rewrite Z.pow2_bits_eqb, land_lnot_bit, flags_testbit by lia.
  rewrite !(proj2 (Z.eqb_neq _ _)) by lia. by rewrite andb_true_r, orb_false_r.
Qed.

(** Reading the slot of a swapped page into a page of the kernel's own. *)
Lemma swapread_x x pa j : good x -> held x pa -> slot_ok j ->
  wp (swapread pa j) (x_s x) (fun _ s' => exists x', x_s x' = s' /\ good x' /\ frame noX (fun q => q = pa) x x' /\
    held x' pa /\ x_fl x' = x_fl x /\ page_bytes (x_m x') pa = slot_bytes (a_view (x_a x)) j).
Proof.
  intros G Hh Hj. pose proof Hh as [Hu Hr Hun]. eapply wp_mono; [by apply (swapread_ok (x_s x) (x_a x)); try apply G|].
  intros ? s' (c' & R' & ->).
  destruct (read_slot_ok kend (x_T x) (x_s x) (x_a x) (x_fl x) (x_l x) pa j c' G Hu Hr Hun R')
    as (G' & E & Hr' & Hun' & Hb).
  set (s2 := set_cache _ _) in *. clearbody s2. exists (Cfg (x_T x) s2 (x_fl x) (x_l x) (x_a x)).
  split; [done|]. split; [exact G'|]. split; [|split; [by split|split; [done|exact Hb]]].
  eapply evolves_frame; [done|exact E|]. intros q Hq Hne. by apply reserved_cons.
Qed.

Lemma xview_some x root va v : xview x root va = Some v ->
  let w := pwalk (x_m x) root va in let e := ld64 (x_m x) w in
  w <> 0 /\ (valid e = true /\ v = (perms e, page_bytes (x_m x) (PTE2PA e)) \/
             valid e = false /\ swapped e = true /\ v = (perms e, slot_bytes (a_view (x_a x)) (slot_of e))).
Proof.
  unfold xview, uview, lview. cbv zeta. case_bool; [done|]. intros E. split; [done|].
  destruct (valid _); [left|right]; [by simplify_eq|]. destruct (swapped _); by simplify_eq.
Qed.

(** Copying the page [pa] of a process into a page of the kernel's own. *)
Lemma move_x x mem pa : good x -> held x mem -> aligned pa -> pa <> mem ->
  let x' := x_set x (set_mem (mcopy (x_m x) mem pa PGSIZE) (x_s x)) (x_fl x) (x_l x) in
  good x' /\ frame noX (fun q => q = mem) x x' /\ held x' mem /\ page_bytes (x_m x') mem = page_bytes (x_m x) pa.
Proof.
  intros G Hm Ha Hne x'. destruct (write_x kend x mem (mcopy (x_m x) mem pa PGSIZE) G Hm) as (G' & F & H').
  { intros q Hq Hqm y Hy. rewrite ld8_mcopy. case_match eqn:E; [|done].
    apply andb_true_iff in E as [?%Z.leb_le ?%Z.ltb_lt]. destruct Hqm.
    apply (aligned_disjoint q mem y); [done|apply Hm|done|done]. }
  split_and!; try done. apply page_bytes_ext. intros i Hi. change (x_m x') with (mcopy (x_m x) mem pa PGSIZE).
  rewrite ld8_mcopy. rewrite (proj2 (Z.leb_le _ _)), (proj2 (Z.ltb_lt _ _)) by lia. cbn [andb]. f_equal. lia.
Qed.

(** A page taken from the free list leaves the tables and the pages of processes
    as they are. *)
Lemma pop_tables x x1 mem : good x -> held x1 mem -> x_T x1 = x_T x -> x_m x1 = mfill (x_m x) mem 5 PGSIZE ->
  forall p k, x_T x !! p = Some k -> page_eq (x_m x) (x_m x1) p.
Proof.
  intros G [[Ha _] [_ Hn _ _ _] _] ET Em p k Hp. rewrite ET in Hn. rewrite Em.
  apply fill_page; [done| |intros ->; congruence]. by eapply (tk_aligned _ _ (good_tables _ _ G)).
Qed.
Lemma pop_keeps x x1 mem w : good x -> held x1 mem -> x_T x1 = x_T x -> x_m x1 = mfill (x_m x) mem 5 PGSIZE ->
  pteaddr (x_T x) w -> valid (ld64 (x_m x) w) = true ->
  let pa := PTE2PA (ld64 (x_m x) w) in pa <> mem /\ page_bytes (x_m x1) pa = page_bytes (x_m x) pa.
Proof.
  intros G Hh ET Em Hw Hv pa. pose proof (leaf_eq_pages _ _ _ w (pop_tables x x1 mem G Hh ET Em) Hw) as E.
  assert (pa <> mem) as Hne.
  { unfold pa. rewrite <- E. apply (hd_unmapped _ _ _ Hh); [by rewrite ET|by rewrite E]. }
  split; [done|]. apply page_bytes_eq. rewrite Em. apply fill_page; [apply Hh|apply PTE2PA_aligned|done].
Qed.
(** A swapped page is in the same slot, with the same contents. *)
Lemma pop_slot x x1 mem root va : good x -> held x1 mem -> frame noX noY x x1 -> x_T x1 = x_T x ->
  x_m x1 = mfill (x_m x) mem 5 PGSIZE -> x_T x !! root = Some 2%nat -> uva va ->
  let w := pwalk (x_m x) root va in let e := ld64 (x_m x) w in
  w <> 0 -> valid e = false -> swapped e = true ->
  slot_bytes (a_view (x_a x1)) (slot_of e) = slot_bytes (a_view (x_a x)) (slot_of e).
Proof.
  intros G Hh F ET Em Hr Hva w e Hw Hv Hs. pose proof (pop_tables x x1 mem G Hh ET Em) as Ht.
  pose proof (pwalk_pteaddr _ _ _ _ (good_tables _ _ G) Hr Hw) as Hwa. fold w in Hwa.
  pose proof (fr_view0 _ _ _ _ _ _ F Hr Hva) as E. unfold xview, uview, lview in E.
  rewrite (pwalk_ext (x_T x) (x_m x) (x_m x1)) in E by (done || by apply inner_eq_pages || by apply (good_tables kend)).
  fold w in E. rewrite (proj2 (Z.eqb_neq _ _) Hw), (leaf_eq_pages _ _ _ w Ht Hwa) in E. fold e in E.
  rewrite Hv, Hs in E. revert E.
  generalize (slot_bytes (a_view (x_a x1)) (slot_of e)), (slot_bytes (a_view (x_a x)) (slot_of e)). by intros b b' [= ->].
Qed.

Section fork.
Context (old new : Z).

(** The body of the loop of [uvmcopy]. *)
Definition copy_one (i : Z) : M (vm C) (option Z) :=
  pte ← walk kend fuel old i false;
  if pte =? 0 then panic "uvmcopy: pte should exist"
  else
    e ← rd64 pte;
    if flag_set e PTE_V then
      let pa := PTE2PA e in
      let flags := PTE_FLAGS e in
      mem ← kalloc kend fuel;
      if mem =? 0 then _ ← uvmunmap kend fuel new 0 (i / PGSIZE) true; mret (Some (-1))
      else
        _ ← kmemmove mem pa PGSIZE;
        copy_map kend fuel new i mem flags
    else if flag_set e PTE_SWAPPED then
      let slot := s32 (PTE2PA e / PGSIZE) in
      let flags := Z.land (PTE_FLAGS e) (Z.lnot PTE_SWAPPED) in
      mem ← kalloc kend fuel;
      if mem =? 0 then _ ← uvmunmap kend fuel new 0 (i / PGSIZE) true; mret (Some (-1))
      else
        _ ← swapread mem slot;
        copy_map kend fuel new i mem (Z.lor flags PTE_V)
    else panic "uvmcopy: page not present".

Definition copy_post x (i : Z) (v : Z * list Z) (r : option Z) (s' : vm C) : Prop :=
  r = None /\ exists x', x_s x' = s' /\ good x' /\ frame (at_page new i) noY x x' /\
    (length (x_fl x) <= 3 + length (x_fl x'))%nat /\ xview x' new i = Some v /\ private x' new i.

(** The child's page [mem] with the contents of the parent's. *)
Lemma copy_map_x x x2 i mem perm :
  frame noX (fun q => q = mem) x x2 -> ~ held x mem -> (3 <= length (x_fl x) <= S (length (x_fl x2)))%nat ->
  good x2 -> x_T x !! new = Some 2%nat -> uva i -> xview x new i = None -> held x2 mem -> 0 <= perm < 1024 ->
  wp (copy_map kend fuel new i mem perm) (x_s x2) (copy_post x i (perms perm, page_bytes (x_m x2) mem)).
Proof.
  intros F Hnm Hf G2 Hr Hi Hx Hh Hp. unfold copy_map.
  apply (wp_place kend fuel Hfuel _ _ x2 new i mem perm); try assumption.
  - by apply (fr_root _ _ _ _ _ _ F).
  - by rewrite (fr_view0 _ _ _ _ _ _ F).
  - intros x3 _ _ Hs. lia.
  - intros x3 G3 F3 Hf3 V3 P3. apply wp_ret. split; [done|]. exists x3. split_and!; try done; [|lia].
    apply (frame_drop kend _ (fun q => q = mem)); [|by intros ? ->].
    eapply frame_trans; [eapply frame_mono; [exact F|done|done]|exact F3].
Qed.

Lemma copy_one_x x i v :
  good x -> x_T x !! old = Some 2%nat -> x_T x !! new = Some 2%nat -> uva i -> (3 <= length (x_fl x))%nat ->
  xview x old i = Some v -> xview x new i = None -> wp (copy_one i) (x_s x) (copy_post x i v).
Proof.
  intros G Ho Hn Hi Hf Hx Hno. destruct (xview_some x old i v Hx) as [Hw Hcase].
  pose proof (pwalk_pteaddr _ _ _ _ (good_tables _ _ G) Ho Hw) as Hwa.
  assert (x_fl x <> []) as Hfl by (intros E; rewrite E in Hf; cbn in Hf; lia).
  assert (forall k : Z -> M (vm C) (option Z),
    (forall x1 mem, good x1 -> frame noX noY x x1 -> x_T x1 = x_T x -> (length (x_fl x) <= S (length (x_fl x1)))%nat ->
       held x1 mem -> ~ held x mem -> x_m x1 = mfill (x_m x) mem 5 PGSIZE -> wp (k mem) (x_s x1) (copy_post x i v)) ->
    wp (mem ← kalloc kend fuel;
        if mem =? 0 then _ ← uvmunmap kend fuel new 0 (i / PGSIZE) true; mret (Some (-1)) else k mem)
       (x_s x) (copy_post x i v)) as Halloc.
  { intros k Hk. apply wp_bind. eapply wp_mono; [by apply kalloc_x|].
    intros mem s1 (x1 & <- & G1 & F1 & ET & _ & Hf1 & [[_ ?]|(Hne & Hh & Hnh & Em)]); [done|].
    rewrite (proj2 (Z.eqb_neq _ _) Hne). apply Hk; auto. }
  unfold copy_one, walk. apply wp_bind, wp_walk; [apply Hi|]. change (v_mem (x_s x)) with (x_m x).
  rewrite (proj2 (Z.eqb_neq _ _) Hw). apply wp_bind, wp_gets. change (v_mem (x_s x)) with (x_m x).
  set (e := ld64 (x_m x) (pwalk (x_m x) old i)) in *. destruct Hcase as [[Hv ->]|(Hv & Hs & ->)]; rewrite Hv.
  - apply Halloc. intros x1 mem G1 F1 ET Hf1 Hh Hnh Em.
    destruct (pop_keeps x x1 mem _ G Hh ET Em Hwa Hv) as [Hne Eb]. fold e in Hne, Eb.
    destruct (move_x x1 mem (PTE2PA e) G1 Hh (PTE2PA_aligned e) Hne) as (G2 & F2 & H2 & B2).
    set (x2 := x_set x1 _ _ _) in *. apply wp_bind, wp_modify. change (set_mem _ (x_s x1)) with (x_s x2).
    rewrite <- Eb, <- B2, <- perms_flags. apply copy_map_x; try assumption.
    + eapply frame_trans; [by apply frame_weak|exact F2].
    + split; [done|exact Hf1].
    + apply PTE_FLAGS_range.
  - rewrite Hs. apply Halloc. intros x1 mem G1 F1 ET Hf1 Hh Hnh Em.
    destruct (vo_slot _ _ _ _ _ (good_vm _ _ G) _ Hwa Hv Hs) as [Hok _]. fold (x_m x) e in Hok.
    apply wp_bind. fold (slot_of e). eapply wp_mono; [by apply swapread_x|].
    intros ? s2 (x2 & <- & G2 & F2 & H2 & Efl & B2).
    assert (slot_bytes (a_view (x_a x1)) (slot_of e) = slot_bytes (a_view (x_a x)) (slot_of e)) as Eb by by apply (pop_slot x x1 mem old i).
    rewrite <- Eb, <- B2, <- perms_swapin_flags. apply copy_map_x; try assumption.
    + eapply frame_trans; [by apply frame_weak|exact F2].
    + rewrite Efl. split; [done|exact Hf1].
    + apply resident_flags_range.
Qed.

(** The child has the parent's page at [va], in a frame of its own. *)
Definition copied_page x0 x (va : Z) : Prop := xview x new va = xview x0 old va /\ private x new va.

Lemma copy_loop (n : nat) : forall x lo,
  good x -> x_T x !! old = Some 2%nat -> x_T x !! new = Some 2%nat -> old <> new ->
  aligned lo -> 0 <= lo -> lo + Z.of_nat n * PGSIZE <= MAXVA -> (3 * n <= length (x_fl x))%nat ->
  over (fun va => is_Some (xview x old va)) lo (lo + Z.of_nat n * PGSIZE) ->
  over (fun va => xview x new va = None) lo (lo + Z.of_nat n * PGSIZE) ->
  wp (for_ret (page_range lo (Z.of_nat n)) copy_one (mret 0)) (x_s x) (fun r s' => r = 0 /\ exists x',
    x_s x' = s' /\ good x' /\ frame (at_range new lo (lo + Z.of_nat n * PGSIZE)) noY x x' /\
    over (copied_page x x') lo (lo + Z.of_nat n * PGSIZE)).
Proof.
  induction n as [|n IH]; intros x lo G Ho Hn Hne Ha H0 Hm Hf Hp Hc.
  { apply wp_ret. split; [done|]. exists x. split_and!; try done. intros va _ ?. lia. }
  set (hi := lo + Z.of_nat (S n) * PGSIZE) in *.
  assert (hi = lo + PGSIZE + Z.of_nat n * PGSIZE) as Ehi by (unfold hi; lia).
  assert (lo + PGSIZE <= hi /\ lo < lo + PGSIZE) as [Hhi Hpg] by (unfold hi, PGSIZE; lia).
  apply over_split in Hp as [[v Hv] Hp]; [|done|lia]. apply over_split in Hc as [Hc0 Hc]; [|done|lia].
  assert (uva lo) as Hul by (split; [done|lia]).
  rewrite page_range_S. cbn [for_ret]. apply wp_bind. eapply wp_mono; [apply (copy_one_x x lo v); try done; lia|].
  intros ? s1 (-> & x1 & <- & G1 & F1 & Hf1 & V1 & P1).
  assert (forall va, aligned va -> lo + PGSIZE <= va < hi -> uva va /\ ~ at_page new lo new va) as Hoff.
  { intros va Hva Hin. split; [split; [done|lia]|]. intros [_ ->]. lia. }
  assert (forall va, uva va -> xview x1 old va = xview x old va) as Eold.
  { intros va Hva. apply (fr_view _ _ _ _ _ F1); [done|done|]. by intros [? _]. }
  eapply wp_mono.
  { apply (IH x1 (lo + PGSIZE)); [done|by apply (fr_root _ _ _ _ _ _ F1)|by apply (fr_root _ _ _ _ _ _ F1)|done|
      by apply aligned_add|lia|lia|lia| |]; rewrite <- Ehi; intros va Hva Hin; destruct (Hoff va Hva Hin) as [Hu HX].
    - rewrite Eold by done. by apply Hp.
    - rewrite (fr_view _ _ _ _ _ F1) by done. by apply Hc. }
  rewrite <- Ehi. intros ? s2 (-> & x2 & <- & G2 & F2 & V2). split; [done|]. exists x2. split_and!; try done.
  - eapply frame_trans; [eapply frame_range_at; [exact F1|lia]|]. eapply frame_range_mono; [exact F2|lia|lia].
  - apply over_split; [done|lia|]. split.
    + assert (~ at_range new (lo + PGSIZE) hi new lo) as HX by (intros [_ ?]; lia).
      assert (x_T x1 !! new = Some 2%nat) as Hn1 by by apply (fr_root _ _ _ _ _ _ F1).
      split; [rewrite (fr_view _ _ _ _ _ F2), V1 by done; done|by apply (fr_private _ _ _ _ _ F2)].
    + intros va Hva Hin. destruct (V2 va Hva Hin) as [EV HP]. split; [|done]. rewrite EV. apply Eold.
      by apply (Hoff va Hva Hin).
Qed.
End fork.

(** C7. The copy that fork makes.  When the free list has three pages for every page
    of the parent, [uvmcopy] returns 0, and then the child sees at every address
    the permissions and the contents that the parent sees there, whether the
    parent's page was resident or swapped out, in frames that nobody shares.  The
    parent, the other processes, the kernel's pages and the file system are as
    before. *)
Theorem uvmcopy_copies x old new sz :
  good x -> x_T x !! old = Some 2%nat -> x_T x !! new = Some 2%nat -> old <> new -> 0 <= sz <= MAXVA ->
  3 * npages sz <= Z.of_nat (length (x_fl x)) ->
  over (fun va => is_Some (xview x old va)) 0 (PGROUNDUP sz) ->
  over (fun va => xview x new va = None) 0 (PGROUNDUP sz) ->
  exists x', uvmcopy kend fuel old new sz (x_s x) = Ret (0, x_s x') /\ good x' /\
    frame (at_range new 0 (PGROUNDUP sz)) noY x x' /\
    over (fun va => xview x' new va = xview x old va /\ private x' new va) 0 (PGROUNDUP sz).
Proof.
  intros G Ho Hn Hne Hsz Hf Hp Hc. destruct (npages_range 0 sz) as [Hn0 En]; [lia|lia|].
  change (PGROUNDUP 0) with 0 in *. rewrite Z.sub_0_r in *. destruct (PGROUNDUP_bounds sz Hsz) as (_ & _ & Hmx).
  destruct (copy_loop old new (Z.to_nat (npages sz)) x 0) as (r & s' & E & -> & x' & <- & G' & F & V);
    rewrite ?Z2Nat.id, ?En in * by done; try done; try lia.
  by exists x'.
Qed.
End copy.
