(* ===== verification/Queue.v ===== *)
(** Circular buffers with free-running counters: an array of [N] cells, a read and
    a write counter that count modulo [B], a multiple of [N].  Pipes, the UART's
    transmit buffer and the console's input buffer are such queues. *)
From S2P Require Import Prelude.

Section queue.
Context (N B : Z) (HN : 0 < N) (HNB : N < B) (Hdiv : (N | B)).

Definition qlen (r w : Z) : Z := (w - r) mod B.
Definition qlist (data : Z -> Z) (r w : Z) : list Z := (fun i => data ((r + i) mod N)) <$> seqZ 0 (qlen r w).
Record qwf (r w : Z) : Prop := { q_r : 0 <= r < B; q_w : 0 <= w < B; q_len : qlen r w <= N }.

Lemma qlen_nonneg r w : 0 <= qlen r w.
Proof using HN HNB Hdiv. apply Z.mod_pos_bound. lia. Qed.
Lemma length_qlist data r w : length (qlist data r w) = Z.to_nat (qlen r w).
Proof using HN HNB Hdiv. unfold qlist. by rewrite length_fmap, length_seqZ. Qed.
Lemma qlen_add r c : 0 <= c < B -> qlen r ((r + c) mod B) = c.
Proof using HN HNB Hdiv. intros Hc. unfold qlen. rewrite Zminus_mod_idemp_l. replace (r + c - r) with c by lia. by apply Z.mod_small. Qed.
(** The write counter is the read counter advanced by the length. *)
Lemma qlen_w r w : 0 <= w < B -> w = (r + qlen r w) mod B.
Proof using HN HNB Hdiv. intros Hw. unfold qlen. rewrite Zplus_mod_idemp_r. replace (r + (w - r)) with w by lia. by rewrite Z.mod_small. Qed.
Lemma cell_mod x : x mod B mod N = x mod N.
Proof using HN HNB Hdiv. destruct Hdiv as [k ->]. rewrite Z.mul_comm. apply Z.mod_mod_divide. by exists k; lia. Qed.
Lemma cell_inj r i j : 0 <= i -> i < j -> j - i < N -> (r + i) mod N <> (r + j) mod N.
Proof using HN HNB Hdiv.
  intros Hi Hij Hj E. assert ((j - i) mod N = 0) as E0.
  { replace (j - i) with ((r + j) - (r + i)) by lia. rewrite Zminus_mod, E, Z.sub_diag. by apply Z.mod_0_l; lia. }
  rewrite Z.mod_small in E0; lia.
Qed.

Lemma q_full r w : qwf r w -> (w =? (r + N) mod B) = (qlen r w =? N).
Proof using HN HNB Hdiv.
  intros [Hr Hw Hl]. apply eq_true_iff_eq. rewrite !Z.eqb_eq. split.
  - intros ->. apply qlen_add. lia.
  - intros E. rewrite <- E. by apply qlen_w.
Qed.
Lemma q_empty r w : qwf r w -> (r =? w) = (qlen r w =? 0).
Proof using HN HNB Hdiv.
  intros [Hr Hw Hl]. apply eq_true_iff_eq. rewrite !Z.eqb_eq. split.
  - intros ->. unfold qlen. by rewrite Z.sub_diag, Z.mod_0_l by lia.
  - intros E. rewrite (qlen_w r w), E, Z.add_0_r by done. by rewrite Z.mod_small.
Qed.
Lemma q_empty_nil data r w : qwf r w -> (r =? w) = true <-> qlist data r w = [].
Proof using HN HNB Hdiv.
  intros W. rewrite q_empty, Z.eqb_eq, <- length_zero_iff_nil, length_qlist by done.
  pose proof (qlen_nonneg r w). lia.
Qed.

Lemma qlen_put r w : qwf r w -> qlen r w < N -> qlen r ((w + 1) mod B) = qlen r w + 1.
Proof using HN HNB Hdiv.
  intros [Hr Hw Hl] Hf. pose proof (qlen_nonneg r w). rewrite (qlen_w r w) at 1 by done.
  rewrite Zplus_mod_idemp_l, <- Z.add_assoc. apply qlen_add. lia.
Qed.
Lemma q_put data r w ch : qwf r w -> qlen r w < N ->
  qwf r ((w + 1) mod B) /\ qlist (upd data (w mod N) ch) r ((w + 1) mod B) = qlist data r w ++ [ch].
Proof using HN HNB Hdiv.
  intros W Hf. pose proof (qlen_nonneg r w) as H0. pose proof (qlen_put r w W Hf) as El.
  destruct W as [Hr Hw Hl]. split; [split; [done|apply Z.mod_pos_bound; lia|lia]|].
  assert (w mod N = (r + qlen r w) mod N) as Ew by (rewrite (qlen_w r w) at 1 by done; apply cell_mod).
  unfold qlist. rewrite El, seqZ_app, fmap_app by lia. f_equal.
  - apply list_fmap_ext. intros k i [-> Hk]%lookup_seqZ. apply upd_ne. rewrite Ew. apply cell_inj; lia.
  - rewrite (seqZ_cons (0 + qlen r w) 1), seqZ_nil by lia. cbn. by rewrite Ew, upd_eq.
Qed.

Lemma q_get data r w : qwf r w -> qlen r w <> 0 ->
  qwf ((r + 1) mod B) w /\ qlen ((r + 1) mod B) w = qlen r w - 1 /\
  qlist data r w = data (r mod N) :: qlist data ((r + 1) mod B) w.
Proof using HN HNB Hdiv.
  intros [Hr Hw Hl] He. pose proof (qlen_nonneg r w) as H0.
  assert (qlen ((r + 1) mod B) w = qlen r w - 1) as El.
  { rewrite (qlen_w r w) at 1 by done. unfold qlen at 1. rewrite Zminus_mod_idemp_l, Zminus_mod_idemp_r.
    replace (r + qlen r w - (r + 1)) with (qlen r w - 1) by lia. apply Z.mod_small. lia. }
  split; [split; [apply Z.mod_pos_bound; lia|done|lia]|]. split; [done|].
  unfold qlist. rewrite El, (seqZ_cons 0 (qlen r w)) by lia. rewrite fmap_cons, Z.add_0_r. f_equal.
  replace (seqZ (Z.succ 0) (Z.pred (qlen r w))) with (Z.add 1 <$> seqZ 0 (qlen r w - 1))
    by (rewrite fmap_add_seqZ; f_equal; lia).
  rewrite <- list_fmap_compose. apply list_fmap_ext. intros k i [-> Hk]%lookup_seqZ. rewrite Z.add_0_l. unfold compose. f_equal.
  rewrite <- (cell_mod ((r + 1) mod B + Z.of_nat k)), Zplus_mod_idemp_l, cell_mod. f_equal. lia.
Qed.

(** Taking back what was last put. *)
Lemma q_unput data r w : qwf r w -> qlen r w <> 0 ->
  qwf r ((w - 1) mod B) /\ qlen r ((w - 1) mod B) = qlen r w - 1 /\
  qlist data r w = qlist data r ((w - 1) mod B) ++ [data ((w - 1) mod B mod N)].
Proof using HN HNB Hdiv.
  intros [Hr Hw Hl] He. pose proof (qlen_nonneg r w) as H0.
  assert ((w - 1) mod B = (r + (qlen r w - 1)) mod B) as Ew.
  { rewrite (qlen_w r w) at 1 by done. rewrite Zminus_mod_idemp_l. f_equal. lia. }
  assert (qlen r ((w - 1) mod B) = qlen r w - 1) as El by (rewrite Ew; apply qlen_add; lia).
  split; [split; [done|apply Z.mod_pos_bound; lia|lia]|]. split; [done|].
  unfold qlist. rewrite El. replace (qlen r w) with (qlen r w - 1 + 1) at 1 by lia.
  rewrite seqZ_app, fmap_app by lia. f_equal.
  rewrite (seqZ_cons (0 + (qlen r w - 1)) 1), seqZ_nil by lia. cbn. f_equal.
  by rewrite Ew, cell_mod.
Qed.

(** A counter between the two splits the queue. *)
Lemma q_split data r m w : qlen r m + qlen m w = qlen r w ->
  0 <= m < B -> qlist data r w = qlist data r m ++ qlist data m w.
Proof using HN HNB Hdiv.
  intros El Hm. pose proof (qlen_nonneg r m). pose proof (qlen_nonneg m w).
  unfold qlist. rewrite <- El, seqZ_app, fmap_app by lia. f_equal.
  rewrite Z.add_0_l. replace (seqZ (qlen r m) (qlen m w)) with (Z.add (qlen r m) <$> seqZ 0 (qlen m w))
    by (rewrite fmap_add_seqZ; f_equal; lia).
  rewrite <- list_fmap_compose. apply list_fmap_ext. intros k i [-> Hk]%lookup_seqZ. rewrite Z.add_0_l. unfold compose. f_equal.
  rewrite (qlen_w r m) at 2 by done.
  rewrite <- (cell_mod ((r + qlen r m) mod B + Z.of_nat k)), Zplus_mod_idemp_l, cell_mod. f_equal. lia.
Qed.
(** Changing a cell outside the queue. *)
Lemma q_upd_other data r w c ch : qwf r w -> (forall i, 0 <= i < qlen r w -> c <> (r + i) mod N) ->
  qlist (upd data c ch) r w = qlist data r w.
Proof using HN HNB Hdiv.
  intros W Hc. apply list_fmap_ext. intros k i [-> Hk]%lookup_seqZ. apply upd_ne. intros E.
  apply (Hc (Z.of_nat k)); [lia|]. by rewrite <- E.
Qed.
End queue.
