(* ===== verification/UserMem.v ===== *)
(** What the kernel needs of a process's memory: reading and writing single user
    bytes through its page table.  UserCopy.v shows that the page-wise loops of
    copyin and copyout (kernel/vm.c) do exactly this byte by byte; the clients
    (pipes, the console, system call arguments) are written against the class. *)
From S2P Require Import Prelude.

Class UserMem (U : Type) := {
  (** the byte at a user address that the kernel may read, if any *)
  ubyte : U -> Z -> Z -> option Z;
  (** the memory after writing a byte at a user address, if it may be written *)
  uput : Z -> Z -> Z -> U -> option U;
  (** the kernel's own memory, which needs no page table *)
  kbyte : U -> Z -> Z;
  kput : Z -> Z -> U -> U }.

(** A user address that can be written. *)
Definition writable {U} `{UserMem U} (u : U) (pt va : Z) : Prop := forall b, is_Some (uput pt va b u).

(** The laws hold for page tables that are live, [uinv]. *)
Class UserMemLaws (U : Type) `{UserMem U} := {
  uinv : U -> Z -> Prop;
  ubyte_range u pt va b : ubyte u pt va = Some b -> 0 <= b < 2 ^ 8;
  uput_inv pt va b u u' pt' : uinv u pt -> uput pt va b u = Some u' -> uinv u pt' -> uinv u' pt';
  uput_writable pt va va' b u u' : uinv u pt -> uput pt va b u = Some u' -> writable u pt va' -> writable u' pt va';
  uput_same pt va b u u' : uinv u pt -> uput pt va b u = Some u' -> ubyte u' pt va = Some (u8 b);
  uput_other pt va va' b u u' : uinv u pt -> uput pt va b u = Some u' -> va <> va' -> ubyte u' pt va' = ubyte u pt va' }.

(** The kernel's memory keeps single bytes. *)
Class KernMemLaws (U : Type) `{UserMem U} := {
  kbyte_put u a b a' : kbyte (kput a b u) a' = if a' =? a then u8 b else kbyte u a' }.

(** [copyin]: all the bytes, or failure. *)
Fixpoint ucopyin {U} `{UserMem U} (u : U) (pt va : Z) (n : nat) : option (list Z) :=
  match n with
  | O => Some []
  | S n => b ← ubyte u pt va; l ← ucopyin u pt (va + 1) n; Some (b :: l)
  end.
(** The bytes a failing [copyin] has moved: those before the first unreadable one. *)
Fixpoint uprefix {U} `{UserMem U} (u : U) (pt va : Z) (n : nat) : list Z :=
  match n with
  | O => []
  | S n => match ubyte u pt va with Some b => b :: uprefix u pt (va + 1) n | None => [] end
  end.
(** [copyout]: bytes are written up to the first that cannot be; the result says
    whether all were. *)
Fixpoint ucopyout {U} `{UserMem U} (pt va : Z) (l : list Z) (u : U) : bool * U :=
  match l with
  | [] => (true, u)
  | b :: l => match uput pt va b u with Some u' => ucopyout pt (va + 1) l u' | None => (false, u) end
  end.

Definition kcopyin {U} `{UserMem U} (u : U) (a : Z) (n : nat) : list Z := (fun i => kbyte u (a + i)) <$> seqZ 0 (Z.of_nat n).
Fixpoint kcopyout {U} `{UserMem U} (a : Z) (l : list Z) (u : U) : U :=
  match l with [] => u | b :: l => kcopyout (a + 1) l (kput a b u) end.

(** [either_copyin] and [either_copyout] (kernel/proc.c): a user address of the
    current process, whose page table is [pt], or a kernel address. *)
Definition either_copyin {U} `{UserMem U} (pt : Z) (user_src : bool) (src : Z) (len : nat) (u : U) : option (list Z) :=
  if user_src then ucopyin u pt src len else Some (kcopyin u src len).
Definition either_copyout {U} `{UserMem U} (pt : Z) (user_dst : bool) (dst : Z) (l : list Z) (u : U) : bool * U :=
  if user_dst then ucopyout pt dst l u else (true, kcopyout dst l u).

(** [copyinstr]: the bytes before the first NUL among the next [k], if all of them
    can be read. *)
Fixpoint ustr {U} `{UserMem U} (u : U) (pt va : Z) (k : nat) : option (list Z) :=
  match k with
  | O => None
  | S k => b ← ubyte u pt va; if b =? 0 then Some [] else (b ::.) <$> ustr u pt (va + 1) k
  end.

(** Whole pages of kernel memory: [kalloc] returns 0 when there is none. *)
Class PageAlloc (U : Type) := { page_alloc : M U Z; page_free : Z -> M U unit }.

(** What [either_copyin] moves, also when it fails. *)
Definition src_bytes {U} `{UserMem U} (u : U) (pt : Z) (user_src : bool) (src n : Z) : list Z :=
  if user_src then uprefix u pt src (Z.to_nat n) else kcopyin u src (Z.to_nat n).

Section copies.
Context {U : Type} `{UserMem U}.

Lemma ucopyout_app pt l1 : forall va l2 (u : U),
  ucopyout pt va (l1 ++ l2) u =
  let '(ok, u1) := ucopyout pt va l1 u in if ok : bool then ucopyout pt (va + lenZ l1) l2 u1 else (false, u1).
Proof.
  induction l1 as [|b l1 IH]; intros va l2 u; cbn [ucopyout app length]; [by rewrite Z.add_0_r|].
  destruct (uput pt va b u) as [u1|]; [|done]. rewrite IH.
  destruct (ucopyout pt (va + 1) l1 u1) as [[] u2]; [|done]. f_equal. lia.
Qed.
Lemma kcopyout_app l1 : forall a l2 (u : U),
  kcopyout a (l1 ++ l2) u = kcopyout (a + lenZ l1) l2 (kcopyout a l1 u).
Proof.
  induction l1 as [|b l1 IH]; intros a l2 u; cbn [kcopyout app length]; [by rewrite Z.add_0_r|].
  rewrite IH. f_equal. lia.
Qed.
Lemma either_copyout_app pt ud dst l1 l2 (u : U) :
  either_copyout pt ud dst (l1 ++ l2) u =
  let '(ok, u1) := either_copyout pt ud dst l1 u in
  if ok : bool then either_copyout pt ud (dst + lenZ l1) l2 u1 else (false, u1).
Proof. unfold either_copyout. destruct ud; [apply ucopyout_app|by rewrite kcopyout_app]. Qed.

Lemma uprefix_len (u : U) pt va n : (length (uprefix u pt va n) <= n)%nat.
Proof.
  revert va. induction n as [|n IH]; intros va; cbn; [lia|]. destruct (ubyte u pt va); cbn; [|lia].
  specialize (IH (va + 1)). lia.
Qed.
Lemma uprefix_split (u : U) pt n m : forall va,
  length (uprefix u pt va (n + m)) = (n + m)%nat ->
  uprefix u pt va (n + m) = uprefix u pt va n ++ uprefix u pt (va + Z.of_nat n) m /\
  length (uprefix u pt va n) = n.
Proof.
  induction n as [|n IH]; intros va; cbn [uprefix Nat.add].
  { intros _. by rewrite Z.add_0_r. }
  destruct (ubyte u pt va) as [b|]; [|done]. cbn [length app]. intros [= E].
  destruct (IH _ E) as [-> ->]. split; [|done]. cbn. do 3 f_equal. lia.
Qed.

(** A readable source is read in pieces. *)
Lemma src_bytes_split (u : U) pt us src n m :
  0 <= m <= n -> lenZ (src_bytes u pt us src n) = n ->
  src_bytes u pt us src n = src_bytes u pt us src m ++ src_bytes u pt us (src + m) (n - m) /\
  lenZ (src_bytes u pt us src m) = m /\ lenZ (src_bytes u pt us (src + m) (n - m)) = n - m.
Proof.
  intros Hm. unfold src_bytes. destruct us.
  - replace (Z.to_nat n) with (Z.to_nat m + Z.to_nat (n - m))%nat by lia. intros Hl.
    destruct (uprefix_split u pt (Z.to_nat m) (Z.to_nat (n - m)) src) as [E El]; [lia|].
    rewrite Z2Nat.id in E by lia. split; [done|]. split; [lia|].
    apply (f_equal length) in E. rewrite length_app in E. lia.
  - intros _. unfold kcopyin. rewrite !length_fmap, !length_seqZ. split_and!; try lia.
    rewrite !Z2Nat.id by lia. replace n with (m + (n - m)) at 1 by lia.
    rewrite seqZ_app, fmap_app by lia. f_equal. rewrite (Z.add_comm 0 m).
    rewrite <- (fmap_add_seqZ m 0), <- list_fmap_compose. apply list_fmap_ext.
    intros i x _. cbn. f_equal. lia.
Qed.
End copies.

(** A memory with one process: its bytes at the addresses below its size; the
    kernel uses the addresses from 2^32 on. *)
Record flat := Flat { fl_size : Z; fl_bytes : Z -> Z }.
#[export] Instance flat_mem : UserMem flat := {
  ubyte u pt va := if (0 <=? va) && (va <? fl_size u) then Some (u8 (fl_bytes u va)) else None;
  uput pt va b u := if (0 <=? va) && (va <? fl_size u) then Some (Flat (fl_size u) (upd (fl_bytes u) va b)) else None;
  kbyte u a := u8 (fl_bytes u (2 ^ 32 + a));
  kput a b u := Flat (fl_size u) (upd (fl_bytes u) (2 ^ 32 + a) b) }.
#[export] Instance flat_laws : UserMemLaws flat.
Proof.
  refine {| uinv := fun _ _ => True |}; cbn; [| |intros pt va va' b u u' _ E Hw b'| |].
  - intros u _ va b. destruct (_ && _); [|done]. intros [= <-]. apply u8_range.
  - done.
  - specialize (Hw b'). cbn in *. destruct (_ && _) in E; [|done].
    injection E as <-. cbn. destruct (_ && _); [by eexists|exact Hw].
  - intros _ va b u u' _. destruct (_ && _) eqn:E; [|done]. intros [= <-]. cbn. by rewrite E, upd_eq.
  - intros _ va va' b u u' _. destruct (_ && _) eqn:E; [|done]. intros [= <-] Hne. cbn. by rewrite upd_ne.
Defined.
#[export] Instance flat_kern : KernMemLaws flat.
Proof.
  split. intros u a b a'. cbn. unfold upd.
  destruct (Z.eqb_spec (2 ^ 32 + a') (2 ^ 32 + a)), (Z.eqb_spec a' a); (done || lia).
Qed.

(** Kernel memory after a copy of [l] to [a]. *)
Lemma kbyte_kcopyout {U} `{KernMemLaws U} l : forall a u x,
  kbyte (kcopyout a l u) x = if (a <=? x) && (x <? a + lenZ l) then u8 (nth (Z.to_nat (x - a)) l 0) else kbyte u x.
Proof.
  induction l as [|b l IH]; intros a u x; cbn [kcopyout].
  { cbn. by bools. }
  rewrite IH, kbyte_put. cbn [length]. bools; try done.
  - replace (Z.to_nat (x - a)) with (S (Z.to_nat (x - (a + 1)))) by lia. done.
  - subst. by rewrite Z.sub_diag.
Qed.
