(* ===== verification/UserCopy.v ===== *)
(** Copies between kernel and user memory (kernel/vm.c copyin, copyout,
    copyinstr).  The loops go page by page through the page table; they are
    shown equal to the byte-by-byte access of UserMem.v, and that access to
    satisfy the laws of the interface in a consistent system. *)
From S2P Require Import Prelude Riscv Memory Lru Blocks Kmem Vm SwapIO PageTable Pte VmInv UserMem.

(** The physical address of a user byte: the page must be present and accessible
    to the user, and writable for a write. *)
Definition user_pa (m : mem) (root va : Z) (wr : bool) : option Z :=
  if (0 <=? va) && (va <? MAXVA) then
    let w := pwalk m root (PGROUNDDOWN va) in
    let e := ld64 m w in
    if negb (w =? 0) && flag_set e PTE_V && flag_set e PTE_U && (if wr then flag_set e PTE_W else negb (PTE2PA e =? 0))
    then Some (PTE2PA e + va mod PGSIZE) else None
  else None.

Definition vm_user {C} : UserMem (vm C) := {|
  ubyte s pt va := ld8 (v_mem s) <$> user_pa (v_mem s) pt va false;
  uput pt va b s := (fun pa => set_mem (st8 (v_mem s) pa b) s) <$> user_pa (v_mem s) pt va true;
  kbyte s a := ld8 (v_mem s) a;
  kput a b s := set_mem (st8 (v_mem s) a b) s |}.

Lemma off_page va j : 0 <= va -> 0 <= j -> va mod PGSIZE + j < PGSIZE ->
  PGROUNDDOWN (va + j) = PGROUNDDOWN va /\ (va + j) mod PGSIZE = va mod PGSIZE + j /\ (va < MAXVA <-> va + j < MAXVA).
Proof.
  intros Hva Hj Ho. rewrite !PGROUNDDOWN_spec. unfold MAXVA, PGSIZE in *.
  change (Z.shiftl 1 (9 + 9 + 9 + 12 - 1)) with (67108864 * 4096). zdiv.
Qed.
Lemma user_pa_same_page m root va wr j : 0 <= va -> 0 <= j -> va mod PGSIZE + j < PGSIZE ->
  user_pa m root (va + j) wr = (fun pa => pa + j) <$> user_pa m root va wr.
Proof.
  intros Hva Hj Ho. destruct (off_page va j Hva Hj Ho) as (E1 & E2 & E3). unfold user_pa. rewrite E1, E2.
  assert ((0 <=? va + j) && (va + j <? MAXVA) = (0 <=? va) && (va <? MAXVA)) as -> by (bools; tauto).
  case_match; [|done]. case_match; [|done]. cbn. f_equal. lia.
Qed.

Section tables.
Context {C : Type} (kend : Z) (T : gmap Z nat).
Implicit Types (s : vm C) (m : mem).

(** Memory agrees on the pages of the page tables. *)
Definition tables_eq (m m' : mem) : Prop := forall p k, T !! p = Some k -> page_eq m m' p.

Lemma user_pa_ext m m' root va wr : tables_eq m m' -> tables_ok T m -> T !! root = Some 2%nat ->
  user_pa m' root va wr = user_pa m root va wr.
Proof.
  intros He Ht Hr. unfold user_pa. case_match; [|done].
  rewrite (pwalk_ext T m m') by (done || by apply inner_eq_pages).
  destruct (Z.eqb_spec (pwalk m root (PGROUNDDOWN va)) 0) as [|Hw]; [done|].
  rewrite (leaf_eq_pages T m m'); [done|done|]. by apply pwalk_pteaddr.
Qed.

(** The user's pages are not shared and are no page-table pages. *)
Definition user_pte (m : mem) (w : Z) : Prop := pteaddr T w /\ valid (ld64 m w) = true /\ flag_set (ld64 m w) PTE_U = true.
Record frames_ok (m : mem) : Prop := {
  fr_frame w : user_pte m w -> 0 < PTE2PA (ld64 m w) /\ T !! PTE2PA (ld64 m w) = None;
  fr_private w w' : user_pte m w -> user_pte m w' -> PTE2PA (ld64 m w) = PTE2PA (ld64 m w') -> w = w' }.

Lemma user_pa_inv m root va wr pa : tables_ok T m -> T !! root = Some 2%nat -> user_pa m root va wr = Some pa ->
  let w := pwalk m root (PGROUNDDOWN va) in
  0 <= va < MAXVA /\ w <> 0 /\ user_pte m w /\ pa = PTE2PA (ld64 m w) + va mod PGSIZE /\ in_page (PTE2PA (ld64 m w)) pa.
Proof.
  intros Ht Hr. unfold user_pa. destruct ((0 <=? va) && (va <? MAXVA)) eqn:Eva; [|done].
  destruct (Z.eqb_spec (pwalk m root (PGROUNDDOWN va)) 0) as [|Hw]; [done|]. cbn [negb andb].
  destruct (flag_set _ PTE_V) eqn:EV; [|done]. destruct (flag_set _ PTE_U) eqn:EU; [|done]. cbn [andb].
  case_match; [|done]. intros E. apply (inj Some) in E. subst pa. apply andb_true_iff in Eva as [?%Z.leb_le ?%Z.ltb_lt]. cbn zeta.
  split; [done|]. split; [done|]. split; [split; [by apply pwalk_pteaddr|done]|]. split; [done|].
  unfold in_page. pose proof (Z.mod_pos_bound va PGSIZE ltac:(done)). lia.
Qed.

(** Writing inside a user page does not touch the tables. *)
Lemma user_write_tables m m' f : tables_ok T m -> aligned f -> T !! f = None ->
  (forall x, ~ in_page f x -> ld8 m' x = ld8 m x) -> tables_eq m m'.
Proof.
  intros Ht Hf Hn Ho p k Hp x Hx. apply Ho. intros Hx'.
  destruct (tk_aligned T m Ht p k Hp) as [Ha _]. rewrite (aligned_disjoint f p x) in Hn by done. congruence.
Qed.
Lemma frames_ok_ext m m' : tables_eq m m' -> tables_ok T m -> frames_ok m -> frames_ok m'.
Proof.
  intros He Ht [F P].
  assert (forall w, pteaddr T w -> ld64 m' w = ld64 m w) as Hl by (intros; by apply (leaf_eq_pages T)).
  assert (forall w, user_pte m' w -> user_pte m w) as Hu by (intros w (Hw & Hv & HU); unfold user_pte; by rewrite <- Hl).
  split.
  - intros w Hw. rewrite Hl by apply Hw. by apply F, Hu.
  - intros w w' Hw Hw'. rewrite !Hl by (apply Hw || apply Hw'). apply P; by apply Hu.
Qed.

(** A live page table in a consistent system. *)
Definition vm_uinv (s : vm C) (pt : Z) : Prop :=
  T !! pt = Some 2%nat /\ frames_ok (v_mem s) /\ exists fl l, vm_ok kend T s fl l.

(** A byte that may be written may be read. *)
Lemma user_pa_read m root va pa : tables_ok T m -> T !! root = Some 2%nat -> frames_ok m ->
  user_pa m root va true = Some pa -> user_pa m root va false = Some pa.
Proof.
  intros Ht Hr F E. destruct (user_pa_inv _ _ _ _ _ Ht Hr E) as (Hva & Hw & Hu & -> & _).
  destruct (fr_frame _ F _ Hu) as [H0 _]. destruct Hu as (_ & EV & EU). unfold user_pa.
  rewrite (proj2 (Z.leb_le _ _)), (proj2 (Z.ltb_lt _ _)), (proj2 (Z.eqb_neq _ _) Hw), EV, EU by lia. cbn [negb andb].
  by rewrite (proj2 (Z.eqb_neq _ _)) by lia.
Qed.
(** Different bytes of a process have different addresses. *)
Lemma user_pa_inj m root va va' wr wr' pa : tables_ok T m -> T !! root = Some 2%nat -> frames_ok m ->
  user_pa m root va wr = Some pa -> user_pa m root va' wr' = Some pa -> va = va'.
Proof.
  intros Ht Hr F E E'. destruct (user_pa_inv _ _ _ _ _ Ht Hr E) as (Hva & Hw & Hu & Epa & Hin).
  destruct (user_pa_inv _ _ _ _ _ Ht Hr E') as (Hva' & Hw' & Hu' & Epa' & Hin').
  assert (PTE2PA (ld64 m (pwalk m root (PGROUNDDOWN va))) = PTE2PA (ld64 m (pwalk m root (PGROUNDDOWN va')))) as Ef
    by (apply (aligned_disjoint _ _ pa); try done; apply PTE2PA_aligned).
  pose proof (fr_private _ F _ _ Hu Hu' Ef) as Ew.
  assert (PGROUNDDOWN va = PGROUNDDOWN va') as Epg.
  { apply (pwalk_inj T m root _ root _ Ht Hr Hr); try done; rewrite ?PGROUNDDOWN_spec; unfold aligned, PGSIZE in *; zdiv. }
  rewrite !PGROUNDDOWN_spec in Epg. rewrite Ef in Epa. lia.
Qed.

Lemma vm_uput_spec pt va b s s' : vm_uinv s pt -> @uput _ vm_user pt va b s = Some s' ->
  exists pa w, user_pa (v_mem s) pt va true = Some pa /\ s' = set_mem (st8 (v_mem s) pa b) s /\
    user_pte (v_mem s) w /\ in_page (PTE2PA (ld64 (v_mem s) w)) pa /\ tables_eq (v_mem s) (v_mem s').
Proof.
  intros (Hr & F & fl & l & I) E. cbn in E. destruct (user_pa (v_mem s) pt va true) as [pa|] eqn:Ep; [|done].
  injection E as <-. destruct (user_pa_inv _ _ _ _ _ (vo_tables _ _ _ _ _ I) Hr Ep) as (_ & _ & Hu & _ & Hin).
  eexists pa, _. split_and!; try done. destruct (fr_frame _ F _ Hu) as [_ Hn].
  eapply user_write_tables; [apply I|apply PTE2PA_aligned|exact Hn|].
  intros x Hx. cbn. apply ld8_st8_other. intros ->. done.
Qed.

(** A store into a user page keeps the system consistent. *)
Lemma vm_uinv_write s pt w m' : vm_uinv s pt -> user_pte (v_mem s) w ->
  (forall x, ~ in_page (PTE2PA (ld64 (v_mem s) w)) x -> ld8 m' x = ld8 (v_mem s) x) -> vm_uinv (set_mem m' s) pt.
Proof.
  intros (Hr & F & fl & l & I) Hu Ho. destruct (vo_valid _ _ _ _ _ I w) as (Hfl & Hn & Hbm); [apply Hu..|].
  assert (forall p, aligned p -> p <> PTE2PA (ld64 (v_mem s) w) -> page_eq (v_mem s) m' p) as Hoff.
  { intros p Hp Hne x Hx. apply Ho. intros Hx'. apply Hne. apply (aligned_disjoint _ _ x); try done. apply PTE2PA_aligned. }
  assert (tables_eq (v_mem s) m') as He.
  { intros p k Hp. apply Hoff; [by eapply upage_aligned, (vo_tpages _ _ _ _ _ I)|]. intros ->. congruence. }
  split; [done|]. split; [by apply (frames_ok_ext (v_mem s)); [|apply I|]|]. exists fl, l. apply vm_ok_mem; [done|exact He| |].
  - intros p Hp. apply Hoff; [by apply (free_not_bm _ _ _ _ _ _ I)|]. by intros ->.
  - intros x Hx Hv Hs. destruct (vo_slot _ _ _ _ _ I x Hx Hv Hs) as [Hok Hus]. rewrite <- Hus.
    apply slot_used_ext; [done|]. intros y Hy. apply (Hoff (v_bitmap s)); [apply (vo_bm _ _ _ _ _ I)|done|exact Hy].
Qed.

Definition vm_user_laws : @UserMemLaws (vm C) vm_user.
Proof.
  refine (@Build_UserMemLaws (vm C) vm_user vm_uinv _ _ _ _ _).
  - intros u pt va b E. cbn in E. destruct (user_pa _ _ _ _); [|done]. injection E as <-. apply u8_range.
  - intros pt va b u u' pt' Iu E Iu'. destruct (vm_uput_spec _ _ _ _ _ Iu E) as (pa & w & _ & -> & Hu & Hin & _).
    apply (vm_uinv_write _ _ w); [done|done|]. intros x Hx. apply ld8_st8_other. by intros ->.
  - intros pt va va' b u u' Iu E Hw b'. destruct (vm_uput_spec _ _ _ _ _ Iu E) as (pa & w & _ & -> & _ & _ & He).
    destruct Iu as (Hr & _ & fl & l & I). specialize (Hw b'). cbn in *.
    rewrite (user_pa_ext (v_mem u)); [|done|apply I|done]. by destruct (user_pa (v_mem u) pt va' true).
  - intros pt va b u u' Iu E. destruct (vm_uput_spec _ _ _ _ _ Iu E) as (pa & w & Ep & -> & _ & _ & He).
    destruct Iu as (Hr & F & fl & l & I). cbn in *. rewrite (user_pa_ext (v_mem u)); [|done|apply I|done].
    rewrite (user_pa_read _ _ _ pa) by (done || apply I). cbn. by rewrite ld8_st8_same.
  - intros pt va va' b u u' Iu E Hne. destruct (vm_uput_spec _ _ _ _ _ Iu E) as (pa & w & Ep & -> & _ & _ & He).
    destruct Iu as (Hr & F & fl & l & I). cbn in *. rewrite (user_pa_ext (v_mem u)); [|done|apply I|done].
    destruct (user_pa (v_mem u) pt va' false) as [pa'|] eqn:Ep'; [|done]. cbn. f_equal. apply ld8_st8_other.
    intros ->. apply Hne. by eapply (user_pa_inj (v_mem u)); [apply I| | | |].
Defined.

(** * The copy loops *)
Section loops.
Context `{BufCache C} (fuel : nat).
Abbreviation vbyte := (@ubyte (vm C) vm_user).

(** Kernel memory: no page-table page and no page of a process. *)
Definition kernel_range (m : mem) (a n : Z) : Prop := forall x, a <= x < a + n ->
  (forall p k, T !! p = Some k -> ~ in_page p x) /\ (forall w, user_pte m w -> ~ in_page (PTE2PA (ld64 m w)) x).

Lemma down_mod va : PGROUNDDOWN va mod PGSIZE = 0 /\ va - PGROUNDDOWN va = va mod PGSIZE /\ PGROUNDDOWN (PGROUNDDOWN va) = PGROUNDDOWN va.
Proof. rewrite !PGROUNDDOWN_spec. unfold PGSIZE. zdiv. Qed.
Lemma down_MAXVA va : 0 <= va -> 0 <= PGROUNDDOWN va /\ (PGROUNDDOWN va < MAXVA <-> va < MAXVA).
Proof.
  rewrite PGROUNDDOWN_spec. unfold MAXVA, PGSIZE.
  change (Z.shiftl 1 (9 + 9 + 9 + 12 - 1)) with (67108864 * 4096). zdiv.
Qed.
Lemma user_pa_down m root va wr : 0 <= va ->
  user_pa m root va wr = (fun pa => pa + va mod PGSIZE) <$> user_pa m root (PGROUNDDOWN va) wr.
Proof.
  intros Hva. destruct (down_mod va) as (E1 & E2 & E3). destruct (down_MAXVA va Hva) as [H0 H1].
  unfold user_pa. rewrite E1, E3.
  assert ((0 <=? PGROUNDDOWN va) && (PGROUNDDOWN va <? MAXVA) = (0 <=? va) && (va <? MAXVA)) as -> by (bools; tauto).
  case_match; [|done]. case_match; [|done]. cbn. f_equal. lia.
Qed.

Lemma walkaddr_run root va s : 0 <= va -> va mod PGSIZE = 0 ->
  walkaddr kend fuel root va s = Ret (default 0 (user_pa (v_mem s) root va false), s).
Proof.
  intros Hva Hal. unfold walkaddr, user_pa. rewrite Z.geb_leb. rewrite (proj2 (Z.leb_le 0 va) Hva). cbn [andb].
  destruct (Z.leb_spec MAXVA va) as [Hm|Hm]; [by rewrite (proj2 (Z.ltb_ge _ _))|].
  rewrite (proj2 (Z.ltb_lt _ _) Hm). unfold walk. rewrite bind_run, walk_pure by done.
  replace (PGROUNDDOWN va) with va by (rewrite PGROUNDDOWN_spec; lia).
  destruct (pwalk (v_mem s) root va =? 0); [done|]. cbn [negb andb]. unfold rd64. rewrite bind_run. cbn [gets].
  destruct (flag_set _ PTE_V); [|done]. destruct (flag_set _ PTE_U); [|done]. cbn [negb andb].
  rewrite Hal, Z.add_0_r. destruct (Z.eqb_spec (PTE2PA (ld64 (v_mem s) (pwalk (v_mem s) root va))) 0) as [->|]; done.
Qed.
Lemma walkaddr_nonzero m root va pa : va mod PGSIZE = 0 -> user_pa m root va false = Some pa -> pa <> 0.
Proof.
  intros Hal. unfold user_pa. case_match; [|done]. rewrite Hal, Z.add_0_r.
  destruct (PTE2PA (ld64 m (pwalk m root (PGROUNDDOWN va))) =? 0) eqn:E; rewrite ?andb_false_r; [done|].
  case_match; [|done]. intros E'. apply (inj Some) in E'. subst pa. by apply Z.eqb_neq.
Qed.

(** A copy into kernel memory changes neither tables nor user bytes. *)
Lemma kernel_write m m' a n : tables_ok T m -> kernel_range m a n ->
  (forall x, ~ (a <= x < a + n) -> ld8 m' x = ld8 m x) -> tables_eq m m'.
Proof.
  intros Ht K Ho p k Hp x Hx. apply Ho. intros Hx'. by destruct (K x Hx') as [K1 _]; apply (K1 p k).
Qed.
Lemma kernel_write_byte s m' a n root va : tables_ok T (v_mem s) -> kernel_range (v_mem s) a n -> T !! root = Some 2%nat ->
  (forall x, ~ (a <= x < a + n) -> ld8 m' x = ld8 (v_mem s) x) -> vbyte (set_mem m' s) root va = vbyte s root va.
Proof.
  intros Ht K Hr Ho. cbn. rewrite (user_pa_ext (v_mem s)); [|by eapply kernel_write|done|done].
  destruct (user_pa (v_mem s) root va false) as [pa|] eqn:E; [|done]. cbn. f_equal. apply Ho. intros Hx.
  destruct (user_pa_inv _ _ _ _ _ Ht Hr E) as (_ & _ & Hu & _ & Hin). by destruct (K pa Hx) as [_ K2]; apply (K2 _ Hu).
Qed.
Lemma kernel_range_ext m m' a n b k : kernel_range m a n -> tables_eq m m' -> tables_ok T m -> a <= b -> b + k <= a + n ->
  kernel_range m' b k.
Proof.
  intros K He Ht Hb Hk x Hx. destruct (K x) as [K1 K2]; [lia|]. split; [done|]. intros w (Hw & Hv & HU).
  rewrite (leaf_eq_pages T m m') in * by done. by apply K2.
Qed.

Definition rounds_for (va len : Z) : Z := (va mod PGSIZE + len + PGSIZE - 1) / PGSIZE.
Lemma rounds_step va len n : 0 <= va -> 0 < len -> n = Z.min (PGSIZE - va mod PGSIZE) len ->
  0 < n <= len /\ va mod PGSIZE + n <= PGSIZE /\ rounds_for (PGROUNDDOWN va + PGSIZE) (len - n) < rounds_for va len /\
  (n < len -> PGROUNDDOWN va + PGSIZE = va + n).
Proof.
  intros Hva Hl ->. rewrite PGROUNDDOWN_spec. unfold rounds_for, PGSIZE. pose proof (Z.mod_pos_bound va 4096 ltac:(done)).
  assert ((va - va mod 4096 + 4096) mod 4096 = 0) as -> by zdiv. split_and!; zdiv.
Qed.
Lemma rounds_enough va len : 0 <= va -> 0 <= len -> rounds_for va len < Z.of_nat (copy_rounds len).
Proof. intros Hva Hl. unfold copy_rounds, rounds_for, PGSIZE. zdiv. Qed.

Lemma copyin_loop_ok root rounds : forall dst va len s,
  tables_ok T (v_mem s) -> T !! root = Some 2%nat -> kernel_range (v_mem s) dst len -> 0 <= va -> 0 <= len ->
  rounds_for va len < Z.of_nat rounds ->
  wp (copyin_loop kend fuel rounds root dst va len) s (fun r s' => exists m', s' = set_mem m' s /\
    (forall x, ~ (dst <= x < dst + len) -> ld8 m' x = ld8 (v_mem s) x) /\
    ((r = 0 /\ forall j, 0 <= j < len -> vbyte s root (va + j) = Some (ld8 m' (dst + j))) \/
     (r = -1 /\ exists j, 0 <= j < len /\ vbyte s root (va + j) = None))).
Proof.
  induction rounds as [|rounds IH]; intros dst va len s Ht Hr K Hva Hl Hro.
  { unfold rounds_for, PGSIZE in Hro. zdiv. }
  cbn [copyin_loop]. rewrite Z.gtb_ltb. destruct (Z.ltb_spec 0 len) as [Hpos|]; cbn [negb]; cycle 1.
  { apply wp_ret. exists (v_mem s). split; [by destruct s|]. split; [done|]. left. split; [done|]. lia. }
  destruct (down_mod va) as (E1 & E2 & E3). destruct (down_MAXVA va Hva) as [Hd0 _].
  apply wp_bind. eexists _, _. split; [by apply walkaddr_run|]. rewrite E2.
  set (n := Z.min (PGSIZE - va mod PGSIZE) len).
  destruct (rounds_step va len n Hva Hpos eq_refl) as (Hn & Hpg & Hrs & Hnext).
  pose proof (user_pa_down (v_mem s) root va false Hva) as Epa.
  destruct (user_pa (v_mem s) root (PGROUNDDOWN va) false) as [pa|] eqn:Ep; cbn [default fmap option_fmap option_map] in *; cycle 1.
  { cbn. apply wp_ret. exists (v_mem s). split; [by destruct s|]. split; [done|]. right. split; [done|]. exists 0.
    split; [lia|]. cbn. by rewrite Z.add_0_r, Epa. }
  change (id pa) with pa. rewrite (proj2 (Z.eqb_neq _ _) (walkaddr_nonzero _ _ _ _ E1 Ep)).
  apply wp_bind, wp_modify. set (m1 := mcopy (v_mem s) dst (pa + va mod PGSIZE) n).
  assert (forall x, ~ (dst <= x < dst + n) -> ld8 m1 x = ld8 (v_mem s) x) as Ho1.
  { intros x Hx. unfold m1. rewrite ld8_mcopy. by bools. }
  assert (forall x, ~ (dst <= x < dst + len) -> ld8 m1 x = ld8 (v_mem s) x) as Ho2 by (intros x Hx; apply Ho1; lia).
  pose proof (kernel_write _ _ _ _ Ht K Ho2) as He.
  eapply wp_mono; [apply (IH (dst + n) (PGROUNDDOWN va + PGSIZE) (len - n) (set_mem m1 s)); cbn [v_mem set_mem]|].
  - eapply tables_ok_ext; [by apply inner_eq_pages|done].
  - done.
  - eapply kernel_range_ext; [done|done|done|lia|lia].
  - unfold PGSIZE. lia.
  - lia.
  - lia.
  - intros r s' (m' & -> & Ho & Hres). exists m'. cbn [v_mem set_mem] in *. split; [done|].
    split; [intros x Hx; rewrite Ho by lia; apply Ho2; lia|].
    assert (forall va', vbyte (set_mem m1 s) root va' = vbyte s root va') as Hb
      by (intros va'; by apply (kernel_write_byte s m1 dst len)).
    destruct Hres as [(-> & Hin)|(-> & j & Hj & Hno)].
    + left. split; [done|]. intros j Hj. destruct (Z.lt_ge_cases j n) as [Hjn|Hjn].
      * cbn. rewrite user_pa_same_page, Epa by lia. cbn. f_equal. rewrite Ho by lia. unfold m1. rewrite ld8_mcopy. bools.
        f_equal. lia.
      * rewrite Hnext in Hin by lia. specialize (Hin (j - n)). rewrite Hb in Hin.
        replace (va + n + (j - n)) with (va + j) in Hin by lia. rewrite Hin by lia. do 2 f_equal. lia.
    + right. split; [done|]. exists (n + j). split; [lia|]. rewrite Hnext, Hb in Hno by lia. by rewrite Z.add_assoc.
Qed.

Abbreviation vcopyout := (@ucopyout (vm C) vm_user).
(** The [n] bytes at [a]. *)
Definition kbytes (m : mem) (a n : Z) : list Z := (fun i => ld8 m (a + i)) <$> seqZ 0 n.

Lemma pwalk_meq m m' root va : m ≈m m' -> pwalk m' root va = pwalk m root va.
Proof.
  intros E. assert (forall a, ld64 m' a = ld64 m a) as El by (intros a; apply ld_ext; intros; symmetry; apply E).
  unfold pwalk, entry. by rewrite !El.
Qed.
Lemma user_pa_meq m m' root va wr : m ≈m m' -> user_pa m' root va wr = user_pa m root va wr.
Proof.
  intros E. assert (forall a, ld64 m' a = ld64 m a) as El by (intros a; apply ld_ext; intros; symmetry; apply E).
  unfold user_pa. by rewrite (pwalk_meq m m'), El.
Qed.
Lemma ucopyout_meq root l : forall va m m' s, m ≈m m' ->
  exists ok m1 m1', vcopyout root va l (set_mem m s) = (ok, set_mem m1 s) /\
    vcopyout root va l (set_mem m' s) = (ok, set_mem m1' s) /\ m1 ≈m m1'.
Proof.
  induction l as [|b l IH]; intros va m m' s E; cbn [ucopyout]; [by exists true, m, m'|].
  cbn [uput vm_user v_mem set_mem]. rewrite (user_pa_meq m m') by done.
  destruct (user_pa m root va true) as [pa|]; cbn [fmap option_fmap option_map]; [|by exists false, m, m'].
  apply (IH (va + 1) (st8 m pa b) (st8 m' pa b) s). intros x. rewrite !ld8_st8. by case_bool.
Qed.

(** Bytes within one page. *)
Lemma ucopyout_page root l : forall va pa s, vm_uinv s root -> 0 <= va -> va mod PGSIZE + lenZ l <= PGSIZE ->
  user_pa (v_mem s) root va true = Some pa ->
  exists m1, vcopyout root va l s = (true, set_mem m1 s) /\ vm_uinv (set_mem m1 s) root /\
    forall x, ld8 m1 x = if (pa <=? x) && (x <? pa + lenZ l) then u8 (l !!! Z.to_nat (x - pa)) else ld8 (v_mem s) x.
Proof.
  induction l as [|b l IH]; intros va pa s Iu Hva Hpg Ep; cbn [ucopyout length] in *.
  { exists (v_mem s). split; [by destruct s|]. split; [by destruct s|]. intros x. by bools. }
  assert (@uput _ vm_user root va b s = Some (set_mem (st8 (v_mem s) pa b) s)) as Eu by (cbn; by rewrite Ep).
  rewrite Eu. destruct (vm_uput_spec _ _ _ _ _ Iu Eu) as (_ & _ & _ & _ & _ & _ & He).
  pose proof (@uput_inv _ _ vm_user_laws _ _ _ _ _ _ Iu Eu Iu) as Iu1. cbn in Iu1, He.
  destruct (decide (l = [])) as [->|Hne].
  { exists (st8 (v_mem s) pa b). split; [done|]. split; [done|]. intros x. rewrite ld8_st8. cbn [length].
    bools. replace (x - pa) with 0 by lia. done. }
  assert (0 < lenZ l) as Hl by (destruct l; [done|cbn; lia]).
  destruct (IH (va + 1) (pa + 1) (set_mem (st8 (v_mem s) pa b) s)) as (m1 & E1 & I1 & Hm1).
  - exact Iu1.
  - lia.
  - destruct (off_page va 1 Hva) as (_ & -> & _); lia.
  - destruct Iu as (Hr & _ & fl & l0 & I). cbn [v_mem set_mem]. rewrite (user_pa_ext (v_mem s)); [|done|apply I|done].
    rewrite user_pa_same_page, Ep by lia. done.
  - exists m1. split; [done|]. split; [done|]. intros x. rewrite Hm1. cbn [v_mem set_mem]. rewrite ld8_st8. bools; try done.
    + replace (Z.to_nat (x - pa)) with (S (Z.to_nat (x - (pa + 1)))) by lia. done.
    + replace (x - pa) with 0 by lia. done.
Qed.

Lemma kbytes_split m a n k : 0 <= n -> 0 <= k -> kbytes m a (n + k) = kbytes m a n ++ kbytes m (a + n) k.
Proof.
  intros Hn Hk. unfold kbytes. rewrite seqZ_app, fmap_app by done. f_equal.
  rewrite Z.add_0_l. replace (seqZ n k) with (Z.add n <$> seqZ 0 k) by (rewrite fmap_add_seqZ; f_equal; lia).
  rewrite <- list_fmap_compose. apply list_fmap_ext. intros i x _. unfold compose. f_equal. lia.
Qed.
Lemma kbytes_cons m a n : 0 < n -> kbytes m a n = ld8 m a :: kbytes m (a + 1) (n - 1).
Proof.
  intros Hn. replace n with (1 + (n - 1)) at 1 by lia. rewrite kbytes_split by lia.
  unfold kbytes at 1. rewrite seqZ_cons, seqZ_nil by lia. by rewrite fmap_cons, Z.add_0_r.
Qed.
Lemma kbytes_length m a n : 0 <= n -> lenZ (kbytes m a n) = n.
Proof. intros Hn. unfold kbytes. rewrite length_fmap, length_seqZ. lia. Qed.
Lemma kbytes_lookup m a n i : 0 <= i < n -> kbytes m a n !!! Z.to_nat i = ld8 m (a + i).
Proof.
  intros Hi. apply list_lookup_total_correct. unfold kbytes. rewrite list_lookup_fmap, lookup_seqZ_lt by lia.
  cbn. do 2 f_equal. lia.
Qed.
Lemma kbytes_ext m m' a n : (forall x, a <= x < a + n -> ld8 m' x = ld8 m x) -> kbytes m' a n = kbytes m a n.
Proof. intros E. apply list_fmap_ext. intros i x [-> Hx]%lookup_seqZ. apply E. lia. Qed.

(** The test of [copyout] is [user_pa]. *)
Lemma copyout_round rounds root va src len s : 0 <= va -> 0 < len ->
  copyout_loop kend fuel (S rounds) root va src len s =
  match user_pa (v_mem s) root (PGROUNDDOWN va) true with
  | None => Ret (-1, s)
  | Some pa => let n := Z.min (PGSIZE - va mod PGSIZE) len in
      copyout_loop kend fuel rounds root (PGROUNDDOWN va + PGSIZE) (src + n) (len - n)
        (set_mem (mcopy (v_mem s) (pa + va mod PGSIZE) src n) s)
  end.
Proof.
  intros Hva Hl. cbn [copyout_loop]. rewrite Z.gtb_ltb, (proj2 (Z.ltb_lt _ _) Hl). cbn [negb].
  destruct (down_mod va) as (E1 & E2 & E3). destruct (down_MAXVA va Hva) as [Hd0 _]. rewrite E2.
  unfold user_pa. rewrite Z.geb_leb, (proj2 (Z.leb_le 0 _) Hd0), E3, E1, Z.add_0_r. cbn [andb].
  destruct (Z.leb_spec MAXVA (PGROUNDDOWN va)) as [Hm|Hm]; [by rewrite (proj2 (Z.ltb_ge _ _))|].
  rewrite (proj2 (Z.ltb_lt _ _) Hm). unfold walk. rewrite bind_run, walk_pure by done.
  destruct (pwalk (v_mem s) root (PGROUNDDOWN va) =? 0); [done|]. cbn [negb andb]. unfold rd64. rewrite bind_run. cbn [gets].
  destruct (flag_set _ PTE_V), (flag_set _ PTE_U), (flag_set _ PTE_W); done.
Qed.

Lemma copyout_loop_ok root rounds : forall va src len s,
  vm_uinv s root -> kernel_range (v_mem s) src len -> 0 <= va -> 0 <= len -> rounds_for va len < Z.of_nat rounds ->
  wp (copyout_loop kend fuel rounds root va src len) s (fun r s' => exists m' ok m1, s' = set_mem m' s /\
    vcopyout root va (kbytes (v_mem s) src len) s = (ok, set_mem m1 s) /\ r = (if ok then 0 else -1) /\ m' ≈m m1).
Proof.
  induction rounds as [|rounds IH]; intros va src len s Iu K Hva Hl Hro.
  { unfold rounds_for, PGSIZE in Hro. zdiv. }
  destruct (Z.lt_ge_cases 0 len) as [Hpos|Hz]; cycle 1.
  { cbn [copyout_loop]. rewrite Z.gtb_ltb, (proj2 (Z.ltb_ge _ _) Hz). apply wp_ret.
    exists (v_mem s), true, (v_mem s). unfold kbytes. rewrite seqZ_nil by lia. by destruct s. }
  set (n := Z.min (PGSIZE - va mod PGSIZE) len).
  destruct (rounds_step va len n Hva Hpos eq_refl) as (Hn & Hpg & Hrs & Hnext).
  unfold wp. rewrite copyout_round by done. fold n. pose proof (user_pa_down (v_mem s) root va true Hva) as Epa.
  destruct (user_pa (v_mem s) root (PGROUNDDOWN va) true) as [pa|] eqn:Ep; cbn [fmap option_fmap option_map] in Epa; cycle 1.
  { eexists _, _. split; [done|]. exists (v_mem s), false, (v_mem s). split; [by destruct s|]. split; [|done].
    rewrite kbytes_cons by lia. cbn [ucopyout uput vm_user]. rewrite Epa. by destruct s. }
  set (m1 := mcopy (v_mem s) (pa + va mod PGSIZE) src n).
  destruct (ucopyout_page root (kbytes (v_mem s) src n) va (pa + va mod PGSIZE) s Iu Hva) as (m1' & E1 & I1 & Hm1);
    [rewrite kbytes_length; lia|done|]. rewrite kbytes_length in Hm1 by lia.
  assert (m1 ≈m m1') as Hmm.
  { intros x. unfold m1. rewrite ld8_mcopy, Hm1. case_match eqn:Ex; [|done].
    rewrite kbytes_lookup by (bools; lia). rewrite u8_small by apply ld8_range. f_equal; lia. }
  assert (forall x, src <= x < src + len -> ld8 m1 x = ld8 (v_mem s) x) as Hsrc.
  { intros x Hx. unfold m1. rewrite ld8_mcopy. case_match eqn:Ex; [|done]. exfalso.
    destruct Iu as (Hr & F & fl & l & I). pose proof (vo_tables _ _ _ _ _ I) as Ht.
    destruct (user_pa_inv _ _ _ _ _ Ht Hr Ep) as (_ & _ & Hu & E0 & _). destruct (down_mod va) as (E1' & _ & _).
    rewrite E1', Z.add_0_r in E0. destruct (K x Hx) as [_ K2]. apply (K2 _ Hu). unfold in_page. rewrite <- E0.
    pose proof (Z.mod_pos_bound va PGSIZE ltac:(done)). bools. }
  assert (tables_eq (v_mem s) m1 /\ vm_uinv (set_mem m1 s) root) as [He1 Iu1].
  { destruct Iu as (Hr & F & fl & l & I). pose proof (vo_tables _ _ _ _ _ I) as Ht.
    destruct (user_pa_inv _ _ _ _ _ Ht Hr Epa) as (_ & _ & Hu & E0 & _).
    assert (forall x, ~ in_page (PTE2PA (ld64 (v_mem s) (pwalk (v_mem s) root (PGROUNDDOWN va)))) x -> ld8 m1 x = ld8 (v_mem s) x) as Ho.
    { intros x Hx. unfold m1. rewrite ld8_mcopy, E0. case_match eqn:Ex; [|done]. destruct Hx. unfold in_page.
      pose proof (Z.mod_pos_bound va PGSIZE ltac:(done)). bools. }
    split; [|apply (vm_uinv_write _ _ (pwalk (v_mem s) root (PGROUNDDOWN va))); [by split_and!; eauto|done|done]].
    eapply user_write_tables; [done|apply PTE2PA_aligned|by apply (fr_frame _ F _ Hu)|exact Ho]. }
  destruct (IH (PGROUNDDOWN va + PGSIZE) (src + n) (len - n) (set_mem m1 s) Iu1) as (r & s' & Er & m' & ok & m2 & -> & E2 & -> & Hm').
  - destruct Iu as (Hr & F & fl & l & I). eapply kernel_range_ext; [exact K|done|apply I|lia|lia].
  - destruct (down_MAXVA va Hva). unfold PGSIZE. lia.
  - lia.
  - lia.
  - cbn [v_mem set_mem] in *. eexists _, _. split; [exact Er|].
    rewrite (kbytes_ext (v_mem s) m1) in E2 by (intros x Hx; apply Hsrc; lia).
    destruct (ucopyout_meq root (kbytes (v_mem s) (src + n) (len - n)) (PGROUNDDOWN va + PGSIZE) m1 m1' s Hmm)
      as (ok' & m3 & m3' & E3 & E3' & Hm3).
    rewrite E2 in E3. injection E3 as <- E3. assert (m3 = m2) as -> by congruence.
    exists m', ok, m3'. split; [done|]. split; [|split; [done|by transitivity m2]].
    replace len with (n + (len - n)) at 1 by lia. rewrite kbytes_split, ucopyout_app, E1, kbytes_length by lia.
    destruct (decide (n = len)) as [Hnl|Hnl].
    + rewrite Hnl, Z.sub_diag in *. unfold kbytes at 1 in E3'. unfold kbytes at 1. rewrite seqZ_nil in * by lia. exact E3'.
    + by rewrite <- Hnext by lia.
Qed.

(** * Strings *)
(** The bytes up to and including the first NUL, if there is one among the next
    [k] and all bytes before it are readable. *)
Fixpoint ustring (s : vm C) (root va : Z) (k : nat) : option (list Z) :=
  match k with
  | O => None
  | S k => b ← vbyte s root va; if b =? 0 then Some [0] else (b ::.) <$> ustring s root (va + 1) k
  end.
Lemma ustring_skip s root (g : Z -> Z) n : forall va k,
  (forall j, 0 <= j < Z.of_nat n -> vbyte s root (va + j) = Some (g (va + j)) /\ g (va + j) <> 0) ->
  ustring s root va (n + k) = ((g <$> seqZ va (Z.of_nat n)) ++.) <$> ustring s root (va + Z.of_nat n) k.
Proof.
  induction n as [|n IH]; intros va k Hb; cbn [Nat.add ustring].
  { rewrite Z.add_0_r. cbn. by destruct (ustring s root va k). }
  destruct (Hb 0 ltac:(lia)) as [E0 N0]. rewrite Z.add_0_r in E0, N0. rewrite E0, seqZ_S. cbn [mbind option_bind].
  rewrite (proj2 (Z.eqb_neq _ _) N0), IH.
  - replace (va + 1 + Z.of_nat n) with (va + Z.of_nat (S n)) by lia. by destruct (ustring _ _ _ k).
  - intros j Hj. rewrite <- Z.add_assoc. apply Hb. lia.
Qed.

(** The inner loop over one page. *)
Lemma copy_str_ok root n : forall dst va pa s,
  tables_ok T (v_mem s) -> T !! root = Some 2%nat -> kernel_range (v_mem s) dst (Z.of_nat n) ->
  0 <= va -> va mod PGSIZE + Z.of_nat n <= PGSIZE -> user_pa (v_mem s) root va false = Some pa ->
  wp (copy_str n dst pa) s (fun b s' => exists m', s' = set_mem m' s /\
    (forall x, ~ (dst <= x < dst + Z.of_nat n) -> ld8 m' x = ld8 (v_mem s) x) /\
    if b : bool then exists l, ustring s root va n = Some l /\ kbytes m' dst (lenZ l) = l
    else forall j, 0 <= j < Z.of_nat n -> vbyte s root (va + j) = Some (ld8 m' (dst + j)) /\ ld8 m' (dst + j) <> 0).
Proof.
  induction n as [|n IH]; intros dst va pa s Ht Hr K Hva Hpg Ep; cbn [copy_str].
  { apply wp_ret. exists (v_mem s). split; [by destruct s|]. split; [done|]. lia. }
  apply wp_bind, wp_gets.
  assert (forall b, exists m1, m1 = st8 (v_mem s) dst b /\ ld8 m1 dst = u8 b /\ tables_eq (v_mem s) m1 /\
    (forall x, x <> dst -> ld8 m1 x = ld8 (v_mem s) x) /\ (forall va', vbyte (set_mem m1 s) root va' = vbyte s root va')) as Hst.
  { intros b. eexists. split; [done|]. split; [apply ld8_st8_same|].
    assert (forall x, ~ (dst <= x < dst + Z.of_nat (S n)) -> ld8 (st8 (v_mem s) dst b) x = ld8 (v_mem s) x) as Ho
      by (intros x Hx; apply ld8_st8_other; lia).
    split; [by eapply kernel_write|]. split; [intros x Hx; by apply ld8_st8_other|].
    intros va'. by apply (kernel_write_byte s _ dst (Z.of_nat (S n))). }
  assert (vbyte s root va = Some (ld8 (v_mem s) pa)) as Eb by (cbn; by rewrite Ep).
  destruct (Z.eqb_spec (ld8 (v_mem s) pa) 0) as [E0|N0].
  - apply wp_bind, wp_modify, wp_ret. destruct (Hst 0) as (m1 & -> & _ & _ & Ho & _).
    eexists. split; [done|]. split; [intros x Hx; apply Ho; lia|]. exists [0]. cbn [ustring].
    rewrite Eb. cbn [mbind option_bind]. rewrite E0. split; [done|].
    rewrite kbytes_cons, ld8_st8_same by (cbn; lia). done.
  - apply wp_bind, wp_modify. destruct (Hst (ld8 (v_mem s) pa)) as (m1 & <- & Hd & He & Ho & Hb).
    rewrite u8_small in Hd by apply ld8_range.
    destruct (decide (n = O)) as [->|Hn].
    { cbn [copy_str]. apply wp_ret. exists m1. split; [done|]. split; [intros x Hx; apply Ho; lia|].
      intros j Hj. replace j with 0 by lia. by rewrite !Z.add_0_r, Eb, Hd. }
    eapply wp_mono; [apply (IH (dst + 1) (va + 1) (pa + 1) (set_mem m1 s)); cbn [v_mem set_mem]|].
    + eapply tables_ok_ext; [by apply inner_eq_pages|done].
    + done.
    + eapply kernel_range_ext; [exact K|done|done|lia|lia].
    + lia.
    + destruct (off_page va 1 Hva) as (_ & -> & _); lia.
    + rewrite (user_pa_ext (v_mem s)) by done. rewrite user_pa_same_page, Ep by lia. done.
    + intros b s' (m' & -> & Ho' & Hres). exists m'. cbn [v_mem set_mem] in *. split; [done|].
      split; [intros x Hx; rewrite Ho', Ho by lia; done|]. assert (ld8 m' dst = ld8 (v_mem s) pa) as Hd' by (rewrite Ho' by lia; done).
      assert (forall k va', ustring (set_mem m1 s) root va' k = ustring s root va' k) as Hus.
      { induction k as [|k IHk]; intros va'; cbn [ustring]; [done|]. by rewrite Hb, IHk. }
      destruct b.
      * destruct Hres as (l & El & Ek). rewrite Hus in El. exists (ld8 (v_mem s) pa :: l).
        cbn [ustring length]. rewrite Eb, El. cbn [mbind option_bind]. rewrite (proj2 (Z.eqb_neq _ _) N0). split; [done|].
        rewrite kbytes_cons, Hd' by lia. f_equal. rewrite <- Ek at 2. f_equal. lia.
      * intros j Hj. destruct (decide (j = 0)) as [->|Hj0]; [by rewrite !Z.add_0_r, Eb, Hd'|].
        specialize (Hres (j - 1)). rewrite Hb in Hres. replace (va + 1 + (j - 1)) with (va + j) in Hres by lia.
        replace (dst + 1 + (j - 1)) with (dst + j) in Hres by lia. apply Hres. lia.
Qed.

Lemma ustring_mono s root k k' : forall va l, ustring s root va k = Some l -> ustring s root va (k + k') = Some l.
Proof.
  induction k as [|k IH]; intros va l; cbn [ustring Nat.add]; [done|].
  destruct (vbyte s root va) as [b|]; cbn [mbind option_bind]; [|done]. destruct (b =? 0); [done|].
  destruct (ustring s root (va + 1) k) as [l'|] eqn:E; [|done]. by rewrite (IH _ l').
Qed.
Lemma ustring_ext s m' root : (forall va, vbyte (set_mem m' s) root va = vbyte s root va) ->
  forall k va, ustring (set_mem m' s) root va k = ustring s root va k.
Proof. intros Hb. induction k as [|k IH]; intros va; cbn [ustring]; [done|]. by rewrite Hb, IH. Qed.

Lemma copyinstr_loop_ok root rounds : forall dst va max s,
  tables_ok T (v_mem s) -> T !! root = Some 2%nat -> kernel_range (v_mem s) dst max -> 0 <= va -> 0 <= max ->
  rounds_for va max < Z.of_nat rounds ->
  wp (copyinstr_loop kend fuel rounds root dst va max) s (fun r s' => exists m', s' = set_mem m' s /\
    (forall x, ~ (dst <= x < dst + max) -> ld8 m' x = ld8 (v_mem s) x) /\
    ((r = 0 /\ exists l, ustring s root va (Z.to_nat max) = Some l /\ kbytes m' dst (lenZ l) = l) \/
     (r = -1 /\ ustring s root va (Z.to_nat max) = None))).
Proof.
  induction rounds as [|rounds IH]; intros dst va max s Ht Hr K Hva Hl Hro.
  { unfold rounds_for, PGSIZE in Hro. zdiv. }
  cbn [copyinstr_loop]. rewrite Z.gtb_ltb. destruct (Z.ltb_spec 0 max) as [Hpos|]; cbn [negb]; cycle 1.
  { apply wp_ret. exists (v_mem s). split; [by destruct s|]. split; [done|]. right. replace max with 0 by lia. done. }
  destruct (down_mod va) as (E1 & E2 & E3). destruct (down_MAXVA va Hva) as [Hd0 _].
  apply wp_bind. eexists _, _. split; [by apply walkaddr_run|]. rewrite E2.
  set (n := Z.min (PGSIZE - va mod PGSIZE) max).
  destruct (rounds_step va max n Hva Hpos eq_refl) as (Hn & Hpg & Hrs & Hnext).
  replace (Z.to_nat max) with (Z.to_nat n + Z.to_nat (max - n))%nat by lia.
  pose proof (user_pa_down (v_mem s) root va false Hva) as Epa.
  destruct (user_pa (v_mem s) root (PGROUNDDOWN va) false) as [pa|] eqn:Ep; cbn [default fmap option_fmap option_map] in *; cycle 1.
  { cbn. apply wp_ret. exists (v_mem s). split; [by destruct s|]. split; [done|]. right. split; [done|].
    destruct (Z.to_nat n) as [|k] eqn:Ek; [lia|]. cbn [ustring Nat.add ubyte vm_user]. by rewrite Epa. }
  change (id pa) with pa. rewrite (proj2 (Z.eqb_neq _ _) (walkaddr_nonzero _ _ _ _ E1 Ep)).
  apply wp_bind. eapply wp_mono; [eapply (copy_str_ok root (Z.to_nat n) dst va); [done|done| |done|lia|done]|].
  { eapply kernel_range_ext; [exact K|done|done|lia|lia]. }
  rewrite Z2Nat.id by lia. intros b s' (m1 & -> & Ho1 & Hb). destruct b.
  { apply wp_ret. exists m1. split; [done|]. split; [intros x Hx; apply Ho1; lia|]. left. split; [done|].
    destruct Hb as (l & El & Ek). exists l. split; [by apply ustring_mono|done]. }
  assert (forall x, ~ (dst <= x < dst + max) -> ld8 m1 x = ld8 (v_mem s) x) as Ho2 by (intros x Hx; apply Ho1; lia).
  pose proof (kernel_write _ _ _ _ Ht K Ho2) as He.
  assert (forall k va', ustring (set_mem m1 s) root va' k = ustring s root va' k) as Hus.
  { intros k va'. apply ustring_ext. intros va''. by apply (kernel_write_byte s m1 dst max). }
  eapply wp_mono; [apply (IH (dst + n) (PGROUNDDOWN va + PGSIZE) (max - n) (set_mem m1 s)); cbn [v_mem set_mem]|].
  - eapply tables_ok_ext; [by apply inner_eq_pages|done].
  - done.
  - eapply kernel_range_ext; [exact K|done|done|lia|lia].
  - unfold PGSIZE. lia.
  - lia.
  - lia.
  - intros r s' (m' & -> & Ho & Hres). exists m'. cbn [v_mem set_mem] in *. split; [done|].
    split; [intros x Hx; rewrite Ho by lia; apply Ho2; lia|]. rewrite Hus in Hres.
    assert (ustring s root va (Z.to_nat n + Z.to_nat (max - n)) =
      (kbytes m1 dst n ++.) <$> ustring s root (PGROUNDDOWN va + PGSIZE) (Z.to_nat (max - n))) as ->.
    { rewrite (ustring_skip s root (fun a => ld8 m1 (dst + (a - va)))).
      - rewrite Z2Nat.id by lia. destruct (decide (n = max)) as [Hnm|Hnm]; [|rewrite Hnext by lia].
        + replace (Z.to_nat (max - n)) with O by lia. done.
        + destruct (ustring s root (va + n) _) as [l|]; [|done]. cbn. do 2 f_equal. unfold kbytes.
          replace (seqZ va n) with (Z.add va <$> seqZ 0 n) by (rewrite fmap_add_seqZ; f_equal; lia).
          rewrite <- list_fmap_compose. apply list_fmap_ext. intros i x _. unfold compose. f_equal. lia.
      - rewrite Z2Nat.id by lia. intros j Hj. replace (va + j - va) with j by lia. by apply Hb. }
    destruct Hres as [(-> & l & El & Ek)|(-> & El)]; rewrite El; [left|right; done].
    split; [done|]. eexists. split; [done|]. rewrite length_app, Nat2Z.inj_add, kbytes_length, kbytes_split by lia.
    f_equal; [|exact Ek]. apply kbytes_ext. intros x Hx. apply Ho. lia.
Qed.

Lemma ucopyin_kbytes s root (m' : mem) n : forall va dst,
  (forall j, 0 <= j < Z.of_nat n -> vbyte s root (va + j) = Some (ld8 m' (dst + j))) ->
  @ucopyin _ vm_user s root va n = Some (kbytes m' dst (Z.of_nat n)).
Proof.
  induction n as [|n IH]; intros va dst Hb; cbn [ucopyin]; [done|].
  pose proof (Hb 0 ltac:(lia)) as E0. rewrite !Z.add_0_r in E0. rewrite E0. cbn [mbind option_bind].
  rewrite (IH (va + 1) (dst + 1)).
  - cbn. rewrite (kbytes_cons m' dst) by lia. do 3 f_equal. lia.
  - intros j Hj. rewrite <- !Z.add_assoc. apply Hb. lia.
Qed.
Lemma ucopyin_None s root n : forall va j, 0 <= j < Z.of_nat n -> vbyte s root (va + j) = None ->
  @ucopyin _ vm_user s root va n = None.
Proof.
  induction n as [|n IH]; intros va j Hj Hb; [lia|]. cbn [ucopyin].
  destruct (decide (j = 0)) as [->|]; [rewrite Z.add_0_r in Hb; by rewrite Hb|].
  destruct (vbyte s root va); cbn [mbind option_bind]; [|done]. rewrite (IH (va + 1) (j - 1)); [done|lia|].
  by replace (va + 1 + (j - 1)) with (va + j) by lia.
Qed.

(** [copyin] is the byte-wise copy.  It returns 0 with exactly the user's
    bytes at [dst] when all of them are readable through the page table, and -1
    otherwise; nothing outside the destination changes. *)
Theorem copyin_bytes s root dst va len :
  vm_uinv s root -> kernel_range (v_mem s) dst len -> 0 <= va -> 0 <= len ->
  exists r m', copyin kend fuel root dst va len s = Ret (r, set_mem m' s) /\
    (forall x, ~ (dst <= x < dst + len) -> ld8 m' x = ld8 (v_mem s) x) /\
    (r = 0 /\ @ucopyin _ vm_user s root va (Z.to_nat len) = Some (kbytes m' dst len) \/
     r = -1 /\ @ucopyin _ vm_user s root va (Z.to_nat len) = None).
Proof.
  intros (Hr & F & fl & l & I) K Hva Hl.
  destruct (copyin_loop_ok root (copy_rounds len) dst va len s (vo_tables _ _ _ _ _ I) Hr K Hva Hl (rounds_enough va len Hva Hl))
    as (r & s' & E & m' & -> & Ho & Hres).
  exists r, m'. split; [exact E|]. split; [done|]. destruct Hres as [[-> Hb]|(-> & j & Hj & Hb)]; [left|right]; (split; [done|]).
  - rewrite (ucopyin_kbytes s root m' _ va dst); [by rewrite Z2Nat.id|]. intros j Hj. apply Hb. lia.
  - apply (ucopyin_None _ _ _ _ j); [lia|done].
Qed.

(** C21. [copyout] is the byte-wise copy.  Its result and the memory it leaves are
    those of writing the kernel's bytes one by one through the page table, up to
    the first byte that is not writable. *)
Theorem copyout_bytes s root va src len :
  vm_uinv s root -> kernel_range (v_mem s) src len -> 0 <= va -> 0 <= len ->
  exists ok m' m1, copyout kend fuel root va src len s = Ret (if ok : bool then 0 else -1, set_mem m' s) /\
    @ucopyout _ vm_user root va (kbytes (v_mem s) src len) s = (ok, set_mem m1 s) /\ m' ≈m m1.
Proof.
  intros Iu K Hva Hl.
  destruct (copyout_loop_ok root (copy_rounds len) va src len s Iu K Hva Hl (rounds_enough va len Hva Hl))
    as (r & s' & E & m' & ok & m1 & -> & E1 & -> & Hm).
  exists ok, m', m1. by split.
Qed.

(** [copyinstr] returns 0 with the user's string, its NUL included, at
    [dst] when a NUL comes within [max] readable bytes, and -1 otherwise; it never
    writes beyond [max] bytes. *)
Theorem copyinstr_string s root dst va max :
  vm_uinv s root -> kernel_range (v_mem s) dst max -> 0 <= va -> 0 <= max ->
  exists r m', copyinstr kend fuel root dst va max s = Ret (r, set_mem m' s) /\
    (forall x, ~ (dst <= x < dst + max) -> ld8 m' x = ld8 (v_mem s) x) /\
    (r = 0 /\ (exists l, ustring s root va (Z.to_nat max) = Some l /\ kbytes m' dst (lenZ l) = l) \/
     r = -1 /\ ustring s root va (Z.to_nat max) = None).
Proof.
  intros (Hr & F & fl & l & I) K Hva Hl.
  destruct (copyinstr_loop_ok root (copy_rounds max) dst va max s (vo_tables _ _ _ _ _ I) Hr K Hva Hl (rounds_enough va max Hva Hl))
    as (r & s' & E & m' & -> & Ho & Hres).
  exists r, m'. by split.
Qed.
End loops.
End tables.
