(* ===== verification/VmExample.v ===== *)
(** A small concrete system: a process with two resident pages, an empty address
    space and three free pages.  It satisfies the invariant of Swap.v, so the
    theorems about swapping apply to it, and it exhibits what [uvmcopy] does when
    an allocation evicts the page it is copying. *)
From S2P Require Import Prelude Riscv Memory Ring Lru Locks Blocks Bio Kmem Vm SwapIO PageTable Pte VmInv Swap SwapIn VmFrame VmGrow VmShrink VmSpec VmCopy UserMem UserCopy.

Definition kend0 : Z := PHYSTOP - 10 * PGSIZE.
Definition pg (k : Z) : Z := kend0 + k * PGSIZE.
(** Page 0 is the parent's root table, 1 and 2 its inner and leaf tables, 3 and 4
    its two pages, 5 the bitmap, 6 the child's root table, 7 to 9 are free. *)
Definition flags0 : Z := Z.lor (Z.lor (Z.lor PTE_V PTE_R) PTE_W) PTE_U.
Definition table_pte (k : Z) : Z := Z.lor (PA2PTE (pg k)) PTE_V.
Definition leaf_pte (k flags : Z) : Z := Z.lor (PA2PTE (pg k)) flags.
Definition mem0 : mem :=
  let m := (fun _ => 0) : mem in
  let m := st64 m (pg 0 + 8 * 0) (table_pte 1) in
  let m := st64 m (pg 1 + 8 * 0) (table_pte 2) in
  let m := st64 m (pg 2 + 8 * 0) (leaf_pte 3 (Z.lor flags0 PTE_A)) in
  let m := st64 m (pg 2 + 8 * 1) (leaf_pte 4 flags0) in
  let m := st64 m (pg 4 + 8 * 0) 42 in
  let m := st64 m (pg 7 + 8 * 0) (pg 8) in
  st64 m (pg 8 + 8 * 0) (pg 9).
Definition fidx (k : Z) : Z := pageidx (pg k).
Definition lru0 : lru :=
  Lru (Some (fidx 3)) (Some (fidx 4))
    (fun i => if i =? fidx 3 then Page (Some (fidx 4)) (Some (fidx 4)) (pg 0) 0
              else if i =? fidx 4 then Page (Some (fidx 3)) (Some (fidx 3)) (pg 0) PGSIZE
              else Page None None 0 0).
Definition vm0 {C} (c : C) : vm C := Vm mem0 (pg 7) lru0 (pg 5) (SWAPMAX / BLKS_PER_PG) c 0 0.
Definition T0 : gmap Z nat := {[ pg 0 := 2%nat; pg 1 := 1%nat; pg 2 := 0%nat; pg 6 := 2%nat ]}.

Lemma pg_aligned k : aligned (pg k).
Proof. unfold aligned, pg, kend0, PHYSTOP, KERNBASE, PGSIZE. zdiv. Qed.
Lemma T0_inv p k : T0 !! p = Some k ->
  p = pg 0 /\ k = 2%nat \/ p = pg 1 /\ k = 1%nat \/ p = pg 2 /\ k = 0%nat \/ p = pg 6 /\ k = 2%nat.
Proof.
  unfold T0. rewrite !lookup_insert_Some, lookup_singleton_Some. naive_solver.
Qed.
Lemma entry_mem0 p i : aligned p -> idx i ->
  entry mem0 p i =
  if decide (p = pg 0 /\ i = 0) then table_pte 1
  else if decide (p = pg 1 /\ i = 0) then table_pte 2
  else if decide (p = pg 2 /\ i = 0) then leaf_pte 3 (Z.lor flags0 PTE_A)
  else if decide (p = pg 2 /\ i = 1) then leaf_pte 4 flags0
  else if decide (p = pg 4 /\ i = 0) then 42
  else if decide (p = pg 7 /\ i = 0) then pg 8
  else if decide (p = pg 8 /\ i = 0) then pg 9
  else 0.
Proof.
  intros Hp Hi. unfold mem0. rewrite !entry_st by (done || apply pg_aligned).
  assert (forall k j, idx j -> (p + 8 * i = pg k + 8 * j <-> p = pg k /\ i = j)) as Heq.
  { intros k j Hj. split; [|by intros [-> ->]]. intros E.
    apply entry_addr_inj in E; [done|done|apply pg_aligned|done|done]. }
  assert (forall j k, pg j = pg k -> j = k) as Hinj by (unfold pg, PGSIZE; lia).
  repeat case_decide; rewrite ?Heq in * by done; try done; intuition (subst; try done).
  all: try (match goal with H : pg ?x = pg ?y |- _ => apply Hinj in H; lia end).
Qed.

Lemma pg_inj j k : pg j = pg k -> j = k.
Proof. unfold pg, PGSIZE. lia. Qed.
Lemma T0_none k : k <> 0 -> k <> 1 -> k <> 2 -> k <> 6 -> T0 !! pg k = None.
Proof.
  intros H0 H1 H2 H6. destruct (T0 !! pg k) eqn:E; [|done].
  apply T0_inv in E as [[?%pg_inj _]|[[?%pg_inj _]|[[?%pg_inj _]|[?%pg_inj _]]]]; done.
Qed.
Lemma pg_upage k : 0 <= k < 10 -> upage kend0 (pg k).
Proof. intros Hk. split; [apply pg_aligned|]. unfold pg, kend0, PGSIZE. lia. Qed.
Lemma page_to_pa_fidx k : 0 <= k < 10 -> page_to_pa (fidx k) = pg k.
Proof. intros Hk. apply pageidx_pa; [|apply pg_aligned]. unfold pg, kend0, PHYSTOP, KERNBASE, PGSIZE. lia. Qed.

#[local] Opaque pg kend0 mem0 table_pte leaf_pte.

(** Closes cases that equate different pages. *)
Ltac pages_differ :=
  repeat match goal with
  | H : _ /\ _ |- _ => destruct H
  | H : pg _ = pg _ |- _ => apply pg_inj in H; first [discriminate H | clear H]
  end.

(** The leaf entries: the two mapped pages, all others empty. *)
Lemma leaf_mem0 w : pteaddr T0 w ->
  w = pg 2 /\ ld64 mem0 w = leaf_pte 3 (Z.lor flags0 PTE_A) \/
  w = pg 2 + 8 /\ ld64 mem0 w = leaf_pte 4 flags0 \/ ld64 mem0 w = 0.
Proof.
  intros (p & i & Hp & Hi & ->). apply T0_inv in Hp as [[_ ?]|[[_ ?]|[[-> _]|[_ ?]]]]; try done.
  change (ld64 mem0 (pg 2 + 8 * i)) with (entry mem0 (pg 2) i). rewrite entry_mem0 by (done || apply pg_aligned).
  repeat case_decide; pages_differ; subst; auto.
Qed.

Lemma tables_ok0 : tables_ok T0 mem0.
Proof.
  split.
  - intros p k Hp. apply T0_inv in Hp as [[-> _]|[[-> _]|[[-> _]|[-> _]]]]; (split; [apply pg_aligned|by vm_compute]).
  - intros p k i Hp Hi Hv. apply T0_inv in Hp as [[-> [= ->]]|[[-> [= ->]]|[[_ ?]|[-> [= ->]]]]]; try done;
      rewrite entry_mem0 in Hv |- * by (done || apply pg_aligned); revert Hv; repeat case_decide; pages_differ; done.
  - intros p k i p' k' i' Hp Hp' Hi Hi'.
    apply T0_inv in Hp as [[-> [= ->]]|[[-> [= ->]]|[[_ ?]|[-> [= ->]]]]]; try done;
    apply T0_inv in Hp' as [[-> [= ->]]|[[-> [= ->]]|[[_ ?]|[-> [= ->]]]]]; try done;
    rewrite !entry_mem0 by (done || apply pg_aligned);
    repeat case_decide; pages_differ; subst; done.
Qed.

Lemma lru_repr0 : lru_repr lru0 [fidx 3; fidx 4].
Proof.
  split; [|done|done|].
  - split.
    + apply NoDup_cons. split; [|apply NoDup_singleton]. by rewrite list_elem_of_singleton.
    + intros x y [Ha|[Hl Hh]].
      * apply adj_cons in Ha as [[-> [= <-]]|Ha]; [done|].
        apply adj_cons in Ha as [[-> ?]|([|? ?] & ? & ?)]; done.
      * by simplify_eq/=.
  - intros x Hx. unfold nexts, prevs, lru0. cbn [pages]. rewrite !not_elem_of_cons in Hx.
    rewrite !(proj2 (Z.eqb_neq _ _)) by tauto. done.
Qed.

Lemma pwalk_mem0 : pwalk mem0 (pg 0) 0 = pg 2 /\ pwalk mem0 (pg 0) PGSIZE = pg 2 + 8.
Proof. by vm_compute. Qed.
Lemma owner0 i : i ∈ [fidx 3; fidx 4] ->
  i = fidx 3 /\ owner_pte mem0 lru0 i = pg 2 \/ i = fidx 4 /\ owner_pte mem0 lru0 i = pg 2 + 8.
Proof.
  intros [->|[->|?%elem_of_nil]%elem_of_cons]%elem_of_cons; [left|right|done]; (split; [done|]);
    unfold owner_pte; apply pwalk_mem0.
Qed.
Lemma ld64_leaf0 :
  ld64 mem0 (pg 2) = leaf_pte 3 (Z.lor flags0 PTE_A) /\ ld64 mem0 (pg 2 + 8) = leaf_pte 4 flags0 /\
  PTE2PA (leaf_pte 3 (Z.lor flags0 PTE_A)) = pg 3 /\ PTE2PA (leaf_pte 4 flags0) = pg 4.
Proof. by vm_compute. Qed.

Lemma owned0 i : i ∈ [fidx 3; fidx 4] -> owned T0 mem0 lru0 i.
Proof.
  destruct ld64_leaf0 as (E1 & E2 & P1 & P2).
  intros Hi. destruct (owner0 i Hi) as [[-> E]|[-> E]].
  - split; rewrite ?E, ?E1, ?P1.
    + by vm_compute.
    + split; by vm_compute.
    + by vm_compute.
    + by vm_compute.
    + symmetry. apply page_to_pa_fidx. lia.
  - split; rewrite ?E, ?E2, ?P2.
    + by vm_compute.
    + split; by vm_compute.
    + by vm_compute.
    + by vm_compute.
    + symmetry. apply page_to_pa_fidx. lia.
Qed.

Lemma flist0 : flist mem0 (pg 7) [pg 7; pg 8; pg 9].
Proof. cbn [flist]. repeat split; vm_compute; reflexivity. Qed.

Lemma vm_ok0 {C} (c : C) : vm_ok kend0 T0 (vm0 c) [pg 7; pg 8; pg 9] [fidx 3; fidx 4].
Proof.
  destruct ld64_leaf0 as (E1 & E2 & P1 & P2).
  split; cbn [vm0 v_mem v_free v_lru v_bitmap v_slots].
  - by vm_compute.
  - apply tables_ok0.
  - intros p k Hp. apply T0_inv in Hp as [[-> _]|[[-> _]|[[-> _]|[-> _]]]]; apply pg_upage; lia.
  - apply flist0.
  - intros p [->|[->|[->|[]%elem_of_nil]%elem_of_cons]%elem_of_cons]%elem_of_cons;
      (split; [apply pg_upage; lia|apply T0_none; lia]).
  - repeat (apply NoDup_cons; split;
      [rewrite ?not_elem_of_cons; repeat split; (by intros ?%pg_inj) || apply not_elem_of_nil|]). apply NoDup_nil_2.
  - apply lru_repr0.
  - intros i [[-> _]|[-> _]]%owner0; rewrite page_to_pa_fidx by lia;
      (split; [apply pg_upage; lia|apply T0_none; lia]).
  - apply owned0.
  - split_and!; [apply pg_upage; lia|apply T0_none; lia|]. rewrite !not_elem_of_cons.
    split_and!; try (by intros ?%pg_inj). by apply not_elem_of_nil.
  - done.
  - intros w Hw Hv. destruct (leaf_mem0 w Hw) as [[_ E]|[[_ E]|E]]; rewrite E in Hv |- *; [..|done];
      rewrite ?P1, ?P2; (split_and!; [|apply T0_none; lia|by intros ?%pg_inj]);
      rewrite !not_elem_of_cons; split_and!; try (by intros ?%pg_inj); by apply not_elem_of_nil.
  - intros w i Hw Hv Hi. destruct (owner0 i Hi) as [[-> Eo]|[-> Eo]]; rewrite Eo, page_to_pa_fidx by lia;
      destruct (leaf_mem0 w Hw) as [[-> E]|[[-> E]|E]]; rewrite E in Hv |- *; rewrite ?P1, ?P2; try done;
      by intros ?%pg_inj.
  - intros w Hw Hv Hs. destruct (leaf_mem0 w Hw) as [[_ E]|[[_ E]|E]]; rewrite E in Hv, Hs; done.
  - intros w w' Hw _ Hv Hs. destruct (leaf_mem0 w Hw) as [[_ E]|[[_ E]|E]]; rewrite E in Hv, Hs; done.
Qed.

(** * The system on the buffer cache of Bio.v *)
Definition cache0 : bcache := match binit (bss_bcache blank) with Ret c => c | _ => bss_bcache blank end.
Lemma cache0_rel : bio_rel 1 cache0 (a_init blank).
Proof. destruct (binit_ok 1 blank) as (c & E & R). unfold cache0. by rewrite E. Qed.

Definition sys0 : vm bcache := vm0 cache0.
Lemma sys_ok0 : @sys_ok _ _ (bio_cache_laws 1) kend0 T0 sys0 (a_init blank) [pg 7; pg 8; pg 9] [fidx 3; fidx 4].
Proof.
  split; [apply vm_ok0|apply cache0_rel|]. split; [done|done|]. vm_compute. lia.
Qed.

Definition state_of {C A} (o : outcome (A * vm C)) (s : vm C) : vm C := match o with Ret (_, s') => s' | _ => s end.
(** After one page was swapped out. *)
Definition sys1 : vm bcache := state_of (@swapout _ (bio_cache 1) kend0 3 sys0) sys0.
Lemma sys1_pte :
  pwalk (v_mem sys1) (pg 0) PGSIZE = pg 2 + 8 /\
  valid (ld64 (v_mem sys1) (pg 2 + 8)) = false /\ swapped (ld64 (v_mem sys1) (pg 2 + 8)) = true.
Proof. by vm_compute. Qed.

(** * Instances of the theorems of SwapIn.v *)
Lemma short0 : (length [fidx 3; fidx 4] < 3)%nat.
Proof. cbn. lia. Qed.

Lemma swapout_transparent_witness :
  exists r s' fl' l' a', @swapout _ (bio_cache 1) kend0 3 sys0 = Ret (r, s') /\
    @sys_ok _ _ (bio_cache_laws 1) kend0 T0 s' a' fl' l'.
Proof.
  destruct (@swapout_transparent _ _ (bio_cache_laws 1) kend0 T0 sys0 _ _ _ 3 sys_ok0 short0)
    as (r & s' & fl' & l' & a' & E & S & _).
  exists r, s', fl', l', a'. split; [exact E|exact S].
Defined.

Lemma kalloc_fresh_witness :
  exists r s' fl' l' a', @kalloc _ (bio_cache 1) kend0 3 sys0 = Ret (r, s') /\
    @sys_ok _ _ (bio_cache_laws 1) kend0 T0 s' a' fl' l'.
Proof.
  destruct (@kalloc_fresh _ _ (bio_cache_laws 1) kend0 T0 sys0 _ _ _ 3 sys_ok0 short0)
    as (r & s' & fl' & l' & a' & E & S & _).
  exists r, s', fl', l', a'. split; [exact E|exact S].
Defined.

Lemma sys_ok1 : exists a fl l, @sys_ok _ _ (bio_cache_laws 1) kend0 T0 sys1 a fl l /\ (length l < 3)%nat.
Proof.
  destruct (@swapout_ok _ _ (bio_cache_laws 1) kend0 T0 sys0 _ _ _ 3 sys_ok0 short0)
    as (r & s' & E & fl' & l' & a' & S & _ & Hr).
  exists a', fl', l'. unfold sys1. rewrite E. cbn [state_of]. split; [exact S|].
  destruct Hr as [(_ & v & _ & HP & _)|(_ & _ & HP & _)];
    apply Permutation_length in HP; cbn in HP; lia.
Qed.

Lemma pgsize_va : 0 <= PGSIZE < MAXVA.
Proof. split; vm_compute; [discriminate|reflexivity]. Qed.
Lemma pte_addr1 : pg 2 + 8 <> 0.
Proof. vm_compute. discriminate. Qed.

Lemma swapin_transparent_witness :
  exists r s' fl' l' a', @swapin _ (bio_cache 1) kend0 3 (pg 0) PGSIZE sys1 = Ret (r, s') /\
    @sys_ok _ _ (bio_cache_laws 1) kend0 T0 s' a' fl' l'.
Proof.
  destruct sys_ok1 as (a & fl & l & S & Hl). destruct sys1_pte as (Ew & Hv & Hs).
  destruct (@swapin_transparent _ _ (bio_cache_laws 1) kend0 T0 sys1 a fl l (pg 0) PGSIZE 3)
    as (r & s' & fl' & l' & a' & E & S' & _).
  - exact S.
  - reflexivity.
  - exact pgsize_va.
  - change (PGROUNDDOWN PGSIZE) with PGSIZE. rewrite Ew. exact pte_addr1.
  - change (PGROUNDDOWN PGSIZE) with PGSIZE. rewrite Ew. exact Hv.
  - change (PGROUNDDOWN PGSIZE) with PGSIZE. rewrite Ew. exact Hs.
  - exact Hl.
  - exists r, s', fl', l', a'. split; [exact E|exact S'].
Defined.

(** * uvmcopy under memory pressure *)
(** The byte a process with page table [root] reads at [va] when the page is
    resident. *)
Definition user_byte (m : mem) (root va : Z) : option Z :=
  let pte := ld64 m (pwalk m root (PGROUNDDOWN va)) in
  if valid pte then Some (ld8 m (PTE2PA pte + (va - PGROUNDDOWN va))) else None.

Definition copied {C} (o : outcome (Z * vm C)) : option (Z * option Z) :=
  match o with Ret (r, s) => Some (r, user_byte (v_mem s) (pg 6) PGSIZE) | _ => None end.
Lemma copied_junk : copied (@uvmcopy _ (bio_cache 1) kend0 4 (pg 0) (pg 6) (2 * PGSIZE) sys0) = Some (0, Some 5).
Proof. by vm_compute. Qed.

(** C14. [uvmcopy] reads a page's address before it allocates the child's page.
    In a consistent system whose free list is short, the allocation swaps out
    the very page being copied and returns its frame: the copy reports
    success, but the child reads kalloc's junk 5 where its parent had 42. *)
Theorem uvmcopy_copies_evicted_page :
  @sys_ok _ _ (bio_cache_laws 1) kend0 T0 sys0 (a_init blank) [pg 7; pg 8; pg 9] [fidx 3; fidx 4] /\
  user_byte (v_mem sys0) (pg 0) PGSIZE = Some 42 /\
  exists s', @uvmcopy _ (bio_cache 1) kend0 4 (pg 0) (pg 6) (2 * PGSIZE) sys0 = Ret (0, s') /\
    user_byte (v_mem s') (pg 6) PGSIZE = Some 5.
Proof.
  split; [apply sys_ok0|]. split; [by vm_compute|]. pose proof copied_junk as E.
  destruct (uvmcopy _ _ _ _ _ _) as [[r s']| | |]; cbn [copied] in E; try discriminate.
  injection E as -> E. by exists s'.
Qed.

(** * Instances of the theorems of UserCopy.v *)
Lemma pg_low k : 0 <= k < 10 -> kend0 <= pg k.
Proof. intros Hk. by apply (pg_upage k). Qed.
Lemma pg_pos k : 0 <= k < 10 -> 0 < pg k.
Proof. intros Hk. apply pg_low in Hk. assert (0 < kend0) by reflexivity. lia. Qed.
Lemma frames0 : frames_ok T0 mem0.
Proof.
  destruct ld64_leaf0 as (E1 & E2 & P1 & P2). split.
  - intros w (Hw & Hv & _). destruct (leaf_mem0 w Hw) as [[_ E]|[[_ E]|E]]; rewrite E in Hv |- *; [..|done];
      rewrite ?P1, ?P2; (split; [|apply T0_none; lia]); apply pg_pos; lia.
  - intros w w' (Hw & Hv & _) (Hw' & Hv' & _).
    destruct (leaf_mem0 w Hw) as [[-> E]|[[-> E]|E]]; destruct (leaf_mem0 w' Hw') as [[-> E']|[[-> E']|E']];
      intros Ef; try reflexivity; try (rewrite E in Hv; discriminate Hv); try (rewrite E' in Hv'; discriminate Hv');
      rewrite E, E', P1, P2 in Ef; by apply pg_inj in Ef.
Qed.
Lemma uinv0 : vm_uinv kend0 T0 sys0 (pg 0).
Proof. split; [reflexivity|]. split; [exact frames0|]. eexists _, _. apply vm_ok0. Qed.
(** The kernel's memory lies below the first page. *)
Lemma kernel0 n : 0 <= n <= 100 -> kernel_range T0 mem0 (kend0 - 100) n.
Proof.
  intros Hn x Hx. destruct ld64_leaf0 as (E1 & E2 & P1 & P2).
  assert (forall k, 0 <= k < 10 -> ~ in_page (pg k) x) as Hlow.
  { intros k Hk%pg_low. unfold in_page. lia. }
  split.
  - intros p k Hp. apply T0_inv in Hp as [[-> _]|[[-> _]|[[-> _]|[-> _]]]]; apply Hlow; lia.
  - intros w (Hw & Hv & _). destruct (leaf_mem0 w Hw) as [[_ E]|[[_ E]|E]]; rewrite E in Hv |- *; [..|done];
      rewrite ?P1, ?P2; apply Hlow; lia.
Qed.

Lemma copyin_bytes_witness :
  exists r m', @copyin _ (bio_cache 1) kend0 3 (pg 0) (kend0 - 100) PGSIZE 2 sys0 = Ret (r, set_mem m' sys0).
Proof.
  destruct (@copyin_bytes _ kend0 T0 (bio_cache 1) 3 sys0 (pg 0) (kend0 - 100) PGSIZE 2 uinv0) as (r & m' & E & _).
  - apply kernel0. lia.
  - discriminate.
  - discriminate.
  - exists r, m'. exact E.
Defined.
Lemma copyout_bytes_witness :
  exists ok m', @copyout _ (bio_cache 1) kend0 3 (pg 0) (PGSIZE - 1) (kend0 - 100) 2 sys0 = Ret (if ok : bool then 0 else -1, set_mem m' sys0).
Proof.
  destruct (@copyout_bytes _ kend0 T0 (bio_cache 1) 3 sys0 (pg 0) (PGSIZE - 1) (kend0 - 100) 2 uinv0) as (ok & m' & m1 & E & _).
  - apply kernel0. lia.
  - discriminate.
  - discriminate.
  - exists ok, m'. exact E.
Defined.
Lemma copyinstr_string_witness :
  exists r m', @copyinstr _ (bio_cache 1) kend0 3 (pg 0) (kend0 - 100) PGSIZE 20 sys0 = Ret (r, set_mem m' sys0).
Proof.
  destruct (@copyinstr_string _ kend0 T0 (bio_cache 1) 3 sys0 (pg 0) (kend0 - 100) PGSIZE 20 uinv0) as (r & m' & E & _).
  - apply kernel0. lia.
  - discriminate.
  - discriminate.
  - exists r, m'. exact E.
Defined.

(** * Instances of the theorems of VmSpec.v and VmCopy.v *)
Definition cfg0 : cfg := Cfg T0 sys0 [pg 7; pg 8; pg 9] [fidx 3; fidx 4] (a_init blank).
Definition fuel0 : nat := Z.to_nat 40000.
Lemma fuel0_ok : (PHYSTOP - KERNBASE) / PGSIZE < Z.of_nat fuel0.
Proof. unfold fuel0. rewrite Z2Nat.id by lia. reflexivity. Qed.
Lemma good0 : @good _ _ (bio_cache_laws 1) kend0 cfg0.
Proof. exact sys_ok0. Qed.
Lemma over_one (P : Z -> Prop) k : P (k * PGSIZE) -> over P (k * PGSIZE) ((k + 1) * PGSIZE).
Proof.
  intros HP va Ha Hr. assert (va = k * PGSIZE) as -> by (unfold aligned, PGSIZE in *; zdiv). done.
Qed.
Lemma xview_free : xview cfg0 (pg 0) (2 * PGSIZE) = None /\ xview cfg0 (pg 6) (0 * PGSIZE) = None.
Proof. split; by vm_compute. Qed.
Lemma xview_first : is_Some (xview cfg0 (pg 0) (0 * PGSIZE)).
Proof.
  unfold xview, uview. change (x_m cfg0) with mem0. rewrite Z.mul_0_l, (proj1 pwalk_mem0).
  rewrite (proj2 (Z.eqb_neq (pg 2) 0)) by discriminate. unfold lview. rewrite (proj1 ld64_leaf0). eexists. reflexivity.
Qed.

Lemma uvmalloc_grows_witness :
  exists r x', @uvmalloc _ (bio_cache 1) kend0 fuel0 (pg 0) (2 * PGSIZE) (3 * PGSIZE) PTE_W sys0 = Ret (r, x_s x') /\
    @good _ _ (bio_cache_laws 1) kend0 x'.
Proof.
  destruct (@uvmalloc_grows _ _ (bio_cache_laws 1) kend0 fuel0 fuel0_ok cfg0 (pg 0) (2 * PGSIZE) (3 * PGSIZE) PTE_W)
    as (r & x' & E & G & _).
  - exact good0.
  - reflexivity.
  - discriminate.
  - split; discriminate.
  - split; [discriminate|reflexivity].
  - apply (over_one _ 2). exact (proj1 xview_free).
  - exists r, x'. split; [exact E|exact G].
Defined.
Lemma uvmcopy_copies_witness :
  exists x', @uvmcopy _ (bio_cache 1) kend0 fuel0 (pg 0) (pg 6) (1 * PGSIZE) sys0 = Ret (0, x_s x') /\
    @good _ _ (bio_cache_laws 1) kend0 x'.
Proof.
  destruct (@uvmcopy_copies _ _ (bio_cache_laws 1) kend0 fuel0 fuel0_ok cfg0 (pg 0) (pg 6) (1 * PGSIZE))
    as (x' & E & G & _).
  - exact good0.
  - reflexivity.
  - reflexivity.
  - discriminate.
  - split; discriminate.
  - discriminate.
  - apply (over_one _ 0). exact xview_first.
  - apply (over_one _ 0). exact (proj2 xview_free).
  - exists x'. split; [exact E|exact G].
Defined.
