(* ===== verification/Pipe.v ===== *)
(** Pipes (kernel/pipe.c).  The buffer with its free-running 32-bit counters, the
    two transfer loops as the code run between acquiring the pipe's lock and
    sleeping or returning, and the system of processes that use one pipe.  The
    theorems: the pipe is a queue for every interleaving, and no process sleeps
    while it could proceed unless a writer was killed in the middle of a write. *)
From S2P Require Import Prelude Queue UserMem.

Definition PIPESIZE : Z := 512.

Record pipe := Pipe {
  p_data : Z -> Z;
  p_nread : Z;       (* uint *)
  p_nwrite : Z;      (* uint *)
  p_readopen : bool;
  p_writeopen : bool }.

(** The wait channels: the addresses of the two counters. *)
Inductive chan := CRead | CWrite.

(** How a run under the lock ends, with the wakeups it has made: it returns a value, or
    sleeps ([pipewrite] remembers the bytes it has transferred). *)
Inductive wend := WDone (r : Z) | WSleep (i : Z).
Inductive rend := RDone (r : Z) | RSleep.

Section ops.
Context {U : Type} `{UserMem U}.

Definition pipe_full (pi : pipe) : bool := p_nwrite pi =? u32 (p_nread pi + PIPESIZE).
Definition pipe_empty (pi : pipe) : bool := p_nread pi =? p_nwrite pi.
(** [pi->data[pi->nwrite++ % PIPESIZE] = ch] and [ch = pi->data[pi->nread++ % PIPESIZE]] *)
Definition pipe_put (ch : Z) (pi : pipe) : pipe :=
  Pipe (upd (p_data pi) (p_nwrite pi mod PIPESIZE) ch) (p_nread pi) (u32 (p_nwrite pi + 1))
       (p_readopen pi) (p_writeopen pi).
Definition pipe_get (pi : pipe) : Z * pipe :=
  (p_data pi (p_nread pi mod PIPESIZE),
   Pipe (p_data pi) (u32 (p_nread pi + 1)) (p_nwrite pi) (p_readopen pi) (p_writeopen pi)).

(** The state [pipealloc] gives a new pipe; the page holds kalloc's junk. *)
Definition pipe_init (junk : Z -> Z) : pipe := Pipe junk 0 0 true true.

(** The loop of [pipewrite] with [k] bytes to go from byte [i] on.  [killed i] is
    what [killed(pr)] returns when byte [i] is handled: another CPU may set it
    at any time. *)
Fixpoint write_loop (killed : Z -> bool) (u : U) (pt addr : Z) (k : nat) (i : Z) (pi : pipe) : pipe * wend * list chan :=
  match k with
  | O => (pi, WDone i, [CRead])
  | S k =>
      if negb (p_readopen pi) || killed i then (pi, WDone (-1), [])
      else if pipe_full pi then (pi, WSleep i, [CRead])
      else match ubyte u pt (addr + i) with
           | None => (pi, WDone i, [CRead])
           | Some ch => write_loop killed u pt addr k (i + 1) (pipe_put ch pi)
           end
  end.
(** [pipewrite], or its continuation after a sleep at byte [i]. *)
Definition pipewrite (killed : Z -> bool) (u : U) (pt addr n i : Z) (pi : pipe) : pipe * wend * list chan :=
  write_loop killed u pt addr (Z.to_nat (n - i)) i pi.

Fixpoint read_loop (pt addr : Z) (k : nat) (i : Z) (pi : pipe) (u : U) : pipe * U * Z :=
  match k with
  | O => (pi, u, i)
  | S k =>
      if pipe_empty pi then (pi, u, i)
      else let '(ch, pi) := pipe_get pi in
           match uput pt (addr + i) ch u with
           | None => (pi, u, i)
           | Some u => read_loop pt addr k (i + 1) pi u
           end
  end.
(** [piperead]; after a sleep the test of its first loop is made again. *)
Definition piperead (killed : bool) (pt addr n : Z) (pi : pipe) (u : U) : pipe * U * rend * list chan :=
  if pipe_empty pi && p_writeopen pi then
    if killed then (pi, u, RDone (-1), []) else (pi, u, RSleep, [])
  else let '(pi, u, i) := read_loop pt addr (Z.to_nat n) 0 pi u in (pi, u, RDone i, [CWrite]).

(** [pipeclose]; the flag says that the page was freed. *)
Definition pipeclose (writable : bool) (pi : pipe) : pipe * list chan * bool :=
  let '(pi, w) :=
    if writable then (Pipe (p_data pi) (p_nread pi) (p_nwrite pi) (p_readopen pi) false, [CRead])
    else (Pipe (p_data pi) (p_nread pi) (p_nwrite pi) false (p_writeopen pi), [CWrite]) in
  (pi, w, negb (p_readopen pi) && negb (p_writeopen pi)).

(** * Processes around one pipe *)
Inductive thread :=
| Idle
| Writer (asleep : bool) (pt addr n i : Z)
| Reader (asleep : bool) (pt addr n : Z).

Record psys := PSys { y_pipe : pipe; y_mem : U; y_thr : gmap Z thread; y_freed : bool }.

Definition wake_one (w : list chan) (t : thread) : thread :=
  match t with
  | Idle => Idle
  | Writer a pt addr n i => Writer (a && negb (existsb (fun c => match c with CWrite => true | CRead => false end) w)) pt addr n i
  | Reader a pt addr n => Reader (a && negb (existsb (fun c => match c with CRead => true | CWrite => false end) w)) pt addr n
  end.
Definition wake (w : list chan) (ts : gmap Z thread) : gmap Z thread := wake_one w <$> ts.

Definition wthread (e : wend) (pt addr n : Z) : thread :=
  match e with WDone _ => Idle | WSleep i => Writer true pt addr n i end.
Definition rthread (e : rend) (pt addr n : Z) : thread :=
  match e with RDone _ => Idle | RSleep => Reader true pt addr n end.

(** The queue: the bytes between the counters. *)
Definition contents (pi : pipe) : list Z := qlist PIPESIZE (2 ^ 32) (p_data pi) (p_nread pi) (p_nwrite pi).

(** The counters are 32-bit and at most a buffer apart. *)
Definition pipe_wf (pi : pipe) : Prop := qwf PIPESIZE (2 ^ 32) (p_nread pi) (p_nwrite pi).
Definition count (pi : pipe) : Z := qlen (2 ^ 32) (p_nread pi) (p_nwrite pi).

Lemma size_pos : 0 < PIPESIZE.
Proof. done. Qed.
Lemma size_lt : PIPESIZE < 2 ^ 32.
Proof. done. Qed.
Lemma size_div : (PIPESIZE | 2 ^ 32).
Proof. by exists (2 ^ 23). Qed.
Ltac q lem := eapply (lem PIPESIZE (2 ^ 32) size_pos size_lt size_div).

Lemma length_contents pi : length (contents pi) = Z.to_nat (count pi).
Proof. q length_qlist. Qed.
Lemma count_range pi : pipe_wf pi -> 0 <= count pi <= PIPESIZE.
Proof. intros W. split; [q qlen_nonneg|apply W]. Qed.
Lemma pipe_full_spec pi : pipe_wf pi -> pipe_full pi = (count pi =? PIPESIZE).
Proof. q q_full. Qed.
Lemma pipe_empty_spec pi : pipe_wf pi -> pipe_empty pi = true <-> contents pi = [].
Proof. q q_empty_nil. Qed.
Lemma pipe_put_ok ch pi : pipe_wf pi -> pipe_full pi = false ->
  pipe_wf (pipe_put ch pi) /\ contents (pipe_put ch pi) = contents pi ++ [ch].
Proof.
  intros W Hf. rewrite pipe_full_spec in Hf by done. apply Z.eqb_neq in Hf. pose proof (count_range pi W).
  apply (q_put PIPESIZE _ size_pos size_lt size_div); [done|]. cbn [pipe_put p_nread]. unfold count in *. lia.
Qed.
Lemma pipe_get_ok pi ch pi' : pipe_wf pi -> pipe_empty pi = false -> pipe_get pi = (ch, pi') ->
  pipe_wf pi' /\ contents pi = ch :: contents pi'.
Proof.
  intros W He [= <- <-]. unfold pipe_empty in He. rewrite (q_empty PIPESIZE _ size_pos size_lt size_div) in He by done.
  apply Z.eqb_neq in He.
  destruct (q_get PIPESIZE _ size_pos size_lt size_div (p_data pi) _ _ W He) as (W' & _ & E). by split.
Qed.

(** A run of [pipewrite] appends the user bytes it transfers. *)
Lemma write_loop_ok killed u pt addr k : forall i pi pi' e w,
  pipe_wf pi -> write_loop killed u pt addr k i pi = (pi', e, w) ->
  exists bs, contents pi' = contents pi ++ bs /\ pipe_wf pi' /\
    p_readopen pi' = p_readopen pi /\ p_writeopen pi' = p_writeopen pi /\ p_nread pi' = p_nread pi /\
    ucopyin u pt (addr + i) (length bs) = Some bs /\
    match e with
    | WDone r => r = -1 /\ w = [] /\ (p_readopen pi = false /\ bs = [] \/ (length bs < k)%nat /\ killed (i + lenZ bs) = true) \/
                 r = i + lenZ bs /\ w = [CRead] /\
                   (length bs = k \/ (length bs < k)%nat /\ ubyte u pt (addr + r) = None)
    | WSleep j => j = i + lenZ bs /\ w = [CRead] /\ (length bs < k)%nat /\
                  p_readopen pi = true /\ pipe_full pi' = true
    end.
Proof.
  induction k as [|k IH]; intros i pi pi' e w W E; cbn [write_loop] in E.
  { injection E as <- <- <-. exists []. rewrite app_nil_r. split_and!; try done. right. split_and!; auto; cbn; lia. }
  destruct (negb (p_readopen pi) || killed i) eqn:Ek.
  { injection E as <- <- <-. exists []. rewrite app_nil_r. split_and!; try done. left. split_and!; try done.
    rewrite Z.add_0_r. apply orb_true_iff in Ek as [Ek|Ek]; [left|right; cbn; auto with lia]. by destruct (p_readopen pi). }
  apply orb_false_iff in Ek as [Ho%negb_false_iff Hk].
  destruct (pipe_full pi) eqn:Ef.
  { injection E as <- <- <-. exists []. rewrite app_nil_r. split_and!; try done; cbn; lia. }
  destruct (ubyte u pt (addr + i)) as [ch|] eqn:Eb; cycle 1.
  { injection E as <- <- <-. exists []. rewrite app_nil_r. split_and!; try done. right.
    split_and!; [cbn; lia|done|]. right. split; [cbn; lia|done]. }
  destruct (pipe_put_ok ch pi W Ef) as [W' C'].
  destruct (IH _ _ _ _ _ W' E) as (bs & C & W2 & Ho' & Hw' & Hn & Hin & He). cbn [p_readopen p_writeopen p_nread pipe_put] in *.
  exists (ch :: bs). rewrite C, C', <- app_assoc. split_and!; try done.
  - cbn. rewrite Eb. cbn. replace (addr + i + 1) with (addr + (i + 1)) by lia. by rewrite Hin.
  - cbn [length]. replace (i + Z.of_nat (S (length bs))) with (i + 1 + lenZ bs) by lia. destruct e as [r|j].
    + destruct He as [(-> & -> & He)|(-> & -> & He)]; [left|right]; split_and!; try done.
      * right. destruct He as [[? _]|[? He]]; [congruence|split; [lia|done]].
      * destruct He as [<-|[? ?]]; [by left|right; split; [lia|done]].
    + destruct He as (-> & -> & Hl & _ & Hf). split_and!; try done. lia.
Qed.

(** A run of [piperead] takes bytes off the queue and delivers them in order; a
    byte that cannot be stored is lost. *)
Lemma read_loop_ok `{!UserMemLaws U} pt addr k : forall i pi u pi' u' r,
  pipe_wf pi -> uinv u pt -> read_loop pt addr k i pi u = (pi', u', r) ->
  exists ds lost, contents pi = ds ++ lost ++ contents pi' /\ pipe_wf pi' /\
    p_readopen pi' = p_readopen pi /\ p_writeopen pi' = p_writeopen pi /\ p_nwrite pi' = p_nwrite pi /\
    r = i + lenZ ds /\ ucopyin u' pt (addr + i) (length ds) = Some (u8 <$> ds) /\
    (forall va, va < addr + i -> ubyte u' pt va = ubyte u pt va) /\
    (lost = [] /\ (length ds = k \/ contents pi' = []) \/
     (exists b, lost = [b] /\ uput pt (addr + r) b u' = None)).
Proof.
  induction k as [|k IH]; intros i pi u pi' u' r W Iu E; cbn [read_loop] in E.
  { injection E as <- <- <-. exists [], []. split_and!; try done; [cbn; lia|auto]. }
  destruct (pipe_empty pi) eqn:Ee.
  { injection E as <- <- <-. exists [], []. split_and!; try done; [cbn; lia|].
    left. split; [done|]. right. by apply pipe_empty_spec. }
  destruct (pipe_get pi) as [ch pi1] eqn:Eg. destruct (pipe_get_ok pi ch pi1 W Ee Eg) as [W1 C1].
  injection Eg as _ Eg.
  destruct (uput pt (addr + i) ch u) as [u1|] eqn:Eu; cycle 1.
  { injection E as <- <- <-. exists [], [ch]. subst pi1. split_and!; try done; [cbn; lia|eauto]. }
  pose proof (uput_inv _ _ _ _ _ _ Iu Eu Iu) as Iu1.
  destruct (IH _ _ _ _ _ _ W1 Iu1 E) as (ds & lost & C & W' & Ho & Hw & Hn & -> & Hin & Hlow & Hlost).
  exists (ch :: ds), lost. subst pi1. cbn [p_readopen p_writeopen p_nwrite] in *. split_and!; try done.
  - by rewrite C1, C.
  - cbn [length]. lia.
  - cbn. rewrite Hlow, (uput_same _ _ _ _ _ Iu Eu) by lia. cbn.
    replace (addr + i + 1) with (addr + (i + 1)) by lia. by rewrite Hin.
  - intros va Hva. rewrite Hlow by lia. by apply (uput_other _ _ _ _ _ _ Iu Eu); lia.
  - destruct Hlost as [[-> Hl]|Hl]; [left|by right]. split; [done|]. cbn [length]. destruct Hl; [left|right]; [lia|done].
Qed.

(** * Interleavings *)
Context `{!UserMemLaws U}.

(** What a step did to the queue, and whether a writer found itself killed. *)
Record event := Event { e_put : list Z; e_got : list Z; e_killed : bool }.

Definition may_write (ts : gmap Z thread) (t pt addr n i : Z) : Prop :=
  ts !! t = Some Idle /\ i = 0 \/ ts !! t = Some (Writer false pt addr n i).
Definition may_read (ts : gmap Z thread) (t pt addr n : Z) : Prop :=
  ts !! t = Some Idle \/ ts !! t = Some (Reader false pt addr n).
Definition rouse (t : thread) : thread :=
  match t with Idle => Idle | Writer _ pt a n i => Writer false pt a n i | Reader _ pt a n => Reader false pt a n end.

(** One step of the system: a process runs in the pipe until it returns or
    sleeps, an end is closed by the last process that has it open, a process is
    killed (and woken, as [kill] does), or user code changes memory.  The bytes
    put are those of the writer's memory, as many as the counter has advanced;
    the bytes got are those in the reader's memory after the call, and the ones
    the counter has passed over. *)
Inductive pstep : psys -> event -> psys -> Prop :=
| ps_write t pt addr n i killed pi u ts pi' e w bs :
    may_write ts t pt addr n i -> p_writeopen pi = true ->
    pipewrite killed u pt addr n i pi = (pi', e, w) ->
    ucopyin u pt (addr + i) (Z.to_nat (u32 (p_nwrite pi' - p_nwrite pi))) = Some bs ->
    pstep (PSys pi u ts false)
          (Event bs [] (existsb killed (seqZ i (n - i))))
          (PSys pi' u (<[t := wthread e pt addr n]> (wake w ts)) false)
| ps_read t pt addr n killed pi u ts pi' u' e w ds lost :
    may_read ts t pt addr n -> uinv u pt -> p_readopen pi = true ->
    piperead killed pt addr n pi u = (pi', u', e, w) ->
    ucopyin u' pt addr (match e with RDone r => Z.to_nat r | RSleep => O end) = Some ds ->
    lost = drop (length ds) (take (Z.to_nat (u32 (p_nread pi' - p_nread pi))) (contents pi)) ->
    pstep (PSys pi u ts false) (Event [] (ds ++ lost) false)
          (PSys pi' u' (<[t := rthread e pt addr n]> (wake w ts)) false)
| ps_close writable pi u ts pi' w fr :
    (if writable : bool then p_writeopen pi = true /\ (forall t a pt ad n i, ts !! t <> Some (Writer a pt ad n i))
     else p_readopen pi = true /\ (forall t a pt ad n, ts !! t <> Some (Reader a pt ad n))) ->
    pipeclose writable pi = (pi', w, fr) ->
    pstep (PSys pi u ts false) (Event [] [] false) (PSys pi' u (wake w ts) fr)
| ps_kill t pi u ts th :
    ts !! t = Some th ->
    pstep (PSys pi u ts false) (Event [] [] false) (PSys pi u (<[t := rouse th]> ts) false)
| ps_user u' pi u ts :
    pstep (PSys pi u ts false) (Event [] [] false) (PSys pi u' ts false).

(** Runs, with all that was put and got, and whether a writer found itself killed. *)
Inductive prun : psys -> event -> psys -> Prop :=
| pr_nil s : prun s (Event [] [] false) s
| pr_step s ev s1 ev1 s2 : prun s ev s1 -> pstep s1 ev1 s2 ->
    prun s (Event (e_put ev ++ e_put ev1) (e_got ev ++ e_got ev1) (e_killed ev || e_killed ev1)) s2.

Definition pinit (junk : Z -> Z) (u : U) (ts : gmap Z thread) : psys := PSys (pipe_init junk) u ts false.
Definition all_idle (ts : gmap Z thread) : Prop := forall t th, ts !! t = Some th -> th = Idle.

(** Counters determine how much was put and got. *)
Lemma put_count pi pi' bs : pipe_wf pi -> pipe_wf pi' -> p_nread pi' = p_nread pi ->
  contents pi' = contents pi ++ bs -> Z.to_nat (u32 (p_nwrite pi' - p_nwrite pi)) = length bs.
Proof.
  intros W W' Hn Hc. apply (f_equal length) in Hc. rewrite length_app, !length_contents in Hc.
  pose proof (count_range _ W). pose proof (count_range _ W').
  destruct W as [_ Hw _], W' as [_ Hw' _]. apply (qlen_w _ _ size_pos size_lt size_div (p_nread pi)) in Hw.
  apply (qlen_w _ _ size_pos size_lt size_div (p_nread pi')) in Hw'. fold (count pi) (count pi') in *.
  rewrite Hw, Hw', Hn. unfold u32, PIPESIZE in *. clear Hw Hw'. zdiv.
Qed.
Lemma got_count pi pi' ds : pipe_wf pi -> pipe_wf pi' -> p_nwrite pi' = p_nwrite pi ->
  contents pi = ds ++ contents pi' -> Z.to_nat (u32 (p_nread pi' - p_nread pi)) = length ds.
Proof.
  intros W W' Hn Hc. apply (f_equal length) in Hc. rewrite length_app, !length_contents in Hc.
  pose proof (count_range _ W). pose proof (count_range _ W').
  unfold count, qlen, u32, PIPESIZE in *. rewrite Hn in *. destruct W as [Hr _ _], W' as [Hr' _ _]. zdiv.
Qed.

Definition is_byte (b : Z) : Prop := 0 <= b < 2 ^ 8.
Lemma bytes_u8 l : Forall is_byte l -> u8 <$> l = l.
Proof. induction 1 as [|b l Hb _ IH]; [done|]. cbn. by rewrite u8_small, IH. Qed.
Lemma ucopyin_bytes u pt n : forall va l, ucopyin u pt va n = Some l -> Forall is_byte l.
Proof.
  induction n as [|n IH]; intros va l; cbn; [intros [= <-]; apply Forall_nil_2|].
  destruct (ubyte u pt va) as [b|] eqn:Eb; [|done]. cbn.
  destruct (ucopyin u pt (va + 1) n) as [l'|] eqn:El; [|done]. intros [= <-].
  apply Forall_cons. split; [by eapply ubyte_range|by eapply IH].
Qed.

(** The queue invariant of a step. *)
Definition pgood (s : psys) : Prop := pipe_wf (y_pipe s) /\ Forall is_byte (contents (y_pipe s)).

Lemma pstep_queue s ev s' : pstep s ev s' -> pgood s ->
  pgood s' /\ contents (y_pipe s) ++ e_put ev = e_got ev ++ contents (y_pipe s').
Proof.
  intros Hs [W B].
  destruct Hs as [t pt addr n i killed pi u ts pi' e w bs _ _ H2 H3|t pt addr n killed pi u ts pi' u' e w ds lost _ Iu _ H2 H3 H4
    |wr pi u ts pi' w fr _ H2| |]; cbn [y_pipe e_put e_got] in *; unfold pgood; cbn [y_pipe].
  - destruct (write_loop_ok _ _ _ _ _ _ _ _ _ _ W H2) as (bs' & C & W' & _ & _ & Hn & Hin & _).
    rewrite (put_count _ _ _ W W' Hn C), Hin in H3. injection H3 as <-. split; [|done]. split; [done|].
    rewrite C. apply Forall_app. split; [done|by eapply ucopyin_bytes].
  - unfold piperead in H2. destruct (pipe_empty pi && p_writeopen pi) eqn:Ee.
    + assert (pi' = pi /\ ds = []) as [-> ->].
      { destruct killed; injection H2 as <- <- <- <-; cbn in H3; injection H3 as <-; done. }
      rewrite Z.sub_diag in H4. cbn in H4. subst lost. cbn. by rewrite app_nil_r.
    + destruct (read_loop _ _ _ _ _ _) as [[pi1 u1] r] eqn:El. injection H2 as <- <- <- <-.
      destruct (read_loop_ok _ _ _ _ _ _ _ _ _ W Iu El) as (ds' & lost' & C & W' & _ & _ & Hn & Hr & Hin & _).
      rewrite Hr in H3. rewrite Z.add_0_l, Nat2Z.id in H3. rewrite Z.add_0_r, H3 in Hin. injection Hin as ->.
      rewrite C in B. apply Forall_app in B as [B1 [_ B2]%Forall_app].
      rewrite bytes_u8 by done. rewrite app_assoc in C. rewrite (got_count _ _ _ W W' Hn C), C in H4.
      rewrite bytes_u8, take_app_length, drop_app_length in H4 by done. subst lost.
      split; [done|]. by rewrite app_nil_r, C.
  - destruct wr; injection H2 as <- <- <-; (split; [|by rewrite app_nil_r]; split; [destruct W; by split|done]).
  - split; [done|]. by rewrite app_nil_r.
  - split; [done|]. by rewrite app_nil_r.
Qed.

Lemma prun_queue s ev s' : prun s ev s' -> pgood s ->
  pgood s' /\ contents (y_pipe s) ++ e_put ev = e_got ev ++ contents (y_pipe s').
Proof.
  induction 1 as [s|s ev s1 ev1 s2 _ IH Hs]; intros G; [by rewrite app_nil_r|].
  destruct (IH G) as [G1 E1]. destruct (pstep_queue _ _ _ Hs G1) as [G2 E2]. split; [done|].
  cbn [e_put e_got]. by rewrite app_assoc, E1, <- app_assoc, E2, app_assoc.
Qed.
Lemma pgood_init junk u ts : pgood (pinit junk u ts).
Proof. split; [split; vm_compute; intuition discriminate|apply Forall_nil_2]. Qed.

(** Nobody sleeps who could proceed. *)
Definition justified (pi : pipe) (th : thread) : Prop :=
  match th with
  | Writer true _ _ _ _ => pipe_full pi = true /\ p_readopen pi = true
  | Reader true _ _ _ => contents pi = [] /\ p_writeopen pi = true
  | _ => True
  end.
Definition all_justified (s : psys) : Prop := forall t th, y_thr s !! t = Some th -> justified (y_pipe s) th.

(** After wakeups [w] every thread is justified if those not woken still are. *)
Lemma wake_justified (pi pi' : pipe) w th :
  justified pi th ->
  (CWrite ∉ w -> pipe_full pi = true -> p_readopen pi = true -> pipe_full pi' = true /\ p_readopen pi' = true) ->
  (CRead ∉ w -> contents pi = [] -> p_writeopen pi = true -> contents pi' = [] /\ p_writeopen pi' = true) ->
  justified pi' (wake_one w th).
Proof.
  intros J Hw Hr. destruct th as [|a pt ad n i|a pt ad n]; cbn [wake_one]; [done| |].
  - destruct (existsb _ w) eqn:E; [by rewrite andb_false_r|]. rewrite andb_true_r. destruct a; [|done].
    destruct J. apply Hw; [|done..]. intros Hin. apply not_true_iff_false in E. apply E.
    apply existsb_exists. exists CWrite. split; [by apply list_elem_of_In|done].
  - destruct (existsb _ w) eqn:E; [by rewrite andb_false_r|]. rewrite andb_true_r. destruct a; [|done].
    destruct J. apply Hr; [|done..]. intros Hin. apply not_true_iff_false in E. apply E.
    apply existsb_exists. exists CRead. split; [by apply list_elem_of_In|done].
Qed.

(** A full pipe stays full under a write; an empty one stays empty under a read. *)
Lemma full_put pi pi' bs : pipe_wf pi -> pipe_wf pi' -> contents pi' = contents pi ++ bs ->
  pipe_full pi = true -> pipe_full pi' = true.
Proof.
  intros W W' C. rewrite !pipe_full_spec, !Z.eqb_eq by done. intros Hf.
  apply (f_equal length) in C. rewrite length_app, !length_contents, Hf in C.
  pose proof (count_range _ W'). unfold PIPESIZE in *. lia.
Qed.

Lemma insert_justified t th ts w (pi pi' : pipe) :
  (forall t th, ts !! t = Some th -> justified pi th) -> justified pi' th ->
  (forall th, justified pi th -> justified pi' (wake_one w th)) ->
  forall t' th', <[t := th]> (wake w ts) !! t' = Some th' -> justified pi' th'.
Proof.
  intros J Jt Jw t' th' E. apply lookup_insert_Some in E as [[-> <-]|[_ E]]; [done|].
  unfold wake in E. rewrite lookup_fmap in E. destruct (ts !! t') as [th0|] eqn:E0; [|done].
  injection E as <-. eauto.
Qed.

Lemma killed_seq (killed : Z -> bool) i n j : existsb killed (seqZ i (n - i)) = false ->
  (j < Z.to_nat (n - i))%nat -> killed (i + Z.of_nat j) = false.
Proof.
  intros E Hj. apply not_true_iff_false. intros Hk. apply not_true_iff_false in E. apply E.
  apply existsb_exists. exists (i + Z.of_nat j). split; [|done]. apply list_elem_of_In, elem_of_seqZ. lia.
Qed.

Lemma pstep_justified s ev s' : pstep s ev s' -> pgood s -> e_killed ev = false ->
  all_justified s -> all_justified s'.
Proof.
  intros Hs [W B] Hk J.
  destruct Hs as [t pt addr n i killed pi u ts pi' e w bs _ Hwo H2 _|t pt addr n killed pi u ts pi' u' e w ds lost _ Iu Hro H2 _ _
    |wr pi u ts pi' w fr Ho H2|t pi u ts th Ht|]; unfold all_justified in *; cbn [y_pipe y_thr e_killed] in *.
  - destruct (write_loop_ok _ _ _ _ _ _ _ _ _ _ W H2) as (bs' & C & W' & Ho & Hw & Hn & _ & He).
    assert (w = [CRead] \/ w = [] /\ bs' = []) as Hww.
    { destruct e as [r|j]; [|by left; apply He]. destruct He as [(_ & -> & [[_ ->]|[Hl Hkk]])|(_ & -> & _)]; auto.
      by rewrite (killed_seq killed i n) in Hkk. }
    apply (insert_justified t _ ts w pi pi' J).
    + destruct e as [r|j]; cbn; [done|]. destruct He as (_ & _ & _ & Hr & Hf). by rewrite Ho.
    + intros th Jt. apply (wake_justified pi); [done| |].
      * intros _ Hf Hr. rewrite Ho. split; [by eapply (full_put pi)|done].
      * intros Hin Hc Hwr. destruct Hww as [->|[-> ->]]; [set_solver|]. by rewrite C, app_nil_r, Hw.
  - unfold piperead in H2. destruct (pipe_empty pi && p_writeopen pi) eqn:Ee.
    + apply andb_true_iff in Ee as [Ee Hw]. apply pipe_empty_spec in Ee; [|done].
      assert (pi' = pi /\ w = []) as [-> ->] by (destruct killed; by injection H2 as <- <- <- <-).
      apply (insert_justified t _ ts [] pi pi J).
      * destruct killed; by injection H2 as <- <-.
      * intros th Jt. by apply (wake_justified pi).
    + destruct (read_loop _ _ _ _ _ _) as [[pi1 u1] r] eqn:El. injection H2 as <- <- <- <-.
      destruct (read_loop_ok _ _ _ _ _ _ _ _ _ W Iu El) as (ds' & lost' & C & _ & _ & Hw & _).
      apply (insert_justified t _ ts [CWrite] pi pi1 J); [done|]. intros th Jt.
      apply (wake_justified pi); [done|set_solver|]. intros _ Hc Hwo. rewrite Hw. split; [|done].
      rewrite Hc in C. symmetry in C. by apply app_nil in C as [_ [_ ?]%app_nil].
  - intros t th Et. unfold wake in Et. rewrite lookup_fmap in Et.
    destruct (ts !! t) as [th0|] eqn:E0; [|done]. injection Et as <-. pose proof (J _ _ E0) as J0.
    destruct wr; injection H2 as <- <- <-; destruct Ho as [_ Ho].
    + apply (wake_justified pi); [done|done|set_solver].
    + destruct th0; [done| |by destruct (Ho _ _ _ _ _ E0)]. cbn. by rewrite andb_false_r.
  - intros t' th' E. apply lookup_insert_Some in E as [[-> <-]|[_ E]]; [by destruct th|eauto].
  - exact J.
Qed.
Lemma prun_justified s ev s' : prun s ev s' -> pgood s -> e_killed ev = false ->
  all_justified s -> all_justified s'.
Proof.
  induction 1 as [s|s ev s1 ev1 s2 Hr IH Hs]; intros G Hk J; [done|]. cbn in Hk. apply orb_false_iff in Hk as [Hk Hk1].
  eapply pstep_justified; [done|by apply (prun_queue _ _ _ Hr)|done|auto].
Qed.


(** C17. No lost wakeups.  As long as no writer found itself killed, a
    writer sleeps only while the buffer is full and the read end open, and a
    reader only while it is empty and the write end open. *)
Theorem pipe_no_lost_wakeup junk u ts ev s t th :
  prun (pinit junk u ts) ev s -> all_idle ts -> e_killed ev = false -> y_thr s !! t = Some th ->
  justified (y_pipe s) th.
Proof.
  intros Hr Hi Hk. apply (prun_justified _ _ _ Hr (pgood_init junk u ts) Hk).
  intros t' th' E. by rewrite (Hi _ _ E).
Qed.
End ops.

(** * A pipe in use *)
Definition mem7 : flat := Flat 100 (fun _ => 7).
Definition two_idle : gmap Z thread := {[1 := Idle; 2 := Idle]}.
Definition start7 : psys := pinit (fun _ => 5) mem7 two_idle.

Lemma run1 (s : @psys flat) ev s' : pstep s ev s' -> prun s ev s'.
Proof. intros Hs. destruct ev as [p g k]. exact (pr_step s (Event [] [] false) s (Event p g k) s' (pr_nil s) Hs). Qed.

(** The process 2 reads from the empty pipe and goes to sleep. *)
Definition asleep7 : psys := PSys (pipe_init (fun _ => 5)) mem7 (<[2 := Reader true 0 50 2]> two_idle) false.
Lemma read_sleeps : prun start7 (Event [] [] false) asleep7.
Proof.
  apply run1, (ps_read 2 0 50 2 false (pipe_init (fun _ => 5)) mem7 two_idle
    (pipe_init (fun _ => 5)) mem7 RSleep [] [] []); try reflexivity. left. reflexivity.
Qed.


Lemma pipe_no_lost_wakeup_witness :
  y_thr asleep7 !! 2 = Some (Reader true 0 50 2) /\ justified (y_pipe asleep7) (Reader true 0 50 2).
Proof.
  split; [reflexivity|].
  apply (pipe_no_lost_wakeup (fun _ => 5) mem7 two_idle (Event [] [] false) asleep7 2).
  - exact read_sleeps.
  - intros t th E. unfold two_idle in E. apply lookup_insert_Some in E as [[_ <-]|[_ E]]; [reflexivity|].
    apply lookup_singleton_Some in E as [_ <-]. reflexivity.
  - reflexivity.
  - reflexivity.
Defined.

(** C32. The path of [pipewrite] that returns because the process was
    killed makes no wakeup: when it has already put a byte, a reader stays
    asleep on a pipe that is not empty, with the write end still open. *)
Theorem killed_writer_strands_reader :
  exists ev s, prun start7 ev s /\ e_killed ev = true /\
    y_thr s !! 2 = Some (Reader true 0 50 2) /\ contents (y_pipe s) = [7] /\ p_writeopen (y_pipe s) = true.
Proof.
  set (killed := fun i => i =? 1).
  exists (Event [7] [] true),
    (PSys (fst (fst (pipewrite killed mem7 0 0 3 0 (pipe_init (fun _ => 5))))) mem7
       (<[1 := Idle]> (wake [] (<[2 := Reader true 0 50 2]> two_idle))) false).
  split; [|by vm_compute].
  apply (pr_step start7 (Event [] [] false) asleep7 (Event [7] [] true)); [exact read_sleeps|].
  apply (ps_write 1 0 0 3 0 killed (pipe_init (fun _ => 5)) mem7 _ _ (WDone (-1)) [] [7]); try reflexivity.
  left. split; reflexivity.
Qed.
