(* ===== verification/Uart.v ===== *)
(** The serial line (kernel/uart.c): the transmit buffer between [uartputc] and the
    device, and the device's registers.  The 16550 itself is an instance of the
    class [UartDev]: what a register read returns and what a write does. *)
From S2P Require Import Prelude Queue.

Definition RHR : Z := 0.
Definition THR : Z := 0.
Definition IER : Z := 1.
Definition IER_RX_ENABLE : Z := Z.shiftl 1 0.
Definition IER_TX_ENABLE : Z := Z.shiftl 1 1.
Definition FCR : Z := 2.
Definition FCR_FIFO_ENABLE : Z := Z.shiftl 1 0.
Definition FCR_FIFO_CLEAR : Z := Z.shiftl 3 1.
Definition ISR : Z := 2.
Definition LCR : Z := 3.
Definition LCR_EIGHT_BITS : Z := Z.shiftl 3 0.
Definition LCR_BAUD_LATCH : Z := Z.shiftl 1 7.
Definition LSR : Z := 5.
Definition LSR_TX_IDLE : Z := Z.shiftl 1 5.
Definition UART_TX_BUF_SIZE : Z := 32.

Class UartDev (D : Type) := {
  dev_read : Z -> D -> Z * D;
  dev_write : Z -> Z -> D -> D }.

(** Who wrote a character to the transmit register. *)
Inductive sender := BySync | ByBuffer.

Section uart.
Context {D : Type} `{UartDev D}.

(** [u_sent] records the characters given to the device, oldest first. *)
Record uart := Uart {
  tx_buf : Z -> Z;
  tx_w : Z;          (* uint64 *)
  tx_r : Z;          (* uint64 *)
  panicked : bool;
  u_dev : D;
  u_sent : list (sender * Z) }.

Definition set_tx (b : Z -> Z) (w r : Z) (s : uart) : uart := Uart b w r (panicked s) (u_dev s) (u_sent s).
Definition set_dev (d : D) (s : uart) : uart := Uart (tx_buf s) (tx_w s) (tx_r s) (panicked s) d (u_sent s).

Definition ReadReg (reg : Z) : M uart Z := fun s =>
  let '(v, d) := dev_read reg (u_dev s) in Ret (u8 v, set_dev d s).
Definition WriteReg (reg v : Z) : M uart unit := modify (fun s => set_dev (dev_write reg (u8 v) (u_dev s)) s).
(** A write to the transmit register, recorded. *)
Definition send (by_ : sender) (c : Z) : M uart unit :=
  _ ← WriteReg THR c;
  modify (fun s => Uart (tx_buf s) (tx_w s) (tx_r s) (panicked s) (u_dev s) (u_sent s ++ [(by_, u8 c)])).

Definition uartinit : M uart unit :=
  _ ← WriteReg IER 0x00;
  _ ← WriteReg LCR LCR_BAUD_LATCH;
  _ ← WriteReg 0 0x03;
  _ ← WriteReg 1 0x00;
  _ ← WriteReg LCR LCR_EIGHT_BITS;
  _ ← WriteReg FCR (Z.lor FCR_FIFO_ENABLE FCR_FIFO_CLEAR);
  WriteReg IER (Z.lor IER_TX_ENABLE IER_RX_ENABLE).

(** The loop of [uartstart]; the result says whether [wakeup] was called.  Every
    round takes a character off the buffer, so one more round than the buffer
    holds is enough. *)
Fixpoint uartstart_loop (rounds : nat) (woke : bool) : M uart bool :=
  match rounds with
  | O => nofuel
  | S rounds =>
      s ← gets id;
      if tx_w s =? tx_r s then _ ← ReadReg ISR; mret woke
      else
        lsr ← ReadReg LSR;
        if Z.land lsr LSR_TX_IDLE =? 0 then mret woke
        else
          let c := tx_buf s (tx_r s mod UART_TX_BUF_SIZE) in
          _ ← modify (fun s => set_tx (tx_buf s) (tx_w s) (u64 (tx_r s + 1)) s);
          _ ← send ByBuffer c;
          uartstart_loop rounds true
  end.
Definition uartstart : M uart bool := uartstart_loop (S (Z.to_nat UART_TX_BUF_SIZE)) false.

(** [uartputc] sleeps while the buffer is full. *)
Definition uartputc (c : Z) : M uart bool :=
  s ← gets id;
  if panicked s then nofuel
  else if tx_w s =? u64 (tx_r s + UART_TX_BUF_SIZE) then blocked
  else
    _ ← modify (fun s => set_tx (upd (tx_buf s) (tx_w s mod UART_TX_BUF_SIZE) (u8 c)) (u64 (tx_w s + 1)) (tx_r s) s);
    uartstart.

(** The wait for the transmitter; how long it takes is up to the device. *)
Fixpoint wait_idle (fuel : nat) : M uart unit :=
  match fuel with
  | O => nofuel
  | S fuel => lsr ← ReadReg LSR; if Z.land lsr LSR_TX_IDLE =? 0 then wait_idle fuel else mret tt
  end.
Definition uartputc_sync (fuel : nat) (c : Z) : M uart unit :=
  s ← gets id;
  if panicked s then nofuel
  else _ ← wait_idle fuel; send BySync c.

Definition uartgetc : M uart Z :=
  lsr ← ReadReg LSR;
  if nz (Z.land lsr 0x01) then ReadReg RHR else mret (-1).

(** * The transmit buffer is a queue *)
Definition tx_wf (s : uart) : Prop := qwf UART_TX_BUF_SIZE (2 ^ 64) (tx_r s) (tx_w s).
Definition tx_list (s : uart) : list Z := qlist UART_TX_BUF_SIZE (2 ^ 64) (tx_buf s) (tx_r s) (tx_w s).
Definition by_buffer (l : list (sender * Z)) : list Z :=
  omap (fun '(b, c) => match b with ByBuffer => Some c | BySync => None end) l.
Definition is_char (c : Z) : Prop := 0 <= c < 2 ^ 8.

Lemma tx_pos : 0 < UART_TX_BUF_SIZE.
Proof. done. Qed.
Lemma tx_lt : UART_TX_BUF_SIZE < 2 ^ 64.
Proof. done. Qed.
Lemma tx_div : (UART_TX_BUF_SIZE | 2 ^ 64).
Proof. by exists (2 ^ 59). Qed.

Lemma by_buffer_app l k : by_buffer (l ++ k) = by_buffer l ++ by_buffer k.
Proof. apply omap_app. Qed.

Lemma wp_ReadReg reg s (Q : Z -> uart -> Prop) :
  (forall v d, Q v (set_dev d s)) -> wp (ReadReg reg) s Q.
Proof. intros HQ. unfold ReadReg. unfold wp. destruct (dev_read reg (u_dev s)) as [v d]. eauto. Qed.

(** What [uartstart] preserves: the characters sent and those still waiting. *)
Record tx_kept (s s' : uart) : Prop := {
  tk_wf : tx_wf s';
  tk_chars : Forall is_char (tx_list s');
  tk_all : by_buffer (u_sent s') ++ tx_list s' = by_buffer (u_sent s) ++ tx_list s;
  tk_panicked : panicked s' = panicked s }.

Lemma tx_take s : tx_wf s -> (tx_w s =? tx_r s) = false ->
  let s' := set_tx (tx_buf s) (tx_w s) (u64 (tx_r s + 1)) s in
  tx_wf s' /\ tx_list s = tx_buf s (tx_r s mod UART_TX_BUF_SIZE) :: tx_list s'.
Proof.
  intros W E. rewrite Z.eqb_sym, (q_empty UART_TX_BUF_SIZE _ tx_pos tx_lt tx_div), Z.eqb_neq in E by done.
  destruct (q_get _ _ tx_pos tx_lt tx_div (tx_buf s) _ _ W E) as (W' & _ & El). by split.
Qed.

Lemma uartstart_loop_ok rounds : forall s woke, tx_wf s -> Forall is_char (tx_list s) ->
  (length (tx_list s) < rounds)%nat ->
  wp (uartstart_loop rounds woke) s (fun woke' s' => tx_kept s s' /\
    (woke' = woke \/ woke' = true) /\ (tx_list s' = tx_list s \/ woke' = true)).
Proof.
  induction rounds as [|rounds IH]; intros s woke W B Hl; [lia|]. cbn [uartstart_loop].
  apply wp_bind, wp_gets. unfold id.
  destruct (tx_w s =? tx_r s) eqn:E.
  { apply wp_bind, wp_ReadReg. intros v d. apply wp_ret. split; [by split|auto]. }
  apply wp_bind, wp_ReadReg. intros v d. destruct (Z.land v LSR_TX_IDLE =? 0).
  { apply wp_ret. split; [by split|auto]. }
  apply wp_bind, wp_modify. destruct (tx_take s W E) as [W' El]. cbn zeta in *.
  set (c := tx_buf s (tx_r s mod UART_TX_BUF_SIZE)) in *. rewrite El in B, Hl. apply Forall_cons in B as [Bc B'].
  apply wp_bind. unfold send. apply wp_bind, wp_modify, wp_modify.
  eapply wp_mono; [apply IH; [exact W'|exact B'|cbn in Hl |- *; unfold tx_list in *; cbn in *; lia]|].
  intros woke' s' [[W2 B2 K2 P2] [Hw _]]. split; [|destruct Hw; auto]. split; [done|done| |done].
  rewrite K2. cbn [u_sent]. rewrite by_buffer_app, El. cbn. unfold is_char in Bc. rewrite u8_small by done.
  by rewrite <- app_assoc.
Qed.

Lemma tx_length s : tx_wf s -> (length (tx_list s) <= Z.to_nat UART_TX_BUF_SIZE)%nat.
Proof. intros [_ _ Hl]. unfold tx_list. rewrite (length_qlist _ _ tx_pos tx_lt tx_div). lia. Qed.

Lemma uartstart_ok s : tx_wf s -> Forall is_char (tx_list s) ->
  wp uartstart s (fun woke s' => tx_kept s s' /\ (tx_list s' = tx_list s \/ woke = true)).
Proof.
  intros W B. eapply wp_mono; [apply uartstart_loop_ok; [done|done|]|naive_solver].
  pose proof (tx_length s W). lia.
Qed.

Lemma uartputc_ok c s : tx_wf s -> Forall is_char (tx_list s) -> panicked s = false ->
  lenZ (tx_list s) <> UART_TX_BUF_SIZE ->
  wp (uartputc c) s (fun _ s' => tx_wf s' /\ Forall is_char (tx_list s') /\ panicked s' = false /\
    by_buffer (u_sent s') ++ tx_list s' = by_buffer (u_sent s) ++ tx_list s ++ [u8 c]).
Proof.
  intros W B Hp Hf. unfold uartputc. apply wp_bind, wp_gets. unfold id. rewrite Hp.
  pose proof (qlen_nonneg _ _ tx_pos tx_lt tx_div (tx_r s) (tx_w s)) as H0.
  assert (qlen (2 ^ 64) (tx_r s) (tx_w s) <> UART_TX_BUF_SIZE) as Hq.
  { unfold tx_list in Hf. rewrite (length_qlist _ _ tx_pos tx_lt tx_div) in Hf. lia. }
  unfold u64 at 1. rewrite (q_full UART_TX_BUF_SIZE _ tx_pos tx_lt tx_div) by done.
  rewrite (proj2 (Z.eqb_neq _ _) Hq). apply wp_bind, wp_modify.
  destruct (q_put _ _ tx_pos tx_lt tx_div (tx_buf s) _ _ (u8 c) W) as [W' El]; [destruct W; lia|].
  set (s1 := set_tx _ _ _ s). assert (tx_list s1 = tx_list s ++ [u8 c]) as E1 by exact El.
  eapply wp_mono; [apply (uartstart_ok s1); [exact W'|]|].
  - rewrite E1. apply Forall_app. split; [done|]. apply Forall_singleton, u8_range.
  - intros woke s' [[W2 B2 K2 P2] _]. split_and!; [done|done|by rewrite P2|]. by rewrite K2, E1.
Qed.

(** * Sequences of calls *)
Inductive uop := UPut (c : Z) | UIntr | USync (fuel : nat) (c : Z) | UGet.
Definition uart_op (op : uop) : M uart unit :=
  match op with
  | UPut c => _ ← uartputc c; mret tt
  | UIntr => _ ← uartstart; mret tt
  | USync fuel c => uartputc_sync fuel c
  | UGet => _ ← uartgetc; mret tt
  end.
Fixpoint uart_run (ops : list uop) : M uart unit :=
  match ops with [] => mret tt | op :: ops => _ ← uart_op op; uart_run ops end.
(** The characters processes wrote. *)
Definition puts (ops : list uop) : list Z := omap (fun op => match op with UPut c => Some (u8 c) | _ => None end) ops.

Record tx_ok (s : uart) : Prop := { to_wf : tx_wf s; to_chars : Forall is_char (tx_list s); to_alive : panicked s = false }.

Lemma uartputc_full c s : tx_ok s -> lenZ (tx_list s) = UART_TX_BUF_SIZE <-> uartputc c s = Blocked.
Proof.
  intros [W B Hp]. split.
  - intros Hf. unfold uartputc. rewrite bind_run. cbn. rewrite Hp.
    unfold u64. rewrite (q_full UART_TX_BUF_SIZE _ tx_pos tx_lt tx_div) by done.
    unfold tx_list in Hf. rewrite (length_qlist _ _ tx_pos tx_lt tx_div) in Hf.
    rewrite (proj2 (Z.eqb_eq _ _)); [done|].
    pose proof (qlen_nonneg _ _ tx_pos tx_lt tx_div (tx_r s) (tx_w s)). lia.
  - intros E. destruct (decide (lenZ (tx_list s) = UART_TX_BUF_SIZE)) as [|Hf]; [done|].
    destruct (uartputc_ok c s W B Hp Hf) as (a & s' & E' & _). congruence.
Qed.
Lemma wait_idle_ok fuel : forall s s', wait_idle fuel s = Ret (tt, s') -> exists d, s' = set_dev d s.
Proof.
  induction fuel as [|fuel IH]; intros s s' E; [done|]. cbn [wait_idle] in E. minv E. unfold ReadReg in Hrun.
  destruct (dev_read LSR (u_dev s)) as [v d]. injection Hrun as <- <-. destruct (_ =? 0).
  - destruct (IH _ _ E) as [d' ->]. by exists d'.
  - injection E as <-. by exists d.
Qed.

Lemma uart_op_ok op s s' : tx_ok s -> uart_op op s = Ret (tt, s') ->
  tx_ok s' /\ by_buffer (u_sent s') ++ tx_list s' = by_buffer (u_sent s) ++ tx_list s ++ puts [op].
Proof.
  intros O E. destruct op as [c| |fuel c|]; cbn [uart_op] in E.
  - minv E. injection E as <-. destruct (decide (lenZ (tx_list s) = UART_TX_BUF_SIZE)) as [Hf|Hf].
    { apply (uartputc_full c) in Hf; [congruence|done]. }
    destruct O as [W B Hp]. destruct (uartputc_ok c s W B Hp Hf) as (b & s1 & E' & W' & B' & Hp' & K).
    assert (s1 = s0) as -> by congruence. by split.
  - minv E. injection E as <-. destruct O as [W B Hp]. destruct (uartstart_ok s W B) as (b & s1 & E' & [W' B' K P'] & _).
    assert (s1 = s0) as -> by congruence. cbn. rewrite app_nil_r. split; [split; [done|done|congruence]|done].
  - unfold uartputc_sync in E. minv E. injection Hrun as <- <-. destruct O as [W B Hp]. rewrite Hp in E. minv E.
    destruct a. apply wait_idle_ok in Hrun as [d ->]. injection E as <-. split; [by split|].
    cbn. rewrite by_buffer_app. cbn. by rewrite !app_nil_r.
  - minv E. injection E as <-. destruct (wp_ReadReg LSR s (fun v s1 => exists d, s1 = set_dev d s)) as (v & s1 & E1 & d & ->); [eauto|].
    unfold uartgetc in Hrun. rewrite bind_run, E1 in Hrun. destruct (nz _).
    + destruct (wp_ReadReg RHR (set_dev d s) (fun v s1 => exists d, s1 = set_dev d s)) as (v' & s2 & E2 & d' & ->); [eauto|].
      assert (s0 = set_dev d' s) as -> by congruence. cbn. rewrite app_nil_r. destruct O. by split.
    + injection Hrun as _ <-. cbn. rewrite app_nil_r. destruct O. by split.
Qed.
Lemma uart_run_ok ops : forall s s', tx_ok s -> uart_run ops s = Ret (tt, s') ->
  tx_ok s' /\ by_buffer (u_sent s') ++ tx_list s' = by_buffer (u_sent s) ++ tx_list s ++ puts ops.
Proof.
  induction ops as [|op ops IH]; intros s s' O E; cbn [uart_run] in E.
  { injection E as <-. cbn. by rewrite app_nil_r. }
  minv E. destruct a. destruct (uart_op_ok _ _ _ O Hrun) as [O1 E1]. destruct (IH _ _ O1 E) as [O2 E2].
  split; [done|]. change (puts (op :: ops)) with (puts ([op] ++ ops)). unfold puts in *. rewrite omap_app.
  rewrite E2, app_assoc, E1, <- !app_assoc. done.
Qed.

(** C20. Output stays in order.  Whatever calls and interrupts follow, and
    whenever the device is ready, the characters given to the device from the
    buffer, followed by those still in it, are those that processes wrote; the
    buffer never holds more than its 32, and a further write sleeps exactly
    when it holds 32. *)
Theorem uart_in_order ops s s' :
  tx_ok s -> uart_run ops s = Ret (tt, s') ->
  by_buffer (u_sent s') ++ tx_list s' = by_buffer (u_sent s) ++ tx_list s ++ puts ops /\
  lenZ (tx_list s') <= UART_TX_BUF_SIZE /\
  (forall c, lenZ (tx_list s') = UART_TX_BUF_SIZE <-> uartputc c s' = Blocked).
Proof.
  intros O E. destruct (uart_run_ok ops s s' O E) as [O' K]. split; [done|].
  split; [pose proof (tx_length s' (to_wf _ O')); unfold UART_TX_BUF_SIZE in *; lia|]. intros c. by apply uartputc_full.
Qed.
End uart.
Arguments uart : clear implicits.

(** A device that can always send and never receives. *)
#[export] Instance ready_dev : UartDev unit := { dev_read reg d := (if reg =? LSR then 0x20 else 0, d); dev_write _ _ d := d }.
(** One that is busy. *)
Definition busy_dev : UartDev unit := {| dev_read reg d := (0, d); dev_write _ _ d := d |}.
Definition uart0 : uart unit := Uart (fun _ => 0) (2 ^ 64 - 2) (2 ^ 64 - 2) false tt [].

Lemma uart_in_order_witness :
  exists s', @uart_run _ busy_dev [UPut 65; UPut 66; UIntr; UPut 67] uart0 = Ret (tt, s') /\
    by_buffer (u_sent s') ++ tx_list s' = [65; 66; 67].
Proof.
  destruct (@uart_run _ busy_dev [UPut 65; UPut 66; UIntr; UPut 67] uart0) as [[[] s']| | |] eqn:E; try discriminate.
  exists s'. split; [reflexivity|].
  refine (proj1 (@uart_in_order _ busy_dev [UPut 65; UPut 66; UIntr; UPut 67] uart0 s' _ E)).
  split; [split; vm_compute; intuition discriminate|apply Forall_nil_2|reflexivity].
Defined.
