(* ===== verification/Console.v ===== *)
(** The console (kernel/console.c): the input buffer with its three counters, the
    line editing of [consoleintr], [consoleread] and [consolewrite].  The buffer
    is shown to implement a line discipline on two lists: the characters of
    complete lines that wait for a reader, and the line being edited. *)
From S2P Require Import Prelude Queue UserMem Uart.

Definition BACKSPACE : Z := 0x100.
Definition ctrl (x : Z) : Z := x - 64.        (* C(x) *)
Definition CTRL_D : Z := ctrl 68.
Definition CTRL_H : Z := ctrl 72.
Definition CTRL_P : Z := ctrl 80.
Definition CTRL_U : Z := ctrl 85.
Definition DEL : Z := 0x7f.
Definition NL : Z := 10.
Definition CR : Z := 13.
Definition INPUT_BUF_SIZE : Z := 128.

(** How a run of [consoleread] under the lock ends. *)
Inductive cend := CDone (r : Z) | CSleep (dst n : Z).

Section console.
Context {D : Type} `{UartDev D}.

Record console := Console {
  cons_buf : Z -> Z;
  cons_r : Z;        (* uint, read index *)
  cons_w : Z;        (* uint, write index *)
  cons_e : Z;        (* uint, edit index *)
  cons_uart : uart D }.

Definition set_cons (b : Z -> Z) (r w e : Z) (s : console) : console := Console b r w e (cons_uart s).
Definition set_e (e : Z) (s : console) : console := set_cons (cons_buf s) (cons_r s) (cons_w s) e s.
Definition on_uart {A} (m : M (uart D) A) : M console A := fun s =>
  match m (cons_uart s) with
  | Ret (a, u) => Ret (a, Console (cons_buf s) (cons_r s) (cons_w s) (cons_e s) u)
  | Panic e => Panic e
  | Blocked => Blocked
  | NoFuel => NoFuel
  end.

Definition consputc (fuel : nat) (c : Z) : M console unit :=
  if c =? BACKSPACE then
    _ ← on_uart (uartputc_sync fuel 8); _ ← on_uart (uartputc_sync fuel 32); on_uart (uartputc_sync fuel 8)
  else on_uart (uartputc_sync fuel c).

(** [consolewrite], from byte [i] on; [src] is read through [either_copyin]. *)
Fixpoint write_from {U} `{UserMem U} (u : U) (pt : Z) (user_src : bool) (src : Z) (k : nat) (i : Z) : M console Z :=
  match k with
  | O => mret i
  | S k => match either_copyin pt user_src (src + i) 1 u with
           | Some (c :: _) => _ ← on_uart (uartputc c); write_from u pt user_src src k (i + 1)
           | _ => mret i
           end
  end.
Definition consolewrite {U} `{UserMem U} (u : U) (pt : Z) (user_src : bool) (src n : Z) : M console Z :=
  write_from u pt user_src src (Z.to_nat n) 0.

(** [consoleread] from the point where [k] of the [target] bytes are missing, until
    it returns or sleeps; [killed] is what [killed(myproc())] says if it has to
    wait. *)
Fixpoint cread_loop {U} `{UserMem U} (killed : bool) (pt : Z) (user_dst : bool) (target : Z) (k : nat) (dst : Z)
    (s : console) (u : U) : console * U * cend :=
  let n := Z.of_nat k in
  match k with
  | O => (s, u, CDone (target - n))
  | S k =>
      if cons_r s =? cons_w s then (s, u, if killed then CDone (-1) else CSleep dst n)
      else
        let c := cons_buf s (cons_r s mod INPUT_BUF_SIZE) in
        let s1 := set_cons (cons_buf s) (u32 (cons_r s + 1)) (cons_w s) (cons_e s) s in
        if c =? CTRL_D then
          (if n <? target then set_cons (cons_buf s1) (u32 (cons_r s1 - 1)) (cons_w s1) (cons_e s1) s1 else s1,
           u, CDone (target - n))
        else
          let '(ok, u) := either_copyout pt user_dst dst [c] u in
          if ok : bool then
            if c =? NL then (s1, u, CDone (target - (n - 1)))
            else cread_loop killed pt user_dst target k (dst + 1) s1 u
          else (s1, u, CDone (target - n))
  end.
(** The call; [n] is an [int], a negative one reads nothing. *)
Definition consoleread {U} `{UserMem U} (killed : bool) (pt : Z) (user_dst : bool) (dst n : Z)
    (s : console) (u : U) : console * U * cend :=
  if n <=? 0 then (s, u, CDone 0) else cread_loop killed pt user_dst n (Z.to_nat n) dst s u.

(** The loop of control-U: at most the buffer is erased. *)
Fixpoint kill_line (fuel rounds : nat) : M console unit :=
  match rounds with
  | O => nofuel
  | S rounds =>
      s ← gets id;
      if negb (cons_e s =? cons_w s) && negb (cons_buf s (u32 (cons_e s - 1) mod INPUT_BUF_SIZE) =? NL) then
        _ ← modify (set_e (u32 (cons_e s - 1)));
        _ ← consputc fuel BACKSPACE;
        kill_line fuel rounds
      else mret tt
  end.

(** [consoleintr]; the result says whether readers were woken. *)
Definition consoleintr (procdump : M console unit) (fuel : nat) (c : Z) : M console bool :=
  if c =? CTRL_P then _ ← procdump; mret false
  else if c =? CTRL_U then _ ← kill_line fuel (S (Z.to_nat INPUT_BUF_SIZE)); mret false
  else if (c =? CTRL_H) || (c =? DEL) then
    s ← gets id;
    if negb (cons_e s =? cons_w s) then
      _ ← modify (set_e (u32 (cons_e s - 1)));
      _ ← consputc fuel BACKSPACE;
      mret false
    else mret false
  else
    s ← gets id;
    if negb (c =? 0) && (u32 (cons_e s - cons_r s) <? INPUT_BUF_SIZE) then
      let c := if c =? CR then NL else c in
      _ ← consputc fuel c;
      _ ← modify (fun s => set_cons (upd (cons_buf s) (cons_e s mod INPUT_BUF_SIZE) (u8 c))
                                    (cons_r s) (cons_w s) (u32 (cons_e s + 1)) s);
      s ← gets id;
      if (c =? NL) || (c =? CTRL_D) || (u32 (cons_e s - cons_r s) =? INPUT_BUF_SIZE) then
        _ ← modify (fun s => set_cons (cons_buf s) (cons_r s) (cons_e s) (cons_e s) s);
        mret true
      else mret false
    else mret false.

(** [uartintr] (kernel/uart.c): all the input, then the output. *)
Fixpoint drain (procdump : M console unit) (fuel rounds : nat) : M console unit :=
  match rounds with
  | O => nofuel
  | S rounds =>
      c ← on_uart uartgetc;
      if c =? -1 then mret tt else _ ← consoleintr procdump fuel c; drain procdump fuel rounds
  end.
Definition uartintr (procdump : M console unit) (fuel rounds : nat) : M console bool :=
  _ ← drain procdump fuel rounds;
  on_uart uartstart.

Definition consoleinit : M console unit := on_uart uartinit.

(** * The line discipline *)
(** [com]: characters of complete lines; [ed]: the line being edited. *)
Definition echo (c : Z) : list Z := if c =? BACKSPACE then [8; 32; 8] else [u8 c].
Definition line_intr (dump : list Z) (c : Z) (com ed : list Z) : list Z * list Z * list Z * bool :=
  if c =? CTRL_P then (com, ed, dump, false)
  else if c =? CTRL_U then (com, [], concat (replicate (length ed) (echo BACKSPACE)), false)
  else if (c =? CTRL_H) || (c =? DEL) then
    (com, take (pred (length ed)) ed, match ed with [] => [] | _ => echo BACKSPACE end, false)
  else if negb (c =? 0) && (lenZ (com ++ ed) <? INPUT_BUF_SIZE) then
    let c := if c =? CR then NL else c in
    let ed := ed ++ [c] in
    if (c =? NL) || (c =? CTRL_D) || (lenZ (com ++ ed) =? INPUT_BUF_SIZE)
    then (com ++ ed, [], echo c, true) else (com, ed, echo c, false)
  else (com, ed, [], false).

Definition com (s : console) : list Z := qlist INPUT_BUF_SIZE (2 ^ 32) (cons_buf s) (cons_r s) (cons_w s).
Definition ed (s : console) : list Z := qlist INPUT_BUF_SIZE (2 ^ 32) (cons_buf s) (cons_w s) (cons_e s).
Abbreviation clen := (qlen (2 ^ 32)).

(** The counters lie in the order r, w, e, at most a buffer apart, and the line
    being edited holds no end of line. *)
Record cons_ok (s : console) : Prop := {
  co_wf : qwf INPUT_BUF_SIZE (2 ^ 32) (cons_r s) (cons_e s);
  co_w : 0 <= cons_w s < 2 ^ 32;
  co_split : clen (cons_r s) (cons_w s) + clen (cons_w s) (cons_e s) = clen (cons_r s) (cons_e s);
  co_ed : Forall (fun c => c <> NL) (ed s);
  co_bytes : Forall is_char (com s ++ ed s);
  co_panicked : panicked (cons_uart s) = false }.

Lemma ibs_pos : 0 < INPUT_BUF_SIZE.
Proof. done. Qed.
Lemma ibs_lt : INPUT_BUF_SIZE < 2 ^ 32.
Proof. done. Qed.
Lemma ibs_div : (INPUT_BUF_SIZE | 2 ^ 32).
Proof. by exists (2 ^ 25). Qed.
Lemma clen_nonneg r w : 0 <= clen r w.
Proof. apply (qlen_nonneg _ _ ibs_pos ibs_lt ibs_div). Qed.
Lemma length_com s : length (com s) = Z.to_nat (clen (cons_r s) (cons_w s)).
Proof. apply (length_qlist _ _ ibs_pos ibs_lt ibs_div). Qed.
Lemma length_ed s : length (ed s) = Z.to_nat (clen (cons_w s) (cons_e s)).
Proof. apply (length_qlist _ _ ibs_pos ibs_lt ibs_div). Qed.

Lemma co_wf_ed s : cons_ok s -> qwf INPUT_BUF_SIZE (2 ^ 32) (cons_w s) (cons_e s).
Proof.
  intros [[Hr He Hl] Hw Hs _ _ _]. split; [done|done|]. pose proof (clen_nonneg (cons_r s) (cons_w s)). lia.
Qed.
Lemma co_wf_com s : cons_ok s -> qwf INPUT_BUF_SIZE (2 ^ 32) (cons_r s) (cons_w s).
Proof.
  intros [[Hr He Hl] Hw Hs _ _ _]. split; [done|done|]. pose proof (clen_nonneg (cons_w s) (cons_e s)). lia.
Qed.
Lemma length_both s : cons_ok s -> lenZ (com s ++ ed s) = clen (cons_r s) (cons_e s).
Proof.
  intros O. rewrite length_app, length_com, length_ed, <- (co_split _ O).
  pose proof (clen_nonneg (cons_r s) (cons_w s)). pose proof (clen_nonneg (cons_w s) (cons_e s)). lia.
Qed.

(** Erasing the last character of the line. *)
Lemma erase_ok s : cons_ok s -> cons_e s <> cons_w s ->
  let s' := set_e (u32 (cons_e s - 1)) s in
  cons_ok s' /\ com s' = com s /\ ed s = ed s' ++ [cons_buf s (u32 (cons_e s - 1) mod INPUT_BUF_SIZE)].
Proof.
  intros O Hne. pose proof (co_wf_ed s O) as We. pose proof (co_wf s O) as W.
  pose proof (q_empty _ _ ibs_pos ibs_lt ibs_div _ _ We) as Hq. rewrite (proj2 (Z.eqb_neq _ _)) in Hq by congruence.
  symmetry in Hq. apply Z.eqb_neq in Hq.
  pose proof (clen_nonneg (cons_r s) (cons_w s)). pose proof (clen_nonneg (cons_w s) (cons_e s)).
  destruct (q_unput _ _ ibs_pos ibs_lt ibs_div (cons_buf s) _ _ We Hq) as (We' & Le & Ee).
  destruct (q_unput _ _ ibs_pos ibs_lt ibs_div (cons_buf s) (cons_r s) (cons_e s) W) as (W' & Lr & _).
  { pose proof (co_split s O). lia. }
  pose proof (co_ed s O) as Hed. pose proof (co_bytes s O) as Hb. unfold ed in Hed, Hb. rewrite Ee in Hed, Hb.
  cbn zeta. split; [|by split]. split; cbn.
  - exact W'.
  - apply O.
  - fold (clen (cons_w s) (u32 (cons_e s - 1))). unfold u32. rewrite Le, Lr, <- (co_split s O). lia.
  - by apply Forall_app in Hed as [? _].
  - rewrite app_assoc in Hb. by apply Forall_app in Hb as [? _].
  - apply O.
Qed.

(** Adding a character, and ending the line. *)
Lemma type_ok c s : cons_ok s -> clen (cons_r s) (cons_e s) < INPUT_BUF_SIZE -> is_char c ->
  let s' := set_cons (upd (cons_buf s) (cons_e s mod INPUT_BUF_SIZE) (u8 c)) (cons_r s) (cons_w s) (u32 (cons_e s + 1)) s in
  (c <> NL -> cons_ok s') /\ com s' = com s /\ ed s' = ed s ++ [c] /\
  (clen (cons_r s') (cons_e s') = clen (cons_r s) (cons_e s) + 1) /\
  cons_ok (set_cons (cons_buf s') (cons_r s') (cons_e s') (cons_e s') s') /\
  com (set_cons (cons_buf s') (cons_r s') (cons_e s') (cons_e s') s') = com s ++ ed s ++ [c] /\
  ed (set_cons (cons_buf s') (cons_r s') (cons_e s') (cons_e s') s') = [].
Proof.
  intros O Hf Hc. pose proof (co_wf_ed s O) as We. pose proof (co_wf_com s O) as Wc. pose proof (co_wf s O) as W.
  pose proof (co_split s O) as Hs.
  pose proof (clen_nonneg (cons_r s) (cons_w s)). pose proof (clen_nonneg (cons_w s) (cons_e s)).
  destruct (q_put _ _ ibs_pos ibs_lt ibs_div (cons_buf s) _ _ (u8 c) We) as [We' Ee]; [lia|].
  destruct (q_put _ _ ibs_pos ibs_lt ibs_div (cons_buf s) _ _ (u8 c) W) as [W' Er]; [lia|].
  assert (qlist INPUT_BUF_SIZE (2 ^ 32) (upd (cons_buf s) (cons_e s mod INPUT_BUF_SIZE) (u8 c)) (cons_r s) (cons_w s) = com s) as Ec.
  { apply (q_upd_other _ _ ibs_pos ibs_lt ibs_div); [done|]. intros i Hi.
    rewrite (qlen_w _ _ ibs_pos ibs_lt ibs_div (cons_r s) (cons_e s)) by apply W.
    rewrite (cell_mod _ _ ibs_pos ibs_lt ibs_div). apply not_eq_sym, (cell_inj _ _ ibs_pos ibs_lt ibs_div); lia. }
  pose proof (qlen_put _ _ ibs_pos ibs_lt ibs_div _ _ We) as Le. pose proof (qlen_put _ _ ibs_pos ibs_lt ibs_div _ _ W) as Lr.
  rewrite (u8_small c) in * by done.
  assert (com s ++ ed s = qlist INPUT_BUF_SIZE (2 ^ 32) (cons_buf s) (cons_r s) (cons_e s)) as Ea.
  { symmetry. apply (q_split _ _ ibs_pos ibs_lt ibs_div); [exact Hs|apply O]. }
  pose proof (co_bytes s O) as Hb. unfold ed in Ee.
  cbn zeta. split_and!.
  - intros Hn. split; cbn; [exact W'|apply O| | | |apply O].
    + unfold u32. rewrite Le, Lr by lia. lia.
    + unfold ed; cbn. unfold u32. rewrite Ee. apply Forall_app. split; [apply O|by apply Forall_singleton].
    + unfold com, ed; cbn. unfold u32. rewrite Ec, Ee, app_assoc. apply Forall_app. split; [done|by apply Forall_singleton].
  - exact Ec.
  - exact Ee.
  - cbn. unfold u32. rewrite Lr by lia. lia.
  - split; cbn; [exact W'|apply W'| | | |apply O].
    + unfold clen. rewrite Z.sub_diag, Z.mod_0_l by lia. lia.
    + unfold ed, qlist, qlen; cbn. rewrite Z.sub_diag. apply Forall_nil_2.
    + unfold com, ed; cbn. unfold u32. rewrite Er, <- Ea. unfold qlist at 1, qlen at 1. rewrite Z.sub_diag. cbn.
      rewrite app_nil_r. apply Forall_app. split; [done|by apply Forall_singleton].
  - unfold com; cbn. unfold u32. by rewrite Er, <- Ea, app_assoc.
  - unfold ed, qlist, qlen; cbn. by rewrite Z.sub_diag.
Qed.

(** * Refinement *)
(** The transmitter gets ready within [fuel] polls of its status register. *)
Definition responsive (fuel : nat) : Prop :=
  forall u : uart D, exists d, wait_idle fuel u = Ret (tt, set_dev d u).

(** The state after characters were echoed. *)
Definition echoed (l : list Z) (s s' : console) : Prop :=
  cons_buf s' = cons_buf s /\ cons_r s' = cons_r s /\ cons_w s' = cons_w s /\ cons_e s' = cons_e s /\
  panicked (cons_uart s') = false /\ u_sent (cons_uart s') = u_sent (cons_uart s) ++ ((BySync,.) <$> l).

(** * Reading *)
(** What a reader of [k] more bytes takes of the complete lines: a line or as
    much of it as was asked for; control-D ends the file, and is kept for the
    next call when something was read before it.  The flag says that the call
    has to wait. *)
Fixpoint line_read (started : bool) (k : nat) (com : list Z) : list Z * list Z * bool :=
  match k, com with
  | O, _ => ([], com, false)
  | S k, [] => ([], [], true)
  | S k, c :: rest =>
      if c =? CTRL_D then ([], if started then com else rest, false)
      else if c =? NL then ([c], rest, false)
      else let '(d, r, w) := line_read true k rest in (c :: d, r, w)
  end.

Lemma u32_back r : 0 <= r < 2 ^ 32 -> u32 (u32 (r + 1) - 1) = r.
Proof. intros Hr. unfold u32. rewrite Zminus_mod_idemp_l, Z.add_simpl_r. by apply Z.mod_small. Qed.
Lemma take_ok s : cons_ok s -> cons_r s <> cons_w s ->
  let s' := set_cons (cons_buf s) (u32 (cons_r s + 1)) (cons_w s) (cons_e s) s in
  cons_ok s' /\ ed s' = ed s /\ com s = cons_buf s (cons_r s mod INPUT_BUF_SIZE) :: com s'.
Proof.
  intros O Hne. pose proof (co_wf_com s O) as Wc. pose proof (co_wf s O) as W.
  pose proof (q_empty _ _ ibs_pos ibs_lt ibs_div _ _ Wc) as Hq. rewrite (proj2 (Z.eqb_neq _ _)) in Hq by done.
  symmetry in Hq. apply Z.eqb_neq in Hq.
  pose proof (clen_nonneg (cons_r s) (cons_w s)). pose proof (clen_nonneg (cons_w s) (cons_e s)).
  destruct (q_get _ _ ibs_pos ibs_lt ibs_div (cons_buf s) _ _ Wc Hq) as (Wc' & Lc & Ec).
  destruct (q_get _ _ ibs_pos ibs_lt ibs_div (cons_buf s) (cons_r s) (cons_e s) W) as (W' & Lr & _).
  { pose proof (co_split s O). lia. }
  pose proof (co_bytes s O) as Hb. unfold com in Hb. rewrite Ec in Hb. apply Forall_cons in Hb as [_ Hb].
  cbn zeta. split; [|by split]. split; cbn; [exact W'|apply O| |apply O|exact Hb|apply O].
  fold (clen (u32 (cons_r s + 1)) (cons_w s)). unfold u32. rewrite Lc, Lr, <- (co_split s O). ring.
Qed.

Lemma cread_loop_ok {U} `{UserMemLaws U} killed pt target k : forall dst s (u : U) d rest waits,
  cons_ok s -> uinv u pt -> (forall j, 0 <= j < Z.of_nat k -> writable u pt (dst + j)) -> Z.of_nat k <= target ->
  line_read (Z.of_nat k <? target) k (com s) = (d, rest, waits) ->
  exists s' u' e, cread_loop killed pt true target k dst s u = (s', u', e) /\
    cons_ok s' /\ com s' = rest /\ ed s' = ed s /\ ucopyin u' pt dst (length d) = Some d /\
    (forall va, va < dst -> ubyte u' pt va = ubyte u pt va) /\
    e = if waits then if killed then CDone (-1) else CSleep (dst + lenZ d) (Z.of_nat k - lenZ d)
        else CDone (target - Z.of_nat k + lenZ d).
Proof.
  induction k as [|k IH]; intros dst s u d rest waits O Iu Hw Ht E; cbn [cread_loop line_read] in *.
  { injection E as <- <- <-. exists s, u. eexists. split; [done|]. split_and!; try done. f_equal. cbn. lia. }
  destruct (Z.eqb_spec (cons_r s) (cons_w s)) as [Ee|Hne].
  { assert (com s = []) as Ec.
    { apply (q_empty_nil _ _ ibs_pos ibs_lt ibs_div); [by apply co_wf_com|]. by apply Z.eqb_eq. }
    rewrite Ec in E. injection E as <- <- <-. exists s, u. eexists. split; [done|]. split_and!; try done.
    destruct killed; [done|]. f_equal; cbn [length]; lia. }
  destruct (take_ok s O Hne) as (O1 & E1 & C1). cbn zeta in *. set (s1 := set_cons _ _ _ _ s) in *.
  set (c := cons_buf s _) in *. rewrite C1 in E. destruct (c =? CTRL_D) eqn:ED.
  { injection E as <- <- <-. eexists _, u, _. split; [done|]. destruct (Z.of_nat (S k) <? target) eqn:El.
    - assert (set_cons (cons_buf s1) (u32 (cons_r s1 - 1)) (cons_w s1) (cons_e s1) s1 = s) as ->.
      { destruct (co_wf _ O) as [Hr _ _]. unfold s1, set_cons. cbn [cons_buf cons_r cons_w cons_e cons_uart].
        rewrite u32_back by done. by destruct s. }
      split_and!; try done. f_equal. cbn [length]. lia.
    - split_and!; try done. f_equal. cbn [length]. lia. }
  assert (is_char c) as Hc.
  { pose proof (co_bytes s O) as Hb. rewrite C1 in Hb. by apply Forall_cons in Hb as [? _]. }
  destruct (Hw 0 ltac:(lia) c) as [u1 Hu]. rewrite Z.add_0_r in Hu. unfold either_copyout. cbn [ucopyout]. rewrite Hu.
  destruct (c =? NL) eqn:EN.
  { injection E as <- <- <-. exists s1, u1. eexists. split; [done|]. split_and!; try done.
    - cbn. by rewrite (uput_same _ _ _ _ _ Iu Hu), u8_small.
    - intros va Hva. by apply (uput_other _ _ _ _ _ _ Iu Hu); lia.
    - f_equal. cbn [length]. lia. }
  destruct (line_read true k (com s1)) as [[d1 r1] w1] eqn:El. injection E as <- <- <-.
  destruct (IH (dst + 1) s1 u1 d1 r1 w1 O1 (uput_inv _ _ _ _ _ _ Iu Hu Iu)) as (s' & u' & e & Er & O' & C' & E' & Hin & Hlow & ->).
  - intros j Hj. replace (dst + 1 + j) with (dst + (j + 1)) by lia. eapply uput_writable; [exact Iu|exact Hu|]. apply Hw. lia.
  - lia.
  - by rewrite (proj2 (Z.ltb_lt _ _)) by lia.
  - exists s', u'. eexists. split; [exact Er|]. split_and!; try done.
    + cbn. rewrite Hlow, (uput_same _ _ _ _ _ Iu Hu), u8_small by (done || lia). cbn. by rewrite Hin.
    + intros va Hva. rewrite Hlow by lia. by apply (uput_other _ _ _ _ _ _ Iu Hu); lia.
    + destruct w1, killed; try done; f_equal; cbn [length]; lia.
Qed.

Section ready.
Context (fuel : nat) (Hready : responsive fuel).
(** [procdump] prints the process table and changes nothing else. *)
Context (procdump : M console unit) (dump : list Z)
  (Hdump : forall s, panicked (cons_uart s) = false -> wp procdump s (fun _ s' => echoed dump s s')).

Lemma sync_ok c s : panicked (cons_uart s) = false -> wp (on_uart (uartputc_sync fuel c)) s (fun _ s' => echoed [u8 c] s s').
Proof.
  intros Hp. unfold on_uart, uartputc_sync, wp. rewrite bind_run. cbn. rewrite Hp.
  destruct (Hready (cons_uart s)) as [d Ed]. rewrite bind_run, Ed. cbn. eexists _, _. split; [done|]. by split.
Qed.
Lemma echoed_trans l1 l2 s s1 s2 : echoed l1 s s1 -> echoed l2 s1 s2 -> echoed (l1 ++ l2) s s2.
Proof.
  intros (A1 & A2 & A3 & A4 & A5 & A6) (B1 & B2 & B3 & B4 & B5 & B6). unfold echoed.
  rewrite B1, B2, B3, B4, B6, A6, fmap_app, app_assoc. done.
Qed.
Lemma consputc_ok c s : panicked (cons_uart s) = false -> wp (consputc fuel c) s (fun _ s' => echoed (echo c) s s').
Proof.
  intros Hp. unfold consputc, echo. destruct (c =? BACKSPACE); [|by apply sync_ok].
  apply wp_bind. eapply wp_mono; [by apply sync_ok|]. intros x1 s1 E1.
  apply wp_bind. eapply wp_mono; [apply sync_ok, E1|]. intros x2 s2 E2.
  eapply wp_mono; [apply sync_ok, E2|]. intros x3 s3 E3. cbn.
  apply (echoed_trans [8] [32; 8] s s1); [done|]. by apply (echoed_trans [32] [8] s1 s2).
Qed.
Lemma echoed_ok l s s' : echoed l s s' -> cons_ok s -> cons_ok s' /\ com s' = com s /\ ed s' = ed s.
Proof.
  intros (A1 & A2 & A3 & A4 & A5 & A6) [O1 O2 O3 O4 O5 O6]. destruct s', s; cbn in *; subst. by split.
Qed.

(** What an operation did, in terms of the two lists. *)
Definition became (s s' : console) (r : list Z * list Z * list Z * bool) (woke : bool) : Prop :=
  let '(com', ed', out, woke') := r in
  cons_ok s' /\ com s' = com' /\ ed s' = ed' /\ woke = woke' /\
  u_sent (cons_uart s') = u_sent (cons_uart s) ++ ((BySync,.) <$> out).

Lemma kill_line_ok rounds : forall s, cons_ok s -> (length (ed s) < rounds)%nat ->
  wp (kill_line fuel rounds) s (fun _ s' =>
    became s s' (com s, [], concat (replicate (length (ed s)) (echo BACKSPACE)), false) false).
Proof.
  induction rounds as [|rounds IH]; intros s O Hl; [lia|]. cbn [kill_line]. apply wp_bind, wp_gets. unfold id.
  destruct (Z.eqb_spec (cons_e s) (cons_w s)) as [Ee|Hne]; cbn [negb andb].
  - apply wp_ret. assert (ed s = []) as ->.
    { apply (q_empty_nil _ _ ibs_pos ibs_lt ibs_div); [by apply co_wf_ed|]. apply Z.eqb_eq. congruence. }
    cbn. split_and!; try done; [|by rewrite app_nil_r].
    apply (q_empty_nil _ _ ibs_pos ibs_lt ibs_div); [by apply co_wf_ed|]. apply Z.eqb_eq. congruence.
  - destruct (erase_ok s O Hne) as (O1 & C1 & E1). cbn zeta in *. set (s1 := set_e _ s) in *.
    pose proof (co_ed s O) as Hed. rewrite E1 in Hed. apply Forall_app in Hed as [_ Hlast]. rewrite Forall_singleton in Hlast.
    rewrite (proj2 (Z.eqb_neq _ _) Hlast). cbn [negb].
    apply wp_bind, wp_modify. fold s1. apply wp_bind. eapply wp_mono; [apply consputc_ok, O1|].
    intros x s2 Hs2. destruct (echoed_ok _ _ _ Hs2 O1) as (O2 & C2 & E2).
    rewrite E1, length_app in Hl. cbn in Hl.
    eapply wp_mono; [apply IH; [done|]; rewrite E2; lia|]. intros y s3 (O3 & C3 & E3 & _ & U3).
    cbn. split_and!; try done; [by rewrite C3, C2|].
    rewrite U3, E2, E1, length_app, Nat.add_comm. destruct Hs2 as (_ & _ & _ & _ & _ & ->).
    cbn [length Nat.add replicate concat]. by rewrite fmap_app, app_assoc.
Qed.

Lemma consoleintr_ok c s : cons_ok s -> is_char c ->
  wp (consoleintr procdump fuel c) s (fun woke s' => became s s' (line_intr dump c (com s) (ed s)) woke).
Proof.
  intros O Hc. unfold consoleintr, line_intr.
  destruct (c =? CTRL_P).
  { apply wp_bind. eapply wp_mono; [apply Hdump, O|]. intros x s1 Hs1. apply wp_ret.
    destruct (echoed_ok _ _ _ Hs1 O) as (O1 & C1 & E1). destruct Hs1 as (_ & _ & _ & _ & _ & U1). by split_and!. }
  destruct (c =? CTRL_U).
  { apply wp_bind. eapply wp_mono; [apply kill_line_ok; [done|]|].
    - rewrite length_ed. pose proof (q_len _ _ _ _ (co_wf_ed s O)). lia.
    - intros x s1 B. apply wp_ret. exact B. }
  destruct ((c =? CTRL_H) || (c =? DEL)).
  { apply wp_bind, wp_gets. unfold id. destruct (Z.eqb_spec (cons_e s) (cons_w s)) as [Ee|Hne]; cbn [negb].
    - apply wp_ret. assert (ed s = []) as Ed.
      { apply (q_empty_nil _ _ ibs_pos ibs_lt ibs_div); [by apply co_wf_ed|]. apply Z.eqb_eq. congruence. }
      rewrite Ed. cbn. split_and!; try done. by rewrite app_nil_r.
    - destruct (erase_ok s O Hne) as (O1 & C1 & E1). cbn zeta in *. set (s1 := set_e _ s) in *.
      apply wp_bind, wp_modify. fold s1. apply wp_bind. eapply wp_mono; [apply consputc_ok, O1|].
      intros x s2 Hs2. destruct (echoed_ok _ _ _ Hs2 O1) as (O2 & C2 & E2). apply wp_ret.
      destruct Hs2 as (_ & _ & _ & _ & _ & U2). cbn. split; [exact O2|]. split; [by rewrite C2|]. split; [|split; [done|]].
      + rewrite E2, E1, length_app, Nat.add_1_r. cbn [pred]. by rewrite take_app_length.
      + rewrite U2. destruct (ed s); [|done]. by destruct (ed s1). }
  apply wp_bind, wp_gets. unfold id. rewrite (length_both s O).
  change (clen (cons_r s) (cons_e s)) with (u32 (cons_e s - cons_r s)).
  destruct (negb (c =? 0) && (u32 (cons_e s - cons_r s) <? INPUT_BUF_SIZE)) eqn:Ef; cycle 1.
  { apply wp_ret. cbn. split_and!; try done. by rewrite app_nil_r. }
  apply andb_true_iff in Ef as [_ Ef%Z.ltb_lt].
  set (c' := if c =? CR then NL else c). assert (is_char c') as Hc' by (unfold c'; by destruct (c =? CR)).
  apply wp_bind. eapply wp_mono; [apply consputc_ok, O|]. intros x s1 Hs1.
  destruct (echoed_ok _ _ _ Hs1 O) as (O1 & C1 & E1). destruct Hs1 as (_ & Hr1 & _ & He1 & _ & U1).
  destruct (type_ok c' s1 O1) as (T1 & T2 & T3 & T4 & T5 & T6 & T7); [by rewrite Hr1, He1|done|]. cbn zeta in *.
  apply wp_bind, wp_modify, wp_bind, wp_gets. unfold id. set (s2 := set_cons _ _ _ _ s1) in *.
  assert (u32 (cons_e s2 - cons_r s2) = lenZ (com s ++ ed s ++ [c'])) as El.
  { change (u32 (cons_e s2 - cons_r s2)) with (clen (cons_r s2) (cons_e s2)).
    rewrite T4, Hr1, He1, app_assoc, length_app, Nat2Z.inj_add, (length_both s O). done. }
  rewrite El. destruct ((c' =? NL) || (c' =? CTRL_D) || (lenZ (com s ++ ed s ++ [c']) =? INPUT_BUF_SIZE)) eqn:Ee.
  - apply wp_bind, wp_modify, wp_ret. unfold became. cbv beta iota zeta.
    split; [exact T5|]. split; [by rewrite T6, C1, E1|]. split; [exact T7|]. split; [done|exact U1].
  - apply wp_ret. apply orb_false_iff in Ee as [[En%Z.eqb_neq _]%orb_false_iff _].
    unfold became. cbv beta iota zeta. split_and!; [auto|by rewrite T2|by rewrite T3, E1|done|exact U1].
Qed.

(** * A line from the keyboard to the reader *)
Fixpoint type_all (l : list Z) : M console unit :=
  match l with [] => mret tt | c :: l => _ ← consoleintr procdump fuel c; type_all l end.
(** Characters without a meaning for the line discipline. *)
Definition plain (c : Z) : Prop :=
  is_char c /\ ~ In c [0; CR; NL; CTRL_D; CTRL_H; CTRL_P; CTRL_U; DEL].

Lemma type_plain_ok l : forall s, cons_ok s -> com s = [] -> Forall plain l ->
  lenZ (ed s) + lenZ l < INPUT_BUF_SIZE ->
  wp (type_all l) s (fun _ s' => cons_ok s' /\ com s' = [] /\ ed s' = ed s ++ l).
Proof.
  induction l as [|c l IH]; intros s O Hc Hl Hn; cbn [type_all]; [apply wp_ret; by rewrite app_nil_r|].
  apply Forall_cons in Hl as [[Hch Hp] Hl]. cbn [length] in Hn.
  apply wp_bind. eapply wp_mono; [by apply consoleintr_ok|]. intros woke s1 B.
  unfold line_intr in B. cbn [In] in Hp.
  repeat (rewrite (proj2 (Z.eqb_neq c _)) in B by (intros ->; apply Hp; tauto)). cbn [orb negb andb] in B.
  rewrite Hc in B. cbn [app] in B. rewrite (proj2 (Z.ltb_lt _ _)) in B by lia.
  rewrite length_app in B. cbn [length] in B. rewrite (proj2 (Z.eqb_neq _ _)) in B by lia.
  destruct B as (O1 & C1 & E1 & _).
  eapply wp_mono; [apply IH; [done|by rewrite C1|done|rewrite E1, length_app; cbn; lia]|].
  intros x s2 (O2 & C2 & E2). split_and!; try done. by rewrite E2, E1, <- app_assoc.
Qed.
Lemma type_line_ok l s : cons_ok s -> com s = [] -> ed s = [] -> Forall plain l ->
  lenZ l < INPUT_BUF_SIZE -> wp (type_all (l ++ [NL])) s (fun _ s' => cons_ok s' /\ com s' = l ++ [NL] /\ ed s' = []).
Proof.
  intros O Hc He Hl Hn.
  assert (forall l1 l2 s, type_all (l1 ++ l2) s = (type_all l1 ≫= fun _ => type_all l2) s) as Happ.
  { clear. induction l1 as [|c l1 IH]; intros l2 s; [done|]. cbn [type_all app].
    rewrite bind_assoc, !bind_run. destruct (consoleintr procdump fuel c s) as [[w s1]| | |]; [apply IH|done..]. }
  unfold wp. rewrite Happ. fold (wp (type_all l ≫= fun _ => type_all [NL]) s (fun _ s' => cons_ok s' /\ com s' = l ++ [NL] /\ ed s' = [])).
  apply wp_bind. eapply wp_mono; [apply type_plain_ok; [done|done|done|]; rewrite He; cbn; lia|].
  intros x s1 (O1 & C1 & E1). rewrite He in E1. cbn [app] in E1. cbn [type_all].
  apply wp_bind. eapply wp_mono; [by apply consoleintr_ok|]. intros woke s2 B. apply wp_ret.
  unfold line_intr in B. rewrite C1, E1 in B. cbn [app] in B.
  change (NL =? CTRL_P) with false in B. change (NL =? CTRL_U) with false in B.
  change ((NL =? CTRL_H) || (NL =? DEL)) with false in B. change (negb (NL =? 0)) with true in B.
  rewrite (proj2 (Z.ltb_lt _ _)) in B by lia. cbn [andb] in B. by destruct B as (O2 & C2 & E2 & _).
Qed.
Lemma read_line_plain l : forall started k, Forall plain l -> (length l < k)%nat ->
  line_read started k (l ++ [NL]) = (l ++ [NL], [], false).
Proof.
  induction l as [|c l IH]; intros started [|k] Hl Hk; cbn in Hk; try lia; [done|].
  apply Forall_cons in Hl as [[_ Hp] Hl]. cbn [In] in Hp. cbn [app line_read].
  repeat (rewrite (proj2 (Z.eqb_neq c _)) by (intros ->; apply Hp; tauto)).
  by rewrite IH by (done || lia).
Qed.

(** C18. The interrupt handler implements the line discipline: for every
    character it terminates, and the complete lines, the line being edited,
    the echo and the wakeup are those of [line_intr]; in particular control-U
    erases exactly the line being edited, a backspace its last character, and
    complete lines are never changed. *)
Theorem consoleintr_refines c s : cons_ok s -> is_char c ->
  exists woke s', consoleintr procdump fuel c s = Ret (woke, s') /\
    cons_ok s' /\ (com s', ed s', woke) = (let '(com', ed', _, w) := line_intr dump c (com s) (ed s) in (com', ed', w)) /\
    u_sent (cons_uart s') = u_sent (cons_uart s) ++ ((BySync,.) <$> (line_intr dump c (com s) (ed s)).1.2).
Proof.
  intros O Hc. destruct (consoleintr_ok c s O Hc) as (woke & s' & E & B). exists woke, s'. split; [done|].
  unfold became in B. destruct (line_intr dump c (com s) (ed s)) as [[[com' ed'] out] w].
  destruct B as (O' & -> & -> & -> & U). by split_and!.
Qed.

(** A line typed at the console reaches its reader: after its characters
    and a newline arrived, a read that asks for enough returns exactly the line
    with the newline, and leaves the buffer empty. *)
Theorem console_roundtrip {U} `{UserMemLaws U} l s (u : U) pt dst n :
  cons_ok s -> com s = [] -> ed s = [] -> Forall plain l -> lenZ l < INPUT_BUF_SIZE -> lenZ l < n -> uinv u pt ->
  (forall j, 0 <= j < n -> writable u pt (dst + j)) ->
  exists s1 s2 u', type_all (l ++ [NL]) s = Ret (tt, s1) /\
    consoleread false pt true dst n s1 u = (s2, u', CDone (lenZ l + 1)) /\
    ucopyin u' pt dst (length (l ++ [NL])) = Some (l ++ [NL]) /\ com s2 = [] /\ ed s2 = [].
Proof.
  intros O Hc He Hl Hn Hn' Iu Hw. destruct (type_line_ok l s O Hc He Hl Hn) as ([] & s1 & E & O1 & C1 & E1).
  destruct (cread_loop_ok false pt n (Z.to_nat n) dst s1 u (l ++ [NL]) [] false O1 Iu) as (s2 & u' & e & Er & _ & C2 & E2 & Hin & _ & ->).
  - intros j Hj. apply Hw. lia.
  - lia.
  - rewrite C1. apply read_line_plain; [done|lia].
  - exists s1, s2, u'. split; [done|]. unfold consoleread. rewrite (proj2 (Z.leb_gt _ _)) by lia.
    replace (lenZ l + 1) with (n - Z.of_nat (Z.to_nat n) + lenZ (l ++ [NL])) by (rewrite length_app; cbn; lia).
    split; [exact Er|by rewrite E2].
Qed.
End ready.
End console.
Arguments console : clear implicits.

(** A console whose counters are about to wrap around. *)
Definition console0 : console unit := Console (fun _ => 0) (2 ^ 32 - 1) (2 ^ 32 - 1) (2 ^ 32 - 1) uart0.
Lemma console0_ok : cons_ok console0.
Proof.
  split; [split; vm_compute; intuition discriminate|vm_compute; intuition discriminate|reflexivity| | |reflexivity];
    vm_compute; apply Forall_nil_2.
Qed.
Lemma ready_responsive : @responsive unit _ 1.
Proof. intros u. exists tt. destruct u as [b w r p [] l]. reflexivity. Qed.
Lemma no_dump (s : console unit) : panicked (cons_uart s) = false -> wp (mret tt) s (fun _ s' => echoed [] s s').
Proof. intros Hp. apply wp_ret. split_and!; try done. by rewrite app_nil_r. Qed.

Lemma consoleintr_refines_witness :
  exists s', consoleintr (mret tt) 1 65 console0 = Ret (false, s') /\ ed s' = [65].
Proof.
  destruct (consoleintr_refines 1 ready_responsive (mret tt) [] no_dump 65 console0 console0_ok) as (woke & s' & E & _ & R & _).
  - split; reflexivity || (vm_compute; discriminate).
  - exists s'. injection R as _ R ->. split; [exact E|exact R].
Defined.
Lemma console_roundtrip_witness :
  exists s1 s2 u', type_all 1 (mret tt) [104; 105; NL] console0 = Ret (tt, s1) /\
    consoleread false 0 true 20 8 s1 (Flat 100 (fun _ => 0)) = (s2, u', CDone 3) /\
    ucopyin u' 0 20 3 = Some [104; 105; NL].
Proof.
  destruct (console_roundtrip 1 ready_responsive (mret tt) [] no_dump [104; 105] console0 (Flat 100 (fun _ => 0)) 0 20 8 console0_ok)
    as (s1 & s2 & u' & E & Er & Hin & _).
  - reflexivity.
  - reflexivity.
  - repeat (apply Forall_cons; split; [split; [split; reflexivity || (vm_compute; discriminate)|vm_compute; intuition discriminate]|]).
    apply Forall_nil_2.
  - reflexivity.
  - reflexivity.
  - exact I.
  - intros j Hj b. cbn. rewrite (proj2 (Z.leb_le _ _)), (proj2 (Z.ltb_lt _ _)) by lia. cbn. eexists. reflexivity.
  - exists s1, s2, u'. split; [exact E|]. split; [exact Er|exact Hin].
Defined.
