(* ===== verification/Fs.v ===== *)
(** The file system (kernel/fs.c): block allocation, inodes, file contents,
    directories and path names, over the log and any buffer cache.

    Pointers to in-memory inodes are indices of [itable.inode]; a null result
    is [None].  C strings (paths and names) are the bytes before the NUL.  The
    spin lock of the inode table is not part of the state: a routine runs
    without interleaving, and an inode lock held by another process is the
    outcome [Blocked]. *)
From S2P Require Import Prelude Riscv Memory Locks Blocks Log UserMem.

(** * fs.h, stat.h *)
Definition ROOTINO : Z := 1.
Definition FSMAGIC : Z := 0x10203040.
Definition NDIRECT : Z := 12.
Definition NINDIRECT : Z := BSIZE / 4.
Definition MAXFILE : Z := NDIRECT + NINDIRECT.
Definition DINODE : Z := 64.        (* sizeof(struct dinode) *)
Definition IPB : Z := BSIZE / DINODE.
Definition BPB : Z := BSIZE * 8.
Definition DIRSIZ : Z := 14.
Definition DIRENT : Z := 16.        (* sizeof(struct dirent) *)
Definition T_DIR : Z := 1.
Definition T_FILE : Z := 2.
Definition T_DEVICE : Z := 3.

Record superblock := SB {
  sb_magic : Z;
  sb_size : Z;
  sb_nblocks : Z;
  sb_ninodes : Z;
  sb_nlog : Z;
  sb_logstart : Z;
  sb_inodestart : Z;
  sb_bmapstart : Z }.
Definition IBLOCK (i : Z) (sb : superblock) : Z := i / IPB + sb_inodestart sb.
Definition BBLOCK (b : Z) (sb : superblock) : Z := b / BPB + sb_bmapstart sb.

(** The fields in the order of [struct superblock]. *)
Definition get_sb (d : mem) : superblock :=
  SB (ld32 d 0) (ld32 d 4) (ld32 d 8) (ld32 d 12) (ld32 d 16) (ld32 d 20) (ld32 d 24) (ld32 d 28).

(** [struct dinode] at offset [o] of a block: type, major, minor and nlink
    (short), size, and the block addresses. *)
Record dinode := Dinode {
  d_type : Z;
  d_major : Z;
  d_minor : Z;
  d_nlink : Z;
  d_size : Z;
  d_addrs : Z -> Z }.
Definition ld_short (d : mem) (a : Z) : Z := s16 (ld 2 d a).
Definition get_dinode (d : mem) (o : Z) : dinode :=
  Dinode (ld_short d o) (ld_short d (o + 2)) (ld_short d (o + 4)) (ld_short d (o + 6))
    (ld32 d (o + 8)) (fun i => ld32 d (o + 12 + 4 * i)).
Fixpoint put_addrs (k : nat) (i : Z) (f : Z -> Z) (a : Z) (d : mem) : mem :=
  match k with
  | O => d
  | S k => put_addrs k (i + 1) f a (st32 d (a + 4 * i) (f i))
  end.
Definition put_dinode (di : dinode) (o : Z) (d : mem) : mem :=
  let d := st 2 d o (d_type di) in
  let d := st 2 d (o + 2) (d_major di) in
  let d := st 2 d (o + 4) (d_minor di) in
  let d := st 2 d (o + 6) (d_nlink di) in
  let d := st32 d (o + 8) (d_size di) in
  put_addrs (Z.to_nat (NDIRECT + 1)) 0 (d_addrs di) (o + 12) d.

(** file.h: [struct inode]. *)
Record inode := Inode {
  i_dev : Z;
  i_inum : Z;
  i_ref : Z;
  i_lock : sleeplock;
  i_valid : bool;
  i_d : dinode }.
Definition set_ref (r : Z) (i : inode) : inode :=
  Inode (i_dev i) (i_inum i) r (i_lock i) (i_valid i) (i_d i).
Definition set_ilock (l : sleeplock) (i : inode) : inode :=
  Inode (i_dev i) (i_inum i) (i_ref i) l (i_valid i) (i_d i).
Definition set_valid (v : bool) (i : inode) : inode :=
  Inode (i_dev i) (i_inum i) (i_ref i) (i_lock i) v (i_d i).
Definition set_d (d : dinode) (i : inode) : inode :=
  Inode (i_dev i) (i_inum i) (i_ref i) (i_lock i) (i_valid i) d.
Definition set_type (t : Z) (d : dinode) : dinode :=
  Dinode t (d_major d) (d_minor d) (d_nlink d) (d_size d) (d_addrs d).
Definition set_nlink (n : Z) (d : dinode) : dinode :=
  Dinode (d_type d) (d_major d) (d_minor d) n (d_size d) (d_addrs d).
Definition set_dev_ids (ma mi : Z) (d : dinode) : dinode :=
  Dinode (d_type d) ma mi (d_nlink d) (d_size d) (d_addrs d).
Definition set_size (n : Z) (d : dinode) : dinode :=
  Dinode (d_type d) (d_major d) (d_minor d) (d_nlink d) n (d_addrs d).
Definition set_addr (i a : Z) (d : dinode) : dinode :=
  Dinode (d_type d) (d_major d) (d_minor d) (d_nlink d) (d_size d) (upd (d_addrs d) i a).

(** * Path names *)
Definition SLASH : Z := 47.
Fixpoint skip_slashes (p : list Z) : list Z :=
  match p with
  | c :: p' => if c =? SLASH then skip_slashes p' else p
  | [] => []
  end.
(** The element at the front of [p] and what follows it. *)
Fixpoint element (p : list Z) : list Z * list Z :=
  match p with
  | c :: p' => if c =? SLASH then ([], p) else let '(e, r) := element p' in (c :: e, r)
  | [] => ([], [])
  end.
(** [skipelem]: the name, which has at most [DIRSIZ] bytes, and the rest. *)
Definition skipelem (path : list Z) : option (list Z * list Z) :=
  match skip_slashes path with
  | [] => None
  | p =>
      let '(s, p) := element p in
      let name := if lenZ s >=? DIRSIZ then take (Z.to_nat DIRSIZ) s else s in
      Some (name, skip_slashes p)
  end.

(** [strncmp] on two byte strings that end with the list or with a NUL. *)
Fixpoint strncmp_bytes (k : nat) (p q : list Z) : Z :=
  match k with
  | O => 0
  | S k =>
      let c := hd 0 p in let d := hd 0 q in
      if nz c && (c =? d) then strncmp_bytes k (tl p) (tl q) else c - d
  end.
Definition namecmp (s t : list Z) : Z := strncmp_bytes (Z.to_nat DIRSIZ) s t.
(** [strncpy] of a name to a field of [DIRSIZ] bytes: padded with NULs. *)
Fixpoint strncpy_bytes (k : nat) (t : list Z) : list Z :=
  match k with
  | O => []
  | S k => match t with
           | c :: t => if c =? 0 then replicate (S k) 0 else c :: strncpy_bytes k t
           | [] => replicate (S k) 0
           end
  end.

(** * The file system *)
Record fs (C U : Type) := Fs {
  f_ls : lstate C;
  f_sb : superblock;
  f_inode : Z -> inode;
  f_user : U }.
Arguments Fs {C U} _ _ _ _.
Arguments f_ls {C U} _.
Arguments f_sb {C U} _.
Arguments f_inode {C U} _ _.
Arguments f_user {C U} _.

(** Bytes placed in a buffer from offset [o] on. *)
Fixpoint put_bytes (l : list Z) (o : Z) (d : mem) : mem :=
  match l with
  | [] => d
  | b :: l => put_bytes l (o + 1) (st8 d o b)
  end.

Section fs.
Context {C U : Type} `{BufCache C} `{UserMem U}.
(** [myproc()]: its pid, its page table and the address of the [struct dirent]
    on its kernel stack. *)
Context (pid pt de : Z).
Abbreviation FS := (M (fs C U)).

Definition on_log {A} (m : M (lstate C) A) : FS A := fun s =>
  match m (f_ls s) with
  | Ret (a, l) => Ret (a, Fs l (f_sb s) (f_inode s) (f_user s))
  | Panic e => Panic e
  | Blocked => Blocked
  | NoFuel => NoFuel
  end.
Definition fbread (dev b : Z) : FS Z := on_log (on_cache (bread dev b)).
Definition fbrelse (bp : Z) : FS unit := on_log (on_cache (brelse bp)).
Definition fdata (bp : Z) : FS mem := gets (fun s => bdata (ls_cache (f_ls s)) bp).
Definition fupdate (bp : Z) (f : mem -> mem) : FS unit := on_log (mod_cache (bupdate bp f)).
Definition flog_write (bp : Z) : FS unit := on_log (log_write bp).
Definition get_inode (ip : Z) : FS inode := gets (fun s => f_inode s ip).
Definition mod_inode (ip : Z) (f : inode -> inode) : FS unit :=
  modify (fun s => Fs (f_ls s) (f_sb s) (upd (f_inode s) ip (f (f_inode s ip))) (f_user s)).
Definition mod_d (ip : Z) (f : dinode -> dinode) : FS unit :=
  mod_inode ip (fun i => set_d (f (i_d i)) i).
Definition set_user (u : U) (s : fs C U) : fs C U := Fs (f_ls s) (f_sb s) (f_inode s) u.

Definition readsb (dev : Z) : FS unit :=
  bp ← fbread dev 1;
  d ← fdata bp;
  _ ← modify (fun s => Fs (f_ls s) (get_sb d) (f_inode s) (f_user s));
  fbrelse bp.
Definition fsinit (dev : Z) : FS unit :=
  _ ← readsb dev;
  sb ← gets f_sb;
  if negb (sb_magic sb =? FSMAGIC) then panic "invalid file system"
  else on_log (initlog dev (sb_logstart sb) (sb_nlog sb)).

(** ** Blocks *)
Definition bzero (dev bno : Z) : FS unit :=
  bp ← fbread dev bno;
  _ ← fupdate bp (fun d => mfill d 0 0 BSIZE);
  _ ← flog_write bp;
  fbrelse bp.

(** The first free block [b + bi] of a bitmap block, from bit [bi] on. *)
Fixpoint free_bit (k : nat) (d : mem) (b bi limit : Z) : option Z :=
  match k with
  | O => None
  | S k =>
      if b + bi <? limit then
        if Z.land (ld8 d (bi / 8)) (Z.shiftl 1 (bi mod 8)) =? 0 then Some bi
        else free_bit k d b (bi + 1) limit
      else None
  end.
Fixpoint balloc_loop (rounds : nat) (dev b limit : Z) : FS Z :=
  if b <? limit then
    match rounds with
    | O => nofuel
    | S rounds =>
        sb ← gets f_sb;
        bp ← fbread dev (BBLOCK b sb);
        d ← fdata bp;
        match free_bit (Z.to_nat BPB) d b 0 limit with
        | Some bi =>
            _ ← fupdate bp (fun d => st8 d (bi / 8) (Z.lor (ld8 d (bi / 8)) (Z.shiftl 1 (bi mod 8))));
            _ ← flog_write bp;
            _ ← fbrelse bp;
            _ ← bzero dev (b + bi);
            mret (b + bi)
        | None => _ ← fbrelse bp; balloc_loop rounds dev (b + BPB) limit
        end
    end
  else mret 0.
Definition balloc (dev : Z) : FS Z :=
  sb ← gets f_sb;
  let limit := if SWAPBASE >? sb_size sb then sb_size sb else SWAPBASE in
  balloc_loop (Z.to_nat (limit / BPB + 1)) dev 0 limit.

Definition bfree (dev b : Z) : FS unit :=
  sb ← gets f_sb;
  bp ← fbread dev (BBLOCK b sb);
  let bi := b mod BPB in
  let m := Z.shiftl 1 (bi mod 8) in
  d ← fdata bp;
  if Z.land (ld8 d (bi / 8)) m =? 0 then panic "freeing free block"
  else
    _ ← fupdate bp (fun d => st8 d (bi / 8) (Z.land (ld8 d (bi / 8)) (Z.lnot m)));
    _ ← flog_write bp;
    fbrelse bp.

(** ** Inodes *)
Definition iinit : FS unit :=
  for_each (seqZ 0 NINODE) (fun i => mod_inode i (set_ilock initsleeplock)).

(** The scan of the table: the entry of the inode, or the first empty one. *)
Fixpoint iget_scan (k : nat) (t : Z -> inode) (dev inum ip : Z) (empty : option Z) : Z + option Z :=
  match k with
  | O => inr empty
  | S k =>
      if (i_ref (t ip) >? 0) && (i_dev (t ip) =? dev) && (i_inum (t ip) =? inum) then inl ip
      else
        let empty := match empty with
                     | None => if i_ref (t ip) =? 0 then Some ip else None
                     | _ => empty
                     end in
        iget_scan k t dev inum (ip + 1) empty
  end.
Definition iget (dev inum : Z) : FS Z :=
  t ← gets f_inode;
  match iget_scan (Z.to_nat NINODE) t dev inum 0 None with
  | inl ip => _ ← mod_inode ip (fun i => set_ref (i_ref i + 1) i); mret ip
  | inr None => panic "iget: no inodes"
  | inr (Some ip) => _ ← mod_inode ip (fun i => Inode dev inum 1 (i_lock i) false (i_d i)); mret ip
  end.
Definition idup (ip : Z) : FS Z := _ ← mod_inode ip (fun i => set_ref (i_ref i + 1) i); mret ip.

Fixpoint ialloc_loop (k : nat) (dev type inum : Z) : FS (option Z) :=
  match k with
  | O => mret None
  | S k =>
      sb ← gets f_sb;
      bp ← fbread dev (IBLOCK inum sb);
      let o := inum mod IPB * DINODE in
      d ← fdata bp;
      if d_type (get_dinode d o) =? 0 then
        _ ← fupdate bp (fun d => st 2 (mfill d o 0 DINODE) o type);
        _ ← flog_write bp;
        _ ← fbrelse bp;
        ip ← iget dev inum;
        mret (Some ip)
      else _ ← fbrelse bp; ialloc_loop k dev type (inum + 1)
  end.
Definition ialloc (dev type : Z) : FS (option Z) :=
  sb ← gets f_sb; ialloc_loop (Z.to_nat (sb_ninodes sb - 1)) dev type 1.

Definition iupdate (ip : Z) : FS unit :=
  i ← get_inode ip;
  sb ← gets f_sb;
  bp ← fbread (i_dev i) (IBLOCK (i_inum i) sb);
  _ ← fupdate bp (put_dinode (i_d i) (i_inum i mod IPB * DINODE));
  _ ← flog_write bp;
  fbrelse bp.

Definition acquire_ilock (ip : Z) : FS unit := fun s =>
  match acquiresleep pid (i_lock (f_inode s ip)) with
  | Ret l => mod_inode ip (set_ilock l) s
  | Panic e => Panic e
  | Blocked => Blocked
  | NoFuel => NoFuel
  end.
Definition release_ilock (ip : Z) : FS unit := mod_inode ip (fun i => set_ilock (releasesleep (i_lock i)) i).

Definition ilock (ip : Z) : FS unit :=
  i ← get_inode ip;
  if i_ref i <? 1 then panic "ilock"
  else
    _ ← acquire_ilock ip;
    i ← get_inode ip;
    if negb (i_valid i) then
      sb ← gets f_sb;
      bp ← fbread (i_dev i) (IBLOCK (i_inum i) sb);
      d ← fdata bp;
      _ ← mod_d ip (fun _ => get_dinode d (i_inum i mod IPB * DINODE));
      _ ← fbrelse bp;
      _ ← mod_inode ip (set_valid true);
      i ← get_inode ip;
      if d_type (i_d i) =? 0 then panic "ilock: no type" else mret tt
    else mret tt.
Definition iunlock (ip : Z) : FS unit :=
  i ← get_inode ip;
  if negb (holdingsleep pid (i_lock i)) || (i_ref i <? 1) then panic "iunlock"
  else release_ilock ip.

(** ** Contents *)
(** [ip->addrs\[k\]], allocated when it is 0; 0 when the disk is full. *)
Definition bmap_addr (ip k : Z) : FS Z :=
  i ← get_inode ip;
  if d_addrs (i_d i) k =? 0 then
    addr ← balloc (i_dev i);
    if addr =? 0 then mret 0
    else _ ← mod_d ip (set_addr k addr); mret addr
  else mret (d_addrs (i_d i) k).
(** Entry [bn] of the indirect block [addr]. *)
Definition bmap_entry (dev addr bn : Z) : FS Z :=
  bp ← fbread dev addr;
  a ← fdata bp;
  addr ← (if ld32 a (4 * bn) =? 0 then
            addr ← balloc dev;
            if negb (addr =? 0) then
              _ ← fupdate bp (fun d => st32 d (4 * bn) addr);
              _ ← flog_write bp;
              mret addr
            else mret addr
          else mret (ld32 a (4 * bn)));
  _ ← fbrelse bp;
  mret addr.
Definition bmap (ip bn : Z) : FS Z :=
  if bn <? NDIRECT then bmap_addr ip bn
  else
    let bn := bn - NDIRECT in
    if bn <? NINDIRECT then
      addr ← bmap_addr ip NDIRECT;
      if addr =? 0 then mret 0
      else i ← get_inode ip; bmap_entry (i_dev i) addr bn
    else panic "bmap: out of range".

Definition itrunc (ip : Z) : FS unit :=
  _ ← for_each (seqZ 0 NDIRECT) (fun k =>
        i ← get_inode ip;
        if negb (d_addrs (i_d i) k =? 0) then
          _ ← bfree (i_dev i) (d_addrs (i_d i) k);
          mod_d ip (set_addr k 0)
        else mret tt);
  i ← get_inode ip;
  _ ← (if negb (d_addrs (i_d i) NDIRECT =? 0) then
         bp ← fbread (i_dev i) (d_addrs (i_d i) NDIRECT);
         _ ← for_each (seqZ 0 NINDIRECT) (fun j =>
               a ← fdata bp;
               if negb (ld32 a (4 * j) =? 0) then bfree (i_dev i) (ld32 a (4 * j)) else mret tt);
         _ ← fbrelse bp;
         _ ← bfree (i_dev i) (d_addrs (i_d i) NDIRECT);
         mod_d ip (set_addr NDIRECT 0)
       else mret tt);
  _ ← mod_d ip (set_size 0);
  iupdate ip.

Definition iput (ip : Z) : FS unit :=
  i ← get_inode ip;
  _ ← (if (i_ref i =? 1) && i_valid i && (d_nlink (i_d i) =? 0) then
         _ ← acquire_ilock ip;
         _ ← itrunc ip;
         _ ← mod_d ip (set_type 0);
         _ ← iupdate ip;
         _ ← mod_inode ip (set_valid false);
         release_ilock ip
       else mret tt);
  mod_inode ip (fun i => set_ref (i_ref i - 1) i).
Definition iunlockput (ip : Z) : FS unit := _ ← iunlock ip; iput ip.

(** [struct stat]. *)
Record stat := Stat { st_dev : Z; st_ino : Z; st_type : Z; st_nlink : Z; st_size : Z }.
Definition stati (i : inode) : stat :=
  Stat (i_dev i) (i_inum i) (d_type (i_d i)) (d_nlink (i_d i)) (d_size (i_d i)).

(** Copies between a buffer and memory: how many bytes were moved matters, a
    copy from user memory that fails has moved the bytes before the first one
    it could not read. *)
Definition fcopyout (user_dst : bool) (dst : Z) (l : list Z) : FS bool := fun s =>
  let '(ok, u) := either_copyout pt user_dst dst l (f_user s) in Ret (ok, set_user u s).
Definition fcopyin (bp o : Z) (user_src : bool) (src m : Z) : FS bool :=
  r ← gets (fun s => src_bytes (f_user s) pt user_src src m);
  _ ← fupdate bp (put_bytes r o);
  mret (lenZ r =? m).

(** The guards test the C sums on 32 bits; past them no sum wraps around. *)
Fixpoint readi_loop (rounds : nat) (ip : Z) (user_dst : bool) (dst off n tot : Z) : FS Z :=
  if tot <? n then
    match rounds with
    | O => nofuel
    | S rounds =>
        addr ← bmap ip (off / BSIZE);
        if addr =? 0 then mret tot
        else
          i ← get_inode ip;
          bp ← fbread (i_dev i) addr;
          let m := Z.min (n - tot) (BSIZE - off mod BSIZE) in
          d ← fdata bp;
          ok ← fcopyout user_dst dst (bytes d (off mod BSIZE) (Z.to_nat m));
          _ ← fbrelse bp;
          if ok : bool then readi_loop rounds ip user_dst (dst + m) (off + m) n (tot + m)
          else mret (-1)
    end
  else mret tot.
(** Rounds that suffice: every round but the first and the last moves a block. *)
Definition io_rounds (n : Z) : nat := Z.to_nat (n / BSIZE + 2).
Definition readi (ip : Z) (user_dst : bool) (dst off n : Z) : FS Z :=
  i ← get_inode ip;
  let size := d_size (i_d i) in
  if (off >? size) || (u32 (off + n) <? off) then mret 0
  else
    let n := if u32 (off + n) >? size then size - off else n in
    readi_loop (io_rounds n) ip user_dst dst off n 0.

Fixpoint writei_loop (rounds : nat) (ip : Z) (user_src : bool) (src off n tot : Z) : FS (Z * Z) :=
  if tot <? n then
    match rounds with
    | O => nofuel
    | S rounds =>
        addr ← bmap ip (off / BSIZE);
        if addr =? 0 then mret (tot, off)
        else
          i ← get_inode ip;
          bp ← fbread (i_dev i) addr;
          let m := Z.min (n - tot) (BSIZE - off mod BSIZE) in
          ok ← fcopyin bp (off mod BSIZE) user_src src m;
          if ok : bool then
            _ ← flog_write bp;
            _ ← fbrelse bp;
            writei_loop rounds ip user_src (src + m) (off + m) n (tot + m)
          else _ ← fbrelse bp; mret (tot, off)
    end
  else mret (tot, off).
Definition writei (ip : Z) (user_src : bool) (src off n : Z) : FS Z :=
  i ← get_inode ip;
  if (off >? d_size (i_d i)) || (u32 (off + n) <? off) then mret (-1)
  else if u32 (off + n) >? MAXFILE * BSIZE then mret (-1)
  else
    r ← writei_loop (io_rounds n) ip user_src src off n 0;
    let '(tot, off) := r in
    i ← get_inode ip;
    _ ← (if off >? d_size (i_d i) then mod_d ip (set_size off) else mret tt);
    _ ← iupdate ip;
    mret tot.

(** ** Directories *)
(** The [struct dirent] at address [de]: its inum and its name. *)
Definition de_inum (u : U) : Z := kbyte u de + 2 ^ 8 * kbyte u (de + 1).
Definition de_name (u : U) : list Z := kcopyin u (de + 2) (Z.to_nat DIRSIZ).
Definition set_de (name : list Z) (inum : Z) (u : U) : U :=
  let u := kcopyout (de + 2) (strncpy_bytes (Z.to_nat DIRSIZ) name) u in
  kcopyout de [u8 inum; u8 (inum / 2 ^ 8)] u.

(** The entry's inode and offset. *)
Fixpoint dirlookup_loop (rounds : nat) (dp : Z) (name : list Z) (off : Z) : FS (option (Z * Z)) :=
  i ← get_inode dp;
  if off <? d_size (i_d i) then
    match rounds with
    | O => nofuel
    | S rounds =>
        r ← readi dp false de off DIRENT;
        if negb (r =? DIRENT) then panic "dirlookup read"
        else
          u ← gets f_user;
          if de_inum u =? 0 then dirlookup_loop rounds dp name (off + DIRENT)
          else if namecmp name (de_name u) =? 0 then
            i ← get_inode dp;
            ip ← iget (i_dev i) (de_inum u);
            mret (Some (ip, off))
          else dirlookup_loop rounds dp name (off + DIRENT)
    end
  else mret None.
Definition dir_rounds (size : Z) : nat := Z.to_nat (size / DIRENT + 1).
Definition dirlookup (dp : Z) (name : list Z) : FS (option (Z * Z)) :=
  i ← get_inode dp;
  if negb (d_type (i_d i) =? T_DIR) then panic "dirlookup not DIR"
  else dirlookup_loop (dir_rounds (d_size (i_d i))) dp name 0.

Fixpoint empty_dirent (rounds : nat) (dp off : Z) : FS Z :=
  i ← get_inode dp;
  if off <? d_size (i_d i) then
    match rounds with
    | O => nofuel
    | S rounds =>
        r ← readi dp false de off DIRENT;
        if negb (r =? DIRENT) then panic "dirlink read"
        else
          u ← gets f_user;
          if de_inum u =? 0 then mret off else empty_dirent rounds dp (off + DIRENT)
    end
  else mret off.
Definition dirlink (dp : Z) (name : list Z) (inum : Z) : FS Z :=
  r ← dirlookup dp name;
  match r with
  | Some (ip, _) => _ ← iput ip; mret (-1)
  | None =>
      i ← get_inode dp;
      off ← empty_dirent (dir_rounds (d_size (i_d i))) dp 0;
      _ ← modify (fun s => set_user (set_de name inum (f_user s)) s);
      r ← writei dp false de off DIRENT;
      mret (if negb (r =? DIRENT) then -1 else 0)
  end.

(** ** Paths *)
(** The loop of [namex]; the name of the last element is returned with it. *)
Fixpoint namex_loop (fuel : nat) (nameiparent : bool) (ip : Z) (path name : list Z) : FS (option (Z * list Z)) :=
  match fuel with
  | O => nofuel
  | S fuel =>
      match skipelem path with
      | None => if nameiparent then _ ← iput ip; mret None else mret (Some (ip, name))
      | Some (name, path) =>
          _ ← ilock ip;
          i ← get_inode ip;
          if negb (d_type (i_d i) =? T_DIR) then _ ← iunlockput ip; mret None
          else if nameiparent && bool_decide (path = []) then _ ← iunlock ip; mret (Some (ip, name))
          else
            next ← dirlookup ip name;
            match next with
            | None => _ ← iunlockput ip; mret None
            | Some (next, _) => _ ← iunlockput ip; namex_loop fuel nameiparent next path name
            end
      end
  end.
Definition namex (cwd : Z) (path : list Z) (nameiparent : bool) : FS (option (Z * list Z)) :=
  ip ← (if hd 0 path =? SLASH then iget ROOTDEV ROOTINO else idup cwd);
  namex_loop (S (length path)) nameiparent ip path [].
Definition namei (cwd : Z) (path : list Z) : FS (option Z) :=
  r ← namex cwd path false; mret (fst <$> r).
Definition nameiparent (cwd : Z) (path : list Z) : FS (option (Z * list Z)) := namex cwd path true.
End fs.
