(* ===== verification/Tx.v ===== *)
(** Blocks inside a transaction.

    Between [begin_op] and [end_op] the file system sees an array of blocks:
    [bread] locks one, [log_write] makes a change part of the transaction and
    [brelse] lets go.  [tx] relates the log and the cache to that array; the
    laws below are all that the proofs about fs.c use of bio.c and log.c. *)
From S2P Require Import Prelude Riscv Memory Blocks Log Fs.

(** What stays the same while a transaction is open: the log, and the device
    with the writes it has received. *)
Record txbase := TxBase { t_log : log; t_disk : Z -> mem; t_writes : list (Z * mem) }.

Definition count_refs (X : gset Z) (held : gmap Z Z) (b : Z) : nat :=
  ((if decide (b ∈ X) then 1 else 0) + (if decide (b ∈ (map_img held : gset Z)) then 1 else 0))%nat.
Definition refs_of (n : nat) : option nat := match n with O => None | _ => Some n end.

Lemma map_img_delete_inj (m : gmap Z Z) h b :
  m !! h = Some b -> (forall h', m !! h' = Some b -> h' = h) ->
  (map_img (delete h m) : gset Z) = map_img m ∖ {[b]}.
Proof.
  intros Hh Hinj. apply set_eq. intros x.
  rewrite elem_of_difference, elem_of_singleton, !elem_of_map_img. split.
  - intros [i Hi]. apply lookup_delete_Some in Hi as [Hne Hi]. split; [by exists i|].
    intros ->. by apply Hinj in Hi.
  - intros [[i Hi] Hx]. exists i. rewrite lookup_delete_ne; [done|]. intros ->. congruence.
Qed.
Lemma size_map_img_le (m : gmap Z Z) : (size (map_img m : gset Z) <= size m)%nat.
Proof.
  induction m as [|i x m Hi IH] using map_ind.
  { by rewrite map_img_empty_L, size_empty. }
  rewrite map_img_insert_notin_L, map_size_insert_None by done.
  pose proof (size_union_alt ({[x]} : gset Z) (map_img m)) as E.
  assert (size (map_img m ∖ {[x]} : gset Z) <= size (map_img m : gset Z))%nat
    by (apply subseteq_size; set_solver).
  rewrite E, size_singleton. lia.
Qed.

Section tx.
Context {C U : Type} `{HL : BufCacheLaws C}.

Record log_holds (g : log) (bl : list Z) : Prop := { lo_geom : geom g; lo_logged : logged g bl }.
(** A file system call is in progress, which [log_write] requires. *)
Definition in_op (B : txbase) : Prop := 1 <= l_outstanding (t_log B) /\ l_committing (t_log B) = false.

(** The blocks are [V], the buffers [held] are locked, and the transaction has
    logged the blocks [X]. *)
Definition tx (B : txbase) (l : lstate C) (V : Z -> mem) (held : gmap Z Z) (X : gset Z) : Prop :=
  exists a bl n blk,
    bc_rel (ls_cache l) a /\ a_view a = V /\ a_held a = held /\ a_disk a = t_disk B /\
    a_writes a = t_writes B /\ ls_log l = set_lh n blk (t_log B) /\
    log_holds (ls_log l) bl /\ list_to_set bl = X /\ (forall b, b ∉ X -> V b = t_disk B b) /\
    (forall b, a_refs a !! b = refs_of (count_refs X held b)).

Lemma tx_size bl (X : gset Z) g : logged g bl -> list_to_set bl = X -> length bl = size X.
Proof. intros L <-. symmetry. apply size_list_to_set, L. Qed.

Lemma refs_dom_size (r : gmap Z nat) X held :
  (forall b, r !! b = refs_of (count_refs X held b)) -> (size r <= size X + size held)%nat.
Proof.
  intros Hr. rewrite <- size_dom.
  assert (dom r ⊆ X ∪ map_img held) as Hs.
  { intros b Hb. apply elem_of_dom in Hb as [n Hn]. rewrite Hr in Hn. unfold count_refs in Hn.
    repeat case_decide; set_solver. }
  apply subseteq_size in Hs. pose proof (size_map_img_le held).
  assert (size (X ∪ map_img held : gset Z) <= size X + size (map_img held : gset Z))%nat; [|lia].
  rewrite size_union_alt. apply Nat.add_le_mono_l, subseteq_size. set_solver.
Qed.

Definition put_ls (l : lstate C) (s : fs C U) : fs C U := Fs l (f_sb s) (f_inode s) (f_user s).
Lemma put_ls_put l l' s : put_ls l (put_ls l' s) = put_ls l s.
Proof. done. Qed.
Lemma wp_on_log {A} (m : M (lstate C) A) (s : fs C U) (Q : A -> fs C U -> Prop) :
  wp m (f_ls s) (fun a l => Q a (put_ls l s)) -> wp (on_log m) s Q.
Proof.
  intros (a & l & E & HQ). exists a, (put_ls l s). unfold on_log. by rewrite E.
Qed.

Context (B : txbase).
Implicit Types (s : fs C U) (l : lstate C).

Lemma tx_dev s V held X : tx B (f_ls s) V held X -> l_dev (t_log B) = ROOTDEV.
Proof.
  intros (a & bl & n & blk & R & Ev & Eh & Ed & Ew & Eg & O & HX & Hc & Hr).
  pose proof (geo_dev _ (lo_geom _ _ O)) as E. by rewrite Eg in E.
Qed.

Lemma wp_fbread s V held X b Q :
  tx B (f_ls s) V held X -> 0 <= b < SWAPBASE -> (forall h, held !! h <> Some b) ->
  (size X + size held < Z.to_nat NBUF)%nat ->
  (forall h l, held !! h = None -> tx B l V (<[h := b]> held) X -> Q h (put_ls l s)) ->
  wp (fbread ROOTDEV b) s Q.
Proof.
  intros (a & bl & n & blk & R & Ev & Eh & Ed & Ew & Eg & O & HX & Hc & Hr) Hb Hn Hsz HQ.
  apply wp_on_log. destruct (f_ls s) as [c g] eqn:Es. cbn [ls_cache ls_log] in *.
  assert (SWAPBASE < FSSIZE) by done.
  eapply (wp_bread c a g b); [done|lia| | | |].
  - unfold blkdev. by bools.
  - by rewrite Eh.
  - right. pose proof (refs_dom_size _ _ _ Hr). lia.
  - intros h c' Hh R'. rewrite Eh in Hh. apply HQ; [done|]. exists (a_hold h b a), bl, n, blk. cbn.
    rewrite Eh. split_and!; try done. intros x.
    assert (b ∉ (map_img held : gset Z)) as Hbi by (rewrite elem_of_map_img; by intros [i Hi]; apply (Hn i)).
    assert ((map_img (<[h := b]> held) : gset Z) = {[b]} ∪ map_img held) as Ei
      by by rewrite map_img_insert_notin_L.
    destruct (decide (x = b)) as [->|Hx].
    + rewrite refs_inc_lookup, Hr. unfold count_refs. rewrite Ei.
      rewrite (decide_True (P := b ∈ {[b]} ∪ _)) by set_solver.
      rewrite (decide_False (P := b ∈ map_img held)) by done. by destruct (decide (b ∈ X)).
    + rewrite refs_inc_lookup_ne, Hr by done. unfold count_refs. rewrite Ei.
      do 2 f_equal. repeat case_decide; set_solver.
Qed.

Lemma wp_fdata s V held X h b Q :
  tx B (f_ls s) V held X -> held !! h = Some b -> Q (V b) s -> wp (fdata h) s Q.
Proof.
  intros (a & bl & n & blk & R & Ev & Eh & Ed & Ew & Eg & O & HX & Hc & Hr) Hh HQ.
  apply wp_gets. subst held V. by destruct (bc_data _ _ h b R Hh) as [-> _].
Qed.

(** A change and its [log_write]. *)
Lemma wp_fwrite {A} s V held X h b f (k : M (fs C U) A) Q :
  in_op B -> tx B (f_ls s) V held X -> held !! h = Some b -> home (t_log B) b ->
  Z.of_nat (size X) < l_size (t_log B) - 1 ->
  (forall l, tx B l (upd V b (f (V b))) held ({[b]} ∪ X) -> wp k (put_ls l s) Q) ->
  wp (_ ← fupdate h f; _ ← flog_write h; k) s Q.
Proof.
  intros [Ho1 Ho2] (a & bl & n & blk & R & Ev & Eh & Ed & Ew & Eg & [G LG] & HX & Hc & Hr) Hh Hb Hsz HQ.
  apply wp_bind, wp_on_log. destruct (f_ls s) as [c g] eqn:Es. cbn [ls_cache ls_log] in *.
  subst V held. eapply (wp_update c a g h b); [done|done|]. intros c1 R1.
  apply wp_bind, wp_on_log. cbn [f_ls put_ls].
  eapply wp_mono.
  { eapply (log_write_ok c1 _ g bl h b); try done.
    - split; [done|done|by rewrite Eg|by rewrite Eg].
    - by rewrite Eg. - rewrite (tx_size bl X g) by done. by rewrite Eg. }
  intros [] [c2 g2] (bl' & a2 & n2 & blk2 & Eg2 & R2 & [G2 LG2 _ _] & Hcase). cbn [ls_cache ls_log] in *.
  rewrite put_ls_put. apply HQ. exists a2, bl', n2, blk2. cbn [ls_cache ls_log]. subst g.
  assert (b ∈ (map_img (a_held a) : gset Z)) as Hbi by (rewrite elem_of_map_img; by exists h).
  destruct Hcase as [(Hin & -> & ->)|(Hin & -> & ->)]; cbn; split_and!; try done.
  - rewrite <- HX. set_solver.
  - intros x Hx. rewrite upd_ne by set_solver. apply Hc. set_solver.
  - intros x. rewrite Hr. assert ({[b]} ∪ X = X) as -> by set_solver. done.
  - rewrite list_to_set_app_L, HX. cbn. set_solver.
  - intros x Hx. rewrite upd_ne by set_solver. apply Hc. set_solver.
  - assert (b ∉ X) as HbX by (rewrite <- HX; set_solver). intros x.
    destruct (decide (x = b)) as [->|Hx].
    + rewrite refs_inc_lookup, Hr. unfold count_refs. rewrite (decide_False (P := b ∈ X)) by done.
      by rewrite (decide_True (P := b ∈ map_img _)), (decide_True (P := b ∈ {[b]} ∪ X)) by set_solver.
    + rewrite refs_inc_lookup_ne, Hr by done. unfold count_refs. do 2 f_equal.
      repeat case_decide; set_solver.
Qed.

Lemma wp_fbrelse s V held X h b Q :
  tx B (f_ls s) V held X -> held !! h = Some b ->
  (forall l, tx B l V (delete h held) X -> Q tt (put_ls l s)) -> wp (fbrelse h) s Q.
Proof.
  intros (a & bl & n & blk & R & Ev & Eh & Ed & Ew & Eg & O & HX & Hc & Hr) Hh HQ.
  apply wp_on_log. destruct (f_ls s) as [c g] eqn:Es. cbn [ls_cache ls_log] in *. subst V held.
  assert (b ∈ (map_img (a_held a) : gset Z)) as Hbi by (rewrite elem_of_map_img; by exists h).
  pose proof (Hr b) as Hrb. unfold count_refs in Hrb. rewrite (decide_True (P := b ∈ map_img _)) in Hrb by done.
  eapply (wp_brelse c a g h b); [done|done| |].
  { rewrite Ed. destruct (decide (b ∈ X)) as [HbX|HbX]; [right|left; by apply Hc]. by rewrite Hrb. }
  intros c' R'. apply HQ. exists (a_release h b a), bl, n, blk. cbn. split_and!; try done.
  intros x. unfold count_refs.
  rewrite (map_img_delete_inj _ h b) by (done || (intros h' Hh'; by eapply (bc_held_inj c a h' h b))).
  destruct (decide (x = b)) as [->|Hx].
  - rewrite (decide_False (P := b ∈ map_img _ ∖ _)) by set_solver.
    destruct (decide (b ∈ X)); by rewrite (refs_dec_lookup _ _ _ Hrb).
  - rewrite refs_dec_lookup_ne, Hr by done. unfold count_refs. do 2 f_equal.
    repeat case_decide; set_solver.
Qed.
End tx.

(** * From [begin_op] to [end_op] *)
Section whole.
Context {C : Type} `{HL : BufCacheLaws C}.

Definition base_of (g : log) (a : astate) : txbase := TxBase (set_ops 1 false g) (a_disk a) (a_writes a).

Lemma tx_begin c a g :
  bc_rel c a -> idle g a ->
  exists l, begin_op (LState c g) = Ret (tt, l) /\ tx (base_of g a) l (a_view a) ∅ ∅ /\ in_op (base_of g a).
Proof.
  intros R I. pose proof (idle_clean c a g R I) as Hcl. destruct I as [G HLg Ho Hc Q Hh].
  rewrite begin_op_ok, Ho by (rewrite ?(lg_n _ _ HLg), ?Ho; done). eexists. split; [done|]. split; [|done].
  exists a, [], (lh_n g), (lh_block g). split_and!; try done.
  - apply Q.
  - split; [by destruct G|by destruct HLg].
  - intros b. rewrite (q_refs _ _ Q). done.
Qed.

Lemma tx_quiet a X : a_held a = ∅ -> (forall b, a_refs a !! b = refs_of (count_refs X ∅ b)) ->
  forall bl, list_to_set bl = X -> quiet bl a.
Proof.
  intros Hh Hr bl HX. split; [done|]. intros b. rewrite Hr. unfold count_refs.
  rewrite (decide_False (P := b ∈ map_img ∅)) by (rewrite map_img_empty_L; set_solver).
  destruct (decide (b ∈ X)), (decide (b ∈ bl)); try done; subst X; rewrite elem_of_list_to_set in *; done.
Qed.

(** [end_op] makes the blocks of the transaction the contents of the disk, and a
    crash during it leaves the old or the new contents. *)
Lemma tx_end a g l V X :
  idle g a -> tx (base_of g a) l V ∅ X ->
  exists l' W a',
    end_op l = Ret (tt, l') /\ bc_rel (ls_cache l') a' /\ idle (ls_log l') a' /\ same_place (ls_log l') g /\
    a_writes a' = a_writes a ++ W /\ (forall b, home g b -> blk_eq (a_disk a' b) (V b)) /\
    crash_safe g (a_disk a) V W.
Proof.
  intros I (a1 & bl & n & blk & R & Ev & Eh & Ed & Ew & Eg & [G L] & HX & Hc & Hr). cbn [t_disk t_writes t_log base_of] in *.
  destruct l as [c gl]. cbn [ls_cache ls_log] in *. subst gl V.
  destruct (end_op_ok c a1 (set_lh n blk (set_ops 1 false g)) bl R) as ([] & [c2 g2] & E & W & a2 & (n2 & blk2 & Eg2) & R2 & I2 & Ew2 & Hv & Hcs).
  { by eapply tx_quiet. }
  { split; done. }
  { done. }
  { cbn. rewrite Ed. apply I. }
  cbn [ls_cache ls_log] in *. subst g2. eexists _, W, a2. split; [exact E|]. rewrite Ed in Hcs. split_and!; try done.
  by rewrite Ew2, Ew.
Qed.
End whole.
