(* ===== verification/FsBlocks.v ===== *)
(** The free-block bitmap of the file system: [balloc] and [bfree] of
    kernel/fs.c inside a transaction. *)
From S2P Require Import Prelude Riscv Memory Blocks Log Fs Tx.

(** * Bits of a block *)
Definition bit (d : mem) (b : Z) : bool := Z.testbit (ld8 d (b / 8)) (b mod 8).
Definition set_bit (b : Z) (d : mem) : mem := st8 d (b / 8) (Z.lor (ld8 d (b / 8)) (Z.shiftl 1 (b mod 8))).
Definition clear_bit (b : Z) (d : mem) : mem := st8 d (b / 8) (Z.land (ld8 d (b / 8)) (Z.lnot (Z.shiftl 1 (b mod 8)))).

Lemma bit_test d b : (Z.land (ld8 d (b / 8)) (Z.shiftl 1 (b mod 8)) =? 0) = negb (bit d b).
Proof.
  pose proof (Z.mod_pos_bound b 8). rewrite Z.shiftl_1_l. apply land_pow2_bit. lia.
Qed.

Lemma testbit_u8 x i : 0 <= i < 8 -> Z.testbit (u8 x) i = Z.testbit x i.
Proof. intros. unfold u8. apply Z.mod_pow2_bits_low. lia. Qed.
Lemma bit_same_byte b x : b / 8 = x / 8 -> b mod 8 = x mod 8 -> b = x.
Proof. zdiv. Qed.

(** Changing a byte with a bitwise operation changes the bits of that byte. *)
Lemma bit_st8 d b v x :
  bit (st8 d (b / 8) v) x = if x / 8 =? b / 8 then Z.testbit v (x mod 8) else bit d x.
Proof.
  unfold bit. rewrite ld8_st8. destruct (x / 8 =? b / 8); [|done].
  apply testbit_u8, Z.mod_pos_bound. lia.
Qed.
Lemma bit_set d b x : bit (set_bit b d) x = (x =? b) || bit d x.
Proof.
  unfold set_bit. rewrite bit_st8, Z.shiftl_1_l.
  pose proof (Z.mod_pos_bound b 8). pose proof (Z.mod_pos_bound x 8).
  destruct (Z.eqb_spec (x / 8) (b / 8)) as [E|E].
  - rewrite Z.lor_spec, Z.pow2_bits_eqb by lia. unfold bit. rewrite <- E, orb_comm. f_equal.
    destruct (Z.eqb_spec (b mod 8) (x mod 8)); destruct (Z.eqb_spec x b); subst; try done.
    by destruct n; apply bit_same_byte.
  - destruct (Z.eqb_spec x b); [by subst|done].
Qed.
Lemma bit_clear d b x : bit (clear_bit b d) x = negb (x =? b) && bit d x.
Proof.
  unfold clear_bit. rewrite bit_st8, Z.shiftl_1_l.
  pose proof (Z.mod_pos_bound b 8). pose proof (Z.mod_pos_bound x 8).
  destruct (Z.eqb_spec (x / 8) (b / 8)) as [E|E].
  - rewrite Z.land_spec, Z.lnot_spec, Z.pow2_bits_eqb by lia. unfold bit. rewrite <- E, andb_comm. f_equal. f_equal.
    destruct (Z.eqb_spec (b mod 8) (x mod 8)); destruct (Z.eqb_spec x b); subst; try done.
    by destruct n; apply bit_same_byte.
  - destruct (Z.eqb_spec x b); [by subst|done].
Qed.

(** [balloc] scans for the first clear bit below the limit. *)
Lemma free_bit_spec k d b bi limit :
  match free_bit k d b bi limit with
  | Some r => bi <= r < bi + Z.of_nat k /\ b + r < limit /\ bit d r = false /\ forall x, bi <= x < r -> bit d x = true
  | None => forall x, bi <= x < bi + Z.of_nat k -> b + x < limit -> bit d x = true
  end.
Proof.
  revert bi. induction k as [|k IH]; intros bi; cbn [free_bit]; [lia|].
  destruct (Z.ltb_spec (b + bi) limit) as [Hl|Hl]; [|lia]. rewrite bit_test.
  destruct (bit d bi) eqn:E; cbn [negb].
  - specialize (IH (bi + 1)). destruct (free_bit _ _ _ _ _) as [r|].
    + destruct IH as (? & ? & ? & Hx). split_and!; try lia; try done.
      intros x Hx'. destruct (decide (x = bi)) as [->|]; [done|apply Hx; lia].
    + intros x Hx Hxl. destruct (decide (x = bi)) as [->|]; [done|apply IH; lia].
  - split_and!; try lia; done.
Qed.

(** * Layout *)
(** The bitmap covers the blocks below [data_start] (mkfs.c: boot block,
    superblock, log, inodes and bitmap) and the data blocks below [fs_limit],
    where the swap area begins. *)
Definition fs_limit (sb : superblock) : Z := Z.min SWAPBASE (sb_size sb).
Definition data_start (sb : superblock) : Z := sb_bmapstart sb + sb_size sb / BPB + 1.
Record layout (sb : superblock) (g : log) : Prop := {
  ly_start : l_start g = sb_logstart sb;
  ly_size : l_size g = sb_nlog sb;
  ly_log : 2 <= sb_logstart sb /\ 0 < sb_nlog sb /\ sb_logstart sb + sb_nlog sb <= sb_inodestart sb;
  ly_inodes : 0 < sb_ninodes sb /\ sb_inodestart sb + sb_ninodes sb / IPB + 1 <= sb_bmapstart sb;
  ly_data : 0 <= sb_size sb < 2 ^ 31 /\ data_start sb <= fs_limit sb }.

Definition bm (sb : superblock) : Z := sb_bmapstart sb.
Definition used (sb : superblock) (V : Z -> mem) (b : Z) : bool := bit (V (bm sb)) b.
(** The blocks before the data area are never free. *)
Definition meta_used (sb : superblock) (V : Z -> mem) : Prop :=
  forall b, 0 <= b < data_start sb -> used sb V b = true.

Definition data_block (sb : superblock) (b : Z) : Prop := data_start sb <= b < fs_limit sb.
Definition inode_block (sb : superblock) (b : Z) : Prop :=
  sb_inodestart sb <= b < sb_inodestart sb + sb_ninodes sb / IPB + 1.

Section layout.
Context (sb : superblock) (g : log) (LY : layout sb g).

Lemma fs_limit_le : fs_limit sb <= SWAPBASE.
Proof. unfold fs_limit. lia. Qed.
Lemma bm_range : 0 < bm sb < data_start sb.
Proof using LY.
  destruct LY as [_ _ H1 H2 H3]. unfold bm, data_start. pose proof (Z.div_pos (sb_size sb) BPB).
  assert (0 < BPB) by done. pose proof (Z.div_pos (sb_ninodes sb) IPB). assert (0 < IPB) by done. lia.
Qed.
Lemma inode_block_range b : inode_block sb b -> 0 < b < bm sb.
Proof using LY. destruct LY as [_ _ H1 H2 H3]. unfold inode_block, bm. lia. Qed.
Lemma home_after_log b : sb_inodestart sb <= b < SWAPBASE -> home g b.
Proof using LY.
  destruct LY as [E1 E2 H1 H2 H3]. unfold home, in_log. rewrite E1, E2. lia.
Qed.
Lemma bm_home : home g (bm sb).
Proof using LY.
  pose proof bm_range. pose proof fs_limit_le. apply home_after_log. destruct LY as [_ _ H1 H2 H3].
  pose proof (Z.div_pos (sb_ninodes sb) IPB). assert (0 < IPB) by done. unfold bm in *. lia.
Qed.
Lemma data_home b : data_block sb b -> home g b.
Proof using LY.
  intros [H1 H2]. pose proof bm_range. pose proof fs_limit_le. apply home_after_log. destruct LY as [_ _ H3 H4 H5].
  pose proof (Z.div_pos (sb_ninodes sb) IPB). assert (0 < IPB) by done. unfold bm in *. lia.
Qed.
Lemma inode_home b : inode_block sb b -> home g b.
Proof using LY.
  intros Hb. pose proof (inode_block_range b Hb). pose proof bm_range. pose proof fs_limit_le.
  apply home_after_log. destruct LY as [_ _ H3 H4 H5]. unfold inode_block in Hb. lia.
Qed.
Lemma BBLOCK_bm b : 0 <= b < fs_limit sb -> BBLOCK b sb = bm sb.
Proof.
  intros Hb. pose proof fs_limit_le. unfold BBLOCK, bm. rewrite Z.div_small; [lia|].
  change SWAPBASE with 2000 in *. change BPB with 8192. lia.
Qed.
Lemma IBLOCK_inode i : 0 <= i < sb_ninodes sb -> inode_block sb (IBLOCK i sb).
Proof.
  intros Hi. unfold inode_block, IBLOCK. assert (0 < IPB) by done.
  pose proof (Z.div_pos i IPB). pose proof (Z.div_le_mono i (sb_ninodes sb) IPB). lia.
Qed.
End layout.

(** Room for [k] more blocks in the transaction. *)
Definition spare (B : txbase) (X : gset Z) (k : Z) : Prop := Z.of_nat (size X) + k < l_size (t_log B).
Lemma spare_add B X b k : spare B X (k + 1) -> spare B ({[b]} ∪ X) k.
Proof.
  unfold spare. assert (size ({[b]} ∪ X) <= S (size X))%nat; [|lia].
  rewrite size_union_alt, size_singleton. apply le_n_S, subseteq_size. set_solver.
Qed.
Lemma spare_le B X k k' : k' <= k -> spare B X k -> spare B X k'.
Proof. unfold spare. lia. Qed.

(** The buffers held while blocks are allocated: at most one, of a block in use. *)
Record held_ok (sb : superblock) (V : Z -> mem) (held : gmap Z Z) : Prop := {
  hk_size : (size held <= 1)%nat;
  hk_used : forall h b, held !! h = Some b -> used sb V b = true /\ b <> bm sb }.
Lemma held_ok_empty sb V : held_ok sb V ∅.
Proof. split; [by rewrite map_size_empty; lia|]. intros h b. by rewrite lookup_empty. Qed.

(** The blocks after [balloc] returned [r], and after [bfree] of [b]. *)
Definition alloc_view (sb : superblock) (r : Z) (V : Z -> mem) : Z -> mem :=
  let V := upd V (bm sb) (set_bit r (V (bm sb))) in upd V r (mfill (V r) 0 0 BSIZE).
Definition free_view (sb : superblock) (b : Z) (V : Z -> mem) : Z -> mem :=
  upd V (bm sb) (clear_bit b (V (bm sb))).

Section views.
Context (sb : superblock) (g : log) (LY : layout sb g).
Implicit Types (V : Z -> mem).
(** A freshly allocated block, seen through the bitmap and by content. *)
Lemma used_alloc V r b : data_block sb r -> used sb (alloc_view sb r V) b = (b =? r) || used sb V b.
Proof using LY.
  intros Hr. pose proof (bm_range _ _ LY). unfold used, alloc_view.
  rewrite upd_ne, upd_eq by (destruct Hr; lia). apply bit_set.
Qed.
Lemma alloc_view_other V r b : b <> r -> b <> bm sb -> alloc_view sb r V b = V b.
Proof. intros. unfold alloc_view. by rewrite !upd_ne. Qed.
Lemma alloc_view_zero V r i : 0 <= i < BSIZE -> ld8 (alloc_view sb r V r) i = 0.
Proof. intros. unfold alloc_view. rewrite upd_eq, ld8_mfill. by bools. Qed.
Lemma used_free V b x : used sb (free_view sb b V) x = negb (x =? b) && used sb V x.
Proof. unfold used, free_view. rewrite upd_eq. apply bit_clear. Qed.
Lemma free_view_other V b x : x <> bm sb -> free_view sb b V x = V x.
Proof. intros. unfold free_view. by rewrite upd_ne. Qed.
Lemma meta_used_alloc V r : data_block sb r -> meta_used sb V -> meta_used sb (alloc_view sb r V).
Proof using LY. intros Hr Hm b Hb. rewrite used_alloc, Hm by done. apply orb_true_r. Qed.
Lemma meta_used_free V r : data_block sb r -> meta_used sb V -> meta_used sb (free_view sb r V).
Proof. intros Hr Hm b Hb. rewrite used_free, Hm by done. destruct Hr. by bools. Qed.
End views.

Section bitmap.
Context {C U : Type} `{HL : BufCacheLaws C}.
Context (B : txbase) (sb : superblock) (LY : layout sb (t_log B)) (OP : in_op B).
Implicit Types (s : fs C U) (V : Z -> mem) (X : gset Z).

Lemma tx_l_size l V held X : tx B l V held X -> l_size (t_log B) <= LOGSIZE.
Proof.
  intros (a & bl & n & blk & R & Ev & Eh & Ed & Ew & Eg & O & HX & Hc & Hr).
  pose proof (geo_size _ (lo_geom _ _ O)) as E. rewrite Eg in E. apply E.
Qed.
Lemma tx_spare l V held X : tx B l V held X -> spare B X 0.
Proof.
  intros (a & bl & n & blk & R & Ev & Eh & Ed & Ew & Eg & [G L] & HX & Hc & Hr).
  pose proof (lg_len _ _ L) as Hl. rewrite (tx_size _ _ _ L HX), Eg in Hl. unfold spare. cbn in Hl. lia.
Qed.
(** The buffer cache can hold the transaction and one or two buffers more. *)
Lemma tx_room l V held X k :
  tx B l V held X -> spare B X k -> Z.of_nat (size held) <= k -> (size X + size held < Z.to_nat NBUF)%nat.
Proof.
  intros T Hs Hk. pose proof (tx_l_size _ _ _ _ T). unfold spare in Hs. change LOGSIZE with 30 in *.
  change (Z.to_nat NBUF) with 30%nat. lia.
Qed.

Lemma wp_bzero s V held X b k Q :
  tx B (f_ls s) V held X -> data_block sb b -> (forall h, held !! h <> Some b) ->
  spare B X k -> Z.of_nat (size held) <= k -> 1 <= k ->
  (forall l, tx B l (upd V b (mfill (V b) 0 0 BSIZE)) held ({[b]} ∪ X) -> Q tt (put_ls l s)) ->
  wp (bzero ROOTDEV b) s Q.
Proof using LY OP.
  intros T Hb Hh Hs Hk Hk1 HQ. pose proof (data_home _ _ LY b Hb) as Hhm.
  unfold bzero. apply wp_bind. eapply wp_fbread; [done|apply Hhm|done|by eapply tx_room|].
  intros h l Hn T1. eapply wp_fwrite; [done|exact T1|apply lookup_insert_eq|done|unfold spare in Hs; lia|].
  intros l2 T2. eapply wp_fbrelse; [exact T2|apply lookup_insert_eq|]. intros l3 T3.
  rewrite delete_insert_id in T3 by done. by apply HQ.
Qed.

Lemma wp_balloc s V held X Q :
  tx B (f_ls s) V held X -> f_sb s = sb -> meta_used sb V -> held_ok sb V held -> spare B X 2 ->
  (forall l, tx B l V held X -> (forall b, 0 <= b < fs_limit sb -> used sb V b = true) -> Q 0 (put_ls l s)) ->
  (forall l r, tx B l (alloc_view sb r V) held ({[r]} ∪ ({[bm sb]} ∪ X)) -> data_block sb r -> used sb V r = false ->
     (forall b, 0 <= b < r -> used sb V b = true) -> Q r (put_ls l s)) ->
  wp (balloc ROOTDEV) s Q.
Proof using LY OP.
  intros T Hsb Hm [Hh1 Hhu] Hs HQ0 HQ. pose proof (bm_range _ _ LY) as Hbm. pose proof (bm_home _ _ LY) as Hbh.
  assert (0 < fs_limit sb) as Hlim by (destruct LY as [_ _ _ _ H5]; unfold bm in *; lia).
  unfold balloc. apply wp_bind, wp_gets. rewrite Hsb.
  assert ((if SWAPBASE >? sb_size sb then sb_size sb else SWAPBASE) = fs_limit sb) as ->.
  { unfold fs_limit. rewrite Z.gtb_ltb. bools. }
  assert (fs_limit sb / BPB = 0) as ->.
  { apply Z.div_small. pose proof (fs_limit_le sb). change SWAPBASE with 2000 in *. change BPB with 8192. lia. }
  change (Z.to_nat (0 + 1)) with 1%nat. cbn [balloc_loop].
  rewrite (proj2 (Z.ltb_lt 0 _)) by done. apply wp_bind, wp_gets. rewrite Hsb, BBLOCK_bm by lia.
  apply wp_bind. eapply wp_fbread; [exact T|apply Hbh| |eapply tx_room; [done|done|lia]|].
  { intros h Hh. by apply Hhu in Hh as [_ ?]. }
  intros h l Hn T1. apply wp_bind. eapply wp_fdata; [exact T1|apply lookup_insert_eq|].
  pose proof (free_bit_spec (Z.to_nat BPB) (V (bm sb)) 0 0 (fs_limit sb)) as Hf.
  destruct (free_bit _ _ _ _ _) as [r|].
  - destruct Hf as (Hr & Hrl & Hrf & Hr1). eapply wp_fwrite; [done|exact T1|apply lookup_insert_eq|done|unfold spare in Hs; lia|].
    intros l2 T2. apply wp_bind. eapply wp_fbrelse; [exact T2|apply lookup_insert_eq|]. intros l3 T3.
    rewrite delete_insert_id in T3 by done. rewrite Z.add_0_l in *.
    assert (data_block sb r) as Hd.
    { split; [|done]. destruct (Z.le_gt_cases (data_start sb) r); [done|].
      assert (used sb V r = true) as Hu by (apply Hm; lia). unfold used in Hu. congruence. }
    apply wp_bind. eapply (wp_bzero _ _ _ _ _ 1); [exact T3|done| |by apply spare_add|lia|lia|].
    { intros h' Hh'. apply Hhu in Hh' as [Hu _]. unfold used in Hu. congruence. }
    intros l4 T4. apply wp_ret. apply HQ; [exact T4|done|done|]. intros b Hb. apply Hr1. lia.
  - apply wp_bind. eapply wp_fbrelse; [exact T1|apply lookup_insert_eq|]. intros l2 T2.
    rewrite delete_insert_id in T2 by done. cbn [balloc_loop].
    rewrite (proj2 (Z.ltb_ge _ _)).
    + apply wp_ret. apply HQ0; [done|]. intros b Hb. apply Hf; [|lia].
      pose proof (fs_limit_le sb). change SWAPBASE with 2000 in *. change (Z.of_nat (Z.to_nat BPB)) with 8192. lia.
    + pose proof (fs_limit_le sb). change SWAPBASE with 2000 in *. change BPB with 8192. lia.
Qed.

Lemma wp_bfree s V held X b Q :
  tx B (f_ls s) V held X -> f_sb s = sb -> data_block sb b -> used sb V b = true ->
  held_ok sb V held -> spare B X 1 ->
  (forall l, tx B l (free_view sb b V) held ({[bm sb]} ∪ X) -> Q tt (put_ls l s)) ->
  wp (bfree ROOTDEV b) s Q.
Proof using LY OP.
  intros T Hsb Hb Hu [Hh1 Hhu] Hs HQ. pose proof (bm_range _ _ LY) as Hbm. pose proof (bm_home _ _ LY) as Hbh.
  assert (0 <= b < fs_limit sb) as Hb0 by (destruct Hb; lia).
  unfold bfree. apply wp_bind, wp_gets. rewrite Hsb, BBLOCK_bm by done.
  assert (b mod BPB = b) as ->.
  { apply Z.mod_small. pose proof (fs_limit_le sb). change SWAPBASE with 2000 in *. change BPB with 8192. lia. }
  apply wp_bind. eapply wp_fbread; [exact T|apply Hbh| |eapply tx_room; [done|done|lia]|].
  { intros h Hh. by apply Hhu in Hh as [_ ?]. }
  intros h l Hn T1. apply wp_bind. eapply wp_fdata; [exact T1|apply lookup_insert_eq|].
  rewrite bit_test. unfold used in Hu. rewrite Hu. cbn [negb].
  eapply wp_fwrite; [done|exact T1|apply lookup_insert_eq|done|unfold spare in Hs; lia|].
  intros l2 T2. eapply wp_fbrelse; [exact T2|apply lookup_insert_eq|]. intros l3 T3.
  rewrite delete_insert_id in T3 by done. by apply HQ.
Qed.
End bitmap.
