(* ===== verification/FsFile.v ===== *)
(** The contents of files: [bmap], [readi], [writei] and [iupdate] of
    kernel/fs.c, against a file as a function from offsets to bytes. *)
From S2P Require Import Prelude Riscv Memory Locks Blocks Log UserMem Fs Tx FsBlocks.

(** Arithmetic with the sizes of fs.h. *)
Ltac fsz :=
  change MAXFILE with 268 in *; change NDIRECT with 12 in *; change NINDIRECT with 256 in *;
  change BSIZE with 1024 in *; lia.

(** * A file on blocks *)
Definition ind (d : dinode) : Z := d_addrs d NDIRECT.
(** The block that holds block [k] of the file, 0 when there is none. *)
Definition blk (V : Z -> mem) (d : dinode) (k : Z) : Z :=
  if k <? NDIRECT then d_addrs d k
  else if ind d =? 0 then 0 else ld32 (V (ind d)) (4 * (k - NDIRECT)).
(** The byte at offset [i]; a block that is not there reads as zeros. *)
Definition fbyte (V : Z -> mem) (d : dinode) (i : Z) : Z :=
  if blk V d (i / BSIZE) =? 0 then 0 else ld8 (V (blk V d (i / BSIZE))) (i mod BSIZE).

(** The blocks of a file are allocated data blocks, each used once. *)
Record inode_ok (sb : superblock) (V : Z -> mem) (d : dinode) : Prop := {
  io_data k : 0 <= k < MAXFILE -> blk V d k <> 0 -> data_block sb (blk V d k) /\ used sb V (blk V d k) = true;
  io_ind : ind d <> 0 -> data_block sb (ind d) /\ used sb V (ind d) = true;
  io_inj k k' : 0 <= k < MAXFILE -> 0 <= k' < MAXFILE -> blk V d k <> 0 -> blk V d k = blk V d k' -> k = k';
  io_sep k : 0 <= k < MAXFILE -> blk V d k = ind d -> ind d = 0 }.

(** [d] and [d'] differ in their block addresses only. *)
Definition same_meta (d d' : dinode) : Prop :=
  d_type d' = d_type d /\ d_major d' = d_major d /\ d_minor d' = d_minor d /\
  d_nlink d' = d_nlink d /\ d_size d' = d_size d.

(** From [V] and [d] to [V'] and [d'] the file got the contents [c]: its blocks
    stay where they are, new ones were free, and nothing else in use changed. *)
Record evolves (sb : superblock) (V : Z -> mem) (d : dinode) (V' : Z -> mem) (d' : dinode) (c : Z -> Z) : Prop := {
  ev_ok : inode_ok sb V' d';
  ev_meta : meta_used sb V';
  ev_bytes i : 0 <= i < MAXFILE * BSIZE -> fbyte V' d' i = c i;
  ev_same : same_meta d d';
  ev_used b : used sb V b = true -> used sb V' b = true;
  ev_blk k : 0 <= k < MAXFILE -> blk V d k <> 0 -> blk V' d' k = blk V d k;
  ev_new k : 0 <= k < MAXFILE -> blk V d k = 0 -> blk V' d' k <> 0 -> used sb V (blk V' d' k) = false;
  ev_ind : ind d <> 0 -> ind d' = ind d;
  ev_ind_new : ind d = 0 -> ind d' <> 0 -> used sb V (ind d') = false;
  ev_frame b : used sb V b = true -> b <> bm sb -> b <> ind d ->
    (forall k, 0 <= k < MAXFILE -> blk V d k <> b) -> V' b = V b }.

Lemma fevolves_refl sb V d : inode_ok sb V d -> meta_used sb V -> evolves sb V d V d (fbyte V d).
Proof. intros Ho Hm. split; try done. Qed.

Lemma fevolves_trans sb V d V1 d1 c1 V2 d2 c2 :
  evolves sb V d V1 d1 c1 -> evolves sb V1 d1 V2 d2 c2 -> evolves sb V d V2 d2 c2.
Proof.
  intros [O1 M1 B1 S1 U1 K1 N1 I1 J1 F1] [O2 M2 B2 S2 U2 K2 N2 I2 J2 F2]. split; try done.
  - destruct S1 as (?&?&?&?&?), S2 as (?&?&?&?&?). unfold same_meta. split_and!; congruence.
  - auto.
  - intros k Hk H0. rewrite K2; [by apply K1|done|by rewrite K1].
  - intros k Hk H0 Hn. destruct (decide (blk V1 d1 k = 0)) as [E|E].
    + destruct (used sb V (blk V2 d2 k)) eqn:Eu; [|done].
      apply U1 in Eu. by rewrite (N2 k Hk E Hn) in Eu.
    + rewrite K2 in Hn |- * by done. by apply N1.
  - intros H0. rewrite I2; [by apply I1|by rewrite I1].
  - intros H0 Hn. destruct (decide (ind d1 = 0)) as [E|E].
    + destruct (used sb V (ind d2)) eqn:Eu; [|done]. apply U1 in Eu. by rewrite (J2 E Hn) in Eu.
    + rewrite I2 in Hn |- * by done. by apply J1.
  - intros b Hb Hbm Hbi Hbk. rewrite F2; [by apply F1|by apply U1|done| |].
    + intros ->. destruct (decide (ind d = 0)) as [E|E]; [|by rewrite I1 in Hbi].
      destruct (decide (ind d1 = 0)) as [E1|E1]; [congruence|]. rewrite (J1 E E1) in Hb. done.
    + intros k Hk <-. destruct (decide (blk V d k = 0)) as [E|E]; [|by apply (Hbk k); [|rewrite K1]].
      destruct (decide (blk V1 d1 k = 0)) as [E1|E1]; [by apply (Hbk k); [|congruence]|].
      rewrite (N1 k Hk E E1) in Hb. done.
Qed.

Lemma data_block_pos sb g b : layout sb g -> data_block sb b -> 0 < b /\ b <> bm sb.
Proof. intros LY [H1 H2]. pose proof (bm_range _ _ LY). lia. Qed.
Lemma block_offset i : 0 <= i < MAXFILE * BSIZE -> 0 <= i / BSIZE < MAXFILE /\ 0 <= i mod BSIZE < BSIZE.
Proof.
  intros H. assert (0 < BSIZE) by done. split; [|by apply Z.mod_pos_bound].
  split; [by apply Z.div_pos; lia|]. apply Z.div_lt_upper_bound; lia.
Qed.

Section evolve.
Context (sb : superblock) (g : log) (LY : layout sb g).
Implicit Types (V : Z -> mem) (d : dinode).

(** One block of the file appears, zeroed. *)
Lemma evolves_slot V d V' d' bn r :
  inode_ok sb V d -> meta_used sb V' -> 0 <= bn < MAXFILE -> blk V d bn = 0 ->
  data_block sb r -> used sb V r = false -> (forall b, used sb V' b = (b =? r) || used sb V b) ->
  (forall k, 0 <= k < MAXFILE -> blk V' d' k = if k =? bn then r else blk V d k) ->
  ind d' = ind d -> same_meta d d' -> (forall i, 0 <= i < BSIZE -> ld8 (V' r) i = 0) ->
  (forall b, used sb V b = true -> b <> bm sb -> b <> ind d -> V' b = V b) ->
  evolves sb V d V' d' (fbyte V d).
Proof using LY.
  intros [OD OI OJ OS] Hm Hbn H0 Hr Hru Hu Hk Hi Hs Hz Hf.
  destruct (data_block_pos sb g r LY Hr) as [Hr0 _].
  assert (forall k, 0 <= k < MAXFILE -> blk V d k <> 0 -> blk V d k <> r) as Hne.
  { intros k Hk' Hb E. destruct (OD k Hk' Hb) as [_ E']. congruence. }
  split; try done.
  - split.
    + intros k Hk'. rewrite Hk by done. destruct (Z.eqb_spec k bn); intros Hb.
      * by rewrite Hu, Z.eqb_refl.
      * destruct (OD k Hk' Hb) as [? E]. split; [done|]. rewrite Hu, E. apply orb_true_r.
    + rewrite Hi. intros Hb. destruct (OI Hb) as [? E]. split; [done|]. rewrite Hu, E. apply orb_true_r.
    + intros k k' Hk1 Hk2. rewrite !Hk by done.
      destruct (Z.eqb_spec k bn), (Z.eqb_spec k' bn); subst; intros Hb E; try done.
      * by destruct (Hne k' Hk2); [congruence|].
      * by destruct (Hne k Hk1).
      * by apply OJ.
    + intros k Hk1. rewrite Hk, Hi by done. destruct (Z.eqb_spec k bn); [|by apply OS].
      intros E. destruct (decide (ind d = 0)) as [|E0]; [done|]. destruct (OI E0). congruence.
  - intros i Hi'. destruct (block_offset i Hi') as [Hq Ho]. unfold fbyte. rewrite Hk by done.
    destruct (Z.eqb_spec (i / BSIZE) bn) as [E|E].
    + rewrite E, H0. cbn. rewrite Hz by done. by destruct (r =? 0).
    + destruct (Z.eqb_spec (blk V d (i / BSIZE)) 0) as [|E0]; [done|].
      destruct (OD _ Hq E0) as [Hd Eu]. rewrite Hf; [done|done|by eapply data_block_pos|].
      intros E'. apply E0. rewrite E'. by apply (OS _ Hq).
  - intros b Hb. rewrite Hu, Hb. apply orb_true_r.
  - intros k Hk1 Hb. rewrite Hk by done. destruct (Z.eqb_spec k bn); [by subst|done].
  - intros k Hk1 Hb. rewrite Hk by done. by destruct (Z.eqb_spec k bn).
  - rewrite Hi. congruence.
  - intros b Hb1 Hb2 Hb3 _. by apply Hf.
Qed.

Lemma alloc_keeps V r b : used sb V r = false -> used sb V b = true -> b <> bm sb -> alloc_view sb r V b = V b.
Proof. intros Hr Hb Hbm. apply alloc_view_other; [|done]. intros ->. congruence. Qed.

(** From [V] to [V1] the free data block [r] was allocated. *)
Record allocated V r V1 : Prop := {
  al_data : data_block sb r;
  al_free : used sb V r = false;
  al_used b : used sb V1 b = (b =? r) || used sb V b;
  al_zero i : 0 <= i < BSIZE -> ld8 (V1 r) i = 0;
  al_keeps b : used sb V b = true -> b <> bm sb -> V1 b = V b }.
Lemma allocated_view V r : data_block sb r -> used sb V r = false -> allocated V r (alloc_view sb r V).
Proof using LY.
  intros Hr Hu. split; try done; [intros b; by eapply used_alloc|apply alloc_view_zero|intros b; by apply alloc_keeps].
Qed.
Lemma allocated_meta V r V1 : allocated V r V1 -> meta_used sb V -> meta_used sb V1.
Proof. intros A Hm b Hb. rewrite (al_used _ _ _ A), Hm by done. apply orb_true_r. Qed.

(** A direct block. *)
Lemma evolves_direct V V1 d bn r :
  inode_ok sb V d -> meta_used sb V -> 0 <= bn < NDIRECT -> d_addrs d bn = 0 -> allocated V r V1 ->
  evolves sb V d V1 (set_addr bn r d) (fbyte V d).
Proof using LY.
  intros O Hm Hbn H0 A. assert (ind (set_addr bn r d) = ind d) as Ei.
  { unfold ind. cbn. rewrite upd_ne by lia. done. }
  pose proof (allocated_meta _ _ _ A Hm) as Hm1. destruct A as [Hr Hru Hu1 Hz1 Hk1].
  apply (evolves_slot V d _ _ bn r); try done.
  - fsz.
  - unfold blk. by bools.
  - intros k Hk. unfold blk. rewrite Ei. cbn [d_addrs set_addr]. unfold upd.
    destruct (Z.ltb_spec k NDIRECT); [by destruct (Z.eqb_spec k bn)|].
    destruct (Z.eqb_spec k bn); [lia|]. destruct (Z.eqb_spec (ind d) 0) as [|E0]; [done|].
    destruct (io_ind _ _ _ O E0) as [Hd Hu]. rewrite Hk1; try done. by eapply data_block_pos.
  - intros b Hb1 Hb2 _. by apply Hk1.
Qed.

Lemma ld_zero n (d : mem) a : (forall i, a <= i < a + Z.of_nat n -> ld8 d i = 0) -> ld n d a = 0.
Proof.
  revert a. induction n as [|n IH]; intros a Hz; [done|]. cbn [ld]. rewrite Hz, IH by (try intros; try apply Hz; lia). done.
Qed.

(** The indirect block. *)
Lemma evolves_indirect V V1 d r :
  inode_ok sb V d -> meta_used sb V -> ind d = 0 -> allocated V r V1 ->
  evolves sb V d V1 (set_addr NDIRECT r d) (fbyte V d).
Proof using LY.
  intros O Hm H0 A. pose proof (allocated_meta _ _ _ A Hm) as Hm1. destruct A as [Hr Hru Hu Hz1 Hk1].
  assert (ind (set_addr NDIRECT r d) = r) as Ei by by apply upd_eq.
  destruct (data_block_pos sb g r LY Hr) as [Hr0 Hrb].
  assert (forall k, 0 <= k < MAXFILE -> blk V1 (set_addr NDIRECT r d) k = blk V d k) as Hk.
  { intros k Hk. unfold blk. rewrite Ei, H0. cbn [d_addrs set_addr].
    destruct (Z.ltb_spec k NDIRECT); [by rewrite upd_ne by lia|]. destruct (r =? 0); [done|].
    change (0 =? 0) with true. cbv iota.
    apply ld_zero. intros i Hi. apply Hz1. fsz. }
  destruct O as [OD OI OJ OS]. split; try done.
  - split.
    + intros k Hk'. rewrite Hk by done. intros Hb. destruct (OD k Hk' Hb) as [? E]. split; [done|].
      rewrite Hu, E. apply orb_true_r.
    + rewrite Ei. intros _. by rewrite Hu, Z.eqb_refl.
    + intros k k' H1 H2. rewrite !Hk by done. by apply OJ.
    + intros k Hk'. rewrite Hk, Ei by done. intros E. destruct (OD k Hk'); congruence || lia.
  - intros i Hi. destruct (block_offset i Hi) as [Hq Ho]. unfold fbyte. rewrite Hk by done.
    destruct (Z.eqb_spec (blk V d (i / BSIZE)) 0) as [|E0]; [done|].
    destruct (OD _ Hq E0) as [Hd Eu]. rewrite Hk1; try done. by eapply data_block_pos.
  - intros b Hb. rewrite Hu, Hb. apply orb_true_r.
  - intros k Hk' _. by apply Hk.
  - intros k Hk' E. rewrite Hk by done. done.
  - intros b Hb1 Hb2 _ _. by apply Hk1.
Qed.

Lemma ld32_st32 m a v b : 0 <= v < 2 ^ 32 -> (b = a \/ b + 4 <= a \/ a + 4 <= b) ->
  ld32 (st32 m a v) b = if b =? a then v else ld32 m b.
Proof.
  intros Hv Hb. destruct (Z.eqb_spec b a) as [->|Hne].
  - rewrite ld32_st32_same. by apply u32_small.
  - apply ld_st_other. lia.
Qed.

(** A block through the indirect block. *)
Lemma evolves_entry V V1 d bn r :
  inode_ok sb V d -> meta_used sb V -> NDIRECT <= bn < MAXFILE -> ind d <> 0 -> blk V d bn = 0 -> allocated V r V1 ->
  evolves sb V d (upd V1 (ind d) (st32 (V1 (ind d)) (4 * (bn - NDIRECT)) r)) d (fbyte V d).
Proof using LY.
  intros O Hm Hbn Hi H0 A. pose proof (allocated_meta _ _ _ A Hm) as Hm1. destruct A as [Hr Hru Hu1 Hz1 Hk1].
  destruct (io_ind _ _ _ O Hi) as [Hid Hiu].
  destruct (data_block_pos sb g _ LY Hid) as [_ Hib]. destruct (data_block_pos sb g _ LY Hr) as [Hr0 Hrb].
  assert (V1 (ind d) = V (ind d)) as E1 by by apply Hk1.
  assert (ind d <> r) as Hir by (intros E; congruence).
  assert (fs_limit sb < 2 ^ 32) as Hlim by (pose proof (fs_limit_le sb); change SWAPBASE with 2000 in *; lia).
  assert (forall b, used sb (upd V1 (ind d) (st32 (V1 (ind d)) (4 * (bn - NDIRECT)) r)) b = used sb V1 b) as Hu2.
  { intros b. unfold used. by rewrite upd_ne. }
  apply (evolves_slot V d _ _ bn r); try done.
  - intros b Hb. rewrite Hu2. by apply Hm1.
  - fsz.
  - intros b. rewrite Hu2. apply Hu1.
  - intros k Hk. unfold blk. destruct (Z.ltb_spec k NDIRECT).
    { by destruct (Z.eqb_spec k bn); [lia|]. }
    rewrite (proj2 (Z.eqb_neq (ind d) 0)), upd_eq, E1 by done.
    rewrite ld32_st32 by (destruct Hr; lia).
    destruct (Z.eqb_spec k bn); destruct (Z.eqb_spec (4 * (k - NDIRECT)) (4 * (bn - NDIRECT))); (done || lia).
  - intros i Hi'. rewrite upd_ne by done. by apply Hz1.
  - intros b Hb1 Hb2 Hb3. rewrite upd_ne by done. by apply Hk1.
Qed.
End evolve.

(** * [bmap] *)
(** Only the on-disk part of inode [ip] changed between [s] and [s']. *)
Record with_d {C U} (s s' : fs C U) (ip : Z) (d' : dinode) : Prop := {
  wd_sb : f_sb s' = f_sb s;
  wd_user : f_user s' = f_user s;
  wd_inode j : f_inode s' j = if j =? ip then set_d d' (f_inode s ip) else f_inode s j }.
(** What an operation on the blocks [lo] to [hi - 1] of a file may log. *)
Definition touched (sb : superblock) (V : Z -> mem) (d : dinode) (lo hi x : Z) : Prop :=
  x = bm sb \/ (x <> 0 /\ (x = ind d \/ exists k, lo <= k < hi /\ 0 <= k < MAXFILE /\ x = blk V d k)).
Definition full (sb : superblock) (V : Z -> mem) : Prop := forall b, 0 <= b < fs_limit sb -> used sb V b = true.

Lemma with_d_refl {C U} (s : fs C U) l ip : with_d s (put_ls l s) ip (i_d (f_inode s ip)).
Proof.
  split; try done. intros j. cbn. destruct (Z.eqb_spec j ip) as [->|]; [|done]. by destruct (f_inode s ip).
Qed.
Lemma with_d_ls {C U} (s s' : fs C U) l ip d' : with_d s s' ip d' -> with_d s (put_ls l s') ip d'.
Proof. by intros [? ? ?]. Qed.
Lemma with_d_trans {C U} (s s1 s2 : fs C U) ip d1 d2 :
  with_d s s1 ip d1 -> with_d s1 s2 ip d2 -> with_d s s2 ip d2.
Proof.
  intros [A1 B1 C1] [A2 B2 C2]. split; [congruence|congruence|].
  intros j. rewrite C2, !C1, Z.eqb_refl. by destruct (j =? ip).
Qed.
Lemma with_d_mod {C U} (s : fs C U) ip f :
  with_d s (Fs (f_ls s) (f_sb s) (upd (f_inode s) ip (set_d (f (i_d (f_inode s ip))) (f_inode s ip))) (f_user s))
    ip (f (i_d (f_inode s ip))).
Proof. split; try done. Qed.
Lemma with_d_at {C U} (s s' : fs C U) ip d' : with_d s s' ip d' -> f_inode s' ip = set_d d' (f_inode s ip).
Proof. intros W. by rewrite (wd_inode _ _ _ _ W), Z.eqb_refl. Qed.

Lemma none_held (b : Z) : forall h, (∅ : gmap Z Z) !! h <> Some b.
Proof. intros h. by rewrite lookup_empty. Qed.

Section bmap.
Context {C U : Type} `{HL : BufCacheLaws C}.
Context (B : txbase) (sb : superblock) (LY : layout sb (t_log B)).
Implicit Types (s : fs C U) (V : Z -> mem) (X : gset Z) (d : dinode).

(** A file system state in which [ip] is a file: its blocks are [V] and its
    inode [d]; [X] is what the transaction logged so far. *)
Record file_at s V X ip d : Prop := {
  fa_tx : tx B (f_ls s) V ∅ X;
  fa_sb : f_sb s = sb;
  fa_meta : meta_used sb V;
  fa_d : i_d (f_inode s ip) = d;
  fa_dev : i_dev (f_inode s ip) = ROOTDEV;
  fa_ok : inode_ok sb V d }.

Lemma file_at_evolves s s' V V' X X' ip d d' c :
  file_at s V X ip d -> tx B (f_ls s') V' ∅ X' -> with_d s s' ip d' -> evolves sb V d V' d' c ->
  file_at s' V' X' ip d'.
Proof.
  intros [T S M D E O] T' W EV. pose proof (with_d_at _ _ _ _ W) as Ei. split.
  - exact T'. - by rewrite (wd_sb _ _ _ _ W). - exact (ev_meta _ _ _ _ _ _ EV).
  - by rewrite Ei. - rewrite Ei. exact E. - exact (ev_ok _ _ _ _ _ _ EV).
Qed.

(** ** Blocks that are there *)
Lemma wp_bmap_mapped s V X ip bn d Q :
  file_at s V X ip d -> 0 <= bn < MAXFILE -> blk V d bn <> 0 ->
  (forall l, tx B l V ∅ X -> Q (blk V d bn) (put_ls l s)) -> wp (bmap ip bn) s Q.
Proof using LY.
  intros [T S M D E O] Hbn Hb HQ. unfold bmap. pose proof (tx_spare _ _ _ _ _ T) as Hs.
  assert (s = put_ls (f_ls s) s) as Es by by destruct s.
  unfold blk in *. destruct (Z.ltb_spec bn NDIRECT).
  - unfold bmap_addr. apply wp_bind, wp_gets. rewrite D, (proj2 (Z.eqb_neq _ _)) by done.
    apply wp_ret. rewrite Es. by apply HQ.
  - rewrite (proj2 (Z.ltb_lt (bn - NDIRECT) _)) by fsz.
    destruct (Z.eqb_spec (ind d) 0) as [|Hi]; [done|].
    apply wp_bind. unfold bmap_addr. apply wp_bind, wp_gets. fold (ind (i_d (f_inode s ip))).
    rewrite D, (proj2 (Z.eqb_neq _ _)) by done. apply wp_ret. rewrite (proj2 (Z.eqb_neq _ _)) by done.
    apply wp_bind, wp_gets. rewrite E. unfold bmap_entry.
    destruct (io_ind _ _ _ O Hi) as [Hd _]. pose proof (data_home _ _ LY _ Hd) as [Hr _].
    apply wp_bind. eapply wp_fbread; [done|done|apply none_held|eapply tx_room; [done|done|by rewrite map_size_empty]|].
    intros h l _ T1. apply wp_bind. eapply wp_fdata; [exact T1|apply lookup_insert_eq|].
    rewrite (proj2 (Z.eqb_neq (ld32 _ _) _)) by done. apply wp_bind, wp_ret. apply wp_bind.
    eapply wp_fbrelse; [exact T1|apply lookup_insert_eq|]. intros l2 T2.
    rewrite delete_insert_id in T2 by done. apply wp_ret. by apply HQ.
Qed.

(** ** Allocation *)
Context (OP : in_op B).

Lemma wp_mod_d {A} s ip f (k : M (fs C U) A) Q :
  (forall s', f_ls s' = f_ls s -> with_d s s' ip (f (i_d (f_inode s ip))) -> wp k s' Q) ->
  wp (_ ← mod_d ip f; k) s Q.
Proof. intros HQ. apply wp_bind, wp_modify, HQ; [done|apply with_d_mod]. Qed.

Lemma wp_bmap_addr s V X ip k d Q :
  file_at s V X ip d -> 0 <= k <= NDIRECT -> spare B X 2 ->
  (forall s' V' X' d', tx B (f_ls s') V' ∅ X' -> with_d s s' ip d' -> evolves sb V d V' d' (fbyte V d) ->
     (forall x, x ∈ X' -> x ∈ X \/ x = bm sb \/ (x <> 0 /\ x = d_addrs d' k)) -> (d_addrs d' k = 0 -> full sb V') ->
     Q (d_addrs d' k) s') ->
  wp (bmap_addr ip k) s Q.
Proof using LY OP.
  intros [T S M D E O] Hk Hs HQ. unfold bmap_addr. apply wp_bind, wp_gets. rewrite D.
  pose proof (with_d_refl s (f_ls s) ip) as W0. rewrite D in W0.
  assert (put_ls (f_ls s) s = s) as Es by by destruct s.
  destruct (Z.eqb_spec (d_addrs d k) 0) as [E0|E0].
  - apply wp_bind. rewrite E. eapply wp_balloc; [done|done|exact T|done|done|apply held_ok_empty|done| |].
    + intros l T1 HF. rewrite Z.eqb_refl. apply wp_ret.
      rewrite <- E0. apply (HQ (put_ls l s) V X d); [exact T1|by rewrite <- D; apply with_d_refl|by apply fevolves_refl|by auto|intros _; exact HF].
    + intros l r T1 Hr Hru _. pose proof (data_block_pos _ _ _ LY Hr) as [Hr0 _].
      rewrite (proj2 (Z.eqb_neq r 0)) by lia. apply wp_mod_d. intros s' El W. cbn in W. apply wp_ret.
      rewrite D in W. assert (d_addrs (set_addr k r d) k = r) as Er by apply upd_eq.
      rewrite <- Er. apply (HQ s' (alloc_view sb r V) ({[r]} ∪ ({[bm sb]} ∪ X))); rewrite ?Er; try done.
      * by rewrite El.
      * by apply (with_d_trans _ _ _ _ _ _ (with_d_refl s l ip)).
      * destruct (decide (k = NDIRECT)) as [->|Hk']; [eapply evolves_indirect|eapply evolves_direct]; try done;
          [by eapply allocated_view|lia|by eapply allocated_view].
      * intros x. rewrite !elem_of_union, !elem_of_singleton. intros [-> |[-> |?]]; [right; right; lia|by auto|by auto].
      * lia.
  - apply wp_ret. rewrite <- Es. apply (HQ _ V X d); [exact T|exact W0|by apply fevolves_refl|by auto|done].
Qed.

Lemma wp_bmap_entry s V X ip bn d Q :
  file_at s V X ip d -> 0 <= bn < NINDIRECT -> ind d <> 0 -> spare B X 3 ->
  (forall l V' X', tx B l V' ∅ X' -> evolves sb V d V' d (fbyte V d) ->
     (forall x, x ∈ X' -> x ∈ X \/ x = bm sb \/ (x <> 0 /\ (x = ind d \/ x = blk V' d (bn + NDIRECT)))) ->
     (blk V' d (bn + NDIRECT) = 0 -> full sb V') -> Q (blk V' d (bn + NDIRECT)) (put_ls l s)) ->
  wp (bmap_entry ROOTDEV (ind d) bn) s Q.
Proof using LY OP.
  intros [T S M D E O] Hbn Hi Hs HQ. unfold bmap_entry.
  destruct (io_ind _ _ _ O Hi) as [Hd Hu]. pose proof (data_home _ _ LY _ Hd) as Hh.
  destruct (data_block_pos _ _ _ LY Hd) as [_ Hib].
  assert (forall V' : Z -> mem, blk V' d (bn + NDIRECT) = ld32 (V' (ind d)) (4 * bn)) as Hblk.
  { intros V'. unfold blk. rewrite (proj2 (Z.ltb_ge _ _)) by fsz.
    rewrite (proj2 (Z.eqb_neq _ _)) by done. do 2 f_equal. lia. }
  apply wp_bind. eapply wp_fbread; [exact T|apply Hh|apply none_held|eapply tx_room; [done|done|rewrite map_size_empty; lia]|].
  intros h l _ T1. apply wp_bind. eapply wp_fdata; [exact T1|apply lookup_insert_eq|]. rewrite <- Hblk.
  destruct (Z.eqb_spec (blk V d (bn + NDIRECT)) 0) as [E0|E0].
  - apply wp_bind, wp_bind. eapply wp_balloc; [done|done|exact T1|done|done| |by eapply spare_le; [|exact Hs]; lia| |].
    { split; [by rewrite insert_empty, map_size_singleton|]. intros h' b' Hh'.
      rewrite insert_empty in Hh'. apply lookup_singleton_Some in Hh' as [_ <-]. done. }
    + intros l2 T2 HF. cbn. apply wp_ret. apply wp_bind.
      eapply wp_fbrelse; [exact T2|apply lookup_insert_eq|]. intros l3 T3. rewrite delete_insert_id in T3 by done.
      apply wp_ret. rewrite <- E0. apply (HQ l3 V X); [exact T3|by apply fevolves_refl|by auto|intros _; exact HF].
    + intros l2 r T2 Hr Hru _. pose proof (data_block_pos _ _ _ LY Hr) as [Hr0 _].
      rewrite (proj2 (Z.eqb_neq r 0)) by lia. cbn [negb].
      eapply wp_fwrite; [done|exact T2|apply lookup_insert_eq|done| |].
      { apply (spare_add B _ (bm sb) 2), (spare_add B _ r 1) in Hs. unfold spare in Hs. lia. }
      intros l3 T3. apply wp_ret. apply wp_bind.
      eapply wp_fbrelse; [exact T3|apply lookup_insert_eq|]. intros l4 T4. rewrite delete_insert_id in T4 by done.
      apply wp_ret.
      pose proof (evolves_entry sb (t_log B) LY V (alloc_view sb r V) d (bn + NDIRECT) r) as EV.
      rewrite Z.add_simpl_r in EV. set (V4 := upd _ _ _) in T4, EV. rewrite !put_ls_put.
      assert (blk V4 d (bn + NDIRECT) = r) as Er.
      { rewrite Hblk. unfold V4. rewrite upd_eq, ld32_st32_same. apply u32_small.
        pose proof (fs_limit_le sb). change SWAPBASE with 2000 in *. destruct Hr. lia. }
      rewrite <- Er. apply (HQ l4 V4 _ T4).
      * apply EV; try done; [fsz|by eapply allocated_view].
      * intros x. rewrite Er, !elem_of_union, !elem_of_singleton.
        destruct (data_block_pos _ _ _ LY Hd) as [Hi0 _].
        intros [-> |[-> |[-> |?]]]; [right; right; lia|right; right; lia|by auto|by auto].
      * rewrite Er. lia.
  - apply wp_bind, wp_ret. apply wp_bind. eapply wp_fbrelse; [exact T1|apply lookup_insert_eq|]. intros l3 T3.
    rewrite delete_insert_id in T3 by done. apply wp_ret. apply (HQ l3 V X); [exact T3|by apply fevolves_refl|by auto|done].
Qed.

Lemma wp_bmap s V X ip bn d Q :
  file_at s V X ip d -> 0 <= bn < MAXFILE -> spare B X 5 ->
  (forall s' V' X' d', tx B (f_ls s') V' ∅ X' -> with_d s s' ip d' -> evolves sb V d V' d' (fbyte V d) ->
     (forall x, x ∈ X' -> x ∈ X \/ touched sb V' d' bn (bn + 1) x) -> (blk V' d' bn = 0 -> full sb V') ->
     Q (blk V' d' bn) s') ->
  wp (bmap ip bn) s Q.
Proof using LY OP.
  intros F Hbn Hs HQ. unfold bmap. destruct (Z.ltb_spec bn NDIRECT) as [Hd|Hd].
  - eapply wp_bmap_addr; [done|lia|by eapply spare_le; [|exact Hs]; lia|].
    intros s' V' X' d' T' W EV HX HF.
    assert (d_addrs d' bn = blk V' d' bn) as Eb by (unfold blk; by bools). rewrite Eb in *.
    apply (HQ s' V' X'); [exact T'|exact W|exact EV| |exact HF].
    intros x Hx. apply HX in Hx as [?|[?|[? ->]]]; [by left|by right; left|].
    right; right. split; [done|]. right. exists bn. split; [lia|]. done.
  - rewrite (proj2 (Z.ltb_lt (bn - NDIRECT) _)) by fsz. apply wp_bind.
    eapply wp_bmap_addr; [done|fsz|by eapply spare_le; [|exact Hs]; lia|].
    intros s1 V1 X1 d1 T1 W1 EV1 HX1 HF1. fold (ind d1) in *.
    destruct (Z.eqb_spec (ind d1) 0) as [E0|E0].
    + apply wp_ret. assert (blk V1 d1 bn = 0) as Eb.
      { unfold blk. rewrite (proj2 (Z.ltb_ge _ _)), E0 by done. done. }
      rewrite <- Eb. apply (HQ s1 V1 X1); [exact T1|exact W1|exact EV1| |auto].
      intros x Hx. apply HX1 in Hx as [?|[?|[? ?]]]; [by left|by right; left|congruence].
    + pose proof (file_at_evolves _ _ _ _ _ _ _ _ _ _ F T1 W1 EV1) as F1.
      apply wp_bind, wp_gets. rewrite (fa_dev _ _ _ _ _ F1).
      eapply wp_bmap_entry; [done|fsz|done| |].
      { assert (size X1 <= size ({[bm sb]} ∪ ({[ind d1]} ∪ X)))%nat.
        { apply subseteq_size. intros x Hx. apply HX1 in Hx. set_solver. }
        apply (spare_add B _ (ind d1) 4), (spare_add B _ (bm sb) 3) in Hs. unfold spare in *. lia. }
      intros l V2 X2 T2 EV2 HX2 HF2. rewrite Z.sub_add in *.
      apply (HQ (put_ls l s1) V2 X2 d1); [exact T2|by apply with_d_ls| | |exact HF2].
      2:{ intros x Hx. apply HX2 in Hx as [Hx|[?|[? [?|?]]]]; [|by right; left|by right; right; auto|].
          - apply HX1 in Hx as [?|[?|[? ?]]]; [by left|by right; left|right; right; by auto].
          - right; right. split; [done|]. right. exists bn. split; [lia|done]. }
      destruct (fevolves_trans _ _ _ _ _ _ _ _ _ EV1 EV2) as [? ? Hb]. split; try done.
      intros i Hi. rewrite Hb by done. by apply (ev_bytes _ _ _ _ _ _ EV1).
Qed.
End bmap.
