(* ===== verification/FsIo.v ===== *)
(** Reading and writing files: [iupdate], [readi] and [writei] of kernel/fs.c. *)
From S2P Require Import Prelude Riscv Memory Locks Blocks Log UserMem Fs Tx FsBlocks FsFile.

(** * Inodes on disk *)
Definition short (x : Z) : Prop := - 2 ^ 15 <= x < 2 ^ 15.
Record dinode_wf (d : dinode) : Prop := {
  dw_type : short (d_type d);
  dw_major : short (d_major d);
  dw_minor : short (d_minor d);
  dw_nlink : short (d_nlink d);
  dw_size : 0 <= d_size d < 2 ^ 32;
  dw_addrs k : 0 <= k <= NDIRECT -> 0 <= d_addrs d k < 2 ^ 32 }.
Definition dinode_eq (d d' : dinode) : Prop :=
  same_meta d d' /\ forall k, 0 <= k <= NDIRECT -> d_addrs d' k = d_addrs d k.

Lemma s16_mod v : short v -> s16 (v mod 256 ^ Z.of_nat 2) = v.
Proof.
  unfold short, s16. intros Hv. change (256 ^ Z.of_nat 2) with (2 ^ 16).
  rewrite Zplus_mod_idemp_l, Z.mod_small; lia.
Qed.
Lemma ld_short_st d a v : short v -> ld_short (st 2 d a v) a = v.
Proof. intros Hv. unfold ld_short. rewrite ld_st_same. by apply s16_mod. Qed.
Lemma ld_short_other k d a v b : b + 2 <= a \/ a + Z.of_nat k <= b -> ld_short (st k d a v) b = ld_short d b.
Proof. intros Hb. unfold ld_short. rewrite ld_st_other; [done|lia]. Qed.

Lemma ld8_put_addrs k i f a d x :
  x < a + 4 * i \/ a + 4 * (i + Z.of_nat k) <= x -> ld8 (put_addrs k i f a d) x = ld8 d x.
Proof.
  revert i d. induction k as [|k IH]; intros i d Hx; [done|]. cbn [put_addrs].
  rewrite IH by lia. apply ld8_st_other. lia.
Qed.
Lemma ld_put_addrs n k i f a d x :
  x + Z.of_nat n <= a + 4 * i \/ a + 4 * (i + Z.of_nat k) <= x -> ld n (put_addrs k i f a d) x = ld n d x.
Proof. intros Hx. apply ld_ext. intros y Hy. apply ld8_put_addrs. lia. Qed.
Lemma ld32_put_addrs k : forall i f a d j,
  i <= j < i + Z.of_nat k -> 0 <= f j < 2 ^ 32 -> ld32 (put_addrs k i f a d) (a + 4 * j) = f j.
Proof.
  induction k as [|k IH]; intros i f a d j Hj Hf; [lia|]. cbn [put_addrs].
  destruct (decide (j = i)) as [->|Hne]; [|by apply IH; lia].
  rewrite ld_put_addrs by lia. rewrite ld32_st32_same. by apply u32_small.
Qed.

(** [iupdate] followed by [ilock] reads the same inode back. *)
Lemma get_put_dinode di o d : dinode_wf di -> dinode_eq di (get_dinode (put_dinode di o d) o).
Proof.
  intros [W1 W2 W3 W4 W5 W6]. unfold put_dinode, get_dinode, dinode_eq, same_meta. cbn [d_type d_major d_minor d_nlink d_size d_addrs].
  set (d1 := st 2 d o _). set (d2 := st 2 d1 _ _). set (d3 := st 2 d2 _ _). set (d4 := st 2 d3 _ _). set (d5 := st32 d4 _ _).
  assert (forall x, x + 2 <= o + 12 -> ld_short (put_addrs (Z.to_nat (NDIRECT + 1)) 0 (d_addrs di) (o + 12) d5) x = ld_short d5 x) as E.
  { intros x Hx. unfold ld_short. rewrite ld_put_addrs; [done|lia]. }
  split_and!.
  - rewrite E by lia. unfold d5, d4, d3, d2, d1. rewrite !ld_short_other by lia. by apply ld_short_st.
  - rewrite E by lia. unfold d5, d4, d3, d2. rewrite !ld_short_other by lia. by apply ld_short_st.
  - rewrite E by lia. unfold d5, d4, d3. rewrite !ld_short_other by lia. by apply ld_short_st.
  - rewrite E by lia. unfold d5, d4. rewrite !ld_short_other by lia. by apply ld_short_st.
  - rewrite ld_put_addrs by lia. unfold d5. rewrite ld32_st32_same. by apply u32_small.
  - intros k Hk. apply ld32_put_addrs; [|by apply W6]. change (Z.of_nat (Z.to_nat (NDIRECT + 1))) with 13. fsz.
Qed.
(** Only the bytes of that inode change in its block. *)
Lemma put_dinode_other di o d x : x < o \/ o + DINODE <= x -> ld8 (put_dinode di o d) x = ld8 d x.
Proof.
  unfold DINODE, put_dinode. intros Hx. change (Z.to_nat (NDIRECT + 1)) with 13%nat.
  rewrite ld8_put_addrs by lia. rewrite !ld8_st_other by lia. done.
Qed.

Lemma blk_ext V V' d d' k :
  ind d' = ind d -> (ind d <> 0 -> V' (ind d) = V (ind d)) -> (k < NDIRECT -> d_addrs d' k = d_addrs d k) ->
  blk V' d' k = blk V d k.
Proof.
  intros Ei EV Ea. unfold blk. rewrite Ei. destruct (Z.ltb_spec k NDIRECT); [auto|].
  destruct (Z.eqb_spec (ind d) 0); [done|]. by rewrite EV.
Qed.

(** The bytes of a buffer after a copy into it. *)
Definition zth (l : list Z) (i : Z) : Z := u8 (nth (Z.to_nat i) l 0).
Definition splice (c : Z -> Z) (off : Z) (l : list Z) (i : Z) : Z :=
  if (off <=? i) && (i <? off + lenZ l) then zth l (i - off) else c i.
Lemma ld8_put_bytes l : forall o d i, ld8 (put_bytes l o d) i = splice (ld8 d) o l i.
Proof.
  induction l as [|b l IH]; intros o d i; cbn [put_bytes].
  { unfold splice. cbn. by bools. }
  rewrite IH. unfold splice. cbn [length]. rewrite ld8_st8. bools; try done.
  - unfold zth. replace (Z.to_nat (i - o)) with (S (Z.to_nat (i - (o + 1)))) by lia. done.
  - subst. unfold zth. by rewrite Z.sub_diag.
Qed.
Lemma splice_app c off l1 l2 i :
  splice (splice c off l1) (off + lenZ l1) l2 i = splice c off (l1 ++ l2) i.
Proof.
  unfold splice, zth. rewrite length_app. bools; try done.
  - rewrite app_nth1 by lia. done.
  - rewrite app_nth2 by lia. do 2 f_equal. lia.
Qed.
Lemma splice_nil c off i : splice c off [] i = c i.
Proof. unfold splice. cbn. by bools. Qed.

Lemma splice_ext c c' off l i : c i = c' i -> splice c off l i = splice c' off l i.
Proof. intros E. unfold splice. by rewrite E. Qed.

Section put_block.
Context (sb : superblock) (g : log) (LY : layout sb g).

(** Bytes [l] written at [off], inside one block of the file. *)
Lemma evolves_put V d off l :
  let r := blk V d (off / BSIZE) in
  inode_ok sb V d -> meta_used sb V -> 0 <= off -> off + lenZ l <= MAXFILE * BSIZE -> 0 < lenZ l ->
  off mod BSIZE + lenZ l <= BSIZE -> r <> 0 ->
  evolves sb V d (upd V r (put_bytes l (off mod BSIZE) (V r))) d (splice (fbyte V d) off l).
Proof using LY.
  intros r O M Hoff Hmax Hl Hfit Hr. destruct (block_offset off) as [Hq Ho]; [lia|].
  destruct (io_data _ _ _ O _ Hq Hr) as [Hd Hu]. destruct (data_block_pos _ _ _ LY Hd) as [_ Hb].
  assert (ind d <> 0 -> ind d <> r) as Hi by (intros H0 E; by apply H0, (io_sep _ _ _ O _ Hq)).
  set (V' := upd _ _ _).
  assert (forall k, blk V' d k = blk V d k) as Ek.
  { intros k. apply blk_ext; [done| |done]. intros H0. unfold V'. rewrite upd_ne; auto. }
  assert (forall b, used sb V' b = used sb V b) as Eu by (intros b; unfold used, V'; by rewrite upd_ne).
  destruct O as [OD OI OJ OS]. split; try done.
  - split.
    + intros k. rewrite Ek, Eu. apply OD.
    + rewrite Eu. apply OI.
    + intros k k'. rewrite !Ek. apply OJ.
    + intros k. rewrite Ek. apply OS.
  - intros b Hb'. rewrite Eu. by apply M.
  - intros i Hi'. destruct (block_offset i Hi') as [Hqi Hoi]. unfold fbyte. rewrite Ek. unfold splice.
    pose proof (Z.div_mod i BSIZE). pose proof (Z.div_mod off BSIZE). change BSIZE with 1024 in *.
    destruct (decide (i / 1024 = off / 1024)) as [E|E].
    + rewrite E. fold r. rewrite (proj2 (Z.eqb_neq r 0)) by done. unfold V'. rewrite upd_eq, ld8_put_bytes. unfold splice.
      replace (off <=? i) with (off mod 1024 <=? i mod 1024) by (apply eq_bool_prop_intro; rewrite !Is_true_true, !Z.leb_le; lia).
      replace (i <? off + lenZ l) with (i mod 1024 <? off mod 1024 + lenZ l)
        by (apply eq_bool_prop_intro; rewrite !Is_true_true, !Z.ltb_lt; lia).
      destruct (_ && _); [|done]. f_equal. lia.
    + replace ((off <=? i) && (i <? off + lenZ l)) with false.
      2:{ symmetry. apply andb_false_iff. rewrite Z.leb_gt, Z.ltb_ge. destruct (decide (i < off)); [by left|right]. zdiv. }
      destruct (Z.eqb_spec (blk V d (i / 1024)) 0) as [|E0]; [done|]. unfold V'. rewrite upd_ne; [done|].
      intros Er. apply E, OJ; done.
  - intros b. by rewrite Eu.
  - intros k Hk H0 Hn. by rewrite Ek in Hn.
  - intros b Hb1 Hb2 Hb3 Hb4. unfold V'. rewrite upd_ne; [done|]. intros ->. by apply (Hb4 (off / BSIZE)).
Qed.

Lemma wf_addrs V d k : inode_ok sb V d -> 0 <= k <= NDIRECT -> 0 <= d_addrs d k < 2 ^ 32.
Proof using LY.
  intros O Hk. pose proof (fs_limit_le sb). change SWAPBASE with 2000 in *. pose proof (bm_range _ _ LY).
  assert (forall b, data_block sb b -> 0 <= b < 2 ^ 32) as Hd by (intros b [? ?]; lia).
  destruct (decide (d_addrs d k = 0)) as [E|E]; [lia|]. destruct (decide (k = NDIRECT)) as [->|Hne].
  - by apply Hd, (io_ind _ _ _ O).
  - assert (blk V d k = d_addrs d k) as Eb by (unfold blk; rewrite (proj2 (Z.ltb_lt _ _)) by lia; done).
    rewrite <- Eb in E |- *. apply Hd, (io_data _ _ _ O); [fsz|done].
Qed.
End put_block.

(** * Reading *)
(** Every block below the size is there. *)
Definition dense (V : Z -> mem) (d : dinode) : Prop :=
  d_size d <= MAXFILE * BSIZE /\ forall k, 0 <= k -> k * BSIZE < d_size d -> blk V d k <> 0.
Definition fbytes (V : Z -> mem) (d : dinode) (off n : Z) : list Z := fbyte V d <$> seqZ off n.

Lemma fbytes_len V d off n : 0 <= n -> lenZ (fbytes V d off n) = n.
Proof. intros. unfold fbytes. rewrite length_fmap, length_seqZ. lia. Qed.
Lemma fbytes_split V d off m n : 0 <= m <= n -> fbytes V d off n = fbytes V d off m ++ fbytes V d (off + m) (n - m).
Proof. intros. unfold fbytes. rewrite <- fmap_app, <- seqZ_app by lia. do 2 f_equal. lia. Qed.
Lemma bytes_file V d off m :
  0 <= m -> off mod BSIZE + m <= BSIZE -> blk V d (off / BSIZE) <> 0 ->
  bytes (V (blk V d (off / BSIZE))) (off mod BSIZE) (Z.to_nat m) = fbytes V d off m.
Proof.
  intros Hm Hfit Hb. unfold bytes, fbytes. rewrite Z2Nat.id by done.
  transitivity (fbyte V d <$> (Z.add off <$> seqZ 0 m)); [|by rewrite fmap_add_seqZ, Z.add_0_r].
  rewrite <- list_fmap_compose. apply list_fmap_ext.
  intros i x Hx%lookup_seqZ. cbn. unfold fbyte.
  assert ((off + x) / BSIZE = off / BSIZE /\ (off + x) mod BSIZE = off mod BSIZE + x) as [-> ->].
  { change BSIZE with 1024 in *. zdiv. }
  by rewrite (proj2 (Z.eqb_neq _ _)).
Qed.

(** Rounds of the loops from offset [off]: one per block. *)
Definition rounds_of (off n : Z) : Z := if n =? 0 then 0 else (off mod BSIZE + n + BSIZE - 1) / BSIZE.
Definition chunk (off n : Z) : Z := Z.min n (BSIZE - off mod BSIZE).
Lemma chunk_ok off n : 0 <= off -> 0 < n ->
  let m := chunk off n in
  0 < m <= n /\ off mod BSIZE + m <= BSIZE /\ 0 < rounds_of off n /\ rounds_of (off + m) (n - m) <= rounds_of off n - 1.
Proof.
  intros Hoff Hn m. unfold m, chunk, rounds_of. change BSIZE with 1024.
  pose proof (Z.mod_pos_bound off 1024). rewrite (proj2 (Z.eqb_neq n 0)) by lia.
  destruct (Z.min_spec n (1024 - off mod 1024)) as [[? ->]|[? ->]].
  - rewrite Z.sub_diag. cbn. zdiv.
  - assert ((off + (1024 - off mod 1024)) mod 1024 = 0) as -> by zdiv.
    destruct (Z.eqb_spec (n - (1024 - off mod 1024)) 0); zdiv.
Qed.
Lemma io_rounds_enough off n : 0 <= off -> 0 <= n -> rounds_of off n <= Z.of_nat (io_rounds n).
Proof.
  intros Hoff Hn. unfold rounds_of, io_rounds. change BSIZE with 1024.
  pose proof (Z.div_pos n 1024). rewrite Z2Nat.id by lia. pose proof (Z.mod_pos_bound off 1024). destruct (n =? 0); zdiv.
Qed.

Lemma put_ls_user {C U} l l' u (s : fs C U) : put_ls l (set_user u (put_ls l' s)) = set_user u (put_ls l s).
Proof. done. Qed.

Section readi.
Context {C U : Type} `{HL : BufCacheLaws C} `{UM : UserMem U}.
Context (B : txbase) (sb : superblock) (LY : layout sb (t_log B)) (pt : Z).
Implicit Types (s : fs C U) (V : Z -> mem) (X : gset Z) (d : dinode).

Lemma file_at_same s s' V X ip d :
  file_at B sb s V X ip d -> tx B (f_ls s') V ∅ X -> f_sb s' = f_sb s -> f_inode s' = f_inode s ->
  file_at B sb s' V X ip d.
Proof. intros [T S M D E O] T' S' I'. split; try done; [by rewrite S'|by rewrite I'|by rewrite I']. Qed.

Lemma readi_loop_ok rounds ip ud n : forall s V X d dst off tot,
  file_at B sb s V X ip d -> dense V d -> 0 <= off -> 0 <= tot <= n -> off + (n - tot) <= d_size d ->
  rounds_of off (n - tot) <= Z.of_nat rounds ->
  wp (readi_loop pt rounds ip ud dst off n tot) s (fun r s' => exists l ok u,
    tx B l V ∅ X /\ either_copyout pt ud dst (fbytes V d off (n - tot)) (f_user s) = (ok, u) /\
    s' = set_user u (put_ls l s) /\ r = if ok : bool then n else -1).
Proof using LY.
  induction rounds as [|rounds IH]; intros s V X d dst off tot F De Hoff Htot Hend Hr; cbn [readi_loop].
  all: destruct (Z.ltb_spec tot n) as [Hlt|Hge].
  2,4: apply wp_ret; assert (n - tot = 0) as -> by lia; exists (f_ls s), true, (f_user s); cbn;
       split_and!; [apply F|by destruct ud|by destruct s|lia].
  { destruct (chunk_ok off (n - tot)) as (_ & _ & ? & _); lia. }
  destruct (chunk_ok off (n - tot)) as (Hm & Hfit & Hr1 & Hr2); [lia|lia|].
  set (m := chunk off (n - tot)) in *.
  destruct De as [Hsz De]. destruct (block_offset off) as [Hq Ho]; [lia|].
  assert (blk V d (off / BSIZE) <> 0) as Hb.
  { apply De; [lia|]. pose proof (Z.mul_div_le off BSIZE). assert (0 < BSIZE) by done. lia. }
  destruct (io_data _ _ _ (fa_ok _ _ _ _ _ _ _ F) _ Hq Hb) as [Hd _].
  apply wp_bind. eapply wp_bmap_mapped; [done|exact F|done|done|]. intros l1 T1.
  rewrite (proj2 (Z.eqb_neq _ _)) by done. apply wp_bind, wp_gets. cbn [put_ls f_inode].
  rewrite (fa_dev _ _ _ _ _ _ _ F). pose proof (data_home _ _ LY _ Hd) as [Hbr _].
  apply wp_bind. eapply wp_fbread; [exact T1|done|apply none_held| |].
  { eapply tx_room; [exact T1|eapply tx_spare; exact T1|by rewrite map_size_empty]. }
  intros h l2 _ T2. apply wp_bind. eapply wp_fdata; [exact T2|apply lookup_insert_eq|].
  fold (chunk off (n - tot)). fold m. rewrite bytes_file by (done || lia).
  rewrite (fbytes_split V d off m (n - tot)), either_copyout_app, fbytes_len by lia.
  apply wp_bind. unfold fcopyout. destruct (either_copyout pt ud dst (fbytes V d off m) (f_user s)) as [ok u] eqn:Ec.
  eexists ok, _. split. { cbn [f_user put_ls]. rewrite Ec. reflexivity. }
  apply wp_bind. eapply wp_fbrelse; [exact T2|apply lookup_insert_eq|]. intros l3 T3.
  rewrite delete_insert_id in T3 by done. rewrite put_ls_user, put_ls_put. destruct ok.
  - eapply wp_mono.
    { apply (IH _ V X d (dst + m) (off + m) (tot + m)); try lia; [|done|].
      - by eapply file_at_same.
      - replace (n - (tot + m)) with (n - tot - m) by lia. lia. }
    intros r s' (l & ok & u' & T' & E' & -> & ->). replace (n - (tot + m)) with (n - tot - m) in E' by lia.
    exists l, ok, u'. done.
  - apply wp_ret. exists l3, false, u. done.
Qed.

(** [readi] of a file without holes: the bytes of the file, up to its size. *)
Lemma readi_ok s V X ip d ud dst off n :
  file_at B sb s V X ip d -> dense V d -> 0 <= off <= d_size d -> 0 <= n -> off + n < 2 ^ 32 ->
  wp (readi pt ip ud dst off n) s (fun r s' => exists l ok u,
    let n' := Z.min n (d_size d - off) in
    tx B l V ∅ X /\ either_copyout pt ud dst (fbytes V d off n') (f_user s) = (ok, u) /\
    s' = set_user u (put_ls l s) /\ r = if ok : bool then n' else -1).
Proof using LY.
  intros F De Hoff Hn Hov. unfold readi. apply wp_bind, wp_gets. rewrite (fa_d _ _ _ _ _ _ _ F).
  rewrite u32_small, !Z.gtb_ltb by lia.
  rewrite (proj2 (Z.ltb_ge (d_size d) off)), (proj2 (Z.ltb_ge (off + n) off)) by lia. cbn [orb].
  assert ((if d_size d <? off + n then d_size d - off else n) = Z.min n (d_size d - off)) as -> by bools.
  set (n' := Z.min _ _). eapply wp_mono.
  { apply (readi_loop_ok _ ip ud n' s V X d dst off 0); try done; try lia.
    rewrite Z.sub_0_r. apply io_rounds_enough; lia. }
  intros r s' (l & ok & u & T & E & Es & Er). rewrite Z.sub_0_r in E. exists l, ok, u. done.
Qed.
End readi.

(** * Writing *)
Lemma evolves_ext sb V d V' d' c c' :
  (forall i, 0 <= i < MAXFILE * BSIZE -> c i = c' i) -> evolves sb V d V' d' c -> evolves sb V d V' d' c'.
Proof. intros Hc [? ? Hb]. split; try done. intros i Hi. by rewrite <- Hc, Hb. Qed.

Lemma touched_mono sb V d V' d' c lo hi lo' hi' x :
  touched sb V d lo hi x -> evolves sb V d V' d' c -> lo' <= lo -> hi <= hi' -> touched sb V' d' lo' hi' x.
Proof.
  intros Ht EV Hl Hh. destruct Ht as [?|[H0 [E|(k & Hk & Hr & E)]]]; [by left| |]; right; (split; [done|]).
  - left. rewrite (ev_ind _ _ _ _ _ _ EV); congruence.
  - right. exists k. split; [lia|]. split; [done|]. rewrite (ev_blk _ _ _ _ _ _ EV); congruence.
Qed.
Lemma size_list_le (l : list Z) : (size (list_to_set l : gset Z) <= length l)%nat.
Proof.
  induction l as [|x l IH]; cbn; [by rewrite size_empty|].
  rewrite size_union_alt, size_singleton. apply le_n_S. etrans; [|exact IH]. apply subseteq_size. set_solver.
Qed.
Lemma touched_size sb V d (X X0 : gset Z) lo hi :
  lo <= hi -> (forall x, x ∈ X -> x ∈ X0 \/ touched sb V d lo hi x) ->
  Z.of_nat (size X) <= Z.of_nat (size X0) + (hi - lo) + 2.
Proof.
  intros Hl HX. set (L := bm sb :: ind d :: (blk V d <$> seqZ lo (hi - lo))).
  assert (X ⊆ X0 ∪ list_to_set L) as Hs%subseteq_size.
  { intros x Hx. apply HX in Hx as [?|[->|[_ [->|(k & Hk & _ & ->)]]]]; [set_solver|set_solver|set_solver|].
    apply elem_of_union_r, elem_of_list_to_set. unfold L. rewrite !elem_of_cons. right; right.
    apply list_elem_of_fmap. exists k. split; [done|]. apply elem_of_seqZ. lia. }
  rewrite size_union_alt in Hs. pose proof (size_list_le L) as HL.
  assert (size (list_to_set L ∖ X0 : gset Z) <= size (list_to_set L : gset Z))%nat by (apply subseteq_size; set_solver).
  unfold L in HL at 2. cbn [length] in HL. rewrite length_fmap, length_seqZ in HL. lia.
Qed.

Definition cdiv (off : Z) : Z := (off + BSIZE - 1) / BSIZE.
Lemma cdiv_chunk off m : 0 <= off -> 0 < m -> off mod BSIZE + m <= BSIZE ->
  off / BSIZE <= cdiv off <= cdiv (off + m) /\ cdiv (off + m) = off / BSIZE + 1.
Proof. unfold cdiv. change BSIZE with 1024. intros. zdiv. Qed.
Lemma cdiv_mono a b : a <= b -> cdiv a <= cdiv b.
Proof. intros. unfold cdiv. assert (0 < BSIZE) by done. apply Z.div_le_mono; lia. Qed.
Lemma cdiv_lt off m : 0 <= off -> 0 < m -> off / BSIZE + 1 <= cdiv (off + m).
Proof. unfold cdiv. change BSIZE with 1024. intros. zdiv. Qed.

Lemma div_cdiv off n : 0 <= n -> off / BSIZE <= cdiv (off + n).
Proof. intros. unfold cdiv. assert (0 < BSIZE) by done. apply Z.div_le_mono; lia. Qed.

Section writei.
Context {C U : Type} `{HL : BufCacheLaws C} `{UM : UserMem U}.
Context (B : txbase) (sb : superblock) (LY : layout sb (t_log B)) (OP : in_op B) (pt : Z).
Implicit Types (s : fs C U) (V : Z -> mem) (X : gset Z) (d : dinode).

(** One round: the bytes [l] go to block [r] of the file, and the block is logged. *)
Lemma wp_put_block {A} s V X ip d us src off m (k : M (fs C U) A) (k0 : Z -> M (fs C U) A) Q :
  let r := blk V d (off / BSIZE) in
  let l := src_bytes (f_user s) pt us src m in
  file_at B sb s V X ip d -> lenZ l = m -> 0 < m -> 0 <= off -> off + m <= MAXFILE * BSIZE ->
  off mod BSIZE + m <= BSIZE -> r <> 0 -> spare B X 1 ->
  (forall ls, tx B ls (upd V r (put_bytes l (off mod BSIZE) (V r))) ∅ ({[r]} ∪ X) ->
     evolves sb V d (upd V r (put_bytes l (off mod BSIZE) (V r))) d (splice (fbyte V d) off l) ->
     wp k (put_ls ls s) Q) ->
  wp (bp ← fbread ROOTDEV r;
      ok ← fcopyin pt bp (off mod BSIZE) us src m;
      if ok : bool then _ ← flog_write bp; _ ← fbrelse bp; k else k0 bp) s Q.
Proof using LY OP.
  intros r l F El Hm Hoff Hmax Hfit Hr Hs HQ. destruct (block_offset off) as [Hq _]; [lia|].
  destruct (io_data _ _ _ (fa_ok _ _ _ _ _ _ _ F) _ Hq Hr) as [Hd _]. pose proof (data_home _ _ LY _ Hd) as Hh.
  apply wp_bind. eapply wp_fbread; [apply F|apply Hh|apply none_held| |].
  { eapply tx_room; [apply F|exact Hs|by rewrite map_size_empty]. }
  intros h l1 _ T1. apply wp_bind. unfold fcopyin. apply wp_bind, wp_gets. cbn [f_user put_ls]. fold l.
  rewrite El, Z.eqb_refl. apply wp_bind. eapply wp_mono.
  { apply (wp_bind_inv (fupdate h (put_bytes l (off mod BSIZE))) (fun _ => _ ← flog_write h; _ ← fbrelse h; k) _ Q).
    eapply wp_fwrite; [done|exact T1|apply lookup_insert_eq|done|unfold spare in Hs; lia|].
    intros l2 T2. apply wp_bind. eapply wp_fbrelse; [exact T2|apply lookup_insert_eq|].
    intros l3 T3. rewrite delete_insert_id in T3 by done. rewrite !put_ls_put. apply HQ; [exact T3|].
    eapply evolves_put; try done; [apply F|apply F|lia|lia|lia]. }
  intros [] s' Hs'. apply wp_ret. exact Hs'.
Qed.

Lemma writei_loop_ok rounds ip us n X0 lo hi :
  spare B X0 (hi - lo + 7) -> forall s V X d src off tot,
  let data := src_bytes (f_user s) pt us src (n - tot) in
  file_at B sb s V X ip d -> 0 <= off -> 0 <= tot <= n -> off + (n - tot) <= MAXFILE * BSIZE ->
  rounds_of off (n - tot) <= Z.of_nat rounds -> lenZ data = n - tot ->
  lo <= off / BSIZE -> cdiv off <= hi -> cdiv (off + (n - tot)) <= hi ->
  (forall x, x ∈ X -> x ∈ X0 \/ touched sb V d lo (cdiv off) x) ->
  wp (writei_loop pt rounds ip us src off n tot) s (fun r s' => exists V' X' d' w,
    r = (tot + w, off + w) /\ 0 <= w <= n - tot /\ (w < n - tot -> full sb V') /\
    tx B (f_ls s') V' ∅ X' /\ with_d s s' ip d' /\
    evolves sb V d V' d' (splice (fbyte V d) off (take (Z.to_nat w) data)) /\
    (0 < w -> forall k, off / BSIZE <= k -> k * BSIZE < off + w -> blk V' d' k <> 0) /\
    (forall x, x ∈ X' -> x ∈ X0 \/ touched sb V' d' lo hi x)).
Proof using LY OP.
  intros Hsp. induction rounds as [|rounds IH]; intros s V X d src off tot data F Hoff Htot Hend Hr Hdata Hlo Hhi0 Hhi HX;
    cbn [writei_loop]; destruct (Z.ltb_spec tot n) as [Hlt|Hge].
  2,4: apply wp_ret; exists V, X, d, 0; rewrite !Z.add_0_r; split_and!; try done; try lia;
    [apply F
    |rewrite <- (fa_d _ _ _ _ _ _ _ F); pose proof (with_d_refl s (f_ls s) ip) as W; by destruct s
    |eapply evolves_ext; [|apply fevolves_refl; apply F]; intros i _; symmetry; apply splice_nil
    |intros x Hx; destruct (HX x Hx) as [?|Ht]; [by left|right];
     eapply touched_mono; [exact Ht|apply fevolves_refl; apply F|lia|lia]].
  { destruct (chunk_ok off (n - tot)) as (_ & _ & ? & _); lia. }
  destruct (chunk_ok off (n - tot)) as (Hm & Hfit & Hr1 & Hr2); [lia|lia|].
  change (Z.min (n - tot) (BSIZE - off mod BSIZE)) with (chunk off (n - tot)).
  set (m := chunk off (n - tot)) in *. destruct (block_offset off) as [Hq Ho]; [lia|].
  pose proof (cdiv_lt off (n - tot) Hoff ltac:(lia)) as Hc1.
  destruct (cdiv_chunk off m) as [[Hc2 Hc3] Hc4]; [lia|lia|lia|].
  apply wp_bind. eapply wp_bmap; [done|done|exact F|done| |].
  { pose proof (touched_size sb V d X X0 lo (cdiv off) ltac:(lia) HX). unfold spare in *. lia. }
  intros s1 V1 X1 d1 T1 W1 EV1 HX1 HF1. set (r := blk V1 d1 (off / BSIZE)) in *.
  assert (forall x, x ∈ X1 -> x ∈ X0 \/ touched sb V1 d1 lo (off / BSIZE + 1) x) as HX1'.
  { intros x Hx. apply HX1 in Hx as [Hx|Hx].
    - apply HX in Hx as [?|Hx]; [by left|right]. eapply touched_mono; [exact Hx|exact EV1|lia|lia].
    - right. eapply touched_mono; [exact Hx|by apply fevolves_refl; apply EV1|exact Hlo|lia]. }
  pose proof (file_at_evolves _ _ _ _ _ _ _ _ _ _ _ _ F T1 W1 EV1) as F1.
  destruct (Z.eqb_spec r 0) as [E0|E0].
  { apply wp_ret. exists V1, X1, d1, 0. rewrite !Z.add_0_r. split_and!; try done; try lia.
    - intros _. by apply HF1.
    - eapply evolves_ext; [|exact EV1]. intros i _. symmetry. apply splice_nil.
    - intros x Hx. destruct (HX1' x Hx) as [?|Ht]; [by left|right].
      eapply touched_mono; [exact Ht|by apply fevolves_refl; apply EV1|lia|lia]. }
  apply wp_bind, wp_gets. rewrite (fa_dev _ _ _ _ _ _ _ F1).
  destruct (src_bytes_split (f_user s) pt us src (n - tot) m) as (Ed & Elm & Elr); [lia|exact Hdata|].
  rewrite <- (wd_user _ _ _ _ W1) in Ed, Elm, Elr.
  eapply (wp_put_block s1 V1 X1 ip d1); try done; try lia.
  { pose proof (touched_size sb V1 d1 X1 X0 lo (off / BSIZE + 1) ltac:(lia) HX1'). unfold spare in *. lia. }
  fold r. set (l := src_bytes (f_user s1) pt us src m) in *. set (V2 := upd V1 r _). intros l2 T2 EV2.
  assert (evolves sb V d V2 d1 (splice (fbyte V d) off l)) as EV.
  { eapply evolves_ext; [|exact (fevolves_trans _ _ _ _ _ _ _ _ _ EV1 EV2)]. intros i Hi. apply splice_ext. by apply (ev_bytes _ _ _ _ _ _ EV1). }
  pose proof (with_d_ls _ _ l2 _ _ W1) as W2.
  eapply wp_mono.
  { apply (IH (put_ls l2 s1) V2 ({[r]} ∪ X1) d1 (src + m) (off + m) (tot + m)); try lia.
    - exact (file_at_evolves B sb s (put_ls l2 s1) _ _ _ _ _ _ _ _ F T2 W2 EV).
    - replace (n - (tot + m)) with (n - tot - m) by lia. lia.
    - replace (n - (tot + m)) with (n - tot - m) by lia. cbn [f_user put_ls]. lia.
    - pose proof (Z.div_le_mono off (off + m) BSIZE). assert (0 < BSIZE) by done. lia.
    - replace (off + m + (n - (tot + m))) with (off + (n - tot)) by lia. done.
    - rewrite Hc4. intros x. rewrite elem_of_union, elem_of_singleton. intros [->|Hx].
      + right; right. split; [done|]. right. exists (off / BSIZE). split; [lia|]. split; [done|].
        symmetry. apply (ev_blk _ _ _ _ _ _ EV2); done.
      + destruct (HX1' x Hx) as [?|Ht]; [by left|right]. eapply touched_mono; [exact Ht|exact EV2|lia|lia]. }
  intros [t o] s' (V' & X' & d' & w & [= -> ->] & Hw & Hfull & T' & W' & EV' & Hdense & HX').
  exists V', X', d', (m + w). rewrite !Z.add_assoc.
  replace (n - (tot + m)) with (n - tot - m) in * by lia. split_and!; try done; try lia.
  - intros. apply Hfull. lia.
  - by eapply with_d_trans.
  - eapply evolves_ext; [|exact (fevolves_trans _ _ _ _ _ _ _ _ _ EV EV')]. intros i Hi.
    cbn [f_user put_ls] in *. unfold data. rewrite <- (wd_user _ _ _ _ W1), Ed. fold l.
    replace (Z.to_nat (m + w)) with (length l + Z.to_nat w)%nat by lia. rewrite take_app_add, <- splice_app, Elm.
    apply splice_ext. by apply (ev_bytes _ _ _ _ _ _ EV).
  - intros _ k Hk1 Hk2. destruct (decide (k = off / BSIZE)) as [->|Hne].
    + rewrite (ev_blk _ _ _ _ _ _ EV'); rewrite ?(ev_blk _ _ _ _ _ _ EV2); done.
    + apply Hdense; [| |lia]; change BSIZE with 1024 in *; zdiv.
Qed.
(** ** The inode block *)
Definition ib (i : inode) : Z := IBLOCK (i_inum i) sb.
Definition iboff (i : inode) : Z := i_inum i mod IPB * DINODE.

Lemma wp_iupdate s V X ip Q :
  let i := f_inode s ip in
  tx B (f_ls s) V ∅ X -> f_sb s = sb -> i_dev i = ROOTDEV -> 0 <= i_inum i < sb_ninodes sb -> spare B X 1 ->
  (forall l, tx B l (upd V (ib i) (put_dinode (i_d i) (iboff i) (V (ib i)))) ∅ ({[ib i]} ∪ X) -> Q tt (put_ls l s)) ->
  wp (iupdate ip) s Q.
Proof using LY OP.
  intros i T Hsb Hdev Hi Hs HQ. pose proof (inode_home _ _ LY _ (IBLOCK_inode sb _ Hi)) as Hh.
  unfold iupdate. apply wp_bind, wp_gets. fold i. apply wp_bind, wp_gets. rewrite Hsb, Hdev.
  apply wp_bind. eapply wp_fbread; [exact T|apply Hh|apply none_held| |].
  { eapply tx_room; [exact T|exact Hs|by rewrite map_size_empty]. }
  intros h l1 _ T1. eapply wp_fwrite; [done|exact T1|apply lookup_insert_eq|exact Hh|unfold spare in Hs; lia|].
  intros l2 T2. eapply wp_fbrelse; [exact T2|apply lookup_insert_eq|].
  intros l3 T3. rewrite delete_insert_id in T3 by done. by apply HQ.
Qed.

(** Changing an inode block leaves the file's own blocks alone. *)
Lemma inode_block_update V d d' x e :
  inode_block sb x -> d_addrs d' = d_addrs d -> inode_ok sb V d ->
  (forall k, blk (upd V x e) d' k = blk V d k) /\ inode_ok sb (upd V x e) d' /\
  (forall b, used sb (upd V x e) b = used sb V b) /\
  (forall i, 0 <= i < MAXFILE * BSIZE -> fbyte (upd V x e) d' i = fbyte V d i).
Proof using LY.
  intros Hx Ea O. pose proof (inode_block_range _ _ LY _ Hx) as Hxr. pose proof (bm_range _ _ LY) as Hbm.
  assert (forall b, data_block sb b -> b <> x) as Hne by (intros b [? _]; lia).
  assert (ind d' = ind d) as Ei by (unfold ind; by rewrite Ea).
  assert (forall k, blk (upd V x e) d' k = blk V d k) as Ek.
  { intros k. apply blk_ext; [done| |by rewrite Ea]. intros H0. rewrite upd_ne; [done|]. by apply Hne, (io_ind _ _ _ O). }
  assert (forall b, used sb (upd V x e) b = used sb V b) as Eu.
  { intros b. unfold used. rewrite upd_ne; [done|lia]. }
  destruct O as [OD OI OJ OS]. split_and!; try done.
  - split.
    + intros k. rewrite Ek, Eu. apply OD.
    + rewrite Ei, Eu. apply OI.
    + intros k k'. rewrite !Ek. apply OJ.
    + intros k. rewrite Ek, Ei. apply OS.
  - intros i Hi. destruct (block_offset i Hi) as [Hq _]. unfold fbyte. rewrite Ek.
    destruct (Z.eqb_spec (blk V d (i / BSIZE)) 0) as [|E0]; [done|]. rewrite upd_ne; [done|]. by apply Hne, OD.
Qed.

(** ** [writei] *)
(** [tot] bytes of [data] are in the file at [off], and the inode block says so.
    Nothing else that is in use has changed. *)
Record wrote s V X ip d off data s' V' X' d' tot : Prop := {
  wt_tot : 0 <= tot <= lenZ data;
  wt_full : tot < lenZ data -> full sb V';
  wt_file : file_at B sb s' V' X' ip d';
  wt_with : with_d s s' ip d';
  wt_dense : dense V' d';
  wt_wf : dinode_wf d';
  wt_same : same_meta (set_size (d_size d') d) d';
  wt_size : d_size d' = Z.max (d_size d) (off + tot);
  wt_bytes i : 0 <= i < MAXFILE * BSIZE -> fbyte V' d' i = splice (fbyte V d) off (take (Z.to_nat tot) data) i;
  wt_disk : dinode_eq d' (get_dinode (V' (ib (f_inode s ip))) (iboff (f_inode s ip)));
  wt_others x : x < iboff (f_inode s ip) \/ iboff (f_inode s ip) + DINODE <= x ->
    ld8 (V' (ib (f_inode s ip))) x = ld8 (V (ib (f_inode s ip))) x;
  wt_frame b : used sb V b = true -> b <> bm sb -> b <> ib (f_inode s ip) -> b <> ind d ->
    (forall k, 0 <= k < MAXFILE -> blk V d k <> b) -> V' b = V b;
  wt_log x : x ∈ X' -> x ∈ X \/ x = ib (f_inode s ip) \/ touched sb V' d' (off / BSIZE) (cdiv (off + lenZ data)) x }.

Lemma grown_dense V d V' d' off w :
  dense V d -> 0 <= off <= d_size d -> off + w <= MAXFILE * BSIZE ->
  (forall k, 0 <= k < MAXFILE -> blk V d k <> 0 -> blk V' d' k <> 0) ->
  (0 < w -> forall k, off / BSIZE <= k -> k * BSIZE < off + w -> blk V' d' k <> 0) ->
  0 <= w -> d_size d' = Z.max (d_size d) (off + w) -> dense V' d'.
Proof.
  intros [Hs De] Hoff Hmax Hk Hn Hw Hsz. split; [lia|]. rewrite Hsz. intros k H0 Hlt.
  destruct (Z.lt_ge_cases (k * BSIZE) (d_size d)) as [Hl|Hl].
  - apply Hk; [|by apply De]. fsz.
  - apply Hn; [lia| |lia]. change BSIZE with 1024 in *. zdiv.
Qed.

(** The last step of [writei]: the blocks are written ([V1], [d1]), the size is
    set and the inode block updated. *)
Lemma wrote_intro s V X ip d off data V1 X1 d1 w s' :
  let i := f_inode s ip in
  let d2 := set_size (Z.max (d_size d) (off + w)) d1 in
  let V' := upd V1 (ib i) (put_dinode d2 (iboff i) (V1 (ib i))) in
  file_at B sb s V X ip d -> dense V d -> dinode_wf d -> 0 <= i_inum i < sb_ninodes sb ->
  0 <= off <= d_size d -> off + w <= MAXFILE * BSIZE -> 0 <= w <= lenZ data -> (w < lenZ data -> full sb V1) ->
  evolves sb V d V1 d1 (splice (fbyte V d) off (take (Z.to_nat w) data)) ->
  (0 < w -> forall k, off / BSIZE <= k -> k * BSIZE < off + w -> blk V1 d1 k <> 0) ->
  (forall x, x ∈ X1 -> x ∈ X \/ touched sb V1 d1 (off / BSIZE) (cdiv (off + lenZ data)) x) ->
  tx B (f_ls s') V' ∅ ({[ib i]} ∪ X1) -> with_d s s' ip d2 ->
  wrote s V X ip d off data s' V' ({[ib i]} ∪ X1) d2 w.
Proof using LY.
  intros i d2 V' F De Wf Hin Hoff Hmax Hw Hfull EV Hd1 HX1 T W.
  pose proof (IBLOCK_inode sb (i_inum i) Hin) as Hib. fold (ib i) in Hib.
  pose proof (inode_block_range _ _ LY _ Hib) as Hibr. pose proof (bm_range _ _ LY) as Hbm.
  destruct (inode_block_update V1 d1 d2 (ib i) (put_dinode d2 (iboff i) (V1 (ib i))) Hib eq_refl (ev_ok _ _ _ _ _ _ EV))
    as (Ek & O & Eu & Eb). fold V' in Ek, O, Eu, Eb.
  pose proof (ev_same _ _ _ _ _ _ EV) as (St & Sj & Sn & Sl & Sz).
  pose proof (with_d_at _ _ _ _ W) as Ei. fold i in Ei.
  assert (V1 (ib i) = V (ib i)) as E1.
  { assert (forall b, data_block sb b -> b <> ib i) as Hne by (intros b [? ?]; lia).
    apply (ev_frame _ _ _ _ _ _ EV).
    - apply (fa_meta _ _ _ _ _ _ _ F). lia. - lia.
    - destruct (decide (ind d = 0)); [lia|]. intros E. by eapply Hne; [apply (io_ind _ _ _ (fa_ok _ _ _ _ _ _ _ F))|].
    - intros k Hk E. destruct (decide (blk V d k = 0)); [lia|].
      by eapply Hne; [apply (io_data _ _ _ (fa_ok _ _ _ _ _ _ _ F) k)|]. }
  assert (dinode_wf d2) as Wf2.
  { destruct Wf as [W1 W2 W3 W4 W5 W6].
    split; cbn [d2 set_size d_type d_major d_minor d_nlink d_size d_addrs]; rewrite ?St, ?Sj, ?Sn, ?Sl; try done.
    - destruct De as [De _]. fsz.
    - intros k Hk. apply (wf_addrs _ _ LY V1); [apply EV|done]. }
  split; try done.
  - intros Hlt b Hb. rewrite Eu. by apply Hfull.
  - split; try done; [by rewrite (wd_sb _ _ _ _ W); apply F| |by rewrite Ei|rewrite Ei; apply F].
    intros b Hb. rewrite Eu. by apply (ev_meta _ _ _ _ _ _ EV).
  - eapply (grown_dense V d); try done; [|intros Hw0 k Hk1 Hk2; rewrite Ek; by apply Hd1|lia].
    intros k Hk H0. rewrite Ek, (ev_blk _ _ _ _ _ _ EV); done.
  - intros x Hx. rewrite Eb by done. by apply (ev_bytes _ _ _ _ _ _ EV).
  - fold i. unfold V'. rewrite upd_eq. by apply get_put_dinode.
  - fold i. intros x Hx. unfold V'. rewrite upd_eq, put_dinode_other, E1 by done. done.
  - fold i. intros b Hb1 Hb2 Hb3 Hb4 Hb5. unfold V'. rewrite upd_ne by done. by apply (ev_frame _ _ _ _ _ _ EV).
  - fold i. intros x. rewrite elem_of_union, elem_of_singleton. intros [->|Hx]; [by right; left|].
    destruct (HX1 x Hx) as [?|Ht]; [by left|]. right; right. destruct Ht as [?|[H0 [E|(k & Hk & Hr & E)]]]; [by left|right; by auto|].
    right. split; [done|]. right. exists k. by rewrite Ek.
Qed.

Lemma writei_wp s V X ip d us src off n :
  let data := src_bytes (f_user s) pt us src n in
  file_at B sb s V X ip d -> dense V d -> dinode_wf d -> 0 <= i_inum (f_inode s ip) < sb_ninodes sb ->
  0 <= off <= d_size d -> 0 <= n -> off + n <= MAXFILE * BSIZE -> lenZ data = n ->
  spare B X (cdiv (off + n) - off / BSIZE + 7) ->
  wp (writei pt ip us src off n) s (fun tot s' => exists V' X' d', wrote s V X ip d off data s' V' X' d' tot).
Proof using LY OP.
  intros data F De Wf Hin Hoff Hn Hmax Hdata Hs. unfold writei. apply wp_bind, wp_gets. rewrite (fa_d _ _ _ _ _ _ _ F).
  assert (MAXFILE * BSIZE < 2 ^ 32) by done. rewrite u32_small, !Z.gtb_ltb by lia.
  rewrite (proj2 (Z.ltb_ge (d_size d) off)), (proj2 (Z.ltb_ge (off + n) off)) by lia.
  rewrite (proj2 (Z.ltb_ge (MAXFILE * BSIZE) (off + n))) by lia. cbn [orb]. apply wp_bind.
  assert (cdiv off <= cdiv (off + n)) as Hcd by (apply cdiv_mono; lia).
  eapply wp_mono.
  { apply (writei_loop_ok _ ip us n X (off / BSIZE) (cdiv (off + n)) Hs s V X d src off 0); try done; rewrite ?Z.sub_0_r; try lia; try done.
    - apply io_rounds_enough; lia. - by auto. }
  intros [tot off'] s1 (V1 & X1 & d1 & w & [= -> ->] & Hw & Hfull & T1 & W1 & EV & Hd1 & HX1).
  rewrite Z.sub_0_r in *. fold data in EV. pose proof (file_at_evolves _ _ _ _ _ _ _ _ _ _ _ _ F T1 W1 EV) as F1.
  set (i := f_inode s ip) in *. pose proof (with_d_at _ _ _ _ W1) as Ei. fold i in Ei.
  pose proof (ev_same _ _ _ _ _ _ EV) as (St & Sj & Sn & Sl & Sz).
  apply wp_bind, wp_gets. rewrite (fa_d _ _ _ _ _ _ _ F1), Z.gtb_ltb, Sz.
  set (d2 := set_size (Z.max (d_size d) (off + w)) d1).
  assert (wp (if d_size d <? off + w then mod_d ip (set_size (off + w)) else mret tt) s1 (fun _ s2 =>
            f_ls s2 = f_ls s1 /\ with_d s s2 ip d2)) as Hsz.
  { destruct (Z.ltb_spec (d_size d) (off + w)).
    - apply wp_modify. split; [done|]. apply (with_d_trans _ _ _ _ _ _ W1).
      unfold d2. rewrite Z.max_r by lia. rewrite <- (fa_d _ _ _ _ _ _ _ F1). apply with_d_mod.
    - apply wp_ret. split; [done|]. unfold d2. rewrite Z.max_l, <- Sz by lia. by destruct d1. }
  apply wp_bind. eapply wp_mono; [exact Hsz|]. intros [] s2 [El2 W2]. pose proof (with_d_at _ _ _ _ W2) as Ei2. fold i in Ei2.
  apply wp_bind. eapply (wp_iupdate s2 V1 X1); rewrite ?Ei2; cbn [i_dev i_inum set_d i_d].
  - by rewrite El2. - rewrite (wd_sb _ _ _ _ W2). apply F. - apply F. - done.
  - pose proof (touched_size sb V1 d1 X1 X _ _ (div_cdiv off n Hn) HX1).
    unfold spare in *. lia.
  - intros l T3. apply wp_ret.
    change (ib (set_d d2 i)) with (ib i) in *. change (iboff (set_d d2 i)) with (iboff i) in *.
    rewrite Z.add_0_l. eexists _, _, _. eapply wrote_intro; try done; try lia; [by rewrite Hdata|by rewrite Hdata|].
    by apply with_d_ls.
Qed.
End writei.
