(* ===== verification/FsDir.v ===== *)
(** The inode table and directories: [iget], [dirlookup] and [dirlink] of
    kernel/fs.c. *)
From S2P Require Import Prelude Riscv Memory Locks Blocks Log UserMem Fs Tx FsBlocks FsFile FsIo.

(** * The inode table *)
Definition slot (ip : Z) : Prop := 0 <= ip < NINODE.
(** Every inode has at most one entry that is in use. *)
Record itable_ok (t : Z -> inode) : Prop := {
  it_ref ip : slot ip -> 0 <= i_ref (t ip);
  it_uniq i j : slot i -> slot j -> 0 < i_ref (t i) -> 0 < i_ref (t j) ->
    i_dev (t i) = i_dev (t j) -> i_inum (t i) = i_inum (t j) -> i = j }.
Definition holds (t : Z -> inode) (dev inum ip : Z) : Prop :=
  0 < i_ref (t ip) /\ i_dev (t ip) = dev /\ i_inum (t ip) = inum.

Lemma iget_scan_spec t dev inum k : forall ip empty,
  0 <= ip -> ip + Z.of_nat k = NINODE ->
  match empty with Some e => slot e /\ i_ref (t e) = 0 | None => forall j, 0 <= j < ip -> i_ref (t j) <> 0 end ->
  (forall j, 0 <= j < ip -> ~ holds t dev inum j) ->
  match iget_scan k t dev inum ip empty with
  | inl e => slot e /\ holds t dev inum e
  | inr (Some e) => slot e /\ i_ref (t e) = 0 /\ forall j, slot j -> ~ holds t dev inum j
  | inr None => forall j, slot j -> i_ref (t j) <> 0 /\ ~ holds t dev inum j
  end.
Proof.
  induction k as [|k IH]; intros ip empty H0 Hk He Hn; cbn [iget_scan].
  { replace ip with NINODE in * by lia. destruct empty as [e|]; [destruct He; auto|]. intros j Hj. auto. }
  destruct (_ && _) eqn:E.
  { rewrite !andb_true_iff, Z.gtb_lt, !Z.eqb_eq in E. unfold slot, holds. lia. }
  assert (~ holds t dev inum ip) as Hip.
  { intros (H1 & H2 & H3). rewrite H2, H3, !Z.eqb_refl, !andb_true_r, Z.gtb_ltb in E. by apply Z.ltb_nlt in E. }
  apply IH; [lia|lia| |].
  - destruct empty as [e|]; [done|]. destruct (Z.eqb_spec (i_ref (t ip)) 0).
    + unfold slot. lia.
    + intros j Hj. destruct (decide (j = ip)) as [->|]; [done|apply He; lia].
  - intros j Hj. destruct (decide (j = ip)) as [->|]; [done|apply Hn; lia].
Qed.

Section iget.
Context {C U : Type} `{BufCache C}.

Lemma iget_run (s : fs C U) dev inum :
  itable_ok (f_inode s) ->
  match iget dev inum s with
  | Ret (ip, s') =>
      slot ip /\ holds (f_inode s') dev inum ip /\ itable_ok (f_inode s') /\
      (forall j, j <> ip -> f_inode s' j = f_inode s j) /\
      (holds (f_inode s) dev inum ip /\ f_inode s' ip = set_ref (i_ref (f_inode s ip) + 1) (f_inode s ip) \/
       (forall j, slot j -> ~ holds (f_inode s) dev inum j) /\ i_ref (f_inode s' ip) = 1 /\ i_valid (f_inode s' ip) = false) /\
      f_ls s' = f_ls s /\ f_user s' = f_user s /\ f_sb s' = f_sb s
  | Panic _ => forall j, slot j -> i_ref (f_inode s j) <> 0 /\ ~ holds (f_inode s) dev inum j
  | _ => False
  end.
Proof.
  intros [Hr Hu]. unfold iget. rewrite bind_run. cbn [gets].
  pose proof (iget_scan_spec (f_inode s) dev inum (Z.to_nat NINODE) 0 None) as Hs.
  specialize (Hs ltac:(lia) ltac:(done) ltac:(cbn; intros j Hj; lia) ltac:(intros j Hj; lia)).
  destruct (iget_scan _ _ _ _ _ _) as [e|[e|]]; [| |exact Hs].
  - destruct Hs as [Hse Hh]. pose proof Hh as (H1 & H2 & H3). rewrite bind_run. cbn. rewrite !upd_eq.
    split; [done|]. split; [unfold holds; rewrite upd_eq; cbn; split_and!; [lia|done|done]|]. split_and!; try done.
    + set (t' := upd _ _ _).
      assert (forall j, i_dev (t' j) = i_dev (f_inode s j) /\ i_inum (t' j) = i_inum (f_inode s j) /\
        (0 <= i_ref (f_inode s j) -> 0 <= i_ref (t' j)) /\
        (0 < i_ref (t' j) -> 0 <= i_ref (f_inode s j) -> 0 < i_ref (f_inode s j))) as Hj.
      { intros j. unfold t', upd. destruct (Z.eqb_spec j e) as [->|]; cbn; split_and!; try done; lia. }
      split.
      * intros ip Hip. by apply Hj, Hr.
      * intros i j Hi Hj'. destruct (Hj i) as (-> & -> & _ & Hi0), (Hj j) as (-> & -> & _ & Hj0).
        intros Ri Rj. apply Hu; auto.
    + intros j Hj. by rewrite upd_ne.
    + by left.
  - destruct Hs as (Hse & H0 & Hn). rewrite bind_run. cbn. rewrite !upd_eq.
    split; [done|]. split; [unfold holds; rewrite upd_eq; done|]. split_and!; try done.
    + split.
      * intros ip Hip. unfold upd. destruct (ip =? e); [done|by apply Hr].
      * intros i j Hi Hj. unfold upd. destruct (Z.eqb_spec i e) as [->|Hie], (Z.eqb_spec j e) as [->|Hje]; cbn; try done.
        -- intros _ Rj Ed Ei. by destruct (Hn j Hj).
        -- intros Ri _ Ed Ei. by destruct (Hn i Hi).
        -- by apply Hu.
    + intros j Hj. by rewrite upd_ne.
    + by right.
Qed.
(** [iget] returns the one table entry of inode [inum]: the entry that is
    in use, with one more reference, or else a free one that now belongs to the
    inode and has not been read from disk.  The other entries are unchanged,
    the table still has at most one entry per inode, and [iget] panics only
    when all [NINODE] entries are in use for other inodes. *)
Theorem iget_entry (s : fs C U) dev inum :
  itable_ok (f_inode s) ->
  match iget dev inum s with
  | Ret (ip, s') =>
      slot ip /\ holds (f_inode s') dev inum ip /\ itable_ok (f_inode s') /\
      (forall j, j <> ip -> f_inode s' j = f_inode s j) /\
      (holds (f_inode s) dev inum ip /\ f_inode s' ip = set_ref (i_ref (f_inode s ip) + 1) (f_inode s ip) \/
       (forall j, slot j -> ~ holds (f_inode s) dev inum j) /\ i_ref (f_inode s' ip) = 1 /\ i_valid (f_inode s' ip) = false) /\
      f_ls s' = f_ls s /\ f_user s' = f_user s /\ f_sb s' = f_sb s
  | Panic _ => forall j, slot j -> i_ref (f_inode s j) <> 0 /\ ~ holds (f_inode s) dev inum j
  | _ => False
  end.
Proof. exact (iget_run s dev inum). Qed.
End iget.

(** * Names *)
(** The name in a field of [k] bytes: up to the first NUL. *)
Fixpoint cname (k : nat) (l : list Z) : list Z :=
  match k with
  | O => []
  | S k => let c := hd 0 l in if c =? 0 then [] else c :: cname k (tl l)
  end.
Definition dname (l : list Z) : list Z := cname (Z.to_nat DIRSIZ) l.

Lemma strncmp_bytes_zero k : forall p q, strncmp_bytes k p q = 0 <-> cname k p = cname k q.
Proof.
  induction k as [|k IH]; intros p q; cbn [strncmp_bytes cname]; [done|]. unfold nz.
  destruct (Z.eqb_spec (hd 0 p) 0) as [Ep|Ep], (Z.eqb_spec (hd 0 q) 0) as [Eq|Eq]; cbn [negb andb].
  - by rewrite Ep, Eq.
  - split; [lia|done].
  - rewrite (proj2 (Z.eqb_neq (hd 0 p) (hd 0 q))) by lia. split; [lia|done].
  - destruct (Z.eqb_spec (hd 0 p) (hd 0 q)) as [E|E].
    + rewrite IH, E. split; [by intros ->|by intros [= ?]].
    + split; [lia|]. by intros [= ? _].
Qed.
Lemma namecmp_zero s t : namecmp s t = 0 <-> dname s = dname t.
Proof. apply strncmp_bytes_zero. Qed.

Lemma strncpy_bytes_len k l : length (strncpy_bytes k l) = k.
Proof.
  revert l. induction k as [|k IH]; intros [|c l]; cbn [strncpy_bytes]; [done|done|by rewrite length_replicate|].
  destruct (c =? 0); [by rewrite length_replicate|]. cbn. by rewrite IH.
Qed.
Lemma cname_zeros k n : cname k (replicate n 0) = [].
Proof. destruct k, n; done. Qed.
Lemma cname_strncpy k l : cname k (strncpy_bytes k l) = cname k l.
Proof.
  revert l. induction k as [|k IH]; intros [|c l]; cbn [strncpy_bytes cname hd tl]; [done..|].
  destruct (Z.eqb_spec c 0) as [->|Hc]; [done|]. cbn [hd tl]. rewrite (proj2 (Z.eqb_neq c 0)) by done. by rewrite IH.
Qed.

(** * Directories as files of entries *)
Section entries.
Context (c : Z -> Z).      (* the contents of the directory *)
Definition ent_inum (off : Z) : Z := c off + 2 ^ 8 * c (off + 1).
Definition ent_name (off : Z) : list Z := dname (c <$> seqZ (off + 2) DIRSIZ).
(** The first used entry named [name] among [k] entries from [off] on. *)
Fixpoint dir_scan (k : nat) (off : Z) (name : list Z) : option (Z * Z) :=
  match k with
  | O => None
  | S k =>
      if ent_inum off =? 0 then dir_scan k (off + DIRENT) name
      else if bool_decide (dname name = ent_name off) then Some (ent_inum off, off)
      else dir_scan k (off + DIRENT) name
  end.
(** The first unused entry, or the end. *)
Fixpoint slot_scan (k : nat) (off : Z) : Z :=
  match k with
  | O => off
  | S k => if ent_inum off =? 0 then off else slot_scan k (off + DIRENT)
  end.
End entries.
Definition entries_of (size : Z) : nat := Z.to_nat (size / DIRENT).
(** What a directory maps [name] to: an inode number and the entry's offset. *)
Definition dir_find (V : Z -> mem) (d : dinode) (name : list Z) : option (Z * Z) :=
  dir_scan (fbyte V d) (entries_of (d_size d)) 0 name.

(** Scans of consecutive parts. *)
Lemma dir_scan_app c k1 k2 name : forall off,
  dir_scan c (k1 + k2) off name =
  match dir_scan c k1 off name with
  | Some r => Some r
  | None => dir_scan c k2 (off + DIRENT * Z.of_nat k1) name
  end.
Proof.
  induction k1 as [|k1 IH]; intros off; cbn [dir_scan Nat.add]; [by rewrite Z.mul_0_r, Z.add_0_r|].
  rewrite IH. replace (off + DIRENT * Z.of_nat (S k1)) with (off + DIRENT + DIRENT * Z.of_nat k1) by lia.
  destruct (_ =? 0); [done|]. by destruct (bool_decide _).
Qed.
Lemma dir_scan_ext c c' k name : forall off,
  (forall i, off <= i < off + DIRENT * Z.of_nat k -> c' i = c i) -> dir_scan c' k off name = dir_scan c k off name.
Proof.
  induction k as [|k IH]; intros off Hc; [done|]. cbn [dir_scan]. change DIRENT with 16 in *.
  assert (ent_inum c' off = ent_inum c off) as -> by (unfold ent_inum; rewrite !Hc by lia; done).
  assert (ent_name c' off = ent_name c off) as ->.
  { unfold ent_name. f_equal. apply list_fmap_ext. intros i x Hx%lookup_seqZ. change DIRSIZ with 14 in *. apply Hc. lia. }
  rewrite IH by (intros; apply Hc; lia). done.
Qed.
Lemma slot_scan_spec c k : forall off,
  exists j : nat, (j <= k)%nat /\ slot_scan c k off = off + DIRENT * Z.of_nat j /\
    ((j < k)%nat -> ent_inum c (off + DIRENT * Z.of_nat j) = 0).
Proof.
  induction k as [|k IH]; intros off; cbn [slot_scan].
  { exists 0%nat. rewrite Z.mul_0_r, Z.add_0_r. split_and!; lia. }
  destruct (Z.eqb_spec (ent_inum c off) 0) as [E|E].
  { exists 0%nat. rewrite Z.mul_0_r, Z.add_0_r. split_and!; (done || lia). }
  destruct (IH (off + DIRENT)) as (j & Hj & E1 & E2). exists (S j).
  replace (off + DIRENT * Z.of_nat (S j)) with (off + DIRENT + DIRENT * Z.of_nat j) by lia.
  split_and!; [lia|done|]. intros. apply E2. lia.
Qed.

(** Writing the entry [name], [inum] into the slot that [slot_scan] chose adds it
    to what the directory finds. *)
Lemma dir_scan_link c c' k name inum n :
  let off := slot_scan c k 0 in
  (forall i, i < off \/ off + DIRENT <= i -> c' i = c i) -> ent_inum c' off = inum -> inum <> 0 ->
  ent_name c' off = dname name -> dir_scan c k 0 name = None ->
  dir_scan c' (entries_of (Z.max (DIRENT * Z.of_nat k) (off + DIRENT))) 0 n =
  if bool_decide (dname n = dname name) then Some (inum, off) else dir_scan c k 0 n.
Proof.
  intros off Hc Hi H0 Hn Hnone. destruct (slot_scan_spec c k 0) as (j & Hj & E1 & E2). fold off in E1. rewrite Z.add_0_l in *.
  set (r := (k - j - 1)%nat).
  assert (entries_of (Z.max (DIRENT * Z.of_nat k) (off + DIRENT)) = (j + (1 + r))%nat) as ->.
  { unfold entries_of, r. rewrite E1. change DIRENT with 16. destruct (decide (j = k)) as [->|].
    - rewrite Z.max_r by lia. replace (16 * Z.of_nat k + 16) with ((Z.of_nat k + 1) * 16) by lia. rewrite Z.div_mul by lia. lia.
    - rewrite Z.max_l by lia. rewrite Z.mul_comm, Z.div_mul by lia. lia. }
  assert (forall x, dir_scan c k 0 x = match dir_scan c j 0 x with Some y => Some y | None => dir_scan c r (off + DIRENT) x end) as Hold.
  { intros x. destruct (decide (j = k)) as [Ejk|Hjk].
    - unfold r. subst j. replace (k - k - 1)%nat with 0%nat by lia. cbn. by destruct (dir_scan c k 0 x).
    - replace k with (j + (1 + r))%nat at 1 by (unfold r; lia). rewrite dir_scan_app, Z.add_0_l, <- E1. cbn [dir_scan Nat.add].
      rewrite E1, E2 by lia. done. }
  rewrite Hold in Hnone. rewrite dir_scan_app, Z.add_0_l, <- E1.
  rewrite (dir_scan_ext c c' j) by (intros i Hi'; apply Hc; lia). cbn [dir_scan Nat.add].
  rewrite Hi, (proj2 (Z.eqb_neq inum 0)), Hn by done.
  rewrite (dir_scan_ext c c' r) by (intros i Hi'; apply Hc; lia). rewrite (Hold n).
  assert (forall x k' o, dname x = dname name -> dir_scan c k' o x = dir_scan c k' o name) as Hsame.
  { intros x k'. induction k' as [|k' IH]; intros o Hx; cbn [dir_scan]; [done|]. rewrite Hx, IH by done. done. }
  destruct (decide (dname n = dname name)) as [E|E].
  - rewrite !bool_decide_true by done. rewrite (Hsame n) by done. by destruct (dir_scan c j 0 name).
  - rewrite !bool_decide_false by done. done.
Qed.

Section dir.
Context {C U : Type} `{HL : BufCacheLaws C} `{UM : UserMem U} `{KL : !KernMemLaws U}.
Context (B : txbase) (sb : superblock) (LY : layout sb (t_log B)) (pt de : Z).
Implicit Types (s : fs C U) (V : Z -> mem) (X : gset Z) (d : dinode).

(** A directory with whole entries. *)
Definition dir_ok V d : Prop := dense V d /\ d_type d = T_DIR /\ d_size d mod DIRENT = 0.

(** The kernel stack's [struct dirent] holds the entry at [off]. *)
Definition de_is (c : Z -> Z) (off : Z) (u : U) : Prop := forall i, 0 <= i < DIRENT -> kbyte u (de + i) = c (off + i).

Lemma fbyte_u8 V d i : u8 (fbyte V d i) = fbyte V d i.
Proof.
  unfold fbyte. destruct (_ =? 0); [done|]. unfold ld8, u8. apply Z.mod_mod. done.
Qed.

(** Reading one entry. *)
Lemma wp_read_dirent s V X dp d off Q :
  file_at B sb s V X dp d -> dir_ok V d -> 0 <= off -> off + DIRENT <= d_size d ->
  (forall l u, tx B l V ∅ X -> de_is (fbyte V d) off u -> Q DIRENT (set_user u (put_ls l s))) ->
  wp (readi pt dp false de off DIRENT) s Q.
Proof using LY KL.
  intros F (De & Ty & Hm) Hoff Hend HQ. change DIRENT with 16 in *. assert (MAXFILE * BSIZE < 2 ^ 31) as Hmx by done.
  eapply wp_mono; [apply (readi_ok B sb LY pt s V X dp d false de off 16 F De); destruct De; lia|].
  intros r s' (l & ok & u & T & Ec & -> & ->). rewrite Z.min_l in * by lia. unfold either_copyout in Ec. apply pair_eq in Ec as [<- <-].
  apply HQ; [done|]. intros i Hi. rewrite kbyte_kcopyout. change DIRENT with 16 in Hi. rewrite fbytes_len by lia.
  rewrite (proj2 (Z.leb_le _ _)), (proj2 (Z.ltb_lt _ _)) by lia. cbn [andb].
  rewrite <- (fbyte_u8 V d (off + i)). f_equal. apply nth_lookup_Some. unfold fbytes. rewrite list_lookup_fmap.
  rewrite lookup_seqZ_lt by lia. cbn. do 2 f_equal. lia.
Qed.
Lemma de_is_inum c off u : de_is c off u -> de_inum de u = ent_inum c off.
Proof.
  intros Hd. unfold de_inum, ent_inum. rewrite <- (Z.add_0_r de) at 1. rewrite <- (Z.add_0_r off) at 1.
  rewrite (Hd 0), (Hd 1); done.
Qed.
Lemma de_is_name c off u : de_is c off u -> dname (de_name de u) = ent_name c off.
Proof.
  intros Hd. unfold de_name, ent_name, kcopyin. f_equal. change (Z.of_nat (Z.to_nat DIRSIZ)) with DIRSIZ.
  rewrite <- (Z.add_0_r (off + 2)), <- fmap_add_seqZ, <- list_fmap_compose. apply list_fmap_ext.
  intros i x Hx%lookup_seqZ. cbn. change DIRSIZ with 14 in *. rewrite <- Z.add_assoc, Hd by (change DIRENT with 16; lia).
  f_equal. lia.
Qed.

Lemma dirlookup_loop_ok name rounds V X dp d Q : forall k s off,
  file_at B sb s V X dp d -> dir_ok V d -> 0 <= off -> off + DIRENT * Z.of_nat k = d_size d -> (k <= rounds)%nat ->
  (forall l u, tx B l V ∅ X ->
     match dir_scan (fbyte V d) k off name with
     | None => Q None (set_user u (put_ls l s))
     | Some (inum, o) => wp (ip ← iget ROOTDEV inum; mret (Some (ip, o))) (set_user u (put_ls l s)) Q
     end) ->
  wp (dirlookup_loop pt de rounds dp name off) s Q.
Proof using LY KL.
  induction rounds as [|rounds IH]; intros k s off F D Hoff Hend Hk HQ; cbn [dirlookup_loop];
    apply wp_bind, wp_gets; rewrite (fa_d _ _ _ _ _ _ _ F).
  all: assert (s = set_user (f_user s) (put_ls (f_ls s) s)) as Es by by destruct s.
  all: destruct k as [|k]; [rewrite (proj2 (Z.ltb_ge off _)) by lia; apply wp_ret; rewrite Es; apply HQ, F|].
  { lia. }
  change DIRENT with 16 in *. rewrite (proj2 (Z.ltb_lt off _)) by lia.
  apply wp_bind. eapply wp_read_dirent; [done|done|lia|change DIRENT with 16; lia|].
  intros l u T Hde. rewrite Z.eqb_refl. cbn [negb]. apply wp_bind, wp_gets. cbn [f_user set_user].
  rewrite (de_is_inum _ _ _ Hde).
  assert (file_at B sb (set_user u (put_ls l s)) V X dp d) as F' by by eapply file_at_same.
  cbn [dir_scan] in HQ. destruct (Z.eqb_spec (ent_inum (fbyte V d) off) 0) as [E0|E0].
  - eapply (IH k); [done|done|change DIRENT with 16; lia|change DIRENT with 16; lia|lia|].
    intros l' u' T'. specialize (HQ l' u' T'). exact HQ.
  - destruct (Z.eqb_spec (namecmp name (de_name de u)) 0) as [En|En].
    + rewrite namecmp_zero, (de_is_name _ _ _ Hde) in En. specialize (HQ l u T). rewrite bool_decide_true in HQ by done.
      apply wp_bind, wp_gets. rewrite (fa_dev _ _ _ _ _ _ _ F'). exact HQ.
    + rewrite namecmp_zero, (de_is_name _ _ _ Hde) in En. rewrite bool_decide_false in HQ by done.
      eapply (IH k); [done|done|change DIRENT with 16; lia|change DIRENT with 16; lia|lia|].
      intros l' u' T'. specialize (HQ l' u' T'). exact HQ.
Qed.

Lemma entries_size V d : dir_ok V d -> 0 <= d_size d -> DIRENT * Z.of_nat (entries_of (d_size d)) = d_size d.
Proof. intros (_ & _ & Hm) H0. unfold entries_of. change DIRENT with 16 in *. rewrite Z2Nat.id by zdiv. zdiv. Qed.
Lemma dir_rounds_enough size : (entries_of size <= dir_rounds size)%nat.
Proof. unfold entries_of, dir_rounds. lia. Qed.

Lemma wp_dirlookup s V X dp d name Q :
  file_at B sb s V X dp d -> dir_ok V d -> 0 <= d_size d ->
  (forall l u, tx B l V ∅ X ->
     match dir_find V d name with
     | None => Q None (set_user u (put_ls l s))
     | Some (inum, o) => wp (ip ← iget ROOTDEV inum; mret (Some (ip, o))) (set_user u (put_ls l s)) Q
     end) ->
  wp (dirlookup pt de dp name) s Q.
Proof using LY KL.
  intros F D H0 HQ. unfold dirlookup. apply wp_bind, wp_gets. rewrite (fa_d _ _ _ _ _ _ _ F).
  destruct D as (De & Ty & Hm). rewrite Ty. cbn.
  eapply dirlookup_loop_ok; [done|split_and!; done|lia|by rewrite (entries_size V)|apply dir_rounds_enough|exact HQ].
Qed.

Lemma empty_dirent_ok rounds V X dp d Q : forall k s off,
  file_at B sb s V X dp d -> dir_ok V d -> 0 <= off -> off + DIRENT * Z.of_nat k = d_size d -> (k <= rounds)%nat ->
  (forall l u, tx B l V ∅ X -> Q (slot_scan (fbyte V d) k off) (set_user u (put_ls l s))) ->
  wp (empty_dirent pt de rounds dp off) s Q.
Proof using LY KL.
  induction rounds as [|rounds IH]; intros k s off F D Hoff Hend Hk HQ; cbn [empty_dirent];
    apply wp_bind, wp_gets; rewrite (fa_d _ _ _ _ _ _ _ F).
  all: assert (s = set_user (f_user s) (put_ls (f_ls s) s)) as Es by by destruct s.
  all: destruct k as [|k]; [rewrite (proj2 (Z.ltb_ge off _)) by lia; apply wp_ret; rewrite Es; apply HQ, F|].
  { lia. }
  change DIRENT with 16 in *. rewrite (proj2 (Z.ltb_lt off _)) by lia.
  apply wp_bind. eapply wp_read_dirent; [done|done|lia|change DIRENT with 16; lia|].
  intros l u T Hde. rewrite Z.eqb_refl. cbn [negb]. apply wp_bind, wp_gets. cbn [f_user set_user].
  rewrite (de_is_inum _ _ _ Hde). cbn [slot_scan] in HQ.
  destruct (Z.eqb_spec (ent_inum (fbyte V d) off) 0) as [E0|E0]; [by apply wp_ret, HQ|].
  eapply (IH k); [by eapply file_at_same|done|change DIRENT with 16; lia|change DIRENT with 16; lia|lia|].
  intros l' u' T'. by apply HQ.
Qed.

(** The bytes of the entry that [dirlink] writes. *)
Definition entry_bytes (name : list Z) (inum : Z) : list Z :=
  [u8 inum; u8 (inum / 2 ^ 8)] ++ strncpy_bytes (Z.to_nat DIRSIZ) name.
Lemma set_de_bytes name inum (u : U) : kcopyin (set_de de name inum u) de (Z.to_nat DIRENT) = u8 <$> entry_bytes name inum.
Proof using KL.
  set (nm := strncpy_bytes (Z.to_nat DIRSIZ) name).
  assert (length nm = 14%nat) as Hl by apply strncpy_bytes_len.
  assert (length (u8 <$> entry_bytes name inum) = 16%nat) as Hle.
  { rewrite length_fmap. unfold entry_bytes. rewrite length_app. fold nm. by rewrite Hl. }
  unfold kcopyin. apply list_eq. intros i. destruct (decide (i < 16)%nat) as [Hi|Hi].
  2:{ rewrite lookup_ge_None_2 by (rewrite length_fmap, length_seqZ; change DIRENT with 16; lia).
      symmetry. apply lookup_ge_None_2. lia. }
  rewrite list_lookup_fmap, lookup_seqZ_lt by (change DIRENT with 16; lia). cbn [fmap option_fmap option_map].
  rewrite Z.add_0_l. unfold set_de. rewrite kbyte_kcopyout, kbyte_kcopyout. fold nm. rewrite Hl. cbn [length].
  rewrite list_lookup_fmap. unfold entry_bytes. fold nm. destruct i as [|[|i]].
  - bools. by rewrite Z.add_simpl_l.
  - bools. by rewrite Z.add_simpl_l.
  - change (([u8 inum; u8 (inum / 2 ^ 8)] ++ nm) !! S (S i)) with (nm !! i). bools.
    destruct (lookup_lt_is_Some_2 nm i ltac:(lia)) as [b Eb]. rewrite Eb. cbn. f_equal. f_equal.
    apply nth_lookup_Some. rewrite <- Eb. f_equal. lia.
Qed.

Lemma strncpy_u8 k name : Forall (fun b => 0 <= b < 256) name -> u8 <$> strncpy_bytes k name = strncpy_bytes k name.
Proof.
  revert name. induction k as [|k IH]; intros [|c name] Hf; cbn [strncpy_bytes]; [done|done|by rewrite fmap_replicate|].
  apply Forall_cons in Hf as [Hc Hf]. destruct (c =? 0); [by rewrite fmap_replicate|]. cbn. rewrite IH by done.
  f_equal. apply u8_small. lia.
Qed.

(** The entry as it is found in the directory. *)
Lemma splice_entry c off name inum :
  0 < inum < 2 ^ 16 -> Forall (fun b => 0 <= b < 256) name ->
  let c' := splice c off (u8 <$> entry_bytes name inum) in
  ent_inum c' off = inum /\ ent_name c' off = dname name /\ (forall i, i < off \/ off + DIRENT <= i -> c' i = c i).
Proof.
  intros Hi Hn c'. set (nm := strncpy_bytes (Z.to_nat DIRSIZ) name).
  assert (length nm = 14%nat) as Hl by apply strncpy_bytes_len.
  assert (u8 <$> entry_bytes name inum = u8 inum :: u8 (inum / 2 ^ 8) :: nm) as El.
  { unfold entry_bytes. rewrite fmap_app, strncpy_u8 by done. fold nm. cbn. unfold u8. by rewrite !Z.mod_mod. }
  assert (forall i, 0 <= i < 16 -> c' (off + i) = u8 (nth (Z.to_nat i) (u8 inum :: u8 (inum / 2 ^ 8) :: nm) 0)) as Hc'.
  { intros i Hr. unfold c', splice, zth. rewrite El. cbn [length]. bools. rewrite Z.add_simpl_l. done. }
  split_and!.
  - unfold ent_inum. replace off with (off + 0) at 1 by lia. rewrite !Hc' by lia.
    change (Z.to_nat 0) with 0%nat. change (Z.to_nat 1) with 1%nat. cbn [nth]. unfold u8. rewrite !Z.mod_mod by done.
    change (2 ^ 8) with 256. change (2 ^ 16) with 65536 in *. zdiv.
  - unfold ent_name. transitivity (dname nm).
    + f_equal. change DIRSIZ with 14 in *. assert (u8 <$> nm = nm) as <- by by apply strncpy_u8. apply list_eq. intros i.
      rewrite !list_lookup_fmap. destruct (decide (i < 14)%nat).
      * rewrite lookup_seqZ_lt by lia. cbn. replace (off + 2 + Z.of_nat i) with (off + (2 + Z.of_nat i)) by lia.
        rewrite Hc' by lia. replace (Z.to_nat (2 + Z.of_nat i)) with (S (S i)) by lia. cbn [nth].
        destruct (lookup_lt_is_Some_2 nm i ltac:(lia)) as [b Eb]. rewrite Eb. cbn. by rewrite (nth_lookup_Some _ _ _ _ Eb).
      * rewrite lookup_seqZ_ge, lookup_ge_None_2 by lia. done.
    + unfold dname, nm. apply cname_strncpy.
  - intros i Hr. unfold c', splice. rewrite El. cbn [length]. rewrite Hl. change DIRENT with 16 in *.
    destruct (_ && _) eqn:E; [|done]. rewrite andb_true_iff, Z.leb_le, Z.ltb_lt in E. lia.
Qed.

(** ** [dirlink] *)
Context (OP : in_op B) (pid : Z).

Lemma slot_fits off : 0 <= off -> off mod DIRENT = 0 -> cdiv (off + DIRENT) - off / BSIZE <= 1.
Proof. intros H1 H2. unfold cdiv. change BSIZE with 1024. change DIRENT with 16 in *. zdiv. Qed.

(** The entry is written: what the directory finds then. *)
Lemma linked s V X dp d name inum (s' : fs C U) V' X' d' :
  let off := slot_scan (fbyte V d) (entries_of (d_size d)) 0 in
  dir_ok V d -> 0 <= d_size d -> d_size d + DIRENT <= MAXFILE * BSIZE -> 0 < inum < 2 ^ 16 ->
  Forall (fun b => 0 <= b < 256) name -> dir_find V d name = None ->
  wrote B sb s V X dp d off (u8 <$> entry_bytes name inum) s' V' X' d' DIRENT ->
  dir_ok V' d' /\ forall n, dir_find V' d' n =
    if bool_decide (dname n = dname name) then Some (inum, off) else dir_find V d n.
Proof.
  intros off D H0 Hmax Hi Hn Hnone W. pose proof (entries_size V d D H0) as Esz. destruct D as (De & Ty & Hm).
  destruct (slot_scan_spec (fbyte V d) (entries_of (d_size d)) 0) as (j & Hj & E1 & E2). fold off in E1. rewrite Z.add_0_l in *.
  pose proof (wt_size _ _ _ _ _ _ _ _ _ _ _ _ _ _ W) as Hsz. pose proof (wt_same _ _ _ _ _ _ _ _ _ _ _ _ _ _ W) as (St & _).
  destruct (splice_entry (fbyte V d) off name inum Hi Hn) as (Hinum & Hname & Hother).
  set (c' := splice _ _ _) in *.
  assert (DIRENT * Z.of_nat j <= d_size d) as Hjs by (change DIRENT with 16 in *; lia).
  split.
  - split_and!; [apply W|by rewrite St|]. rewrite Hsz, E1. change DIRENT with 16 in *.
    destruct (Z.max_spec (d_size d) (16 * Z.of_nat j + 16)) as [[_ ->]|[_ ->]]; [|done]. zdiv.
  - intros n. unfold dir_find. pose proof (dir_scan_link (fbyte V d) c' (entries_of (d_size d)) name inum n) as HL'.
    rewrite Esz in HL'. rewrite Hsz. rewrite (dir_scan_ext c' (fbyte V' d')).
    + apply HL'; try done; lia.
    + intros i Hi'. assert (0 <= i < MAXFILE * BSIZE) as Hir.
      { unfold entries_of in Hi'. rewrite Z.add_0_l in Hi'. rewrite E1 in Hi'. change DIRENT with 16 in *.
        rewrite Z2Nat.id in Hi' by zdiv. zdiv. }
      rewrite (wt_bytes _ _ _ _ _ _ _ _ _ _ _ _ _ _ W) by done. rewrite take_ge; [done|].
      rewrite length_fmap. unfold entry_bytes. rewrite length_app, strncpy_bytes_len. done.
Qed.

(** Linking a new name into a directory with room for one more entry:
    [dirlink] returns 0 and the directory then maps the name to the inode
    number, and every other name to what it was mapped to; or it returns -1,
    and then the disk is full. *)
Theorem dirlink_links s V X dp d name inum :
  let off := slot_scan (fbyte V d) (entries_of (d_size d)) 0 in
  file_at B sb s V X dp d -> dir_ok V d -> dinode_wf d -> 0 <= i_inum (f_inode s dp) < sb_ninodes sb ->
  d_size d + DIRENT <= MAXFILE * BSIZE -> 0 < inum < 2 ^ 16 -> Forall (fun b => 0 <= b < 256) name ->
  dir_find V d name = None -> spare B X 8 ->
  exists r s' V' X' d', dirlink pid pt de dp name inum s = Ret (r, s') /\ file_at B sb s' V' X' dp d' /\
    (r = 0 /\ dir_ok V' d' /\ (forall n, dir_find V' d' n =
       if bool_decide (dname n = dname name) then Some (inum, off) else dir_find V d n) \/
     r = -1 /\ full sb V').
Proof using LY KL OP.
  intros off F D Wf Hin Hmax Hi Hn Hnone Hs. pose proof (dw_size _ Wf) as H0.
  assert (wp (dirlink pid pt de dp name inum) s (fun r s' => exists V' X' d', file_at B sb s' V' X' dp d' /\
    (r = 0 /\ dir_ok V' d' /\ (forall n, dir_find V' d' n =
       if bool_decide (dname n = dname name) then Some (inum, off) else dir_find V d n) \/
     r = -1 /\ full sb V'))) as (r & s' & E & V' & X' & d' & H'); [|by exists r, s', V', X', d'].
  pose proof (entries_size V d D ltac:(lia)) as Esz.
  destruct (slot_scan_spec (fbyte V d) (entries_of (d_size d)) 0) as (j & Hj & E1 & _). fold off in E1. rewrite Z.add_0_l in E1.
  assert (0 <= off <= d_size d /\ off mod DIRENT = 0) as [Hoff Hal].
  { change DIRENT with 16 in *. rewrite E1, Z.mul_comm. split; [lia|]. by apply Z.mod_mul. }
  unfold dirlink. apply wp_bind. eapply wp_dirlookup; [exact F|done|lia|]. rewrite Hnone. intros l u T.
  apply wp_bind, wp_gets. cbn [f_inode set_user put_ls]. rewrite (fa_d _ _ _ _ _ _ _ F).
  apply wp_bind. eapply (empty_dirent_ok _ V X dp d); [by eapply file_at_same|done|lia|by rewrite Esz|apply dir_rounds_enough|].
  fold off. intros l' u' T'. apply wp_bind, wp_modify. set (s2 := set_user _ _). apply wp_bind.
  assert (src_bytes (f_user s2) pt false de DIRENT = u8 <$> entry_bytes name inum) as Esrc by apply set_de_bytes.
  assert (lenZ (u8 <$> entry_bytes name inum) = DIRENT) as El.
  { rewrite length_fmap. unfold entry_bytes. by rewrite length_app, strncpy_bytes_len. }
  eapply wp_mono.
  { apply (writei_wp B sb LY OP pt s2 V X dp d false de off DIRENT); try done; try lia.
    - by eapply file_at_same. - apply D.
    - pose proof (slot_fits off ltac:(lia) Hal). unfold spare in *. lia. }
  rewrite Esrc. intros tot s' (V' & X' & d' & W). apply wp_ret. exists V', X', d'. split; [apply W|].
  pose proof (wt_tot _ _ _ _ _ _ _ _ _ _ _ _ _ _ W) as Ht.
  destruct (Z.eqb_spec tot DIRENT) as [->|Hne]; cbn [negb].
  - left. split; [done|]. eapply linked; try done. lia.
  - right. split; [done|]. apply (wt_full _ _ _ _ _ _ _ _ _ _ _ _ _ _ W). lia.
Qed.

(** [dirlookup] on a directory finds what the directory maps the
    name to, and returns the table entry of that inode; it returns null exactly
    for names the directory does not have.  It changes no block, and panics
    only when the inode table is full. *)
Theorem dirlookup_finds s V X dp d name :
  file_at B sb s V X dp d -> dir_ok V d -> 0 <= d_size d -> itable_ok (f_inode s) ->
  (exists j, slot j /\ i_ref (f_inode s j) = 0) ->
  exists r s', dirlookup pt de dp name s = Ret (r, s') /\ tx B (f_ls s') V ∅ X /\ itable_ok (f_inode s') /\
    match dir_find V d name with
    | None => r = None /\ f_inode s' = f_inode s
    | Some (inum, off) => exists ip, r = Some (ip, off) /\ slot ip /\ holds (f_inode s') ROOTDEV inum ip
    end.
Proof using LY KL.
  intros F D H0 Hit (j & Hj & Hj0).
  assert (wp (dirlookup pt de dp name) s (fun r s' => tx B (f_ls s') V ∅ X /\ itable_ok (f_inode s') /\
    match dir_find V d name with
    | None => r = None /\ f_inode s' = f_inode s
    | Some (inum, off) => exists ip, r = Some (ip, off) /\ slot ip /\ holds (f_inode s') ROOTDEV inum ip
    end)) as (r & s' & E & H'); [|by exists r, s'].
  eapply wp_dirlookup; [exact F|done|done|]. intros l u T. destruct (dir_find V d name) as [[inum off]|]; [|done].
  pose proof (iget_run (set_user u (put_ls l s)) ROOTDEV inum Hit) as Hg.
  apply wp_bind. destruct (iget ROOTDEV inum _) as [[ip s']| | |] eqn:E; [|by destruct (Hg j Hj) as [? _]|done|done].
  destruct Hg as (Hs & Hh & Hit' & _ & _ & El & _). exists ip, s'. split; [done|]. apply wp_ret.
  rewrite El. split_and!; [done|done|]. by exists ip.
Qed.
End dir.
