(* ===== verification/FsSpec.v ===== *)
(** What the file system promises: allocation, file contents and path names.
    The theorems of FsBlocks.v and FsIo.v stated on runs of the code. *)
From S2P Require Import Prelude Riscv Memory Locks Blocks Bio Log Stack UserMem Fs Tx FsBlocks FsFile FsIo.

(** * Path names *)
(** The elements of a path, each cut to [DIRSIZ] bytes. *)
Fixpoint split_path (acc p : list Z) : list (list Z) :=
  let here := if bool_decide (acc = []) then [] else [take (Z.to_nat DIRSIZ) (rev acc)] in
  match p with
  | [] => here
  | c :: p => if c =? SLASH then here ++ split_path [] p else split_path (c :: acc) p
  end.
Definition elements (p : list Z) : list (list Z) := split_path [] p.

Lemma split_slashes p : split_path [] p = split_path [] (skip_slashes p).
Proof.
  induction p as [|c p IH]; [done|]. cbn [skip_slashes].
  destruct (Z.eqb_spec c SLASH) as [->|Hc]; [|done]. rewrite <- IH. done.
Qed.
Lemma split_element p : forall acc,
  split_path acc p =
  let '(e, r) := element p in
  (if bool_decide (rev acc ++ e = []) then [] else [take (Z.to_nat DIRSIZ) (rev acc ++ e)]) ++ split_path [] r.
Proof.
  induction p as [|c p IH]; intros acc; cbn [split_path element].
  { rewrite app_nil_r. assert (bool_decide (acc = []) = bool_decide (rev acc = [])) as ->; [|by rewrite app_nil_r].
    apply bool_decide_ext. destruct acc; [done|]. split; [done|]. intros E. apply (f_equal length) in E.
    rewrite length_rev in E. done. }
  destruct (Z.eqb_spec c SLASH) as [->|Hc].
  { rewrite app_nil_r. cbn [split_path]. assert (bool_decide (acc = []) = bool_decide (rev acc = [])) as ->; [|done].
    apply bool_decide_ext. destruct acc; [done|]. split; [done|]. intros E. apply (f_equal length) in E.
    rewrite length_rev in E. done. }
  rewrite IH. destruct (element p) as [e r]. cbn [rev]. by rewrite <- app_assoc.
Qed.
Lemma skip_head p c q : skip_slashes p = c :: q -> c <> SLASH.
Proof.
  induction p as [|x p IH]; [done|]. cbn. destruct (Z.eqb_spec x SLASH); [done|]. by intros [= <- <-].
Qed.
Lemma element_nonempty c q : c <> SLASH -> exists e r, element (c :: q) = (c :: e, r).
Proof.
  intros Hc. cbn. rewrite (proj2 (Z.eqb_neq _ _)) by done. destruct (element q) as [e r]. eauto.
Qed.

Lemma element_len p : forall e r, element p = (e, r) -> (length e + length r = length p)%nat.
Proof.
  induction p as [|x p IH]; intros e r; cbn; [by intros [= <- <-]|].
  destruct (x =? SLASH); [by intros [= <- <-]|]. destruct (element p) as [a b]. intros [= <- <-].
  cbn. by rewrite (IH a b).
Qed.
Lemma skip_len p : (length (skip_slashes p) <= length p)%nat.
Proof. induction p as [|c p IH]; [done|]. cbn. destruct (c =? SLASH); cbn; lia. Qed.

(** [skipelem] takes a path apart element by element: it returns null
    exactly when the path has no element left, and otherwise the first element,
    cut to [DIRSIZ] bytes, and a rest that has the remaining elements and does
    not start with a slash. *)
Theorem skipelem_elements path :
  match skipelem path with
  | None => elements path = []
  | Some (name, rest) =>
      elements path = name :: elements rest /\ hd 0 rest <> SLASH /\
      (length name <= Z.to_nat DIRSIZ)%nat /\ (length rest < length path)%nat
  end.
Proof.
  unfold skipelem, elements. rewrite split_slashes. pose proof (skip_len path) as Hlen.
  destruct (skip_slashes path) as [|c q] eqn:E; [done|]. apply skip_head in E as Hc.
  rewrite split_element. destruct (element_nonempty c q Hc) as (e & r & Ee). rewrite Ee. cbn [rev app].
  pose proof (element_len _ _ _ Ee) as Hr. cbn [length] in Hr.
  assert ((if lenZ (c :: e) >=? DIRSIZ then take (Z.to_nat DIRSIZ) (c :: e) else c :: e) = take (Z.to_nat DIRSIZ) (c :: e)) as ->.
  { rewrite Z.geb_leb. destruct (Z.leb_spec DIRSIZ (lenZ (c :: e))); [done|]. rewrite take_ge; [done|].
    change DIRSIZ with 14 in *. change (Z.to_nat 14) with 14%nat. lia. }
  rewrite bool_decide_false by done. split_and!.
  - cbn [app]. by rewrite split_slashes.
  - intros Hs. destruct (skip_slashes r) as [|x r'] eqn:Er; [done|]. by apply skip_head in Er.
  - rewrite length_take. lia.
  - pose proof (skip_len r). cbn in Hlen. lia.
Qed.

(** * Blocks and files *)
Section specs.
Context {C U : Type} `{HL : BufCacheLaws C} `{UM : UserMem U}.
Context (B : txbase) (sb : superblock) (LY : layout sb (t_log B)) (OP : in_op B) (pt : Z).
Implicit Types (s : fs C U) (V : Z -> mem) (X : gset Z) (d : dinode).

(** [balloc] inside a transaction with room for two blocks: it returns
    the first free data block, which it marks used and fills with zeros, and
    touches nothing else; or 0 when every block below the limit is used.  A
    block of the swap area, from [SWAPBASE] on, is never allocated. *)
Theorem balloc_ok s V X :
  tx B (f_ls s) V ∅ X -> f_sb s = sb -> meta_used sb V -> spare B X 2 ->
  exists r s' V' X', balloc ROOTDEV s = Ret (r, s') /\ tx B (f_ls s') V' ∅ X' /\ f_inode s' = f_inode s /\
    X' ⊆ {[r]} ∪ ({[bm sb]} ∪ X) /\
    (r = 0 /\ full sb V /\ V' = V \/
     data_start sb <= r < SWAPBASE /\ used sb V r = false /\ (forall b, 0 <= b < r -> used sb V b = true) /\
     (forall b, used sb V' b = (b =? r) || used sb V b) /\
     (forall i, 0 <= i < BSIZE -> ld8 (V' r) i = 0) /\ (forall b, b <> r -> b <> bm sb -> V' b = V b)).
Proof using LY OP.
  intros T Hsb Hm Hs. pose proof (fs_limit_le sb).
  assert (wp (balloc ROOTDEV) s (fun r s' => exists V' X', tx B (f_ls s') V' ∅ X' /\ f_inode s' = f_inode s /\
    X' ⊆ {[r]} ∪ ({[bm sb]} ∪ X) /\
    (r = 0 /\ full sb V /\ V' = V \/ data_block sb r /\ used sb V r = false /\
      (forall b, 0 <= b < r -> used sb V b = true) /\ V' = alloc_view sb r V))) as (r & s' & E & V' & X' & T' & Ei & HX & Hr).
  { eapply (wp_balloc B sb LY OP s V ∅ X); try done; [apply held_ok_empty| |].
    - intros l T' HF. exists V, X. split_and!; try done; [set_solver|by left].
    - intros l r T' Hd Hu Hf. eexists _, _. split; [exact T'|]. split_and!; try done. right. done. }
  exists r, s', V', X'. split_and!; try done. destruct Hr as [?|(Hd & Hu & Hf & ->)]; [by left|right].
  split_and!; try done; [apply Hd|destruct Hd; lia|intros b; by eapply used_alloc|intros i; by apply alloc_view_zero|].
  intros b. by apply alloc_view_other.
Qed.

(** Freeing what [balloc] returned restores the bitmap, and the blocks in use never change. *)
Theorem balloc_bfree s V X :
  tx B (f_ls s) V ∅ X -> f_sb s = sb -> meta_used sb V -> spare B X 3 -> ~ full sb V ->
  exists r s' V' X', (r ← balloc ROOTDEV; _ ← bfree ROOTDEV r; mret r) s = Ret (r, s') /\
    tx B (f_ls s') V' ∅ X' /\ (forall b, used sb V' b = used sb V b) /\
    (forall b, used sb V b = true -> b <> bm sb -> V' b = V b).
Proof using LY OP.
  intros T Hsb Hm Hs Hnf.
  assert (wp (r ← balloc ROOTDEV; _ ← bfree ROOTDEV r; mret r) s (fun r s' => exists V' X',
    tx B (f_ls s') V' ∅ X' /\ (forall b, used sb V' b = used sb V b) /\
    (forall b, used sb V b = true -> b <> bm sb -> V' b = V b))) as (r & s' & E & V' & X' & H'); [|by exists r, s', V', X'].
  apply wp_bind. eapply (wp_balloc B sb LY OP s V ∅ X); try done; [apply held_ok_empty|unfold spare in *; lia|].
  intros l r T' Hd Hu _. apply wp_bind. eapply (wp_bfree B sb LY OP); [exact T'|done|done| |apply held_ok_empty| |].
  - rewrite (used_alloc sb _ LY) by done. by rewrite Z.eqb_refl.
  - apply (spare_add B _ (bm sb) 2), (spare_add B _ r 1) in Hs. done.
  - intros l2 T2. apply wp_ret. eexists _, _. split; [exact T2|]. split.
    + intros b. rewrite used_free, (used_alloc sb _ LY) by done. destruct (Z.eqb_spec b r) as [->|]; [by rewrite Hu|done].
    + intros b Hb Hbm. rewrite free_view_other by done. by apply (alloc_keeps sb).
Qed.

(** [readi] on a file without holes never fails for a reason other than
    the destination: it copies out the bytes of the file from [off] on, at most
    [n] and not beyond the size, and returns their number, or -1 when the copy
    out fails.  It works outside transactions and changes no block. *)
Theorem readi_reads s V X ip d ud dst off n :
  file_at B sb s V X ip d -> dense V d -> 0 <= off <= d_size d -> 0 <= n -> off + n < 2 ^ 32 ->
  let n' := Z.min n (d_size d - off) in
  exists l ok u, tx B l V ∅ X /\ either_copyout pt ud dst (fbytes V d off n') (f_user s) = (ok, u) /\
    readi pt ip ud dst off n s = Ret (if ok : bool then n' else -1, set_user u (put_ls l s)).
Proof using LY.
  intros F De Hoff Hn Hov n'.
  destruct (readi_ok B sb LY pt s V X ip d ud dst off n F De Hoff Hn Hov) as (r & s' & E & l & ok & u & T & Ec & -> & ->).
  by exists l, ok, u.
Qed.

(** [writei] of a readable source within the size limit of a file
    returns; the [tot] bytes it counts are in the file at [off], the size and
    the inode block agree, and no block in use by anything else has changed.
    Fewer than [n] bytes are written only when the disk is full. *)
Theorem writei_writes s V X ip d us src off n :
  let data := src_bytes (f_user s) pt us src n in
  file_at B sb s V X ip d -> dense V d -> dinode_wf d -> 0 <= i_inum (f_inode s ip) < sb_ninodes sb ->
  0 <= off <= d_size d -> 0 <= n -> off + n <= MAXFILE * BSIZE -> lenZ data = n ->
  spare B X (cdiv (off + n) - off / BSIZE + 7) ->
  exists tot s' V' X' d', writei pt ip us src off n s = Ret (tot, s') /\
    wrote B sb s V X ip d off data s' V' X' d' tot.
Proof using LY OP.
  intros data F De Wf Hin Hoff Hn Hmax Hd Hs.
  destruct (writei_wp B sb LY OP pt s V X ip d us src off n F De Wf Hin Hoff Hn Hmax Hd Hs)
    as (tot & s' & E & V' & X' & d' & W). by exists tot, s', V', X', d'.
Qed.

End specs.
