(* ===== verification/File.v ===== *)
(** Open files (kernel/file.c) and the allocation of pipes (kernel/pipe.c).

    The state is the file system with the table of open files and the pipes at
    their pages.  The device switch is an argument: a driver is a pair of
    optional operations.  A pipe operation that has to sleep is the outcome
    [Blocked]; Pipe.v has the processes that sleep and wake up. *)
From S2P Require Import Prelude Riscv Memory Locks Blocks Log UserMem Pipe Fs.

Inductive ftype := FD_NONE | FD_PIPE | FD_INODE | FD_DEVICE.
#[export] Instance ftype_eq : EqDecision ftype.
Proof. solve_decision. Defined.

Record file := File {
  ff_type : ftype;
  ff_ref : Z;
  ff_readable : bool;
  ff_writable : bool;
  ff_pipe : Z;
  ff_ip : Z;
  ff_off : Z;       (* uint *)
  ff_major : Z }.
Definition set_fref (r : Z) (f : file) : file :=
  File (ff_type f) r (ff_readable f) (ff_writable f) (ff_pipe f) (ff_ip f) (ff_off f) (ff_major f).
Definition set_ftype (t : ftype) (f : file) : file :=
  File t (ff_ref f) (ff_readable f) (ff_writable f) (ff_pipe f) (ff_ip f) (ff_off f) (ff_major f).
Definition set_off (o : Z) (f : file) : file :=
  File (ff_type f) (ff_ref f) (ff_readable f) (ff_writable f) (ff_pipe f) (ff_ip f) o (ff_major f).
Definition set_modes (r w : bool) (f : file) : file :=
  File (ff_type f) (ff_ref f) r w (ff_pipe f) (ff_ip f) (ff_off f) (ff_major f).
Definition set_pipe (pi : Z) (f : file) : file :=
  File (ff_type f) (ff_ref f) (ff_readable f) (ff_writable f) pi (ff_ip f) (ff_off f) (ff_major f).
Definition set_ip (ip : Z) (f : file) : file :=
  File (ff_type f) (ff_ref f) (ff_readable f) (ff_writable f) (ff_pipe f) ip (ff_off f) (ff_major f).
Definition set_major (m : Z) (f : file) : file :=
  File (ff_type f) (ff_ref f) (ff_readable f) (ff_writable f) (ff_pipe f) (ff_ip f) (ff_off f) m.

Record kst (C U : Type) := Kst { k_fs : fs C U; k_file : Z -> file; k_pipe : Z -> pipe }.
Arguments Kst {C U} _ _ _.
Arguments k_fs {C U} _.
Arguments k_file {C U} _ _.
Arguments k_pipe {C U} _ _.

(** [struct devsw]: the operations take [user], an address and a length. *)
Record devops (S : Type) := DevOps {
  dev_rd : option (bool -> Z -> Z -> M S Z);
  dev_wr : option (bool -> Z -> Z -> M S Z) }.
Arguments DevOps {S} _ _.
Arguments dev_rd {S} _.
Arguments dev_wr {S} _.

(** Little-endian bytes of an integer of [n] bytes. *)
Fixpoint le_bytes (n : nat) (v : Z) : list Z :=
  match n with O => [] | S n => u8 v :: le_bytes n (v / 256) end.
(** [struct stat]; between [nlink] and [size] the compiler leaves four bytes,
    which hold what was on the stack. *)
Definition stat_bytes (pad : list Z) (st : stat) : list Z :=
  le_bytes 4 (st_dev st) ++ le_bytes 4 (st_ino st) ++ le_bytes 2 (st_type st) ++ le_bytes 2 (st_nlink st) ++
  pad ++ le_bytes 8 (st_size st).

(** [max] in [filewrite]. *)
Definition wmax : Z := (MAXOPBLOCKS - 1 - 1 - 2) / 2 * BSIZE.

Section file.
Context {C U : Type} `{BufCache C} `{UserMem U} `{PageAlloc U}.
(** The calling process, and what [killed] answers it. *)
Context (pid pt : Z) (killed : Z -> bool).
Context (devsw : Z -> devops (kst C U)) (pad : list Z).
Abbreviation K := (M (kst C U)).

Definition on_fs {A} (m : M (fs C U) A) : K A := fun s =>
  match m (k_fs s) with
  | Ret (a, f) => Ret (a, Kst f (k_file s) (k_pipe s))
  | Panic e => Panic e
  | Blocked => Blocked
  | NoFuel => NoFuel
  end.
Definition on_user {A} (m : M U A) : M (fs C U) A := fun s =>
  match m (f_user s) with
  | Ret (a, u) => Ret (a, set_user u s)
  | Panic e => Panic e
  | Blocked => Blocked
  | NoFuel => NoFuel
  end.
Definition get_file (f : Z) : K file := gets (fun s => k_file s f).
Definition mod_file (f : Z) (g : file -> file) : K unit :=
  modify (fun s => Kst (k_fs s) (upd (k_file s) f (g (k_file s f))) (k_pipe s)).
Definition set_pipe_at (pi : Z) (p : pipe) : K unit :=
  modify (fun s => Kst (k_fs s) (k_file s) (upd (k_pipe s) pi p)).
Definition kbegin_op : K unit := on_fs (on_log begin_op).
Definition kend_op : K unit := on_fs (on_log end_op).

Fixpoint filealloc_scan (k : nat) (t : Z -> file) (f : Z) : option Z :=
  match k with
  | O => None
  | S k => if ff_ref (t f) =? 0 then Some f else filealloc_scan k t (f + 1)
  end.
Definition filealloc : K (option Z) :=
  t ← gets k_file;
  match filealloc_scan (Z.to_nat NFILE) t 0 with
  | Some f => _ ← mod_file f (set_fref 1); mret (Some f)
  | None => mret None
  end.

Definition filedup (f : Z) : K Z :=
  ff ← get_file f;
  if ff_ref ff <? 1 then panic "filedup"
  else _ ← mod_file f (fun ff => set_fref (ff_ref ff + 1) ff); mret f.

(** [pipeclose] with the page that it may free. *)
Definition kpipeclose (pi : Z) (writable : bool) : K unit :=
  p ← gets (fun s => k_pipe s pi);
  let '(p, _, freed) := pipeclose writable p in
  _ ← set_pipe_at pi p;
  if freed : bool then on_fs (on_user (page_free pi)) else mret tt.

Definition fileclose (f : Z) : K unit :=
  ff ← get_file f;
  if ff_ref ff <? 1 then panic "fileclose"
  else
    _ ← mod_file f (fun ff => set_fref (ff_ref ff - 1) ff);
    if ff_ref ff - 1 >? 0 then mret tt
    else
      _ ← mod_file f (fun ff => set_ftype FD_NONE (set_fref 0 ff));
      match ff_type ff with
      | FD_PIPE => kpipeclose (ff_pipe ff) (ff_writable ff)
      | FD_INODE | FD_DEVICE => _ ← kbegin_op; _ ← on_fs (iput pid (ff_ip ff)); kend_op
      | FD_NONE => mret tt
      end.

(** [copyout] to the calling process. *)
Definition kcopy_out (va : Z) (l : list Z) : K bool := on_fs (fcopyout pt true va l).

Definition filestat (f addr : Z) : K Z :=
  ff ← get_file f;
  match ff_type ff with
  | FD_INODE | FD_DEVICE =>
      _ ← on_fs (ilock pid (ff_ip ff));
      st ← on_fs (gets (fun s => stati (f_inode s (ff_ip ff))));
      _ ← on_fs (iunlock pid (ff_ip ff));
      ok ← kcopy_out addr (stat_bytes pad st);
      mret (if ok : bool then 0 else -1)
  | _ => mret (-1)
  end.

Definition kpiperead (pi addr n : Z) : K Z := fun s =>
  match piperead (killed 0) pt addr n (k_pipe s pi) (f_user (k_fs s)) with
  | (p, u, RDone r, _) => Ret (r, Kst (set_user u (k_fs s)) (k_file s) (upd (k_pipe s) pi p))
  | (_, _, RSleep, _) => Blocked
  end.
Definition kpipewrite (pi addr n : Z) : K Z := fun s =>
  match pipewrite killed (f_user (k_fs s)) pt addr n 0 (k_pipe s pi) with
  | (p, WDone r, _) => Ret (r, Kst (k_fs s) (k_file s) (upd (k_pipe s) pi p))
  | (_, WSleep _, _) => Blocked
  end.

Definition fileread (f addr n : Z) : K Z :=
  ff ← get_file f;
  if negb (ff_readable ff) then mret (-1)
  else match ff_type ff with
  | FD_PIPE => kpiperead (ff_pipe ff) addr n
  | FD_DEVICE =>
      if (ff_major ff <? 0) || (ff_major ff >=? NDEV) then mret (-1)
      else match dev_rd (devsw (ff_major ff)) with
           | None => mret (-1)
           | Some rd => rd true addr n
           end
  | FD_INODE =>
      _ ← on_fs (ilock pid (ff_ip ff));
      r ← on_fs (readi pt (ff_ip ff) true addr (ff_off ff) (u32 n));
      _ ← (if r >? 0 then mod_file f (fun ff => set_off (u32 (ff_off ff + r)) ff) else mret tt);
      _ ← on_fs (iunlock pid (ff_ip ff));
      mret r
  | FD_NONE => panic "fileread"
  end.

(** One transaction of [filewrite]. *)
Definition filewrite_one (f addr n1 : Z) : K Z :=
  _ ← kbegin_op;
  ff ← get_file f;
  _ ← on_fs (ilock pid (ff_ip ff));
  r ← on_fs (writei pt (ff_ip ff) true addr (ff_off ff) n1);
  _ ← (if r >? 0 then mod_file f (fun ff => set_off (u32 (ff_off ff + r)) ff) else mret tt);
  _ ← on_fs (iunlock pid (ff_ip ff));
  _ ← kend_op;
  mret r.
Fixpoint filewrite_loop (rounds : nat) (f addr n i : Z) : K Z :=
  if i <? n then
    match rounds with
    | O => nofuel
    | S rounds =>
        let n1 := if n - i >? wmax then wmax else n - i in
        r ← filewrite_one f (addr + i) n1;
        if negb (r =? n1) then mret i else filewrite_loop rounds f addr n (i + r)
    end
  else mret i.
(** A round moves [wmax] bytes or is the last one. *)
Definition filewrite (f addr n : Z) : K Z :=
  ff ← get_file f;
  if negb (ff_writable ff) then mret (-1)
  else match ff_type ff with
  | FD_PIPE => kpipewrite (ff_pipe ff) addr n
  | FD_DEVICE =>
      if (ff_major ff <? 0) || (ff_major ff >=? NDEV) then mret (-1)
      else match dev_wr (devsw (ff_major ff)) with
           | None => mret (-1)
           | Some wr => wr true addr n
           end
  | FD_INODE =>
      i ← filewrite_loop (Z.to_nat (n / wmax + 1)) f addr n 0;
      mret (if i =? n then n else -1)
  | FD_NONE => panic "filewrite"
  end.

(** ** [pipealloc] *)
Definition pipealloc_bad (pi : Z) (f0 f1 : option Z) : K (option (Z * Z)) :=
  _ ← (if negb (pi =? 0) then on_fs (on_user (page_free pi)) else mret tt);
  _ ← match f0 with Some f => fileclose f | None => mret tt end;
  _ ← match f1 with Some f => fileclose f | None => mret tt end;
  mret None.
(** The read end and the write end, or [None] for -1. *)
Definition pipealloc : K (option (Z * Z)) :=
  f0 ← filealloc;
  match f0 with
  | None => pipealloc_bad 0 None None
  | Some f0 =>
      f1 ← filealloc;
      match f1 with
      | None => pipealloc_bad 0 (Some f0) None
      | Some f1 =>
          pi ← on_fs (on_user page_alloc);
          if pi =? 0 then pipealloc_bad 0 (Some f0) (Some f1)
          else
            _ ← modify (fun s => Kst (k_fs s) (k_file s) (upd (k_pipe s) pi (pipe_init (p_data (k_pipe s pi)))));
            _ ← mod_file f0 (fun f => set_pipe pi (set_modes true false (set_ftype FD_PIPE f)));
            _ ← mod_file f1 (fun f => set_pipe pi (set_modes false true (set_ftype FD_PIPE f)));
            mret (Some (f0, f1))
      end
  end.
End file.
