(* ===== verification/FileSpec.v ===== *)
(** What writing to an open file promises (kernel/file.c): the bytes reach the
    file in transactions that are atomic with respect to crashes. *)
From S2P Require Import Prelude Riscv Memory Locks Blocks Bio Log Stack UserMem Pipe Fs Tx FsBlocks FsFile FsIo FsSpec File.

(** * Views that agree on the contents of the blocks *)
Definition view_eq (g : log) (V V' : Z -> mem) : Prop := forall b, home g b -> blk_eq (V b) (V' b).

Lemma ld_blk_eq n d d' a : blk_eq d d' -> 0 <= a -> a + Z.of_nat n <= BSIZE -> ld n d a = ld n d' a.
Proof. intros E H0 H1. apply ld_ext. intros i Hi. apply E. lia. Qed.

Section views.
Context (sb : superblock) (g : log) (LY : layout sb g) (V V' : Z -> mem) (E : view_eq g V V').

Lemma used_view b : 0 <= b < fs_limit sb -> used sb V' b = used sb V b.
Proof using LY E.
  intros Hb. unfold used, bit. rewrite (E _ (bm_home _ _ LY)); [done|].
  pose proof (fs_limit_le sb). change SWAPBASE with 2000 in *. change BSIZE with 1024. zdiv.
Qed.
Lemma meta_view : meta_used sb V -> meta_used sb V'.
Proof using LY E. intros Hm b Hb. rewrite used_view; [by apply Hm|]. destruct LY as [_ _ _ _ H5]. lia. Qed.
Lemma blk_view d k : inode_ok sb V d -> 0 <= k < MAXFILE -> blk V' d k = blk V d k.
Proof using LY E.
  intros O Hk. unfold blk. destruct (Z.ltb_spec k NDIRECT); [done|]. destruct (Z.eqb_spec (ind d) 0) as [|H0]; [done|].
  symmetry. apply ld_blk_eq; [|fsz|fsz]. apply E, (data_home _ _ LY). by apply (io_ind _ _ _ O).
Qed.
Lemma data_used b : data_block sb b -> used sb V b = true -> used sb V' b = true.
Proof using LY E.
  intros Hd Hu. rewrite used_view; [done|]. pose proof (bm_range _ _ LY). destruct Hd. lia.
Qed.
Lemma inode_ok_view d : inode_ok sb V d -> inode_ok sb V' d.
Proof using LY E.
  intros O. pose proof O as [OD OI OJ OS]. split.
  - intros k Hk. rewrite (blk_view d k) by done. intros H0. destruct (OD k Hk H0). split; [done|]. by apply data_used.
  - intros H0. destruct (OI H0). split; [done|]. by apply data_used.
  - intros k k' Hk Hk'. rewrite !blk_view by done. by apply OJ.
  - intros k Hk. rewrite blk_view by done. by apply OS.
Qed.
Lemma fbyte_view d i : inode_ok sb V d -> 0 <= i < MAXFILE * BSIZE -> fbyte V' d i = fbyte V d i.
Proof using LY E.
  intros O Hi. destruct (block_offset i Hi) as [Hq Ho]. unfold fbyte. rewrite blk_view by done.
  destruct (Z.eqb_spec (blk V d (i / BSIZE)) 0) as [|H0]; [done|]. symmetry. apply E; [|done].
  apply (data_home _ _ LY). by apply (io_data _ _ _ O).
Qed.
Lemma dense_view d : inode_ok sb V d -> dense V d -> dense V' d.
Proof using LY E.
  intros O [Hs De]. split; [done|]. intros k Hk Hl. rewrite blk_view; [by apply De|done|]. fsz.
Qed.
End views.

Lemma layout_place sb g g' : same_place g' g -> layout sb g -> layout sb g'.
Proof. intros (E1 & E2 & _) [? ? ? ? ?]. split; congruence. Qed.
Lemma layout_ops sb n c g : layout sb g -> layout sb (set_ops n c g).
Proof. by intros [? ? ? ? ?]. Qed.

(** * One transaction of [filewrite] *)
Section filewrite.
Context {C U : Type} `{HL : BufCacheLaws C} `{UM : UserMem U} `{PA : PageAlloc U}.
Context (pid pt : Z).
Context (sb : superblock).

(** Inode [ip] is unlocked, referenced and read from the disk. *)
Record inode_ready (i : inode) : Prop := {
  ir_dev : i_dev i = ROOTDEV;
  ir_inum : 0 <= i_inum i < sb_ninodes sb;
  ir_ref : 1 <= i_ref i;
  ir_lock : sl_locked (i_lock i) = false;
  ir_valid : i_valid i = true }.

(** An open regular file [f] at rest: no operation is running, and the disk
    holds the file with inode contents [d]. *)
Record file_ready (s : kst C U) (f : Z) (a : astate) (d : dinode) : Prop := {
  fr_cache : bc_rel (ls_cache (f_ls (k_fs s))) a;
  fr_idle : idle (ls_log (f_ls (k_fs s))) a;
  fr_log : l_size (ls_log (f_ls (k_fs s))) = LOGSIZE;
  fr_layout : layout sb (ls_log (f_ls (k_fs s)));
  fr_sb : f_sb (k_fs s) = sb;
  fr_inode : inode_ready (f_inode (k_fs s) (ff_ip (k_file s f)));
  fr_d : i_d (f_inode (k_fs s) (ff_ip (k_file s f))) = d;
  fr_wf : dinode_wf d;
  fr_meta : meta_used sb (a_view a);
  fr_ok : inode_ok sb (a_view a) d;
  fr_dense : dense (a_view a) d;
  fr_off : 0 <= ff_off (k_file s f) <= d_size d }.

Lemma wp_on_fs {A} (m : M (fs C U) A) (s : kst C U) (Q : A -> kst C U -> Prop) :
  wp m (k_fs s) (fun a f => Q a (Kst f (k_file s) (k_pipe s))) -> wp (on_fs m) s Q.
Proof. intros (a & f & E & HQ). exists a, (Kst f (k_file s) (k_pipe s)). unfold on_fs. by rewrite E. Qed.

(** [ilock] and [iunlock] of an inode that is in memory and free. *)
Lemma wp_ilock_valid (s : fs C U) ip Q :
  inode_ready (f_inode s ip) ->
  (forall s', f_ls s' = f_ls s -> f_sb s' = f_sb s -> f_user s' = f_user s ->
     (forall j, f_inode s' j = if j =? ip then set_ilock (Sleeplock true pid) (f_inode s ip) else f_inode s j) -> Q tt s') ->
  wp (ilock pid ip) s Q.
Proof.
  intros [Hd Hi Hr Hl Hv] HQ. unfold ilock. apply wp_bind, wp_gets. rewrite (proj2 (Z.ltb_ge _ _)) by lia.
  apply wp_bind. eexists tt, _. split; [unfold acquire_ilock, acquiresleep; rewrite Hl; reflexivity|].
  apply wp_bind, wp_gets. cbn [f_inode]. rewrite upd_eq. cbn [i_valid set_ilock]. rewrite Hv. cbn [negb].
  apply wp_ret. apply HQ; done.
Qed.
Lemma wp_iunlock (s : fs C U) ip i Q :
  f_inode s ip = set_ilock (Sleeplock true pid) i -> 1 <= i_ref i ->
  Q tt (Fs (f_ls s) (f_sb s) (upd (f_inode s) ip (set_ilock (Sleeplock false 0) i)) (f_user s)) ->
  wp (iunlock pid ip) s Q.
Proof.
  intros Ei Hr HQ. unfold iunlock. apply wp_bind, wp_gets. rewrite Ei. unfold holdingsleep. cbn.
  rewrite Z.eqb_refl, (proj2 (Z.ltb_ge _ _)) by lia. cbn. unfold release_ilock. apply wp_modify. by rewrite Ei.
Qed.
Lemma crash_safe_blk g d v v' W :
  (forall b, home g b -> blk_eq (v b) (v' b)) -> crash_safe g d v W -> crash_safe g d v' W.
Proof.
  intros Hv Hc k c0 g0 R0 SP. eapply wp_mono; [by apply (Hc k c0 g0)|].
  intros _ s (a1 & R1 & Hh & [?|Hn]); exists a1; split_and!; try done; [by left|right].
  intros b Hb. by rewrite Hn, Hv.
Qed.

(** The effect of writing [data] at the file's offset: [tot] bytes are in the
    file and on the disk, and the disk moved there atomically. *)
Record wrote_one (s : kst C U) (f : Z) (a : astate) (d : dinode) (data : list Z)
    (tot : Z) (s' : kst C U) (a' : astate) (d' : dinode) : Prop := {
  wo_tot : 0 <= tot <= lenZ data;
  wo_full : tot < lenZ data -> full sb (a_view a');
  wo_ready : file_ready s' f a' d';
  wo_size : d_size d' = Z.max (d_size d) (ff_off (k_file s f) + tot);
  wo_off : ff_off (k_file s' f) = ff_off (k_file s f) + tot;
  wo_bytes i : 0 <= i < MAXFILE * BSIZE ->
    fbyte (a_view a') d' i = splice (fbyte (a_view a) d) (ff_off (k_file s f)) (take (Z.to_nat tot) data) i;
  wo_user : f_user (k_fs s') = f_user (k_fs s);
  wo_place : same_place (ls_log (f_ls (k_fs s'))) (ls_log (f_ls (k_fs s)));
  wo_file : ff_ip (k_file s' f) = ff_ip (k_file s f) /\ ff_type (k_file s' f) = ff_type (k_file s f) /\
            ff_writable (k_file s' f) = ff_writable (k_file s f);
  wo_others b : data_block sb b -> used sb (a_view a) b = true -> b <> ind d ->
    (forall k, 0 <= k < MAXFILE -> blk (a_view a) d k <> b) -> blk_eq (a_disk a' b) (a_disk a b);
  wo_crash : exists W, a_writes a' = a_writes a ++ W /\
    crash_safe (ls_log (f_ls (k_fs s))) (a_disk a) (a_disk a') W }.

Lemma wmax_fits off n1 : 0 <= off -> 0 <= n1 <= wmax -> cdiv (off + n1) - off / BSIZE + 7 < LOGSIZE.
Proof.
  intros Ho Hn. unfold cdiv. change wmax with 3072 in *. change BSIZE with 1024. change LOGSIZE with 30. zdiv.
Qed.

(** [end_op] and the facts about the disk it leaves. *)
Lemma end_wrote s f a d off data (s2 s3 : fs C U) V' X' d' tot :
  file_ready s f a d -> off = ff_off (k_file s f) ->
  let g := ls_log (f_ls (k_fs s)) in let ip := ff_ip (k_file s f) in
  wrote (base_of g a) sb s2 (a_view a) ∅ ip d off data s3 V' X' d' tot ->
  i_inum (f_inode s2 ip) = i_inum (f_inode (k_fs s) ip) ->
  exists l' W a', end_op (f_ls s3) = Ret (tt, l') /\ bc_rel (ls_cache l') a' /\ idle (ls_log l') a' /\
    same_place (ls_log l') g /\ a_writes a' = a_writes a ++ W /\ crash_safe g (a_disk a) (a_disk a') W /\
    view_eq g V' (a_view a') /\
    (forall b, data_block sb b -> used sb (a_view a) b = true -> b <> ind d ->
       (forall k, 0 <= k < MAXFILE -> blk (a_view a) d k <> b) -> blk_eq (a_disk a' b) (a_disk a b)).
Proof.
  intros FR -> g ip W Ein. pose proof (fr_layout _ _ _ _ FR) as LY. fold g in LY.
  destruct (tx_end a g (f_ls s3) V' X' (fr_idle _ _ _ _ FR)) as (l' & Wr & a' & E & R & I & SP & Ew & Hv & Hcs).
  { apply (wt_file _ _ _ _ _ _ _ _ _ _ _ _ _ _ W). }
  pose proof (idle_clean _ _ _ R I) as Hcl.
  exists l', Wr, a'. split_and!; try done.
  - eapply crash_safe_blk; [|exact Hcs]. intros b Hb. by rewrite Hv.
  - intros b Hb. by rewrite Hcl, Hv.
  - intros b Hb Hu Hi Hk. pose proof (data_home _ _ LY b Hb) as Hh. rewrite Hv by done.
    rewrite (wt_frame _ _ _ _ _ _ _ _ _ _ _ _ _ _ W); try done.
    + by rewrite (idle_clean _ _ _ (fr_cache _ _ _ _ FR) (fr_idle _ _ _ _ FR)).
    + destruct (data_block_pos _ _ _ LY Hb). done.
    + unfold ib. rewrite Ein. pose proof (ir_inum _ (fr_inode _ _ _ _ FR)) as Hin.
      pose proof (inode_block_range _ _ LY _ (IBLOCK_inode sb _ Hin)) as Hib. pose proof (bm_range _ _ LY).
      fold ip in Hib. destruct Hb. lia.
Qed.

(** The state after the transaction, from what [writei] and [end_op] did. *)
Lemma wrote_one_intro s f a d data tot (s2 s3 : fs C U) V' X' d' s' a' :
  let g := ls_log (f_ls (k_fs s)) in let ff := k_file s f in let ip := ff_ip ff in
  file_ready s f a d -> wrote (base_of g a) sb s2 (a_view a) ∅ ip d (ff_off ff) data s3 V' X' d' tot ->
  i_inum (f_inode s2 ip) = i_inum (f_inode (k_fs s) ip) ->
  end_op (f_ls s3) = Ret (tt, f_ls (k_fs s')) ->
  bc_rel (ls_cache (f_ls (k_fs s'))) a' -> idle (ls_log (f_ls (k_fs s'))) a' -> same_place (ls_log (f_ls (k_fs s'))) g ->
  (exists W, a_writes a' = a_writes a ++ W /\ crash_safe g (a_disk a) (a_disk a') W) -> view_eq g V' (a_view a') ->
  (forall b, data_block sb b -> used sb (a_view a) b = true -> b <> ind d ->
     (forall k, 0 <= k < MAXFILE -> blk (a_view a) d k <> b) -> blk_eq (a_disk a' b) (a_disk a b)) ->
  k_file s' f = (if tot >? 0 then set_off (ff_off ff + tot) ff else ff) ->
  f_sb (k_fs s') = sb -> f_user (k_fs s') = f_user (k_fs s) ->
  f_inode (k_fs s') ip = set_ilock (Sleeplock false 0) (set_d d' (f_inode (k_fs s) ip)) ->
  wrote_one s f a d data tot s' a' d'.
Proof.
  intros g ff ip FR W Ein Ee R I SP Hcs Hv Hfr Ef Esb Eu Ei. pose proof (fr_layout _ _ _ _ FR) as LY. fold g in LY.
  pose proof (wt_file _ _ _ _ _ _ _ _ _ _ _ _ _ _ W) as FA. pose proof (fa_ok _ _ _ _ _ _ _ FA) as O.
  pose proof (wt_tot _ _ _ _ _ _ _ _ _ _ _ _ _ _ W) as Htot. pose proof (wt_size _ _ _ _ _ _ _ _ _ _ _ _ _ _ W) as Hsz.
  assert (ff_off (k_file s' f) = ff_off ff + tot /\ ff_ip (k_file s' f) = ip /\
    ff_type (k_file s' f) = ff_type ff /\ ff_writable (k_file s' f) = ff_writable ff) as (Eo & Eip & Et & Ewr).
  { rewrite Ef. rewrite Z.gtb_ltb. destruct (Z.ltb_spec 0 tot); cbn; split_and!; try done. unfold ff. lia. }
  pose proof (fr_off _ _ _ _ FR) as Hoff. fold ff in Hoff.
  split; try done.
  - intros Hlt b Hb. rewrite (used_view sb g LY V') by done. by apply (wt_full _ _ _ _ _ _ _ _ _ _ _ _ _ _ W).
  - split; try done; rewrite ?Eip, ?Ei.
    + destruct SP as (_ & -> & _). apply FR.
    + by eapply layout_place.
    + destruct (fr_inode _ _ _ _ FR) as [? ? ? ? ?]. split; done.
    + done.
    + apply (wt_wf _ _ _ _ _ _ _ _ _ _ _ _ _ _ W).
    + apply (meta_view sb g LY V'); [done|apply FA].
    + by apply (inode_ok_view sb g LY V').
    + apply (dense_view sb g LY V'); [done|done|apply W].
    + rewrite Eo, Hsz. lia.
  - intros i Hi. rewrite (fbyte_view sb g LY V') by done. by apply (wt_bytes _ _ _ _ _ _ _ _ _ _ _ _ _ _ W).
Qed.

Lemma filewrite_one_wp s f a d addr n1 :
  let data := src_bytes (f_user (k_fs s)) pt true addr n1 in
  file_ready s f a d -> 0 < n1 <= wmax -> ff_off (k_file s f) + n1 <= MAXFILE * BSIZE -> lenZ data = n1 ->
  wp (filewrite_one pid pt f addr n1) s (fun tot s' => exists a' d', wrote_one s f a d data tot s' a' d').
Proof.
  intros data FR Hn Hmax Hd. pose proof FR as [R I Hls LY Hsb IR Hdd Wf Hm O De Hoff].
  set (ff := k_file s f) in *. set (ip := ff_ip ff) in *. set (off := ff_off ff) in *.
  destruct (k_fs s) as [[c g] sb' ti u] eqn:Ek. cbn [f_ls f_sb f_inode f_user ls_cache ls_log] in *. subst sb'.
  destruct (tx_begin c a g R I) as (l & Eb & T & OP). pose proof (layout_ops sb 1 false g LY) as LYB.
  unfold filewrite_one. apply wp_bind. unfold kbegin_op. apply wp_on_fs. rewrite Ek. apply wp_on_log. cbn [f_ls].
  exists tt, l. split; [done|]. apply wp_bind, wp_gets. cbn [k_file]. fold ff.
  apply wp_bind, wp_on_fs. cbn [k_fs]. apply wp_ilock_valid; [exact IR|].
  intros s2 El2 Es2 Eu2 Ei2. cbn in El2, Es2, Eu2, Ei2. fold ip in Ei2.
  assert (f_inode s2 ip = set_ilock (Sleeplock true pid) (ti ip)) as Eip by (rewrite Ei2, Z.eqb_refl; done).
  apply wp_bind, wp_on_fs. cbn [k_fs k_file k_pipe]. fold ip off.
  eapply wp_mono.
  { apply (writei_wp (base_of g a) sb LYB OP pt s2 (a_view a) ∅ ip d true addr off n1); try done; try lia.
    - split; try done; [by rewrite El2|by rewrite Eip|rewrite Eip; apply IR].
    - rewrite Eip. apply IR.
    - rewrite Eu2. done.
    - unfold spare. rewrite size_empty. cbn [t_log base_of set_ops l_size]. rewrite Hls.
      pose proof (wmax_fits off n1 ltac:(lia) ltac:(lia)). lia. }
  intros tot s3 (V' & X' & d' & W). rewrite Eu2 in W. fold data in W.
  pose proof (wt_with _ _ _ _ _ _ _ _ _ _ _ _ _ _ W) as WD. pose proof (with_d_at _ _ _ _ WD) as Ei3. rewrite Eip in Ei3.
  pose proof (wt_tot _ _ _ _ _ _ _ _ _ _ _ _ _ _ W) as Htot.
  assert (off + tot < 2 ^ 32) as Hov by (assert (MAXFILE * BSIZE < 2 ^ 32) by done; lia).
  set (ff' := if tot >? 0 then set_off (off + tot) ff else ff).
  apply wp_bind. eapply (wp_mono _ _ (fun _ s4 => k_fs s4 = s3 /\ forall j, k_file s4 j = if j =? f then ff' else k_file s j)).
  { destruct (tot >? 0) eqn:Et; [apply wp_modify|apply wp_ret]; cbn [k_fs k_file]; (split; [done|]); intros j; unfold ff'.
    - fold ff off. rewrite u32_small by lia. unfold upd. by destruct (j =? f).
    - by destruct (Z.eqb_spec j f) as [->|]. }
  intros [] s4 [Ek4 Ef4]. apply wp_bind, wp_on_fs. rewrite Ek4.
  eapply (wp_iunlock s3 ip (set_d d' (ti ip))); [by rewrite Ei3|apply IR|].
  destruct (end_wrote s f a d off data s2 s3 V' X' d' tot) as (l' & Wr & a' & Ee & R' & I' & SP & Ew & Hcs & Hv & Hfr).
  { exact FR. } { done. } { rewrite Ek. exact W. } { fold ff ip. rewrite Eip, Ek. done. }
  rewrite Ek in SP, Hcs, Hv. cbn [f_ls ls_log] in SP, Hcs, Hv.
  apply wp_bind. unfold kend_op. apply wp_on_fs, wp_on_log. cbn [k_fs f_ls]. exists tt, l'. split; [exact Ee|].
  apply wp_ret. exists a', d'. eapply (wrote_one_intro s f a d data tot s2 s3 V' X'); rewrite ?Ek; cbn [k_fs k_file f_ls f_sb f_user f_inode put_ls]; try done.
  - fold ff ip. rewrite Eip. done.
  - exists Wr. done.
  - rewrite Ef4, Z.eqb_refl. done.
  - rewrite (wd_sb _ _ _ _ WD), Es2. done.
  - rewrite (wd_user _ _ _ _ WD), Eu2. done.
  - by rewrite upd_eq.
Qed.

Lemma filewrite_loop_ok f addr n rounds : forall s a d i,
  let data := src_bytes (f_user (k_fs s)) pt true (addr + i) (n - i) in let off := ff_off (k_file s f) in
  file_ready s f a d -> 0 <= i <= n -> off + (n - i) <= MAXFILE * BSIZE -> lenZ data = n - i ->
  n - i <= Z.of_nat rounds * wmax ->
  wp (filewrite_loop pid pt rounds f addr n i) s (fun r s' => exists a' d' w,
    file_ready s' f a' d' /\ 0 <= w <= n - i /\ (if w =? n - i then r = n else r < n /\ full sb (a_view a')) /\
    d_size d' = Z.max (d_size d) (off + w) /\ ff_off (k_file s' f) = off + w /\
    (forall x, 0 <= x < MAXFILE * BSIZE ->
       fbyte (a_view a') d' x = splice (fbyte (a_view a) d) off (take (Z.to_nat w) data) x)).
Proof.
  induction rounds as [|rounds IH]; intros s a d i data off FR Hi Hmax Hd Hr; cbn [filewrite_loop];
    destruct (Z.ltb_spec i n) as [Hlt|Hge].
  2,4: apply wp_ret; exists a, d, 0; replace (n - i) with 0 by lia; cbn [Z.eqb]; split_and!; try done; try lia;
    [pose proof (fr_off _ _ _ _ FR); unfold off; lia|intros x _; cbn; symmetry; apply splice_nil].
  { lia. }
  assert ((if n - i >? wmax then wmax else n - i) = Z.min (n - i) wmax) as -> by (rewrite Z.gtb_ltb; bools).
  set (n1 := Z.min _ _). assert (0 < wmax) as Hw0 by done.
  destruct (src_bytes_split (f_user (k_fs s)) pt true (addr + i) (n - i) n1) as (Ed & El1 & El2); [lia|done|].
  apply wp_bind. eapply wp_mono; [apply (filewrite_one_wp s f a d (addr + i) n1 FR); fold off; (done || lia)|].
  set (data1 := src_bytes _ _ _ _ n1) in *. intros tot s1 (a1 & d1 & W).
  pose proof (wo_tot _ _ _ _ _ _ _ _ _ W) as Ht. rewrite El1 in Ht. pose proof (wo_off _ _ _ _ _ _ _ _ _ W) as Eo.
  pose proof (wo_size _ _ _ _ _ _ _ _ _ W) as Hsz. fold off in Eo, Hsz.
  destruct (Z.eqb_spec tot n1) as [->|Hne]; cbn [negb].
  - eapply wp_mono.
    { apply (IH s1 a1 d1 (i + n1)); rewrite ?Eo, ?(wo_user _ _ _ _ _ _ _ _ _ W).
      - apply W. - lia. - lia.
      - rewrite Z.add_assoc, Z.sub_add_distr. exact El2.
      - lia. }
    intros r s' (a' & d' & w & FR' & Hw & Hres & Hs' & Eo' & Hb'). exists a', d', (n1 + w). split; [done|]. split; [lia|].
    rewrite Eo in *. split_and!; [|lia|lia|].
    + destruct (Z.eqb_spec w (n - (i + n1))); destruct (Z.eqb_spec (n1 + w) (n - i)); (done || lia).
    + intros x Hx. rewrite Hb' by done. rewrite (wo_user _ _ _ _ _ _ _ _ _ W), Z.add_assoc, Z.sub_add_distr.
      unfold data. rewrite Ed. replace (Z.to_nat (n1 + w)) with (length data1 + Z.to_nat w)%nat by lia.
      rewrite take_app_add, <- splice_app, El1. apply splice_ext.
      rewrite (wo_bytes _ _ _ _ _ _ _ _ _ W) by done. rewrite take_ge by lia. done.
  - apply wp_ret. exists a1, d1, tot. split; [apply W|]. split; [lia|].
    rewrite (proj2 (Z.eqb_neq tot (n - i))) by lia. split_and!; try lia.
    + apply (wo_full _ _ _ _ _ _ _ _ _ W). lia.
    + intros x Hx. rewrite (wo_bytes _ _ _ _ _ _ _ _ _ W) by done. unfold data. rewrite Ed. fold off data1.
      rewrite take_app_le by lia. done.
Qed.


(** [filewrite] on a regular file that is open for writing, with a
    readable source and within the size limit of files: it returns [n] with all
    the bytes in the file and the offset advanced by [n], or -1 with a prefix
    of them written, and the latter only when the disk is full. *)
Theorem filewrite_writes killed (devsw : Z -> devops (kst C U)) s f a d addr n :
  let data := src_bytes (f_user (k_fs s)) pt true addr n in let off := ff_off (k_file s f) in
  file_ready s f a d -> ff_writable (k_file s f) = true -> ff_type (k_file s f) = FD_INODE -> 0 <= n ->
  off + n <= MAXFILE * BSIZE -> lenZ data = n ->
  exists r s' a' d' w, filewrite pid pt killed devsw f addr n s = Ret (r, s') /\ file_ready s' f a' d' /\
    (w = n /\ r = n \/ 0 <= w < n /\ r = -1 /\ full sb (a_view a')) /\
    d_size d' = Z.max (d_size d) (off + w) /\ ff_off (k_file s' f) = off + w /\
    (forall x, 0 <= x < MAXFILE * BSIZE ->
       fbyte (a_view a') d' x = splice (fbyte (a_view a) d) off (take (Z.to_nat w) data) x).
Proof.
  intros data off FR Hwr Hty Hn Hmax Hd.
  assert (wp (filewrite pid pt killed devsw f addr n) s (fun r s' => exists a' d' w, file_ready s' f a' d' /\
    (w = n /\ r = n \/ 0 <= w < n /\ r = -1 /\ full sb (a_view a')) /\
    d_size d' = Z.max (d_size d) (off + w) /\ ff_off (k_file s' f) = off + w /\
    (forall x, 0 <= x < MAXFILE * BSIZE ->
       fbyte (a_view a') d' x = splice (fbyte (a_view a) d) off (take (Z.to_nat w) data) x)))
    as (r & s' & E & a' & d' & w & H'); [|by exists r, s', a', d', w].
  unfold filewrite. apply wp_bind, wp_gets. rewrite Hwr, Hty. cbn [negb]. apply wp_bind. eapply wp_mono.
  { apply (filewrite_loop_ok f addr n _ s a d 0); rewrite ?Z.sub_0_r, ?Z.add_0_r; try done.
    change wmax with 3072. pose proof (Z.div_pos n 3072). rewrite Z2Nat.id by lia. zdiv. }
  rewrite Z.sub_0_r, Z.add_0_r. fold data off.
  intros i s' (a' & d' & w & FR' & Hw & Hres & Hrest). apply wp_ret. exists a', d', w. split; [done|]. split; [|done].
  destruct (Z.eqb_spec w n) as [->|]; [left|right; split; [lia|]].
  - by rewrite Hres, Z.eqb_refl.
  - destruct Hres as [? ?]. rewrite (proj2 (Z.eqb_neq i n)) by lia. done.
Qed.
End filewrite.
