(* ===== verification/FsExample.v ===== *)
(** A file system as mkfs lays it out, with one empty file and an
    empty directory: the hypotheses
    of the theorems of FsSpec.v and FileSpec.v hold of it. *)
From S2P Require Import Prelude Riscv Memory Locks Blocks Bio Log Stack UserMem Pipe Fs Tx FsBlocks FsFile FsIo FsDir FsSpec File FileSpec.

(** 200 inodes in 13 blocks, a bitmap of 4 blocks: the data starts at block 49. *)
Definition sb0 : superblock := SB FSMAGIC FSSIZE (2000 - 49) 200 LOGSIZE 2 32 45.
Definition disk0 : Z -> mem := fun b i =>
  if b =? 45 then if i <? 6 then 255 else if i =? 6 then 1 else 0 else 0.
Definition file0 : dinode := Dinode T_FILE 0 0 1 0 (fun _ => 0).
Definition dir0 : dinode := Dinode T_DIR 0 0 1 0 (fun _ => 0).
Definition itable0 : Z -> inode := fun i =>
  if i =? 0 then Inode ROOTDEV 5 1 initsleeplock true file0
  else if i =? 1 then Inode ROOTDEV 1 1 initsleeplock true dir0
  else Inode 0 0 0 initsleeplock false file0.
Definition user0 : flat := Flat 5000 (fun a => a).
Definition ftable0 : Z -> file := fun f =>
  if f =? 3 then File FD_INODE 1 true true 0 0 0 0 else File FD_NONE 0 false false 0 0 0 0.

Lemma forall_range (P : Z -> bool) n :
  forallb P (seqZ 0 n) = true -> forall b, 0 <= b < n -> P b = true.
Proof. intros Hf b Hb. rewrite forallb_forall in Hf. apply Hf, list_elem_of_In, elem_of_seqZ. lia. Qed.

Lemma layout0 : layout sb0 log0.
Proof. split; vm_compute; intuition discriminate. Qed.
Lemma meta0 : meta_used sb0 disk0.
Proof.
  intros b. change (data_start sb0) with 49. revert b. apply (forall_range (used sb0 disk0)). by vm_compute.
Qed.
Lemma free0 : used sb0 disk0 49 = false.
Proof. by vm_compute. Qed.
Lemma not_full0 : ~ full sb0 disk0.
Proof.
  intros HF. assert (used sb0 disk0 49 = true) as E.
  { apply HF. change (fs_limit sb0) with 2000. lia. }
  by rewrite free0 in E.
Qed.
Lemma blk0 V k : blk V file0 k = 0.
Proof. unfold blk. by destruct (k <? NDIRECT). Qed.
Lemma inode_ok0 V : inode_ok sb0 V file0.
Proof.
  split.
  - intros k _ H0. by rewrite blk0 in H0.
  - done.
  - intros k k' _ _ H0. by rewrite blk0 in H0.
  - done.
Qed.
Lemma dense0 V : dense V file0.
Proof. split; [by vm_compute|]. intros k Hk Hl. cbn in Hl. change BSIZE with 1024 in Hl. lia. Qed.
Lemma wf0 : dinode_wf file0.
Proof. split; unfold short; [vm_compute; intuition discriminate..|]. intros k _. cbn. lia. Qed.
Lemma idle0 : idle log0 (a_init disk0).
Proof.
  split; [apply geom_log0| |done|done|apply quiet_init|].
  - apply (logged_nil log0). by vm_compute.
  - split; [by vm_compute|done].
Qed.

Abbreviation bfs := (fs bcache flat).
#[local] Existing Instance flat_mem.
Definition bt0 : txbase := base_of log0 (a_init disk0).
Lemma layout_bt0 : layout sb0 (t_log bt0).
Proof. exact (layout_ops sb0 1 false log0 layout0). Qed.

(** The file system with a transaction open. *)
Lemma open0 : exists (s : bfs), @tx _ _ (bio_cache_laws 1) bt0 (f_ls s) disk0 ∅ ∅ /\ in_op bt0 /\
  f_sb s = sb0 /\ f_inode s = itable0 /\ f_user s = user0.
Proof.
  destruct (binit_ok 1 disk0) as (c & Ec & R).
  destruct (@tx_begin _ _ (bio_cache_laws 1) c (a_init disk0) log0 R idle0) as (l & _ & T & OP).
  exists (Fs l sb0 itable0 user0). split_and!; try done; apply OP.
Qed.
Lemma file_at0 (s : bfs) :
  @tx _ _ (bio_cache_laws 1) bt0 (f_ls s) disk0 ∅ ∅ -> f_sb s = sb0 -> f_inode s = itable0 ->
  @file_at _ _ _ (bio_cache_laws 1) bt0 sb0 s disk0 ∅ 0 file0.
Proof. intros T Es Ei. split; [done|done|apply meta0|by rewrite Ei|by rewrite Ei|apply inode_ok0]. Qed.

Lemma balloc_ok_witness :
  exists (s : bfs) r s', @balloc _ _ (bio_cache 1) ROOTDEV s = Ret (r, s') /\ (r = 0 \/ 49 <= r < 2000).
Proof.
  destruct open0 as (s & T & OP & Es & Ei & Eu).
  destruct (@balloc_ok _ _ _ (bio_cache_laws 1) bt0 sb0 layout_bt0 OP s disk0 ∅ T Es meta0)
    as (r & s' & V' & X' & E & _ & _ & _ & Hr); [by vm_compute|].
  exists s, r, s'. split; [exact E|]. destruct Hr as [(-> & _)|(Hr & _)]; [by left|right; exact Hr].
Defined.

Lemma balloc_bfree_witness :
  exists (s : bfs) r s', (r ← @balloc _ _ (bio_cache 1) ROOTDEV; _ ← @bfree _ _ (bio_cache 1) ROOTDEV r; mret r) s = Ret (r, s').
Proof.
  destruct open0 as (s & T & OP & Es & Ei & Eu).
  destruct (@balloc_bfree _ _ _ (bio_cache_laws 1) bt0 sb0 layout_bt0 OP s disk0 ∅ T Es meta0)
    as (r & s' & V' & X' & E & _); [by vm_compute|apply not_full0|].
  exists s, r, s'. exact E.
Defined.

(** ** The directory *)
Lemma itable_ok0 : itable_ok itable0.
Proof.
  split.
  - intros ip _. unfold itable0. destruct (ip =? 0), (ip =? 1); cbn; lia.
  - intros i j _ _. unfold itable0.
    destruct (Z.eqb_spec i 0), (Z.eqb_spec i 1), (Z.eqb_spec j 0), (Z.eqb_spec j 1); cbn; (lia || discriminate).
Qed.
Lemma inode_ok_dir0 V : inode_ok sb0 V dir0.
Proof.
  assert (forall k, blk V dir0 k = 0) as E by (intros k; unfold blk; by destruct (k <? NDIRECT)).
  split.
  - intros k _ H0. by rewrite E in H0.
  - done.
  - intros k k' _ _ H0. by rewrite E in H0.
  - done.
Qed.
Lemma dir_ok0 V : dir_ok V dir0.
Proof.
  split; [|done]. split; [by vm_compute|]. intros k Hk Hl. cbn in Hl. change BSIZE with 1024 in Hl. lia.
Qed.
Lemma dir_at0 (s : bfs) :
  @tx _ _ (bio_cache_laws 1) bt0 (f_ls s) disk0 ∅ ∅ -> f_sb s = sb0 -> f_inode s = itable0 ->
  @file_at _ _ _ (bio_cache_laws 1) bt0 sb0 s disk0 ∅ 1 dir0.
Proof. intros T Es Ei. split; [done|done|apply meta0|by rewrite Ei|by rewrite Ei|apply inode_ok_dir0]. Qed.

Lemma iget_entry_witness :
  let s := Fs (LState (bss_bcache disk0) log0) sb0 itable0 user0 in
  exists s', iget ROOTDEV 5 s = Ret (0, s') /\ itable_ok (f_inode s').
Proof.
  cbv zeta. set (s := Fs _ _ _ _). eexists. split; [reflexivity|].
  pose proof (iget_entry s ROOTDEV 5 itable_ok0) as H. exact (proj1 (proj2 (proj2 H))).
Defined.

Lemma dirlink_links_witness :
  exists (s : bfs) r s', @dirlink _ _ (bio_cache 1) _ 1 0 500 1 [97; 98] 5 s = Ret (r, s') /\ (r = 0 \/ r = -1).
Proof.
  destruct open0 as (s & T & OP & Es & Ei & Eu).
  destruct (@dirlink_links _ _ _ (bio_cache_laws 1) _ flat_kern bt0 sb0 layout_bt0 0 500 OP 1 s disk0 ∅ 1 dir0 [97; 98] 5)
    as (r & s' & V' & X' & d' & E & _ & Hr).
  - by apply dir_at0. - apply dir_ok0. - split; unfold short; [vm_compute; intuition discriminate..|]. intros k _. cbn. lia.
  - rewrite Ei. cbn. lia. - by vm_compute. - lia. - repeat constructor; lia. - reflexivity. - by vm_compute.
  - exists s, r, s'. split; [exact E|]. destruct Hr as [[-> _]|[-> _]]; [by left|by right].
Defined.

Lemma dirlookup_finds_witness :
  exists (s : bfs) s', @dirlookup _ _ (bio_cache 1) _ 0 500 1 [97; 98] s = Ret (None, s').
Proof.
  destruct open0 as (s & T & OP & Es & Ei & Eu).
  destruct (@dirlookup_finds _ _ _ (bio_cache_laws 1) _ flat_kern bt0 sb0 layout_bt0 0 500 s disk0 ∅ 1 dir0 [97; 98])
    as (r & s' & E & _ & _ & Hr & _).
  - by apply dir_at0. - apply dir_ok0. - cbn. lia. - rewrite Ei. apply itable_ok0.
  - exists 2. rewrite Ei. split; [by vm_compute|done].
  - exists s, s'. rewrite E. f_equal. f_equal. exact Hr.
Defined.

(** The source of the writes: 3000 bytes of user memory from address 10. *)
Lemma data0 : lenZ (src_bytes user0 0 true 10 3000) = 3000.
Proof. by vm_compute. Qed.

Lemma writei_writes_witness :
  exists (s : bfs) tot s', @writei _ _ (bio_cache 1) _ 0 0 true 10 0 3000 s = Ret (tot, s') /\ 0 <= tot <= 3000.
Proof.
  destruct open0 as (s & T & OP & Es & Ei & Eu).
  destruct (@writei_writes _ _ _ (bio_cache_laws 1) _ bt0 sb0 layout_bt0 OP 0 s disk0 ∅ 0 file0 true 10 0 3000)
    as (tot & s' & V' & X' & d' & E & W).
  - by apply file_at0. - apply dense0. - apply wf0. - rewrite Ei. cbn. lia. - cbn. lia. - lia. - by vm_compute.
  - rewrite Eu. exact data0. - by vm_compute.
  - exists s, tot, s'. split; [exact E|]. rewrite <- data0, <- Eu. apply W.
Defined.

Lemma readi_reads_witness :
  exists (s : bfs) r s', @readi _ _ (bio_cache 1) _ 0 0 true 10 0 3000 s = Ret (r, s').
Proof.
  destruct open0 as (s & T & OP & Es & Ei & Eu).
  destruct (@readi_reads _ _ _ (bio_cache_laws 1) _ bt0 sb0 layout_bt0 0 s disk0 ∅ 0 file0 true 10 0 3000)
    as (l & ok & u & _ & _ & E).
  - by apply file_at0. - apply dense0. - cbn. lia. - lia. - lia.
  - eexists s, _, _. exact E.
Defined.


(** * The same file system at rest *)
Abbreviation bks := (kst bcache flat).
Lemma ready0 : exists (s : bks) a, @file_ready _ _ _ (bio_cache_laws 1) sb0 s 3 a file0 /\
  f_user (k_fs s) = user0 /\ k_file s = ftable0.
Proof.
  destruct (binit_ok 1 disk0) as (c & Ec & R).
  exists (Kst (Fs (LState c log0) sb0 itable0 user0) ftable0 (fun _ => Pipe (fun _ => 0) 0 0 false false)), (a_init disk0).
  split; [|split; reflexivity].
  split; [exact R|exact idle0|reflexivity|exact layout0|reflexivity| |reflexivity|exact wf0|exact meta0|apply inode_ok0|apply dense0|cbn; lia].
  split; [reflexivity|cbn; lia|cbn; lia|reflexivity|reflexivity].
Qed.


Lemma filewrite_writes_witness :
  exists (s : bks) r s', @filewrite _ _ (bio_cache 1) _ 1 0 (fun _ => false) (fun _ => DevOps None None) 3 10 3000 s = Ret (r, s') /\
    (r = 3000 \/ r = -1).
Proof.
  destruct ready0 as (s & a & FR & Eu & Ef).
  destruct (@filewrite_writes _ _ _ (bio_cache_laws 1) _ 1 0 sb0 (fun _ => false) (fun _ => DevOps None None) s 3 a file0 10 3000 FR)
    as (r & s' & a' & d' & w & E & _ & Hr & _).
  - by rewrite Ef. - by rewrite Ef. - lia. - rewrite Ef. by vm_compute. - rewrite Eu. exact data0.
  - exists s, r, s'. split; [exact E|]. destruct Hr as [[_ ->]|(_ & -> & _)]; [by left|by right].
Defined.
