(* ===== verification/FsImage.v ===== *)
(** A whole file system on disk: several inodes with their contents, whose
    blocks do not overlap.  Storing an inode keeps the others. *)
From S2P Require Import Prelude Riscv Memory Locks Blocks Log UserMem Fs Tx FsBlocks FsFile FsIo.

(** The inode [i] as [ilock] reads it from the blocks [V]. *)
Definition inode_at (sb : superblock) (V : Z -> mem) (i : Z) : dinode :=
  get_dinode (V (IBLOCK i sb)) (i mod IPB * DINODE).

(** A block that belongs to the file [d]. *)
Definition owns (V : Z -> mem) (d : dinode) (b : Z) : Prop :=
  b <> 0 /\ (b = ind d \/ exists k, 0 <= k < MAXFILE /\ b = blk V d k).

(** The blocks of the first [size] bytes are there, and no others. *)
Record exactly (V : Z -> mem) (d : dinode) (size : Z) : Prop := {
  ex_max : 0 <= size <= MAXFILE * BSIZE;
  ex_dense k : 0 <= k -> k * BSIZE < size -> blk V d k <> 0;
  ex_tight k : 0 <= k < MAXFILE -> size <= k * BSIZE -> blk V d k = 0;
  ex_ind : size <= NDIRECT * BSIZE -> ind d = 0 }.

(** A file with the contents [data]. *)
Record file_ok (sb : superblock) (V : Z -> mem) (d : dinode) (data : list Z) : Prop := {
  fo_ok : inode_ok sb V d;
  fo_wf : dinode_wf d;
  fo_size : d_size d = lenZ data;
  fo_exact : exactly V d (lenZ data);
  fo_bytes i : 0 <= i < MAXFILE * BSIZE -> fbyte V d i = zth data i }.

(** The inodes from 1 up to [n] are files of type [t i] with contents [c i]. *)
Record fs_image (sb : superblock) (V : Z -> mem) (n : Z) (t : Z -> Z) (c : Z -> list Z) : Prop := {
  fm_meta : meta_used sb V;
  fm_file i : 1 <= i < n -> file_ok sb V (inode_at sb V i) (c i);
  fm_type i : 1 <= i < n -> d_type (inode_at sb V i) = t i /\ d_nlink (inode_at sb V i) = 1;
  fm_apart i j b : 1 <= i < n -> 1 <= j < n -> i <> j ->
    owns V (inode_at sb V i) b -> ~ owns V (inode_at sb V j) b }.

Lemma file_dense sb V d data : file_ok sb V d data -> dense V d.
Proof. intros [_ _ Es [[_ Hm] Hd _ _] _]. split; rewrite Es; done. Qed.

Lemma nth_seqZ_id l : u8 <$> l = zth l <$> seqZ 0 (lenZ l).
Proof.
  apply list_eq. intros i. rewrite !list_lookup_fmap. destruct (decide (i < length l)%nat) as [Hi|Hi].
  - rewrite lookup_seqZ_lt by lia. destruct (lookup_lt_is_Some_2 l i Hi) as [x Ex]. rewrite Ex. cbn.
    unfold zth. rewrite Z.add_0_l, Nat2Z.id. by rewrite (nth_lookup_Some _ _ _ _ Ex).
  - rewrite lookup_seqZ_ge, lookup_ge_None_2 by lia. done.
Qed.

(** ** Reading an inode from its block *)
Lemma ld_short_ext d d' a : (forall x, a <= x < a + 2 -> ld8 d x = ld8 d' x) -> ld_short d a = ld_short d' a.
Proof. intros Hx. unfold ld_short. by rewrite (ld_ext 2 d d'). Qed.
Lemma get_dinode_ext d d' o :
  (forall x, o <= x < o + DINODE -> ld8 d' x = ld8 d x) -> dinode_eq (get_dinode d o) (get_dinode d' o).
Proof.
  unfold DINODE. intros Hx. unfold dinode_eq, same_meta, get_dinode. cbn [d_type d_major d_minor d_nlink d_size d_addrs].
  split; [split_and!|].
  1-4: apply ld_short_ext; intros x Hr; apply Hx; lia.
  - apply ld_ext. intros x Hr. apply Hx. lia.
  - intros k Hk. apply ld_ext. intros x Hr. apply Hx. fsz.
Qed.
Lemma get_dinode_wf d o : dinode_wf (get_dinode d o).
Proof.
  assert (forall a, short (ld_short d a)) as Hs.
  { intros a. unfold short, ld_short, s16. pose proof (ld_range 2 d a). change (256 ^ Z.of_nat 2) with (2 ^ 16) in *.
    pose proof (Z.mod_pos_bound (ld 2 d a + 2 ^ 15) (2 ^ 16)). lia. }
  split; cbn [get_dinode d_type d_major d_minor d_nlink d_size d_addrs]; try apply Hs; [|intros k _]; apply ld32_range.
Qed.

Lemma dinode_eq_refl d : dinode_eq d d.
Proof. by split; [unfold same_meta|]. Qed.

(** ** The same file through other blocks *)
(** [d'] in [V'] is the file that [d] is in [V]. *)
Record same_file (V : Z -> mem) (d : dinode) (V' : Z -> mem) (d' : dinode) : Prop := {
  sf_ind : ind d' = ind d;
  sf_blk k : 0 <= k < MAXFILE -> blk V' d' k = blk V d k;
  sf_data k : 0 <= k < MAXFILE -> blk V d k <> 0 -> V' (blk V d k) = V (blk V d k) }.

Section image.
Context (sb : superblock) (g : log) (LY : layout sb g).
Implicit Types (V : Z -> mem) (d : dinode).

(** Equal inodes, and blocks that are equal where the file has its own. *)
Lemma same_file_intro V d V' d' :
  dinode_eq d d' -> (forall b, owns V d b -> V' b = V b) -> same_file V d V' d'.
Proof.
  intros [_ Ea] HV. assert (ind d' = ind d) as Ei by (apply Ea; fsz). split; [done| |].
  - intros k Hk. apply blk_ext; [done| |intros; apply Ea; fsz]. intros H0. apply HV. split; [done|by left].
  - intros k Hk H0. apply HV. split; [done|]. right. by exists k.
Qed.
Lemma same_file_owns V d V' d' b : same_file V d V' d' -> owns V' d' b <-> owns V d b.
Proof.
  intros [Ei Ek _]. unfold owns. rewrite Ei. split; intros [H0 [E|(k & Hk & E)]]; split; auto; right; exists k.
  - by rewrite <- Ek.
  - by rewrite Ek.
Qed.
Lemma same_file_inode V d V' d' :
  same_file V d V' d' -> (forall b, used sb V b = true -> used sb V' b = true) -> inode_ok sb V d -> inode_ok sb V' d'.
Proof.
  intros [Ei Ek Ed] Hu [OD OI OJ OS]. split.
  - intros k Hk. rewrite Ek by done. intros H0. destruct (OD k Hk H0). auto.
  - rewrite Ei. intros H0. destruct (OI H0). auto.
  - intros k k' Hk Hk'. rewrite !Ek by done. by apply OJ.
  - intros k Hk. rewrite Ek, Ei by done. by apply OS.
Qed.
Lemma same_file_ok V d V' d' data :
  same_file V d V' d' -> (forall b, used sb V b = true -> used sb V' b = true) -> dinode_wf d' -> d_size d' = d_size d ->
  file_ok sb V d data -> file_ok sb V' d' data.
Proof.
  intros SF Hu Wf Es [O _ Hs [XM XD XT XI] Hb]. pose proof (same_file_inode _ _ _ _ SF Hu O) as O'.
  destruct SF as [Ei Ek Ed]. split; try done; [by rewrite Es| |].
  - split; try done; [intros k Hk Hl|intros k Hk Hl|by rewrite Ei].
    + rewrite Ek by fsz. by apply XD.
    + rewrite Ek by done. by apply XT.
  - intros i Hi. rewrite <- Hb by done. destruct (block_offset i Hi) as [Hq _]. unfold fbyte. rewrite Ek by done.
    destruct (Z.eqb_spec (blk V d (i / BSIZE)) 0); [done|]. by rewrite Ed.
Qed.

Lemma owns_data V d b : inode_ok sb V d -> owns V d b -> data_block sb b /\ used sb V b = true.
Proof. intros [OD OI _ _] [H0 [-> |(k & Hk & ->)]]; [by apply OI|by apply OD]. Qed.
Lemma owned_block V d b : inode_ok sb V d -> owns V d b -> bm sb < b.
Proof using LY. intros O Hb. destruct (owns_data _ _ _ O Hb) as [[H1 _] _]. pose proof (bm_range _ _ LY). lia. Qed.

(** ** Storing an inode *)
Definition store_inode (V : Z -> mem) (i : Z) (d : dinode) : mem :=
  put_dinode d (i mod IPB * DINODE) (V (IBLOCK i sb)).

(** Inodes of a block are at multiples of their size. *)
Lemma inode_slots i j x :
  i <> j -> IBLOCK i sb = IBLOCK j sb -> j mod IPB * DINODE <= x < j mod IPB * DINODE + DINODE ->
  x < i mod IPB * DINODE \/ i mod IPB * DINODE + DINODE <= x.
Proof.
  unfold IBLOCK. intros Hij E. change IPB with 16 in *. change DINODE with 64 in *.
  assert (i / 16 = j / 16) by lia. assert (i mod 16 <> j mod 16) by zdiv. lia.
Qed.

(** The blocks [V1] hold the file [d2] with contents [data]; the files of the
    other inodes are as in [V].  Then storing [d2] as inode [i] gives an image
    with that file added or replaced. *)
Lemma image_set V V1 V' n n' t c i d2 data :
  fs_image sb V n t c -> 1 <= i < n' -> (n' = n \/ n' = n + 1 /\ i = n) -> n' <= sb_ninodes sb ->
  meta_used sb V1 -> file_ok sb V1 d2 data -> d_nlink d2 = 1 ->
  (forall b, used sb V b = true -> used sb V1 b = true) ->
  (forall b, inode_block sb b -> V1 b = V b) ->
  (forall j b, 1 <= j < n -> j <> i -> owns V (inode_at sb V j) b -> V1 b = V b /\ ~ owns V1 d2 b) ->
  (forall b, V' b = upd V1 (IBLOCK i sb) (store_inode V1 i d2) b) ->
  fs_image sb V' n' (upd t i (d_type d2)) (upd c i data).
Proof using LY.
  intros [Mm Mf Mt Ma] Hi Hn Hmax Hm1 F2 Hl Hu Hib Hoth HV'. pose proof (bm_range _ _ LY) as Hbm.
  assert (forall j, 1 <= j < n' -> inode_block sb (IBLOCK j sb)) as Hblk by (intros j Hj; apply IBLOCK_inode; lia).
  assert (forall b, used sb V' b = used sb V1 b) as Eu.
  { intros b. unfold used. rewrite HV', upd_ne; [done|]. pose proof (inode_block_range _ _ LY _ (Hblk i Hi)). lia. }
  assert (forall b, bm sb < b -> V' b = V1 b) as Edata.
  { intros b Hb. rewrite HV', upd_ne; [done|]. pose proof (inode_block_range _ _ LY _ (Hblk i Hi)). lia. }
  assert (same_file V1 d2 V' (inode_at sb V' i)) as Si.
  { apply same_file_intro.
    - unfold inode_at. rewrite HV', upd_eq. apply get_put_dinode, F2.
    - intros b Hb. apply Edata. eapply owned_block; [apply F2|done]. }
  assert (dinode_eq d2 (inode_at sb V' i)) as Ei.
  { unfold inode_at. rewrite HV', upd_eq. apply get_put_dinode, F2. }
  assert (forall j, 1 <= j < n -> j <> i -> dinode_eq (inode_at sb V j) (inode_at sb V' j)) as Ej.
  { intros j Hj Hne. apply get_dinode_ext. intros x Hx. rewrite HV'. destruct (decide (IBLOCK j sb = IBLOCK i sb)) as [E|E].
    - rewrite E, upd_eq. unfold store_inode. rewrite put_dinode_other, Hib; [done|by apply Hblk|by apply (inode_slots i j)].
    - rewrite upd_ne, Hib; [done|apply Hblk; lia|done]. }
  assert (forall j, 1 <= j < n -> j <> i -> same_file V (inode_at sb V j) V' (inode_at sb V' j)) as Sj.
  { intros j Hj Hne. apply same_file_intro; [by apply Ej|]. intros b Hb. destruct (Hoth j b Hj Hne Hb) as [<- _].
    apply Edata. eapply owned_block; [apply Mf|]; done. }
  assert (forall j, 1 <= j < n' -> j <> i -> 1 <= j < n) as Hold by lia.
  split.
  - intros b Hb. rewrite Eu. by apply Hm1.
  - intros j Hj. destruct (decide (j = i)) as [->|Hne].
    + rewrite upd_eq. eapply same_file_ok; [exact Si|intros b; by rewrite Eu|apply get_dinode_wf|apply Ei|done].
    + rewrite upd_ne by done. eapply same_file_ok; [by apply Sj; auto| |apply get_dinode_wf|apply Ej; auto|by apply Mf; auto].
      intros b Hb. rewrite Eu. by apply Hu.
  - intros j Hj. destruct (decide (j = i)) as [->|Hne].
    + rewrite upd_eq. destruct Ei as [(-> & _ & _ & -> & _) _]. done.
    + rewrite upd_ne by done. destruct (Ej j) as [(-> & _ & _ & -> & _) _]; auto.
  - intros j k b Hj Hk Hjk. destruct (decide (j = i)) as [->|Hne], (decide (k = i)) as [->|Hne']; [done|..].
    + rewrite (same_file_owns _ _ _ _ b Si), (same_file_owns _ _ _ _ b (Sj k (Hold k Hk Hne') Hne')). intros H1 H2.
      by destruct (Hoth k b (Hold k Hk Hne') Hne' H2).
    + rewrite (same_file_owns _ _ _ _ b Si), (same_file_owns _ _ _ _ b (Sj j (Hold j Hj Hne) Hne)). intros H1 H2.
      by destruct (Hoth j b (Hold j Hj Hne) Hne H1).
    + rewrite (same_file_owns _ _ _ _ b (Sj j (Hold j Hj Hne) Hne)), (same_file_owns _ _ _ _ b (Sj k (Hold k Hk Hne') Hne')).
      apply Ma; [by apply Hold|by apply Hold|done].
Qed.

(** ** Appending to a file *)
Lemma zth_app l1 l2 i : 0 <= i -> splice (zth l1) (lenZ l1) l2 i = zth (l1 ++ l2) i.
Proof.
  intros H0. unfold splice, zth. destruct (Z.leb_spec (lenZ l1) i) as [Hl|Hl].
  - rewrite app_nth2 by lia. replace (Z.to_nat i - length l1)%nat with (Z.to_nat (i - lenZ l1)) by lia.
    destruct (Z.ltb_spec i (lenZ l1 + lenZ l2)); [done|]. cbn [andb]. rewrite !nth_overflow by lia. done.
  - rewrite app_nth1 by lia. done.
Qed.

(** The blocks a file had, or that were free. *)
Lemma evolves_owns V d V1 d1 c b : evolves sb V d V1 d1 c -> owns V1 d1 b -> owns V d b \/ used sb V b = false.
Proof.
  intros EV [H0 [-> |(k & Hk & ->)]].
  - destruct (decide (ind d = 0)) as [E|E]; [right; by apply (ev_ind_new _ _ _ _ _ _ EV)|].
    rewrite (ev_ind _ _ _ _ _ _ EV E) in *. left. split; [done|by left].
  - destruct (decide (blk V d k = 0)) as [E|E]; [right; by apply (ev_new _ _ _ _ _ _ EV)|].
    rewrite (ev_blk _ _ _ _ _ _ EV k Hk E) in *. left. split; [done|]. right. by exists k.
Qed.

Lemma image_append V V1 V' n t c i d1 p :
  let d := inode_at sb V i in
  let d2 := set_size (lenZ (c i ++ p)) d1 in
  fs_image sb V n t c -> 1 <= i < n -> n <= sb_ninodes sb ->
  evolves sb V d V1 d1 (splice (fbyte V d) (lenZ (c i)) p) -> exactly V1 d1 (lenZ (c i ++ p)) ->
  (forall b, V' b = upd V1 (IBLOCK i sb) (store_inode V1 i d2) b) ->
  fs_image sb V' n (upd t i (t i)) (upd c i (c i ++ p)).
Proof using LY.
  intros d d2 IM Hi Hmax EV EX HV'. pose proof (fm_file _ _ _ _ _ IM i Hi) as F.
  destruct (fm_type _ _ _ _ _ IM i Hi) as [Et El]. destruct (ev_same _ _ _ _ _ _ EV) as (St & Sj & Sn & Sl & Sz).
  assert (d_type d2 = t i) as <- by (cbn; rewrite St; exact Et).
  pose proof (bm_range _ _ LY) as Hbm.
  assert (forall b, used sb V b = true -> b <> bm sb -> ~ owns V d b -> b <> 0 -> V1 b = V b) as Hfr.
  { intros b Hb1 Hb2 Hb3 H0. apply (ev_frame _ _ _ _ _ _ EV); [done|done| |].
    - intros E. apply Hb3. split; [done|by left].
    - intros k Hk E. apply Hb3. split; [done|]. right. by exists k. }
  eapply (image_set V V1); try done; try lia.
  - apply EV.
  - split; [| |done| |].
    + destruct (ev_ok _ _ _ _ _ _ EV). by split.
    + destruct (fo_wf _ _ _ _ F) as [W1 W2 W3 W4 W5 W6]. fold d in W1, W2, W3, W4, W5.
      split; cbn [d2 set_size d_type d_major d_minor d_nlink d_size d_addrs]; rewrite ?St, ?Sj, ?Sn, ?Sl; try done.
      * pose proof (ex_max _ _ _ EX). fsz.
      * intros k Hk. apply (wf_addrs sb g LY V1); [apply EV|done].
    + destruct EX. by split.
    + intros x Hx. change (fbyte V1 d1 x = zth (c i ++ p) x). rewrite (ev_bytes _ _ _ _ _ _ EV) by done.
      rewrite <- zth_app by lia. apply splice_ext. by apply (fo_bytes _ _ _ _ F).
  - cbn. rewrite Sl. exact El.
  - apply EV.
  - intros b Hb. pose proof (inode_block_range _ _ LY _ Hb) as Hr. apply Hfr; [apply (fm_meta _ _ _ _ _ IM); lia|lia| |lia].
    intros Ho. pose proof (owned_block _ _ _ (fo_ok _ _ _ _ F) Ho). lia.
  - intros j b Hj Hne Hb. pose proof (fm_file _ _ _ _ _ IM j Hj) as Fj.
    destruct (owns_data _ _ _ (fo_ok _ _ _ _ Fj) Hb) as [_ Hub].
    pose proof (owned_block _ _ _ (fo_ok _ _ _ _ Fj) Hb) as Hbb. assert (~ owns V d b) as Hnb.
    { intros Ho. by apply (fm_apart _ _ _ _ _ IM i j b Hi Hj). }
    split; [apply Hfr; [done|lia|done|lia]|]. intros Ho.
    destruct (evolves_owns _ _ _ _ _ _ EV Ho) as [?|E]; [done|congruence].
Qed.

(** ** A new, empty file *)
Lemma empty_file V d : (forall k, d_addrs d k = 0) -> dinode_wf d -> d_size d = 0 -> file_ok sb V d [].
Proof.
  intros Ha Wf Hs. assert (forall k, blk V d k = 0) as Hk.
  { intros k. unfold blk, ind. rewrite !Ha. by destruct (k <? NDIRECT). }
  split; try done.
  - split; [intros k _; by rewrite Hk|unfold ind; by rewrite Ha|intros k k' _ _; by rewrite Hk|unfold ind; by rewrite Ha].
  - split; [cbn; fsz|cbn; fsz|intros; apply Hk|intros; apply Ha].
  - intros i _. unfold fbyte, zth. rewrite Hk. by destruct (Z.to_nat i).
Qed.
Lemma image_new V V' n t c type :
  let d := Dinode type 0 0 1 0 (fun _ => 0) in
  fs_image sb V n t c -> 1 <= n -> n + 1 <= sb_ninodes sb -> short type ->
  (forall b, V' b = upd V (IBLOCK n sb) (store_inode V n d) b) ->
  fs_image sb V' (n + 1) (upd t n type) (upd c n []).
Proof using LY.
  intros d IM H1 Hmax Ht HV'. change type with (d_type d).
  apply (image_set V V V' n (n + 1) t c n d []); try done; try lia.
  - apply IM.
  - apply empty_file; [done| |done]. split; cbn; unfold short in *; lia.
  - intros j b Hj Hne Hb. split; [done|]. intros [H0 [E|(k & Hk & E)]]; [done|].
    unfold blk in E. cbn in E. destruct (k <? NDIRECT); done.
Qed.
End image.
