(* ===== verification/Mkfs.v ===== *)
(** The builder of the disk image (mkfs/mkfs.c), a program of the build host.

    The image file is a map from block numbers to blocks with the number of
    blocks written so far; a read past its end makes the program die.  The host
    is little-endian, as [xint] and [xshort] then are the identity.  A file to
    copy is its argument and the results of the [read] calls on it, or nothing when it
    cannot be opened; a failing
    assertion and [die] are panics. *)
From S2P Require Import Prelude Riscv Memory Blocks Log Fs.

Definition NINODES : Z := 200.

Record image := Img {
  g_disk : Z -> mem;
  g_size : Z;
  g_freeinode : Z;
  g_freeblock : Z }.

(** The four bytes that [xint] stores, read as an integer of the host. *)
Definition zeroes : mem := fun _ => 0.
Definition xshort (x : Z) : Z := ld 2 (st8 (st8 zeroes 0 x) 1 (Z.shiftr x 8)) 0.
Definition xint (x : Z) : Z :=
  ld32 (st8 (st8 (st8 (st8 zeroes 0 x) 1 (Z.shiftr x 8)) 2 (Z.shiftr x 16)) 3 (Z.shiftr x 24)) 0.

Definition nbitmap : Z := FSSIZE / BPB + 1.
Definition ninodeblocks : Z := NINODES / IPB + 1.
Definition nlog : Z := LOGSIZE.
Definition nmeta : Z := 2 + nlog + ninodeblocks + nbitmap.
Definition nblocks : Z := 2000 - nmeta.
Definition sb : superblock :=
  SB FSMAGIC (xint FSSIZE) (xint nblocks) (xint NINODES) (xint nlog) (xint 2) (xint (2 + nlog))
    (xint (2 + nlog + ninodeblocks)).
Definition put_sb (s : superblock) (d : mem) : mem :=
  let d := st32 d 0 (sb_magic s) in
  let d := st32 d 4 (sb_size s) in
  let d := st32 d 8 (sb_nblocks s) in
  let d := st32 d 12 (sb_ninodes s) in
  let d := st32 d 16 (sb_nlog s) in
  let d := st32 d 20 (sb_logstart s) in
  let d := st32 d 24 (sb_inodestart s) in
  st32 d 28 (sb_bmapstart s).

Abbreviation MK := (M image).
Definition wsect (sec : Z) (buf : mem) : MK unit :=
  modify (fun g => Img (upd (g_disk g) sec buf) (Z.max (g_size g) (sec + 1)) (g_freeinode g) (g_freeblock g)).
Definition rsect (sec : Z) : MK mem :=
  g ← gets (fun g => g);
  if sec <? g_size g then mret (g_disk g sec) else panic "read".

Definition winode (inum : Z) (ip : dinode) : MK unit :=
  let bn := IBLOCK inum sb in
  buf ← rsect bn;
  wsect bn (put_dinode ip (inum mod IPB * DINODE) buf).
Definition rinode (inum : Z) : MK dinode :=
  buf ← rsect (IBLOCK inum sb);
  mret (get_dinode buf (inum mod IPB * DINODE)).

Definition mk_ialloc (type : Z) : MK Z :=
  inum ← gets g_freeinode;
  _ ← modify (fun g => Img (g_disk g) (g_size g) (u32 (inum + 1)) (g_freeblock g));
  _ ← winode inum (Dinode (xshort type) 0 0 (xshort 1) (xint 0) (fun _ => 0));
  mret inum.

(** [freeblock++] *)
Definition next_block : MK Z :=
  b ← gets g_freeblock;
  _ ← modify (fun g => Img (g_disk g) (g_size g) (g_freeinode g) (u32 (b + 1)));
  mret b.

Definition mk_balloc (used : Z) : MK unit :=
  if negb (used <? BPB) then panic "assert"
  else
    let buf := foldl (fun d i => st8 d (i / 8) (Z.lor (ld8 d (i / 8)) (Z.shiftl 1 (i mod 8)))) zeroes (seqZ 0 used) in
    wsect (sb_bmapstart sb) buf.

(** The block for block [fbn] of the file, with the inode that names it. *)
Definition file_block (din : dinode) (fbn : Z) : MK (dinode * Z) :=
  if fbn <? NDIRECT then
    din ← (if xint (d_addrs din fbn) =? 0 then b ← next_block; mret (set_addr fbn (xint b) din) else mret din);
    mret (din, xint (d_addrs din fbn))
  else
    din ← (if xint (d_addrs din NDIRECT) =? 0 then b ← next_block; mret (set_addr NDIRECT (xint b) din) else mret din);
    indirect ← rsect (xint (d_addrs din NDIRECT));
    let a := 4 * (fbn - NDIRECT) in
    indirect ← (if ld32 indirect a =? 0 then
                  b ← next_block;
                  let indirect := st32 indirect a (xint b) in
                  _ ← wsect (xint (d_addrs din NDIRECT)) indirect;
                  mret indirect
                else mret indirect);
    mret (din, xint (ld32 indirect a)).

(** The loop of [iappend]: every round fills up one block. *)
Fixpoint iappend_loop (rounds : nat) (din : dinode) (off : Z) (p : list Z) : MK (dinode * Z) :=
  if lenZ p >? 0 then
    match rounds with
    | O => nofuel
    | S rounds =>
        let fbn := off / BSIZE in
        if negb (fbn <? MAXFILE) then panic "assert"
        else
          r ← file_block din fbn;
          let '(din, x) := r in
          let n1 := Z.min (lenZ p) ((fbn + 1) * BSIZE - off) in
          buf ← rsect x;
          _ ← wsect x (put_bytes (take (Z.to_nat n1) p) (off - fbn * BSIZE) buf);
          iappend_loop rounds din (off + n1) (drop (Z.to_nat n1) p)
    end
  else mret (din, off).
Definition iappend (inum : Z) (p : list Z) : MK unit :=
  din ← rinode inum;
  r ← iappend_loop (Z.to_nat (lenZ p / BSIZE + 2)) din (xint (d_size din)) p;
  let '(din, off) := r in
  winode inum (set_size (xint off) din).

(** The bytes of a [struct dirent]. *)
Definition dirent_bytes (inum : Z) (name : list Z) : list Z :=
  let i := xshort inum in
  [u8 i; u8 (Z.shiftr i 8)] ++ strncpy_bytes (Z.to_nat DIRSIZ) name.

Definition USER_ : list Z := [117; 115; 101; 114; 47].        (* user/ *)
Definition UNDERSCORE : Z := 95.
Definition strip_user (arg : list Z) : list Z := if strncmp_bytes 5 arg USER_ =? 0 then drop 5 arg else arg.
Definition skip_underscore (name : list Z) : list Z := if hd 0 name =? UNDERSCORE then tl name else name.

(** One round of the loop over the arguments.  A file is its argument and what
    the [read] calls return, [None] when it cannot be opened. *)
Definition add_file (rootino : Z) (f : list Z * option (list (list Z))) : MK unit :=
  let shortname := strip_user (fst f) in
  if existsb (fun c => c =? SLASH) shortname then panic "assert"
  else
    match snd f with
    | None => panic "open"
    | Some chunks =>
        let shortname := skip_underscore shortname in
        if negb (lenZ shortname <=? DIRSIZ) then panic "assert"
        else
          inum ← mk_ialloc T_FILE;
          _ ← iappend rootino (dirent_bytes inum shortname);
          for_each chunks (iappend inum)
    end.

Definition fix_root (rootino : Z) : MK unit :=
  din ← rinode rootino;
  let off := xint (d_size din) in
  let off := (off / BSIZE + 1) * BSIZE in
  winode rootino (set_size (xint off) din).

Definition DOT : Z := 46.
Definition mkfs (files : list (list Z * option (list (list Z)))) : MK unit :=
  _ ← for_each (seqZ 0 FSSIZE) (fun i => wsect i zeroes);
  _ ← wsect 1 (put_sb sb (mfill zeroes 0 0 BSIZE));
  rootino ← mk_ialloc T_DIR;
  if negb (rootino =? ROOTINO) then panic "assert"
  else
    _ ← iappend rootino (dirent_bytes rootino [DOT]);
    _ ← iappend rootino (dirent_bytes rootino [DOT; DOT]);
    _ ← for_each files (add_file rootino);
    _ ← fix_root rootino;
    used ← gets g_freeblock;
    mk_balloc used.

(** The state of the program before [main]: an empty image file. *)
Definition image0 : image := Img (fun _ => zeroes) 0 1 nmeta.
