(* ===== verification/MkfsSpec.v ===== *)
(** The image that mkfs builds is a file system: the superblock and the log are
    as the kernel expects them, the bitmap says which blocks are taken, and the
    root directory maps every name to an inode with the bytes of that file. *)
From S2P Require Import Prelude Riscv Memory Locks Blocks Bio Log Stack UserMem Fs Tx FsBlocks FsFile FsIo FsDir FsSpec FsImage Mkfs.

(** * Byte order *)
Lemma xint_st x : xint x = ld32 (st32 zeroes 0 x) 0.
Proof.
  unfold xint. rewrite !Z.shiftr_div_pow2 by lia. change (2 ^ 24) with (256 * 256 * 256).
  change (2 ^ 16) with (256 * 256). rewrite <- !Z.div_div by lia. done.
Qed.
Lemma xint_id x : 0 <= x < 2 ^ 32 -> xint x = x.
Proof. intros Hx. rewrite xint_st, ld32_st32_same. by apply u32_small. Qed.
Lemma xshort_id x : 0 <= x < 2 ^ 16 -> xshort x = x.
Proof.
  intros Hx. unfold xshort. rewrite Z.shiftr_div_pow2 by lia. change (ld 2 (st 2 zeroes 0 x) 0 = x).
  rewrite ld_st_same. by apply Z.mod_small.
Qed.
Lemma dirent_entry inum name : 0 <= inum < 2 ^ 16 -> dirent_bytes inum name = entry_bytes name inum.
Proof. intros Hi. unfold dirent_bytes, entry_bytes. rewrite xshort_id, Z.shiftr_div_pow2 by (done || lia). done. Qed.
Lemma dirent_len inum name : lenZ (dirent_bytes inum name) = DIRENT.
Proof. unfold dirent_bytes. rewrite length_app, strncpy_bytes_len. done. Qed.

Lemma sb_fields : sb = SB FSMAGIC 30000 1951 200 30 2 32 45.
Proof. by vm_compute. Qed.
Lemma LY : layout sb log0.
Proof. split; vm_compute; intuition discriminate. Qed.

(** * The bitmap *)
Fixpoint bits (n : nat) : mem :=
  match n with
  | O => zeroes
  | S n => set_bit (Z.of_nat n) (bits n)
  end.
Lemma bit_bits n b : bit (bits n) b = (0 <=? b) && (b <? Z.of_nat n).
Proof.
  induction n as [|n IH]; cbn [bits].
  - unfold bit, ld8. change (u8 (zeroes (b / 8))) with 0. rewrite Z.testbit_0_l. by bools.
  - rewrite bit_set, IH. by bools.
Qed.
Lemma bits_loop n :
  foldl (fun d i => st8 d (i / 8) (Z.lor (ld8 d (i / 8)) (Z.shiftl 1 (i mod 8)))) zeroes (seqZ 0 (Z.of_nat n)) = bits n.
Proof.
  induction n as [|n IH]; [done|]. replace (Z.of_nat (S n)) with (Z.of_nat n + 1) by lia.
  rewrite seqZ_app by lia. rewrite foldl_app, IH. done.
Qed.

(** * The image under construction *)
(** The blocks with the bitmap as it will be: [balloc] runs last. *)
Definition view (g : image) : Z -> mem := upd (g_disk g) (bm sb) (bits (Z.to_nat (g_freeblock g))).
Definition boot_block (b : Z) : mem := if b =? 1 then put_sb sb (mfill zeroes 0 0 BSIZE) else zeroes.
Record g_ok (g : image) : Prop := {
  go_size : g_size g = FSSIZE;
  go_inode : 1 <= g_freeinode g <= NINODES;
  go_block : nmeta <= g_freeblock g <= SWAPBASE;
  go_boot b : 0 <= b < sb_inodestart sb -> g_disk g b = boot_block b;
  go_zero b : g_freeblock g <= b < FSSIZE -> g_disk g b = zeroes }.

Ltac mksz :=
  change (data_start sb) with 49 in *; change (bm sb) with 45 in *; change (fs_limit sb) with 2000 in *;
  change (sb_inodestart sb) with 32 in *; change nmeta with 49 in *; change SWAPBASE with 2000 in *;
  change FSSIZE with 30000 in *; change NINODES with 200 in *; change (sb_ninodes sb) with 200 in *; lia.

Lemma view_ne g b : b <> bm sb -> view g b = g_disk g b.
Proof. intros. by apply upd_ne. Qed.
Lemma image_used g b : g_ok g -> used sb (view g) b = (0 <=? b) && (b <? g_freeblock g).
Proof.
  intros [_ _ Hb _ _]. unfold used, view. rewrite upd_eq, bit_bits. rewrite Z2Nat.id by mksz. done.
Qed.
Lemma view_meta g : g_ok g -> meta_used sb (view g).
Proof. intros G b Hb. rewrite image_used by done. pose proof (go_block _ G). apply andb_true_iff. rewrite Z.leb_le, Z.ltb_lt. mksz. Qed.

Definition bump (g : image) : image := Img (g_disk g) (g_size g) (g_freeinode g) (g_freeblock g + 1).
Lemma bump_ok g : g_ok g -> g_freeblock g < SWAPBASE -> g_ok (bump g).
Proof. intros [Gs Gi Gb Gm Gz] Hlt. split; cbn [bump g_size g_freeinode g_freeblock g_disk]; try done; [lia|]. intros b Hb. apply Gz. lia. Qed.
Lemma bump_allocated g : g_ok g -> g_freeblock g < SWAPBASE -> allocated sb (view g) (g_freeblock g) (view (bump g)).
Proof.
  intros G Hlt. pose proof (go_block _ G) as Gb. split.
  - split; mksz.
  - rewrite image_used by done. apply andb_false_iff. right. by rewrite Z.ltb_ge.
  - intros b. rewrite !image_used by (done || by apply bump_ok). cbn. bools; (done || mksz).
  - intros i Hi. rewrite view_ne by mksz. cbn. rewrite (go_zero _ G) by mksz. done.
  - intros b _ Hb. by rewrite !view_ne.
Qed.
Lemma wp_next_block g (Q : Z -> image -> Prop) :
  g_ok g -> g_freeblock g < SWAPBASE -> Q (g_freeblock g) (bump g) -> wp next_block g Q.
Proof.
  intros G Hlt HQ. unfold next_block. apply wp_bind, wp_gets, wp_bind, wp_modify, wp_ret.
  pose proof (go_block _ G). rewrite u32_small by mksz. done.
Qed.

(** ** Blocks of the image file *)
Lemma wp_rsect g b (Q : mem -> image -> Prop) : g_ok g -> b < FSSIZE -> Q (g_disk g b) g -> wp (rsect b) g Q.
Proof.
  intros G Hb HQ. unfold rsect. apply wp_bind, wp_gets. rewrite (go_size _ G), (proj2 (Z.ltb_lt _ _)) by done. by apply wp_ret.
Qed.
Definition put_sect (g : image) (b : Z) (buf : mem) : image :=
  Img (upd (g_disk g) b buf) (g_size g) (g_freeinode g) (g_freeblock g).
Lemma wp_wsect g b buf (Q : unit -> image -> Prop) : g_ok g -> b < FSSIZE -> Q tt (put_sect g b buf) -> wp (wsect b buf) g Q.
Proof.
  intros G Hb HQ. unfold wsect. apply wp_modify. rewrite Z.max_l by (rewrite (go_size _ G); lia). exact HQ.
Qed.
Lemma put_sect_ok g b buf : g_ok g -> sb_inodestart sb <= b < g_freeblock g -> b <> bm sb -> g_ok (put_sect g b buf).
Proof.
  intros [Gs Gi Gb Gm Gz] Hb Hbm. split; cbn [put_sect g_size g_freeinode g_freeblock g_disk]; try done.
  - intros x Hx. rewrite upd_ne by lia. by apply Gm.
  - intros x Hx. rewrite upd_ne by lia. by apply Gz.
Qed.
Lemma view_put g b buf x : b <> bm sb -> view (put_sect g b buf) x = upd (view g) b buf x.
Proof. intros Hb. unfold view, put_sect. cbn [g_disk g_freeblock]. unfold upd. bools; (done || lia). Qed.

(** Views that agree on every block. *)
Lemma used_eq V V' b : (forall x, V' x = V x) -> used sb V' b = used sb V b.
Proof. intros E. unfold used. by rewrite E. Qed.
Lemma blk_eq V V' d k : (forall x, V' x = V x) -> blk V' d k = blk V d k.
Proof. intros E. by apply blk_ext. Qed.
Lemma fbyte_eq V V' d i : (forall x, V' x = V x) -> fbyte V' d i = fbyte V d i.
Proof. intros E. unfold fbyte. by rewrite (blk_eq V), E. Qed.
Lemma evolves_blocks V d V' V'' d' c : (forall x, V'' x = V' x) -> evolves sb V d V' d' c -> evolves sb V d V'' d' c.
Proof.
  intros E EV. destruct EV as [[OD OI OJ OS] Hm Hb Hs Hu Hk Hn Hi Hin Hf]. split; try done.
  - split; try done; intros k; rewrite ?(blk_eq V' V''), ?(used_eq V' V'') by done; [by apply OD|by apply OI| |by apply OS].
    intros k'. rewrite (blk_eq V' V'') by done. apply OJ.
  - intros b. rewrite (used_eq V' V'') by done. apply Hm.
  - intros i. rewrite (fbyte_eq V' V'') by done. apply Hb.
  - intros b. rewrite (used_eq V' V'') by done. apply Hu.
  - intros k. rewrite (blk_eq V' V'') by done. apply Hk.
  - intros k. rewrite (blk_eq V' V'') by done. apply Hn.
  - intros b. rewrite E. apply Hf.
Qed.

(** * The blocks of a file *)
(** The file [d] got [n] new, zeroed blocks. *)
Record grew (g : image) (d : dinode) (g' : image) (d' : dinode) (n : Z) : Prop := {
  gw_ev : evolves sb (view g) d (view g') d' (fbyte (view g) d);
  gw_ok : g_ok g';
  gw_inode : g_freeinode g' = g_freeinode g;
  gw_block : g_freeblock g' = g_freeblock g + n }.
Lemma grew_refl g d : g_ok g -> inode_ok sb (view g) d -> grew g d g d 0.
Proof. intros G O. split; [apply fevolves_refl; [done|by apply view_meta]|done|done|lia]. Qed.
Lemma grew_trans g d g1 d1 n1 g2 d2 n2 : grew g d g1 d1 n1 -> grew g1 d1 g2 d2 n2 -> grew g d g2 d2 (n1 + n2).
Proof.
  intros [E1 G1 I1 B1] [E2 G2 I2 B2]. split; [|done|congruence|lia].
  apply (evolves_ext _ _ _ _ _ (fbyte (view g1) d1)); [|by eapply fevolves_trans].
  intros i Hi. by apply (ev_bytes _ _ _ _ _ _ E1).
Qed.
Lemma addr_word g d k : inode_ok sb (view g) d -> 0 <= k <= NDIRECT -> xint (d_addrs d k) = d_addrs d k.
Proof. intros O Hk. apply xint_id. by apply (wf_addrs _ _ LY (view g)). Qed.
Lemma free_word g : g_ok g -> xint (g_freeblock g) = g_freeblock g.
Proof. intros G. apply xint_id. pose proof (go_block _ G). mksz. Qed.

(** One address of the inode, as [file_block] looks it up. *)
Lemma wp_addr g d k Q :
  g_ok g -> inode_ok sb (view g) d -> 0 <= k <= NDIRECT -> (d_addrs d k = 0 -> g_freeblock g < SWAPBASE) ->
  (forall g' d', grew g d g' d' (if d_addrs d k =? 0 then 1 else 0) -> d_addrs d' k <> 0 ->
     (forall j, j <> k -> d_addrs d' j = d_addrs d j) -> (k < NDIRECT -> ind d' = ind d) ->
     (forall j, 0 <= j < MAXFILE -> j <> k \/ k = NDIRECT -> blk (view g') d' j = blk (view g) d j) -> Q d' g') ->
  wp (if xint (d_addrs d k) =? 0 then b ← next_block; mret (set_addr k (xint b) d) else mret d) g Q.
Proof.
  intros G O Hk Hroom HQ. rewrite (addr_word g) by done. destruct (Z.eqb_spec (d_addrs d k) 0) as [E0|E0].
  2:{ apply wp_ret, HQ; try done. by apply grew_refl. }
  specialize (Hroom E0). pose proof (bump_allocated g G Hroom) as A. pose proof (view_meta g G) as Hm.
  apply wp_bind, wp_next_block; [done|done|]. rewrite free_word by done. apply wp_ret.
  set (r := g_freeblock g) in *. assert (0 < r) as Hr by (pose proof (go_block _ G); unfold r; mksz).
  assert (forall j, j <> k -> d_addrs (set_addr k r d) j = d_addrs d j) as Ej by (intros j Hj; by apply upd_ne).
  assert (k < NDIRECT -> ind (set_addr k r d) = ind d) as Ei by (intros Hlt; apply Ej; lia).
  apply HQ; [|cbn; rewrite upd_eq; lia|done|done|].
  - split; [|by apply bump_ok|done|done]. destruct (decide (k = NDIRECT)) as [->|Hne].
    + by apply (evolves_indirect _ _ LY).
    + apply (evolves_direct _ _ LY); (done || lia).
  - intros j Hj Hjk. destruct (decide (k = NDIRECT)) as [->|Hne].
    + unfold blk. fold (ind d) in E0. rewrite E0. destruct (Z.ltb_spec j NDIRECT); [apply Ej; lia|].
      change (0 =? 0) with true. cbv iota. destruct (ind _ =? 0); [done|]. unfold ind. cbn [d_addrs set_addr]. rewrite upd_eq.
      apply ld_zero. intros i Hi. apply (al_zero _ _ _ _ A). fsz.
    + apply blk_ext; [apply Ei; lia| |intros; apply Ej; lia]. intros H0.
      destruct (io_ind _ _ _ O H0) as [Hd Hu]. apply (al_keeps _ _ _ _ A); [done|]. by eapply data_block_pos; [apply LY|].
Qed.

(** One entry of the indirect block. *)
Lemma wp_entry g d fbn Q :
  g_ok g -> inode_ok sb (view g) d -> NDIRECT <= fbn < MAXFILE -> ind d <> 0 ->
  (blk (view g) d fbn = 0 -> g_freeblock g < SWAPBASE) ->
  (forall g', grew g d g' d (if blk (view g) d fbn =? 0 then 1 else 0) -> blk (view g') d fbn <> 0 ->
     (forall j, 0 <= j < MAXFILE -> j <> fbn -> blk (view g') d j = blk (view g) d j) -> Q (d, blk (view g') d fbn) g') ->
  wp (indirect ← rsect (xint (d_addrs d NDIRECT));
      let a := 4 * (fbn - NDIRECT) in
      indirect ← (if ld32 indirect a =? 0 then
                    b ← next_block;
                    let indirect := st32 indirect a (xint b) in
                    _ ← wsect (xint (d_addrs d NDIRECT)) indirect;
                    mret indirect
                  else mret indirect);
      mret (d, xint (ld32 indirect a))) g Q.
Proof.
  intros G O Hf Hi Hroom HQ. rewrite (addr_word g) by (done || fsz). fold (ind d).
  destruct (io_ind _ _ _ O Hi) as [Hid Hiu]. destruct (data_block_pos _ _ _ LY Hid) as [_ Hib].
  apply wp_bind, wp_rsect; [done|destruct Hid; mksz|].
  assert (forall V, blk V d fbn = ld32 (V (ind d)) (4 * (fbn - NDIRECT))) as Eb.
  { intros V. unfold blk. rewrite (proj2 (Z.ltb_ge _ _)), (proj2 (Z.eqb_neq _ _)) by (done || lia). done. }
  rewrite <- (view_ne g) by done. cbv zeta. rewrite <- Eb. destruct (Z.eqb_spec (blk (view g) d fbn) 0) as [E0|E0].
  2:{ apply wp_bind, wp_ret, wp_ret. rewrite <- Eb, xint_id by (rewrite Eb; apply ld32_range). apply HQ; try done. by apply grew_refl. }
  specialize (Hroom E0). pose proof (bump_allocated g G Hroom) as A. pose proof (bump_ok g G Hroom) as G1.
  apply wp_bind, wp_bind, wp_next_block; [done|done|]. rewrite free_word by done. set (r := g_freeblock g) in *.
  assert (0 < r < 2 ^ 32) as Hr by (pose proof (go_block _ G); unfold r; mksz).
  assert (view (bump g) (ind d) = view g (ind d)) as Ev by by rewrite !view_ne.
  apply wp_bind, wp_wsect; [done|destruct Hid; mksz|]. apply wp_ret, wp_ret.
  set (buf := st32 _ _ _). set (g2 := put_sect (bump g) (ind d) buf).
  assert (forall x, view g2 x = upd (view (bump g)) (ind d) buf x) as E2 by (intros x; by apply view_put).
  assert (blk (view g2) d fbn = r) as Er.
  { rewrite Eb, E2, upd_eq. unfold buf. rewrite ld32_st32_same. apply u32_small. lia. }
  unfold buf at 1. rewrite ld32_st32_same, u32_small, xint_id, <- Er by lia. apply HQ; [| |].
  - split; [|apply put_sect_ok; [done| |done]|done|done].
    + eapply evolves_blocks; [exact E2|]. unfold buf. rewrite <- Ev. apply (evolves_entry _ _ LY); try done. by apply view_meta.
    + destruct Hid. rewrite image_used in Hiu by done. apply andb_true_iff in Hiu as [_ Hiu%Z.ltb_lt]. cbn [bump g_freeblock]. mksz.
  - rewrite Er. lia.
  - intros j Hj Hne. unfold blk. destruct (j <? NDIRECT) eqn:Ej; [done|]. rewrite (proj2 (Z.eqb_neq _ _)) by done.
    rewrite E2, upd_eq. unfold buf. apply ld_st_other. apply Z.ltb_ge in Ej. lia.
Qed.

(** ** How many blocks a file takes *)
Definition blocks_for (size : Z) : Z := cdiv size + if NDIRECT * BSIZE <? size then 1 else 0.
(** The blocks that the part of a block from [off] on needs. *)
Definition need (off : Z) : Z :=
  (if off =? NDIRECT * BSIZE then 1 else 0) + (if off mod BSIZE =? 0 then 1 else 0).
Lemma need_blocks off m : 0 <= off -> 0 < m -> off mod BSIZE + m <= BSIZE -> blocks_for (off + m) = blocks_for off + need off.
Proof.
  unfold blocks_for, need, cdiv. change BSIZE with 1024. change (NDIRECT * 1024) with 12288. intros H1 H2 H3.
  destruct (Z.eqb_spec off 12288), (Z.eqb_spec (off mod 1024) 0), (Z.ltb_spec 12288 off), (Z.ltb_spec 12288 (off + m)); zdiv.
Qed.
Lemma blocks_mono a b : a <= b -> blocks_for a <= blocks_for b.
Proof. intros Hab. unfold blocks_for. pose proof (cdiv_mono a b Hab). bools; lia. Qed.
Lemma blocks_for_0 : blocks_for 0 = 0.
Proof. done. Qed.

Lemma exact_last V d off : exactly V d off -> off < MAXFILE * BSIZE -> (blk V d (off / BSIZE) =? 0) = (off mod BSIZE =? 0).
Proof.
  intros [[H0 _] XD XT _] Hlt. destruct (block_offset off) as [Hq Ho]; [lia|].
  destruct (Z.eqb_spec (off mod BSIZE) 0) as [E|E].
  - apply Z.eqb_eq, XT; [done|]. change BSIZE with 1024 in *. zdiv.
  - apply Z.eqb_neq, XD; [lia|]. change BSIZE with 1024 in *. zdiv.
Qed.
Lemma exact_ind V d off : exactly V d off -> NDIRECT <= off / BSIZE -> (ind d =? 0) = (off =? NDIRECT * BSIZE).
Proof.
  intros [[H0 _] XD XT XI] Hq. assert (NDIRECT * BSIZE <= off) as Hle by (change BSIZE with 1024 in *; zdiv).
  destruct (Z.eqb_spec off (NDIRECT * BSIZE)) as [E|E]; [apply Z.eqb_eq, XI; lia|].
  apply Z.eqb_neq. intros Ei. apply (XD NDIRECT); [done|lia|]. unfold blk. by rewrite Ei.
Qed.

Lemma wp_file_block g d off Q :
  let fbn := off / BSIZE in
  g_ok g -> inode_ok sb (view g) d -> exactly (view g) d off -> off < MAXFILE * BSIZE ->
  g_freeblock g + need off <= SWAPBASE ->
  (forall g' d', grew g d g' d' (need off) -> blk (view g') d' fbn <> 0 ->
     (forall j, 0 <= j < MAXFILE -> j <> fbn -> blk (view g') d' j = blk (view g) d j) ->
     (fbn < NDIRECT -> ind d' = ind d) -> Q (d', blk (view g') d' fbn) g') ->
  wp (file_block d fbn) g Q.
Proof.
  intros fbn G O X Hlt Hroom HQ. destruct (block_offset off) as [Hq Ho]; [pose proof (ex_max _ _ _ X); lia|]. fold fbn in Hq.
  pose proof (exact_last _ _ _ X Hlt) as EL. fold fbn in EL. unfold need in *. unfold file_block.
  destruct (Z.ltb_spec fbn NDIRECT) as [Hd|Hd].
  - assert (forall V d, blk V d fbn = d_addrs d fbn) as Eb by (intros V' d'; unfold blk; by rewrite (proj2 (Z.ltb_lt _ _))).
    assert ((off =? NDIRECT * BSIZE) = false) as En.
    { apply Z.eqb_neq. unfold fbn in Hd. change BSIZE with 1024 in *. zdiv. }
    rewrite En in *. rewrite Eb in EL. apply wp_bind. apply wp_addr; [done|done|lia| |].
    { intros E0. rewrite E0 in EL. cbn in EL. rewrite <- EL in Hroom. lia. }
    intros g' d' GW Hn _ Hi Hj. apply wp_ret. rewrite (addr_word g') by (apply GW || lia). rewrite <- (Eb (view g')).
    rewrite EL in GW. apply HQ; [done|by rewrite Eb| |done]. intros j Hj' Hne. apply Hj; [done|by left].
  - pose proof (exact_ind _ _ _ X Hd) as EI. apply wp_bind.
    assert (0 <= (if off mod BSIZE =? 0 then 1 else 0)) as Hp by (destruct (_ =? 0); lia).
    apply wp_addr; [done|done|fsz| |].
    { intros E0. fold (ind d) in E0. rewrite E0 in EI. cbn in EI. rewrite <- EI in Hroom. lia. }
    fold (ind d). rewrite EI. intros g1 d1 GW1 Hn _ _ Hj. pose proof (gw_block _ _ _ _ _ GW1) as B1.
    assert (blk (view g1) d1 fbn = blk (view g) d fbn) as Eb1 by (apply Hj; [done|by right]).
    apply wp_entry; [apply GW1|apply (gw_ev _ _ _ _ _ GW1)|lia|done| |]; rewrite Eb1, ?EL.
    { intros E0. rewrite E0 in EL. cbn in EL. rewrite <- EL in *. lia. }
    intros g2 GW2 Hn2 Hj2. apply HQ; [by eapply grew_trans|done| |lia].
    intros j Hj' Hne. rewrite Hj2 by done. apply Hj; [done|by right].
Qed.

(** ** [iappend] *)
Definition appended (g : image) (d : dinode) (off : Z) (p : list Z) (g' : image) (d' : dinode) : Prop :=
  evolves sb (view g) d (view g') d' (splice (fbyte (view g) d) off p) /\ g_ok g' /\
  g_freeinode g' = g_freeinode g /\ g_freeblock g' = g_freeblock g + (blocks_for (off + lenZ p) - blocks_for off) /\
  exactly (view g') d' (off + lenZ p).

(** One round: part of a block. *)
Lemma wp_append_block {A} g d off p (k : dinode -> MK A) Q :
  let fbn := off / BSIZE in
  g_ok g -> inode_ok sb (view g) d -> exactly (view g) d off -> 0 < lenZ p -> off mod BSIZE + lenZ p <= BSIZE ->
  off + lenZ p <= MAXFILE * BSIZE -> g_freeblock g + (blocks_for (off + lenZ p) - blocks_for off) <= SWAPBASE ->
  (forall g' d', appended g d off p g' d' -> wp (k d') g' Q) ->
  wp (r ← file_block d fbn;
      let '(d', x) := r in
      buf ← rsect x;
      _ ← wsect x (put_bytes p (off - fbn * BSIZE) buf);
      k d') g Q.
Proof.
  intros fbn G O X Hp Hfit Hmax Hroom HQ. pose proof (ex_max _ _ _ X) as Hoff.
  destruct (block_offset off) as [Hq Ho]; [lia|]. fold fbn in Hq.
  assert (off - fbn * BSIZE = off mod BSIZE) as Em by (unfold fbn; change BSIZE with 1024; zdiv). rewrite Em.
  pose proof (need_blocks off (lenZ p) ltac:(lia) Hp Hfit) as En. apply wp_bind.
  apply wp_file_block; [done|done|done|lia|lia|]. fold fbn. intros g1 d1 GW Hn Hj Hi. set (x := blk (view g1) d1 fbn) in *.
  destruct GW as [EV1 G1 I1 B1]. pose proof (ev_ok _ _ _ _ _ _ EV1) as O1. destruct (io_data _ _ _ O1 fbn Hq Hn) as [Hxd Hxu].
  fold x in Hxd, Hxu. destruct (data_block_pos _ _ _ LY Hxd) as [_ Hxb].
  apply wp_bind, wp_rsect; [done|destruct Hxd; mksz|]. apply wp_bind, wp_wsect; [done|destruct Hxd; mksz|].
  rewrite <- (view_ne g1) by done. set (buf := put_bytes _ _ _). set (g2 := put_sect g1 x buf).
  assert (forall b, view g2 b = upd (view g1) x buf b) as E2 by (intros b; by apply view_put).
  pose proof (evolves_put _ _ LY (view g1) d1 off p O1 (ev_meta _ _ _ _ _ _ EV1) ltac:(lia) Hmax Hp Hfit Hn) as EV2.
  apply HQ. split_and!.
  - eapply evolves_ext; [|eapply fevolves_trans; [exact EV1|eapply evolves_blocks; [exact E2|exact EV2]]].
    intros i Hi'. apply splice_ext. by apply (ev_bytes _ _ _ _ _ _ EV1).
  - apply put_sect_ok; [done| |done]. rewrite image_used in Hxu by done. apply andb_true_iff in Hxu as [_ Hxu%Z.ltb_lt].
    destruct Hxd. mksz.
  - done.
  - cbn [g2 put_sect g_freeblock]. rewrite B1. lia.
  - assert (forall k, 0 <= k < MAXFILE -> blk (view g2) d1 k = blk (view g1) d1 k) as Ek.
    { intros k' Hk'. rewrite (blk_eq _ _ _ _ E2). apply blk_ext; [done| |done]. intros H0. apply upd_ne.
      intros E. by apply H0, (io_sep _ _ _ O1 fbn Hq). }
    assert (off < (fbn + 1) * BSIZE /\ fbn * BSIZE <= off) as Hb by (unfold fbn; change BSIZE with 1024; zdiv).
    assert (off + lenZ p <= (fbn + 1) * BSIZE) by lia.
    split; [lia| | |].
    + intros j H0 Hlt. rewrite Ek by fsz. destruct (decide (j = fbn)) as [->|Hne]; [done|].
      rewrite Hj by (done || fsz). apply (ex_dense _ _ _ X); [done|]. change BSIZE with 1024 in *. lia.
    + intros j Hjr Hge. rewrite Ek by done. assert (j <> fbn) by (change BSIZE with 1024 in *; lia).
      rewrite Hj by done. apply (ex_tight _ _ _ X); [done|]. lia.
    + intros Hle. rewrite Hi by (change BSIZE with 1024 in *; lia). apply (ex_ind _ _ _ X). lia.
Qed.

Lemma appended_trans g d off p1 p2 g1 d1 g2 d2 :
  appended g d off p1 g1 d1 -> appended g1 d1 (off + lenZ p1) p2 g2 d2 -> appended g d off (p1 ++ p2) g2 d2.
Proof.
  intros (E1 & G1 & I1 & B1 & X1) (E2 & G2 & I2 & B2 & X2). unfold appended. rewrite length_app, Nat2Z.inj_add, Z.add_assoc.
  split_and!; [|done|congruence|lia|done].
  eapply evolves_ext; [|by eapply fevolves_trans]. intros i Hi. rewrite <- splice_app. apply splice_ext.
  by apply (ev_bytes _ _ _ _ _ _ E1).
Qed.
Lemma iappend_loop_ok rounds : forall p g d off,
  g_ok g -> inode_ok sb (view g) d -> exactly (view g) d off -> off + lenZ p <= MAXFILE * BSIZE ->
  g_freeblock g + (blocks_for (off + lenZ p) - blocks_for off) <= SWAPBASE -> rounds_of off (lenZ p) <= Z.of_nat rounds ->
  wp (iappend_loop rounds d off p) g (fun r g' => snd r = off + lenZ p /\ appended g d off p g' (fst r)).
Proof.
  induction rounds as [|rounds IH]; intros p g d off G O X Hmax Hroom Hr; cbn [iappend_loop];
    rewrite Z.gtb_ltb; pose proof (ex_max _ _ _ X) as Hoff; destruct (Z.ltb_spec 0 (lenZ p)) as [Hp|Hp].
  2,4: assert (p = []) as -> by (destruct p; [done|cbn in Hp; lia]); apply wp_ret; split; [cbn; lia|];
    unfold appended; cbn [length]; rewrite Z.add_0_r; split_and!; try done; [|lia];
    apply (evolves_ext _ _ _ _ _ (fbyte (view g) d)); [intros; by rewrite splice_nil|apply fevolves_refl; [done|by apply view_meta]].
  all: destruct (chunk_ok off (lenZ p)) as (C1 & C2 & C3 & C4); [lia|done|].
  { lia. }
  rewrite (proj2 (Z.ltb_lt (off / BSIZE) MAXFILE)) by (apply Z.div_lt_upper_bound; [done|fsz]). cbn [negb]. cbv zeta.
  assert (Z.min (lenZ p) ((off / BSIZE + 1) * BSIZE - off) = chunk off (lenZ p)) as ->.
  { unfold chunk. f_equal. change BSIZE with 1024. zdiv. }
  set (m := chunk _ _) in *. set (p1 := take (Z.to_nat m) p). set (p2 := drop (Z.to_nat m) p).
  assert (p = p1 ++ p2) as Ep by (unfold p1, p2; by rewrite take_drop).
  assert (lenZ p1 = m) as L1 by (unfold p1; rewrite length_take; lia).
  assert (lenZ p2 = lenZ p - m) as L2 by (unfold p2; rewrite length_drop; lia).
  assert (blocks_for off <= blocks_for (off + m) <= blocks_for (off + lenZ p)) by (split; apply blocks_mono; lia).
  apply wp_append_block; rewrite ?L1; try done; try lia. intros g1 d1 A1. pose proof A1 as (E1 & G1 & I1 & B1 & X1).
  rewrite L1 in X1, B1.
  eapply wp_mono; [apply (IH p2 g1 d1 (off + m) G1 (ev_ok _ _ _ _ _ _ E1) X1)|].
  - lia.
  - rewrite B1, L2. replace (off + m + (lenZ p - m)) with (off + lenZ p) by lia. lia.
  - rewrite L2. lia.
  - intros [d2 off2] g2 [Eo A2]. cbn [fst snd] in *. split; [lia|]. rewrite Ep.
    eapply appended_trans; [exact A1|by rewrite L1].
Qed.

(** The state between the calls: an image with the files [c] so far, the blocks
    up to [freeblock] in use. *)
Record stage (g : image) (n : Z) (t : Z -> Z) (c : Z -> list Z) : Prop := {
  sg_ok : g_ok g;
  sg_n : g_freeinode g = n;
  sg_image : fs_image sb (view g) n t c }.

Lemma inode_sect i : 1 <= i < NINODES -> sb_inodestart sb <= IBLOCK i sb < bm sb.
Proof.
  intros Hi. assert (0 <= i < sb_ninodes sb) as Hr by mksz. destruct (IBLOCK_inode sb i Hr) as [H1 H2].
  pose proof (ly_inodes _ _ LY). unfold bm. lia.
Qed.
Lemma wp_winode g i d (Q : unit -> image -> Prop) :
  g_ok g -> 1 <= i < NINODES ->
  (forall g', g_ok g' -> g_freeinode g' = g_freeinode g -> g_freeblock g' = g_freeblock g ->
     (forall b, view g' b = upd (view g) (IBLOCK i sb) (store_inode sb (view g) i d) b) -> Q tt g') ->
  wp (winode i d) g Q.
Proof.
  intros G Hi HQ. pose proof (inode_sect i Hi) as Hs. pose proof (go_block _ G). unfold winode.
  apply wp_bind, wp_rsect; [done|mksz|]. apply wp_wsect; [done|mksz|]. rewrite <- view_ne by lia.
  apply HQ; [apply put_sect_ok; [done|mksz|lia]|done|done|]. intros b. apply view_put. lia.
Qed.
Lemma wp_rinode g i (Q : dinode -> image -> Prop) : g_ok g -> 1 <= i < NINODES -> Q (inode_at sb (view g) i) g -> wp (rinode i) g Q.
Proof.
  intros G Hi HQ. pose proof (inode_sect i Hi) as Hs. unfold rinode. apply wp_bind, wp_rsect; [done|mksz|].
  apply wp_ret. unfold inode_at in HQ. rewrite view_ne in HQ by lia. done.
Qed.

Lemma image_ext V n t c t' c' :
  (forall i, 1 <= i < n -> t' i = t i) -> (forall i, 1 <= i < n -> c' i = c i) -> fs_image sb V n t c -> fs_image sb V n t' c'.
Proof.
  intros Et Ec [M F T A]. split; try done; intros i Hi; [rewrite Ec by done; by apply F|rewrite Et by done; by apply T].
Qed.

Lemma iappend_ok g n t c i p :
  stage g n t c -> 1 <= i < n -> lenZ (c i) + lenZ p <= MAXFILE * BSIZE ->
  g_freeblock g + (blocks_for (lenZ (c i) + lenZ p) - blocks_for (lenZ (c i))) <= SWAPBASE ->
  wp (iappend i p) g (fun _ g' => stage g' n t (upd c i (c i ++ p)) /\
    g_freeblock g' = g_freeblock g + (blocks_for (lenZ (c i) + lenZ p) - blocks_for (lenZ (c i)))).
Proof.
  intros [G En IM] Hi Hmax Hroom. pose proof (go_inode _ G). pose proof (fm_file _ _ _ _ _ IM i Hi) as [O Wf Es X By].
  unfold iappend. apply wp_bind, wp_rinode; [done|lia|]. rewrite xint_id by apply Wf. apply wp_bind. rewrite Es.
  eapply wp_mono; [apply iappend_loop_ok; try done|].
  { apply (io_rounds_enough (lenZ (c i)) (lenZ p)); lia. }
  intros [d1 off] g1 [Eo (E1 & G1 & I1 & B1 & X1)]. cbn [fst snd] in *. rewrite Eo.
  assert (lenZ (c i) + lenZ p = lenZ (c i ++ p)) as El by (rewrite length_app; lia).
  rewrite xint_id by (change (MAXFILE * BSIZE) with 274432 in *; lia).
  apply wp_winode; [done|lia|]. intros g2 G2 I2 B2 V2. split; [|congruence]. split; [done|congruence|].
  apply (image_ext _ _ (upd t i (t i)) (upd c i (c i ++ p))); [intros j Hj; unfold upd; by destruct (Z.eqb_spec j i) as [->|]|done|].
  rewrite El in V2, X1. eapply (image_append _ _ LY (view g) (view g1)); try done. mksz.
Qed.

Lemma ialloc_ok g n t c type :
  stage g n t c -> n < NINODES -> 0 <= type < 2 ^ 15 ->
  wp (mk_ialloc type) g (fun r g' => r = n /\ stage g' (n + 1) (upd t n type) (upd c n []) /\ g_freeblock g' = g_freeblock g).
Proof.
  intros [G En IM] Hn Ht. pose proof (go_inode _ G) as Hg. rewrite En in Hg. unfold mk_ialloc.
  apply wp_bind, wp_gets. rewrite En. apply wp_bind, wp_modify. rewrite u32_small by mksz. set (g1 := Img _ _ _ _).
  assert (g_ok g1) as G1 by (destruct G as [A1 A2 A3 A4 A5]; split; try done; cbn; mksz).
  apply wp_bind, wp_winode; [done|mksz|]. intros g2 G2 I2 B2 V2. apply wp_ret. split; [done|]. split; [|done].
  split; [done|done|]. rewrite xshort_id in V2 by lia.
  eapply (image_new _ _ LY (view g)); [done|lia|mksz|unfold short; lia|]. exact V2.
Qed.

(** * The files of the command line *)
Definition content (f : list Z * option (list (list Z))) : list Z := concat (default [] (snd f)).
Definition name_of (f : list Z * option (list (list Z))) : list Z := skip_underscore (strip_user (fst f)).
(** What mkfs asserts of a file, and what it assumes of it. *)
Record file_fits (f : list Z * option (list (list Z))) : Prop := {
  ff_slash : existsb (fun c => c =? SLASH) (strip_user (fst f)) = false;
  ff_open : is_Some (snd f);
  ff_name : lenZ (name_of f) <= DIRSIZ;
  ff_bytes : Forall (fun b => 0 <= b < 256) (name_of f);
  ff_size : lenZ (content f) <= MAXFILE * BSIZE }.
Fixpoint file_blocks (files : list (list Z * option (list (list Z)))) : Z :=
  match files with
  | [] => 0
  | f :: files => blocks_for (lenZ (content f)) + file_blocks files
  end.
(** The root directory with the inodes from [n] on for [files]. *)
Fixpoint root_entries (n : Z) (files : list (list Z * option (list (list Z)))) : list Z :=
  match files with
  | [] => []
  | f :: files => dirent_bytes n (name_of f) ++ root_entries (n + 1) files
  end.
Lemma blocks_pos s : 0 <= s -> 0 <= blocks_for s.
Proof. intros Hs. rewrite <- blocks_for_0. by apply blocks_mono. Qed.
Lemma file_blocks_pos files : 0 <= file_blocks files.
Proof. induction files as [|f files IH]; cbn [file_blocks]; [done|]. pose proof (blocks_pos (lenZ (content f))). lia. Qed.
Lemma root_entries_len n files : lenZ (root_entries n files) = DIRENT * lenZ files.
Proof.
  revert n. induction files as [|f files IH]; intros n; [done|]. cbn [root_entries]. rewrite length_app, Nat2Z.inj_add.
  rewrite dirent_len, IH. cbn [length]. lia.
Qed.

Lemma stage_ext g n t c t' c' :
  (forall i, 1 <= i < n -> t' i = t i) -> (forall i, 1 <= i < n -> c' i = c i) -> stage g n t c -> stage g n t' c'.
Proof. intros Et Ec [G E IM]. split; try done. by eapply image_ext. Qed.

Lemma chunks_ok l : forall g n t c i,
  stage g n t c -> 1 <= i < n -> lenZ (c i) + lenZ (concat l) <= MAXFILE * BSIZE ->
  g_freeblock g + (blocks_for (lenZ (c i) + lenZ (concat l)) - blocks_for (lenZ (c i))) <= SWAPBASE ->
  wp (for_each l (iappend i)) g (fun _ g' => stage g' n t (upd c i (c i ++ concat l)) /\
    g_freeblock g' = g_freeblock g + (blocks_for (lenZ (c i) + lenZ (concat l)) - blocks_for (lenZ (c i)))).
Proof.
  induction l as [|p l IH]; intros g n t c i ST Hi Hmax Hroom; cbn [for_each concat] in *.
  { apply wp_ret. split; [|cbn [length]; rewrite Z.add_0_r; lia]. eapply stage_ext; [done| |done].
    intros j Hj. unfold upd. destruct (Z.eqb_spec j i) as [->|]; [by rewrite app_nil_r|done]. }
  rewrite length_app, Nat2Z.inj_add, Z.add_assoc in Hmax, Hroom |- *.
  assert (blocks_for (lenZ (c i)) <= blocks_for (lenZ (c i) + lenZ p) <= blocks_for (lenZ (c i) + lenZ p + lenZ (concat l)))
    by (split; apply blocks_mono; lia).
  apply wp_bind. eapply wp_mono; [by apply (iappend_ok g n t c i p ST Hi); lia|]. intros _ g1 [S1 B1].
  assert (lenZ (upd c i (c i ++ p) i) = lenZ (c i) + lenZ p) as El by (rewrite upd_eq, length_app; lia).
  eapply wp_mono; [apply (IH g1 n t _ i S1 Hi)|]; rewrite El; [lia|lia|].
  intros _ g2 [S2 B2]. split; [|lia]. eapply stage_ext; [done| |exact S2]. intros j Hj. unfold upd. rewrite Z.eqb_refl.
  destruct (Z.eqb_spec j i); [by rewrite app_assoc|done].
Qed.

Lemma add_file_ok g n t c f :
  let e := dirent_bytes n (name_of f) in
  stage g n t c -> 2 <= n < NINODES -> file_fits f -> lenZ (c 1) + DIRENT <= MAXFILE * BSIZE ->
  let k := blocks_for (lenZ (c 1) + DIRENT) - blocks_for (lenZ (c 1)) + blocks_for (lenZ (content f)) in
  g_freeblock g + k <= SWAPBASE ->
  wp (add_file 1 f) g (fun _ g' => stage g' (n + 1) (upd t n T_FILE) (upd (upd c n (content f)) 1 (c 1 ++ e)) /\
    g_freeblock g' = g_freeblock g + k).
Proof.
  intros e ST Hn [Fs [l El] Fn Fb Fz] Hmax k Hroom. unfold k in *. clear k. unfold add_file. fold (name_of f). rewrite Fs, El.
  rewrite (proj2 (Z.leb_le _ _)) by done. cbn [negb]. assert (content f = concat l) as Ec by (unfold content; by rewrite El).
  assert (blocks_for (lenZ (c 1)) <= blocks_for (lenZ (c 1) + DIRENT)) as Hr1 by (apply blocks_mono; unfold DIRENT; lia).
  pose proof (blocks_pos (lenZ (content f)) ltac:(lia)) as Hr2.
  apply wp_bind. eapply wp_mono; [apply (ialloc_ok g n t c T_FILE ST); [lia|done]|]. intros r g1 (-> & S1 & B1).
  assert (upd c n [] 1 = c 1) as E1 by (apply upd_ne; lia).
  apply wp_bind. eapply wp_mono; [apply (iappend_ok g1 _ _ _ 1 (dirent_bytes n (name_of f)) S1)|];
    rewrite ?E1, ?dirent_len; [lia|lia|lia|]. fold e. intros _ g2 [S2 B2]. set (c2 := upd (upd c n []) 1 _) in S2.
  assert (c2 n = []) as E2 by (unfold c2; rewrite upd_ne, upd_eq by lia; done).
  pose proof (chunks_ok l g2 _ _ c2 n S2) as HC. rewrite E2, <- Ec in HC. change (lenZ (@nil Z)) with 0 in HC.
  rewrite !Z.add_0_l, blocks_for_0 in HC.
  eapply wp_mono; [apply HC; lia|].
  intros _ g3 [S3 B3]. split; [|lia]. eapply stage_ext; [done| |exact S3]. intros j Hj. cbn [app]. unfold c2, upd.
  destruct (Z.eqb_spec j n), (Z.eqb_spec j 1); (lia || done).
Qed.

(** What the loop over the arguments adds to the files [c] below [n]. *)
Record added (n : Z) (t : Z -> Z) (c : Z -> list Z) (files : list (list Z * option (list (list Z))))
    (t' : Z -> Z) (c' : Z -> list Z) : Prop := {
  ad_root : c' 1 = c 1 ++ root_entries n files /\ t' 1 = t 1;
  ad_file k f : files !! k = Some f -> c' (n + Z.of_nat k) = content f /\ t' (n + Z.of_nat k) = T_FILE;
  ad_old i : 1 < i < n -> c' i = c i /\ t' i = t i }.

Lemma add_files_ok files : forall g n t c,
  stage g n t c -> 2 <= n -> n + lenZ files <= NINODES -> Forall file_fits files ->
  lenZ (c 1) + DIRENT * lenZ files <= MAXFILE * BSIZE ->
  let k := blocks_for (lenZ (c 1) + DIRENT * lenZ files) - blocks_for (lenZ (c 1)) + file_blocks files in
  g_freeblock g + k <= SWAPBASE ->
  wp (for_each files (add_file 1)) g (fun _ g' => exists t' c', stage g' (n + lenZ files) t' c' /\ added n t c files t' c' /\
    g_freeblock g' = g_freeblock g + k).
Proof.
  induction files as [|f files IH]; intros g n t c ST Hn Hmax Hf Hd k Hroom; cbn [for_each].
  { apply wp_ret. exists t, c. unfold k. cbn [length file_blocks]. rewrite Z.mul_0_r, !Z.add_0_r. split_and!; [done| |lia].
    split; [by rewrite app_nil_r|done|done]. }
  apply Forall_cons in Hf as [Ff Hf]. unfold k in *. clear k. cbn [length file_blocks] in *. rewrite Nat2Z.inj_succ in *.
  assert (lenZ (c 1) + DIRENT * Z.succ (lenZ files) = lenZ (c 1) + DIRENT + DIRENT * lenZ files) as El by lia.
  rewrite El in *. change DIRENT with 16 in *.
  assert (blocks_for (lenZ (c 1) + 16) <= blocks_for (lenZ (c 1) + 16 + 16 * lenZ files)) by (apply blocks_mono; lia).
  pose proof (file_blocks_pos files).
  apply wp_bind. eapply wp_mono; [apply (add_file_ok g n t c f ST); [lia|done|change DIRENT with 16; lia|]|].
  { change DIRENT with 16. lia. }
  intros _ g1 [S1 B1]. change DIRENT with 16 in B1. set (c1 := upd (upd c n _) 1 _) in S1.
  assert (lenZ (c1 1) = lenZ (c 1) + 16) as E1 by (unfold c1; rewrite upd_eq, length_app, Nat2Z.inj_add, dirent_len; done).
  eapply wp_mono; [apply (IH g1 (n + 1) _ c1 S1)|]; change DIRENT with 16; rewrite ?E1; [lia|lia|done|lia|lia|].
  intros _ g2 (t' & c' & S2 & [[A1 A1'] A2 A3] & B2). exists t', c'.
  replace (n + Z.succ (lenZ files)) with (n + 1 + lenZ files) by lia. split_and!; [done| |lia].
  split.
  - rewrite A1, A1'. unfold c1. rewrite upd_eq, upd_ne by lia. cbn [root_entries]. by rewrite app_assoc.
  - intros [|j] f' Hj; cbn in Hj.
    + injection Hj as <-. rewrite Z.add_0_r. destruct (A3 n) as [-> ->]; [lia|]. unfold c1. rewrite upd_ne, !upd_eq by lia. done.
    + replace (n + Z.of_nat (S j)) with (n + 1 + Z.of_nat j) by lia. by apply A2.
  - intros i Hi. destruct (A3 i) as [-> ->]; [lia|]. unfold c1. rewrite !upd_ne by lia. done.
Qed.

(** * The root directory *)
Definition root_list (files : list (list Z * option (list (list Z)))) : list (Z * list Z) :=
  (ROOTINO, [DOT]) :: (ROOTINO, [DOT; DOT]) :: zip (seqZ 2 (lenZ files)) (name_of <$> files).
Definition entries_data (es : list (Z * list Z)) : list Z := concat ((fun e => dirent_bytes e.1 e.2) <$> es).
(** The first entry with a name, and its offset. *)
Fixpoint name_lookup (es : list (Z * list Z)) (off : Z) (name : list Z) : option (Z * Z) :=
  match es with
  | [] => None
  | (inum, n) :: es => if bool_decide (dname name = dname n) then Some (inum, off) else name_lookup es (off + DIRENT) name
  end.

Lemma root_entries_data files : forall n,
  root_entries n files = entries_data (zip (seqZ n (lenZ files)) (name_of <$> files)).
Proof.
  induction files as [|f files IH]; intros n; [done|]. cbn [root_entries length]. rewrite IH, Nat2Z.inj_succ.
  rewrite (seqZ_cons n) by lia. rewrite Z.pred_succ. cbn [fmap list_fmap zip zip_with]. unfold entries_data. cbn. by rewrite Z.add_1_r.
Qed.
Lemma entries_len es : lenZ (entries_data es) = DIRENT * lenZ es.
Proof.
  induction es as [|e es IH]; [done|]. unfold entries_data in *. cbn [fmap list_fmap concat length].
  rewrite length_app, Nat2Z.inj_add, IH, dirent_len. lia.
Qed.

Lemma entry_at c off name inum :
  0 < inum < 2 ^ 16 -> Forall (fun b => 0 <= b < 256) name ->
  (forall i, 0 <= i < DIRENT -> c (off + i) = zth (dirent_bytes inum name) i) ->
  ent_inum c off = inum /\ ent_name c off = dname name.
Proof.
  intros Hi Hn Hc. destruct (splice_entry c off name inum Hi Hn) as (E1 & E2 & _).
  rewrite <- dirent_entry in E1, E2 by lia. set (c' := splice _ _ _) in *.
  assert (forall i, 0 <= i < DIRENT -> c (off + i) = c' (off + i)) as Ec.
  { intros i Hr. rewrite Hc by done. unfold c', splice. rewrite length_fmap, dirent_len.
    rewrite (proj2 (Z.leb_le off _)), (proj2 (Z.ltb_lt _ _)) by lia. cbn [andb]. rewrite Z.add_simpl_l.
    unfold zth. rewrite <- (u8_small 0) at 2 by lia. rewrite map_nth. unfold u8. by rewrite Z.mod_mod. }
  change DIRENT with 16 in *. split.
  - rewrite <- E1. unfold ent_inum. rewrite <- (Z.add_0_r off) at 1 3. rewrite !Ec by lia. done.
  - rewrite <- E2. unfold ent_name. f_equal. apply list_fmap_ext. intros i x Hx%lookup_seqZ. change DIRSIZ with 14 in *.
    replace x with (off + (x - off)) by lia. apply Ec. lia.
Qed.
Lemma dir_scan_zero c name : forall k off,
  (forall i, off <= i < off + DIRENT * Z.of_nat k -> c i = 0) -> dir_scan c k off name = None.
Proof.
  change DIRENT with 16. induction k as [|k IH]; intros off Hc; [done|]. cbn [dir_scan]. unfold ent_inum. rewrite !Hc by lia.
  cbn. apply IH. change DIRENT with 16. intros i Hi. apply Hc. lia.
Qed.
Lemma dir_scan_entries c name extra es : forall off,
  Forall (fun e => 0 < e.1 < 2 ^ 16 /\ Forall (fun b => 0 <= b < 256) e.2) es ->
  (forall i, 0 <= i < DIRENT * (lenZ es + Z.of_nat extra) -> c (off + i) = zth (entries_data es) i) ->
  dir_scan c (length es + extra) off name = name_lookup es off name.
Proof.
  induction es as [|[inum n] es IH]; intros off Hf Hc.
  { apply dir_scan_zero. intros i Hi. replace i with (off + (i - off)) by lia. rewrite Hc by (change DIRENT with 16 in *; cbn [length] in *; lia).
    unfold zth, entries_data. cbn. by destruct (Z.to_nat _). }
  apply Forall_cons in Hf as [[H1 H2] Hf]. cbn [fst snd] in *. cbn [length] in Hc. rewrite Nat2Z.inj_succ in Hc.
  assert (entries_data ((inum, n) :: es) = dirent_bytes inum n ++ entries_data es) as Ed by done. rewrite Ed in Hc.
  pose proof (dirent_len inum n) as Ln.
  destruct (entry_at c off n inum H1 H2) as [E1 E2].
  { intros i Hi. rewrite Hc by lia. unfold zth. rewrite app_nth1 by lia. done. }
  cbn [length Nat.add dir_scan name_lookup]. rewrite E1, E2, (proj2 (Z.eqb_neq _ _)) by lia. rewrite IH; [done|done|].
  intros i Hi. rewrite <- Z.add_assoc, Hc by (change DIRENT with 16 in *; lia). unfold zth. rewrite app_nth2 by (change DIRENT with 16 in *; lia).
  do 2 f_equal. change DIRENT with 16 in *. lia.
Qed.

(** * The end of [main] *)
Lemma nth_zeros k j : nth j (replicate k 0) 0 = 0.
Proof. revert j. induction k as [|k IH]; intros [|j]; try done. apply IH. Qed.
Definition pad (n : Z) : Z := (n / BSIZE + 1) * BSIZE - n.
Lemma fix_root_ok g n t c :
  let m := lenZ (c 1) in
  stage g n t c -> 2 <= n -> m mod BSIZE <> 0 ->
  wp (fix_root 1) g (fun _ g' => stage g' n t (upd c 1 (c 1 ++ replicate (Z.to_nat (pad m)) 0)) /\ g_freeblock g' = g_freeblock g).
Proof.
  intros m [G En IM] Hn Hm. pose proof (go_inode _ G). pose proof (fm_file _ _ _ _ _ IM 1 ltac:(lia)) as F.
  destruct F as [O Wf Es [XM XD XT XI] By]. fold m in Es, XM, XD, XT, XI.
  assert (0 < pad m < BSIZE /\ m / BSIZE < MAXFILE) as [Hp Hq].
  { unfold pad. change MAXFILE with 268 in *. change BSIZE with 1024 in *. zdiv. }
  set (data := c 1 ++ _). assert (lenZ data = m + pad m) as El by (unfold data; rewrite length_app, length_replicate, Nat2Z.inj_add; fold m; lia).
  unfold fix_root. apply wp_bind, wp_rinode; [done|mksz|]. rewrite (xint_id (d_size _)) by apply Wf. rewrite Es.
  assert ((m / BSIZE + 1) * BSIZE = m + pad m) as -> by (unfold pad; lia). rewrite <- El.
  assert (lenZ data <= MAXFILE * BSIZE) as Hmax by (rewrite El; unfold pad; change BSIZE with 1024 in *; lia).
  rewrite xint_id by fsz. apply wp_winode; [done|mksz|]. intros g' G' I' B' V'. split; [|done]. split; [done|congruence|].
  destruct (fm_type _ _ _ _ _ IM 1 ltac:(lia)) as [Et Enl]. set (d2 := set_size _ _) in V'.
  assert (file_ok sb (view g) d2 data) as F2.
  { split; [by destruct O| |done| |].
    - destruct Wf as [W1 W2 W3 W4 W5 W6]. split; try done. change (0 <= lenZ data < 2 ^ 32). fsz.
    - split; [lia| |intros k Hk Hl; apply XT; [done|lia]|intros Hl; apply XI; lia].
      intros k Hk Hl. apply XD; [done|]. rewrite El in Hl. unfold pad in Hl. change BSIZE with 1024 in *. zdiv.
    - intros i Hi. transitivity (zth (c 1) i); [by apply By|]. unfold zth, data.
      destruct (Z.lt_ge_cases i m) as [Hl|Hl]; unfold m in Hl; [by rewrite app_nth1 by lia|].
      rewrite app_nth2, (nth_overflow (c 1)), nth_zeros by lia. done. }
  eapply image_ext; [| |eapply (image_set _ _ LY (view g) (view g) (view g') n n t c 1 d2 data IM);
    [lia|by left|mksz|apply IM|exact F2|exact Enl|done|done| |exact V']].
  - intros i Hi. unfold upd. destruct (Z.eqb_spec i 1) as [->|]; [by symmetry|done].
  - done.
  - intros j b Hj Hne Hb. split; [done|]. intros Ho. eapply (fm_apart _ _ _ _ _ IM 1 j b); [lia|done|lia|exact Ho|done].
Qed.

(** When the entries fill whole blocks, the size is one block too large. *)
Lemma fix_root_hole g n t c :
  let m := lenZ (c 1) in
  stage g n t c -> 2 <= n -> m mod BSIZE = 0 -> m < NDIRECT * BSIZE -> t 1 <> 0 ->
  wp (fix_root 1) g (fun _ g' => let d := inode_at sb (view g') 1 in
    g_ok g' /\ g_freeblock g' = g_freeblock g /\ inode_ok sb (view g') d /\ d_type d <> 0 /\
    d_size d = m + BSIZE /\ d_addrs d (m / BSIZE) = 0).
Proof.
  intros m [G En IM] Hn Hm Hmax Ht. pose proof (go_inode _ G). pose proof (fm_file _ _ _ _ _ IM 1 ltac:(lia)) as [O Wf Es X By].
  fold m in Es, X. pose proof (ex_max _ _ _ X) as [H0 _]. assert ((m / BSIZE + 1) * BSIZE = m + BSIZE) as Em.
  { change BSIZE with 1024 in *. zdiv. }
  assert (0 <= m / BSIZE < NDIRECT) as Hq by (change BSIZE with 1024 in *; zdiv).
  unfold fix_root. apply wp_bind, wp_rinode; [done|mksz|]. rewrite (xint_id (d_size _)) by apply Wf. rewrite Es, Em.
  rewrite xint_id by fsz. apply wp_winode; [done|mksz|]. set (d2 := set_size _ _). intros g' G' I' B' V'. cbv beta zeta. set (d := inode_at sb (view g') 1).
  assert (dinode_wf d2) as Wf2 by (destruct Wf; split; try done; change (0 <= m + BSIZE < 2 ^ 32); fsz).
  assert (dinode_eq d2 d) as Ed.
  { unfold d, inode_at. rewrite V', upd_eq. by apply get_put_dinode. }
  pose proof Ed as [(Ty & _ & _ & _ & Sz) Ea]. pose proof (inode_sect 1 ltac:(mksz)) as Hsec.
  assert (forall b, used sb (view g') b = used sb (view g) b) as Eu by (intros b; rewrite !image_used, B' by done; done).
  split_and!; [done|done| | |by rewrite Sz|].
  - eapply (same_file_inode sb (view g) d2); [|intros b; by rewrite Eu|by destruct O]. apply same_file_intro; [done|].
    intros b Hb. rewrite V', upd_ne; [done|]. assert (bm sb < b) by (eapply (owned_block _ _ LY (view g) d2); [by destruct O|done]). lia.
  - rewrite Ty. destruct (fm_type _ _ _ _ _ IM 1 ltac:(lia)) as [Et _]. unfold d2. cbn [set_size d_type]. by rewrite Et.
  - rewrite Ea by lia. pose proof (ex_tight _ _ _ X (m / BSIZE)) as Hz. unfold blk in Hz. rewrite (proj2 (Z.ltb_lt _ _)) in Hz by lia.
    apply Hz; [fsz|]. change BSIZE with 1024 in *. zdiv.
Qed.

Lemma format_ok k : forall i g,
  (forall b, g_disk g b = zeroes) -> g_size g = i -> 0 <= i ->
  wp (for_each (seqZ i (Z.of_nat k)) (fun i => wsect i zeroes)) g (fun _ g' =>
    (forall b, g_disk g' b = zeroes) /\ g_size g' = i + Z.of_nat k /\
    g_freeinode g' = g_freeinode g /\ g_freeblock g' = g_freeblock g).
Proof.
  induction k as [|k IH]; intros i g Hz Hs Hi.
  { apply wp_ret. split_and!; [done|lia|done|done]. }
  rewrite seqZ_cons by lia. cbn [for_each]. apply wp_bind, wp_modify.
  replace (Z.pred (Z.of_nat (S k))) with (Z.of_nat k) by lia. set (g1 := Img _ _ _ _).
  eapply wp_mono; [apply (IH (Z.succ i) g1)|].
  - intros b. cbn. unfold upd. by destruct (b =? i).
  - cbn. lia.
  - lia.
  - intros _ g' (H1 & H2 & H3 & H4). split_and!; [done|lia|done|done].
Qed.

(** The root directory has its two entries. *)
Lemma start_ok g (k : Z -> MK unit) Q :
  (forall b, g_disk g b = zeroes) -> g_size g = FSSIZE -> g_freeinode g = 1 -> g_freeblock g = nmeta ->
  (forall g' t c, stage g' 2 t c -> t 1 = T_DIR -> c 1 = dirent_bytes ROOTINO [DOT] ++ dirent_bytes ROOTINO [DOT; DOT] ->
     g_freeblock g' = nmeta + blocks_for (2 * DIRENT) -> wp (k 1) g' Q) ->
  wp (_ ← wsect 1 (put_sb sb (mfill zeroes 0 0 BSIZE));
      rootino ← mk_ialloc T_DIR;
      if negb (rootino =? ROOTINO) then panic "assert"
      else
        _ ← iappend rootino (dirent_bytes rootino [DOT]);
        _ ← iappend rootino (dirent_bytes rootino [DOT; DOT]);
        k rootino) g Q.
Proof.
  intros Hz Hs Hi Hb HQ. apply wp_bind. unfold wsect. apply wp_modify. rewrite Hs, Z.max_l by done. set (g1 := Img _ _ _ _).
  assert (stage g1 1 (fun _ => 0) (fun _ => [])) as S1.
  { assert (g_ok g1) as G1.
    { split; cbn; rewrite ?Hi, ?Hb; try done.
      - intros b Hr. unfold upd, boot_block. by destruct (b =? 1).
      - intros b Hr. rewrite upd_ne by mksz. done. }
    split; [done|done|]. split; [by apply view_meta|lia..]. }
  apply wp_bind. eapply wp_mono; [by apply (ialloc_ok g1 1 _ _ T_DIR S1)|]. intros r g2 (-> & S2 & B2).
  set (c2 := upd (fun _ : Z => @nil Z) 1 []) in S2. set (e1 := dirent_bytes 1 [DOT]). set (e2 := dirent_bytes 1 [DOT; DOT]).
  change (negb (1 =? ROOTINO)) with false. cbv iota.
  assert (c2 1 = []) as E2 by done. assert (g_freeblock g1 = nmeta) as B1 by exact Hb. clearbody c2.
  pose proof (dirent_len 1 [DOT]) as L1. pose proof (dirent_len 1 [DOT; DOT]) as L2. fold e1 in L1. fold e2 in L2.
  pose proof (iappend_ok g2 2 _ c2 1 e1 S2) as H1. rewrite E2, L1 in H1. change (lenZ (@nil Z)) with 0 in H1. rewrite Z.add_0_l in H1.
  apply wp_bind. eapply wp_mono; [apply H1; [lia|done|rewrite B2, B1; by vm_compute]|]. intros _ g3 [S3 B3].
  set (c3 := upd c2 1 _) in S3. assert (c3 1 = e1) as E3 by apply upd_eq. clearbody c3.
  pose proof (iappend_ok g3 2 _ c3 1 e2 S3) as H2. rewrite E3, L1, L2 in H2.
  apply wp_bind. eapply wp_mono; [apply H2; [lia|done|rewrite B3, B2, B1; by vm_compute]|]. intros _ g4 [S4 B4].
  eapply (HQ g4); [exact S4|done|by rewrite upd_eq|]. rewrite B4, B3, B2, B1. done.
Qed.

(** Files that fit on the disk. *)
Record fits (files : list (list Z * option (list (list Z)))) : Prop := {
  ft_count : 2 + lenZ files <= NINODES;
  ft_files : Forall file_fits files;
  ft_blocks : nmeta + blocks_for (DIRENT * (2 + lenZ files)) + file_blocks files <= SWAPBASE }.

(** [main] up to the rounding of the size of the root directory. *)
Lemma mkfs_run files Q :
  fits files ->
  (forall g t c, stage g (2 + lenZ files) t c -> t 1 = T_DIR -> c 1 = entries_data (root_list files) ->
     (forall k f, files !! k = Some f -> c (2 + Z.of_nat k) = content f /\ t (2 + Z.of_nat k) = T_FILE) ->
     g_freeblock g = nmeta + blocks_for (DIRENT * (2 + lenZ files)) + file_blocks files ->
     wp (_ ← fix_root 1; used ← gets g_freeblock; mk_balloc used) g Q) ->
  wp (mkfs files) image0 Q.
Proof.
  intros [F1 F2 F3] HQ. unfold mkfs. apply wp_bind. change FSSIZE with (Z.of_nat (Z.to_nat FSSIZE)).
  eapply wp_mono; [apply format_ok; done|]. change (0 + Z.of_nat (Z.to_nat FSSIZE)) with FSSIZE.
  intros _ g0 (Hz & Hs & Hi & Hb).
  apply start_ok; try done. intros g t c ST Et Ec Eb.
  assert (lenZ (c 1) = DIRENT * 2) as L1 by (rewrite Ec, length_app, Nat2Z.inj_add, !dirent_len; done).
  assert (DIRENT * 2 + DIRENT * lenZ files = DIRENT * (2 + lenZ files)) as El by lia.
  apply wp_bind. eapply wp_mono; [apply (add_files_ok files g 2 t c ST)|]; rewrite ?L1, ?El; try done.
  - change DIRENT with 16. change (MAXFILE * BSIZE) with 274432. mksz.
  - rewrite Eb. change (2 * DIRENT) with (DIRENT * 2). lia.
  - intros _ g1 (t' & c' & S' & [[A1 A1'] A2 A3] & B'). eapply HQ; [exact S'|by rewrite A1'| |exact A2|].
    + rewrite A1, Ec, root_entries_data. unfold entries_data, root_list. cbn [fmap list_fmap concat fst snd]. by rewrite <- app_assoc.
    + rewrite B', Eb. change (2 * DIRENT) with (DIRENT * 2). lia.
Qed.

Lemma wp_bitmap g (Q : unit -> image -> Prop) :
  g_ok g -> (forall g', g_disk g' = view g -> Q tt g') -> wp (used ← gets g_freeblock; mk_balloc used) g Q.
Proof.
  intros G HQ. pose proof (go_block _ G). apply wp_bind, wp_gets. unfold mk_balloc.
  rewrite (proj2 (Z.ltb_lt _ _)) by (change BPB with 8192; mksz). cbn [negb]. apply wp_modify, HQ. cbn [g_disk].
  rewrite <- (Z2Nat.id (g_freeblock g)) at 1 by mksz. by rewrite bits_loop.
Qed.
Lemma get_put_sb d : get_sb (put_sb sb d) = sb.
Proof. rewrite sb_fields. unfold get_sb, put_sb. cbn [sb_magic sb_size sb_nblocks sb_ninodes sb_nlog sb_logstart sb_inodestart sb_bmapstart].
  f_equal; repeat (rewrite ld_st_other by lia); by rewrite ld32_st32_same.
Qed.

(** * What mkfs promises to the kernel *)
(** The image of [files]: superblock, empty log, bitmap, inodes and root. *)
Record built (V : Z -> mem) (files : list (list Z * option (list (list Z)))) : Prop := {
  bu_sb : get_sb (V 1) = sb;
  bu_log : ld32 (V (sb_logstart sb)) 0 = 0;
  bu_used b : 0 <= b -> used sb V b = (b <? nmeta + blocks_for (DIRENT * (2 + lenZ files)) + file_blocks files);
  bu_image : exists t c, fs_image sb V (2 + lenZ files) t c /\ t ROOTINO = T_DIR /\
    (forall k f, files !! k = Some f -> c (2 + Z.of_nat k) = content f /\ t (2 + Z.of_nat k) = T_FILE);
  bu_root : dir_ok V (inode_at sb V ROOTINO);
  bu_find name : dir_find V (inode_at sb V ROOTINO) name = name_lookup (root_list files) 0 name }.

Lemma root_list_fits files : fits files -> Forall (fun e => 0 < e.1 < 2 ^ 16 /\ Forall (fun b => 0 <= b < 256) e.2) (root_list files).
Proof.
  intros [F1 F2 _]. repeat (apply Forall_cons; split; [split; [done|repeat constructor; done]|]).
  apply Forall_lookup. intros k [i n] (Hi & Hn)%lookup_zip_Some. apply lookup_seqZ in Hi. cbn [fst snd]. split; [mksz|].
  apply list_lookup_fmap_Some in Hn as (f & -> & Hf). by apply (Forall_lookup_1 _ _ _ _ F2 Hf).
Qed.
Lemma root_list_len files : lenZ (root_list files) = 2 + lenZ files.
Proof. unfold root_list. cbn [length]. rewrite length_zip, length_seqZ, length_fmap. lia. Qed.

(** The directory in the image finds what the command line named. *)
Lemma root_finds V files n t c (k : nat) :
  fits files -> fs_image sb V n t c -> 1 < n -> t 1 = T_DIR ->
  c 1 = entries_data (root_list files) ++ replicate k 0 -> lenZ (c 1) mod DIRENT = 0 ->
  dir_ok V (inode_at sb V 1) /\ forall name, dir_find V (inode_at sb V 1) name = name_lookup (root_list files) 0 name.
Proof.
  intros Hf IM Hn Ht Ec Hm. pose proof (fm_file _ _ _ _ _ IM 1 ltac:(lia)) as F. pose proof (fo_size _ _ _ _ F) as Es.
  split; [split_and!; [by eapply file_dense|rewrite <- Ht; by apply IM; lia|by rewrite Es]|]. intros name. unfold dir_find. rewrite Es.
  assert (lenZ (c 1) = DIRENT * lenZ (root_list files) + Z.of_nat k) as El.
  { rewrite Ec, length_app, length_replicate, Nat2Z.inj_add, entries_len. done. }
  pose proof (ex_max _ _ _ (fo_exact _ _ _ _ F)) as Hmax.
  replace (entries_of (lenZ (c 1))) with (length (root_list files) + (k / 16))%nat.
  2:{ unfold entries_of. change DIRENT with 16 in *. rewrite El. rewrite (Z.mul_comm 16), Z.div_add_l by lia.
      pose proof (Nat2Z.inj_div k 16) as Ed. change (Z.of_nat 16) with 16 in Ed. lia. }
  apply dir_scan_entries; [by apply root_list_fits|]. intros i Hi. rewrite Z.add_0_l.
  assert (DIRENT * Z.of_nat (k / 16) <= Z.of_nat k) as Hk by (change DIRENT with 16; pose proof (Nat.Div0.mul_div_le k 16); lia).
  rewrite (fo_bytes _ _ _ _ F) by (change DIRENT with 16 in *; lia). rewrite Ec. unfold zth.
  destruct (Z.lt_ge_cases i (lenZ (entries_data (root_list files)))); [by rewrite app_nth1 by lia|].
  rewrite app_nth2, nth_zeros, nth_overflow by lia. done.
Qed.

(** For files that fit (at most 198, each within the maximal
    file size and together below the swap area) mkfs terminates without a failed
    assertion and the image is a file system: the superblock reads back, the log
    is empty, the bitmap marks exactly the blocks in use, every inode holds the
    bytes of its file in blocks of its own, and a lookup in the root directory
    finds each name's inode and nothing else. *)
Lemma mkfs_image files :
  fits files -> DIRENT * (2 + lenZ files) mod BSIZE <> 0 ->
  exists g, mkfs files image0 = Ret (tt, g) /\ built (g_disk g) files.
Proof.
  intros Hf Hroot. enough (wp (mkfs files) image0 (fun _ g => built (g_disk g) files)) as ([] & g & E & H).
  { exists g. split; assumption. }
  pose proof (root_list_len files) as Lr. pose proof (entries_len (root_list files)) as Le. rewrite Lr in Le.
  apply mkfs_run; [done|]. intros g t c ST Et Ec Hc Eb. apply wp_bind.
  eapply wp_mono; [apply (fix_root_ok g _ t c ST); [lia|by rewrite Ec, Le]|]. rewrite Ec. set (k := Z.to_nat _).
  intros _ g1 [S1 B1]. set (c1 := upd c 1 _) in S1. destruct S1 as [G1 _ IM]. apply wp_bitmap; [done|]. intros g2 ->.
  assert (c1 1 = entries_data (root_list files) ++ replicate k 0) as E1 by apply upd_eq.
  destruct (root_finds (view g1) files _ t c1 k Hf IM ltac:(lia) Et E1) as [R1 R2].
  { rewrite E1, length_app, length_replicate, Nat2Z.inj_add, Le. unfold k, pad. rewrite Le. clear. change DIRENT with 16.
    change BSIZE with 1024. set (n := 16 * _). rewrite Z2Nat.id by zdiv. zdiv. }
  split; [| | | |exact R1|exact R2].
  - rewrite view_ne, (go_boot _ G1) by mksz. apply get_put_sb.
  - change (sb_logstart sb) with 2. rewrite view_ne, (go_boot _ G1) by mksz. done.
  - intros b Hb. rewrite image_used, B1, Eb by done. by rewrite (proj2 (Z.leb_le 0 b)).
  - exists t, c1. split_and!; [exact IM|exact Et|]. intros j f Hj. unfold c1. rewrite upd_ne by lia. by apply Hc.
Qed.

(** The same run when the entries of the root directory fill whole blocks. *)
Lemma mkfs_hole files :
  let m := DIRENT * (2 + lenZ files) in
  fits files -> m mod BSIZE = 0 ->
  exists g1 g, mkfs files image0 = Ret (tt, g) /\ g_disk g = view g1 /\ g_ok g1 /\
    g_freeblock g1 = nmeta + blocks_for m + file_blocks files /\
    let d := inode_at sb (view g1) ROOTINO in
    inode_ok sb (view g1) d /\ d_type d <> 0 /\ d_size d = m + BSIZE /\ d_addrs d (m / BSIZE) = 0.
Proof.
  intros m Hf Hroot. enough (wp (mkfs files) image0 (fun _ g => exists g1, g_disk g = view g1 /\ g_ok g1 /\
    g_freeblock g1 = nmeta + blocks_for m + file_blocks files /\
    let d := inode_at sb (view g1) ROOTINO in
    inode_ok sb (view g1) d /\ d_type d <> 0 /\ d_size d = m + BSIZE /\ d_addrs d (m / BSIZE) = 0)) as ([] & g & E & g1 & H).
  { exists g1, g. split; assumption. }
  pose proof (root_list_len files) as Lr. pose proof (entries_len (root_list files)) as Le. rewrite Lr in Le. fold m in Le.
  apply mkfs_run; [done|]. intros g t c ST Et Ec Hc Eb. apply wp_bind. pose proof (ft_count _ Hf).
  eapply wp_mono; [apply (fix_root_hole g _ t c ST); [lia|by rewrite Ec, Le| |by rewrite Et]|]; rewrite Ec, Le.
  { change (NDIRECT * BSIZE) with 12288. unfold m. change DIRENT with 16. change NINODES with 200 in *. lia. }
  intros _ g1 (G1 & B1 & O & Ty & Sz & Ea). apply wp_bitmap; [done|]. intros g2 Ev. exists g1. fold m in Eb.
  split_and!; try done. by rewrite B1.
Qed.
