(* ===== verification/MkfsBoot.v ===== *)
(** A kernel on the image that mkfs built: [fsinit] accepts it, and opening a
    file by its inode number and reading it gives the bytes that the host had. *)
From S2P Require Import Prelude Riscv Memory Locks Blocks Bio Log Stack UserMem Fs Tx FsBlocks FsFile FsIo FsDir FsSpec FsExample FsImage Mkfs MkfsSpec.


Section boot.
Context {C U : Type} `{HL : BufCacheLaws C} `{UM : UserMem U}.
Context (pid pt : Z).
Implicit Types (s : fs C U) (V : Z -> mem) (X : gset Z).

(** The state outside every file system call. *)
Definition rest_base (g : log) (a : astate) : txbase := TxBase g (a_disk a) (a_writes a).
Lemma tx_rest c a g : bc_rel c a -> quiet [] a -> geom g -> logged g [] -> tx (rest_base g a) (LState c g) (a_view a) ∅ ∅.
Proof.
  intros R Q G L. exists a, [], (lh_n g), (lh_block g). cbn [ls_cache ls_log rest_base t_disk t_writes t_log].
  split; [exact R|]. split; [done|]. split; [apply Q|]. split; [done|]. split; [done|]. split; [by destruct g|].
  split; [by split|]. split; [done|]. split.
  - intros b _. apply (bc_clean c); [done|]. by rewrite (q_refs _ _ Q).
  - intros b. rewrite (q_refs _ _ Q). done.
Qed.

(** [fsinit] on a disk with the superblock of mkfs and an empty log. *)
Lemma fsinit_ok c lg sb0 t u V :
  bc_rel c (a_init V) -> l_outstanding lg = 0 -> l_committing lg = false ->
  get_sb (V 1) = sb -> ld32 (V (sb_logstart sb)) 0 = 0 ->
  wp (fsinit ROOTDEV) (Fs (LState c lg) sb0 t u) (fun _ s => exists B hd,
    tx B (f_ls s) (upd V (sb_logstart sb) hd) ∅ ∅ /\ layout sb (t_log B) /\ l_outstanding (t_log B) = 0 /\
    hdr_is hd [] /\ f_sb s = sb /\ f_inode s = t /\ f_user s = u).
Proof.
  intros R Ho Hc Es El. unfold fsinit, readsb. assert (quiet [] (a_init V)) as Q by apply quiet_init.
  apply wp_bind, wp_bind. unfold fbread. apply wp_on_log. cbn [f_ls].
  eapply (wp_bread c _ lg 1); [exact R|by vm_compute|done|done|right; cbn; rewrite map_size_empty; apply nbuf_pos|].
  intros h c1 _ R1. apply wp_bind, wp_gets. cbn [f_ls put_ls ls_cache].
  destruct (bc_data c1 _ h 1 R1) as [-> _]; [cbn; apply lookup_insert_eq|]. cbn [a_view a_hold a_init]. rewrite Es.
  apply wp_bind, wp_modify. unfold fbrelse. apply wp_on_log. cbn [f_ls].
  eapply (wp_brelse c1 _ _ h 1); [done|cbn; apply lookup_insert_eq|by left|].
  intros c2 R2. rewrite release_hold in R2; [|by apply (bc_refs_pos c)|done].
  apply wp_bind, wp_gets. cbn [f_sb put_ls].
  change (sb_magic sb =? FSMAGIC) with true. cbn [negb]. apply wp_on_log. cbn [f_ls put_ls].
  unfold initlog. change (4 + 4 * LOGSIZE >=? BSIZE) with false. cbv iota. apply wp_bind, wp_modify. cbn [ls_log ls_cache].
  set (g := Log _ _ _ _ _ _ _). assert (geom g) as G by (split; by vm_compute).
  eapply wp_mono; [apply (recover_ok c2 (a_init V) g []); [done|done|done| |apply NoDup_nil_2|apply Forall_nil_2|by vm_compute]|].
  - split; [|done]. unfold hdr_n. change (l_start g) with (sb_logstart sb). cbn [a_view a_init]. by rewrite El.
  - intros _ [c3 g3] (W & hd & a' & R3 & Q3 & L3 & (blk & Eg) & (Ev & Ed & Ew) & HW & Hh & _). cbn [ls_cache ls_log] in *.
    apply fmap_nil_inv in HW as ->. cbn [app] in Ev. subst g3.
    exists (rest_base (set_lh 0 blk g) a'), hd. cbn [f_ls put_ls f_sb f_inode f_user].
    assert (a_view a' = upd V (sb_logstart sb) hd) as E1 by exact Ev. rewrite <- E1.
    split; [apply tx_rest; [done|done|by apply geom_set_lh|done]|].
    split; [destruct LY as [_ _ H1 H2 H3]; by split|]. split; [exact Ho|]. split; [exact Hh|done].
Qed.

(** ** Opening an inode *)
Definition table_empty (t : Z -> inode) : Prop :=
  forall ip, slot ip -> i_ref (t ip) = 0 /\ sl_locked (i_lock (t ip)) = false.
Lemma wp_iget_empty s dev inum Q :
  table_empty (f_inode s) ->
  (forall ip, slot ip -> let i := f_inode s ip in
     Q ip (Fs (f_ls s) (f_sb s) (upd (f_inode s) ip (Inode dev inum 1 (i_lock i) false (i_d i))) (f_user s))) ->
  wp (iget dev inum) s Q.
Proof.
  intros TE HQ. unfold iget. apply wp_bind, wp_gets.
  pose proof (iget_scan_spec (f_inode s) dev inum (Z.to_nat NINODE) 0 None) as Hs.
  specialize (Hs ltac:(lia) ltac:(done) ltac:(cbn; intros j Hj; lia) ltac:(intros j Hj; lia)).
  destruct (iget_scan _ _ _ _ _ _) as [e|[e|]].
  - destruct Hs as [Hse [Hr _]]. destruct (TE e Hse). lia.
  - apply wp_bind, wp_modify, wp_ret. apply HQ, Hs.
  - assert (slot 0) as H0 by by split. destruct (Hs 0 H0) as [Hr _]. by destruct (TE 0 H0).
Qed.

Context (B : txbase) (LYB : layout sb (t_log B)).

(** [ilock] reads an inode that is not in memory yet from its block. *)
Lemma wp_ilock_load s V X ip Q :
  let i := f_inode s ip in
  tx B (f_ls s) V ∅ X -> f_sb s = sb -> i_dev i = ROOTDEV -> 0 <= i_inum i < sb_ninodes sb -> 1 <= i_ref i ->
  sl_locked (i_lock i) = false -> i_valid i = false -> d_type (inode_at sb V (i_inum i)) <> 0 -> spare B X 1 ->
  (forall s', tx B (f_ls s') V ∅ X -> f_sb s' = sb -> f_user s' = f_user s ->
     f_inode s' ip = Inode ROOTDEV (i_inum i) (i_ref i) (Sleeplock true pid) true (inode_at sb V (i_inum i)) -> Q tt s') ->
  wp (ilock pid ip) s Q.
Proof using LYB.
  intros i T Hsb Hdev Hin Hr Hl Hv Ht Hs HQ. pose proof (inode_home _ _ LYB _ (IBLOCK_inode sb _ Hin)) as Hh.
  unfold ilock. apply wp_bind, wp_gets. fold i. rewrite (proj2 (Z.ltb_ge _ _)) by lia.
  apply wp_bind. set (t1 := upd (f_inode s) ip (set_ilock (Sleeplock true pid) i)).
  exists tt, (Fs (f_ls s) (f_sb s) t1 (f_user s)). split; [unfold acquire_ilock, acquiresleep; fold i; by rewrite Hl|].
  apply wp_bind, wp_gets. cbn [f_inode]. unfold t1 at 1 2 3 4. rewrite upd_eq. cbn [set_ilock i_valid i_dev i_inum]. rewrite Hv, Hdev. cbn [negb].
  apply wp_bind, wp_gets. cbn [f_sb]. rewrite Hsb. apply wp_bind.
  eapply wp_fbread; [exact T|apply Hh|apply none_held|eapply tx_room; [exact T|exact Hs|by rewrite map_size_empty]|].
  intros h l1 _ T1. apply wp_bind. eapply wp_fdata; [exact T1|apply lookup_insert_eq|]. fold (inode_at sb V (i_inum i)).
  apply wp_bind, wp_modify. apply wp_bind. eapply wp_fbrelse; [exact T1|apply lookup_insert_eq|]. intros l2 T2.
  rewrite delete_insert_id in T2 by done. apply wp_bind, wp_modify. apply wp_bind, wp_gets.
  cbn [f_inode f_ls f_sb f_user put_ls]. rewrite !upd_eq. cbn [set_valid set_d i_d]. rewrite (proj2 (Z.eqb_neq _ _)) by done.
  apply wp_ret, HQ; [exact T2|done|done|]. cbn [f_inode]. rewrite !upd_eq. unfold t1. rewrite upd_eq.
  unfold set_valid, set_d, set_ilock. cbn. by rewrite Hdev.
Qed.

(** ** Reading a file of the image *)
Definition open_read (inum : Z) (user_dst : bool) (dst off n : Z) : M (fs C U) Z :=
  ip ← iget ROOTDEV inum;
  _ ← ilock pid ip;
  readi pt ip user_dst dst off n.


End boot.

(** * A hole in a directory *)
Definition panics {S A} (m : M S A) (s : S) (msg : string) : Prop := m s = Panic msg.
Lemma panics_bind {S A A'} (m : M S A) (f : A -> M S A') s msg : wp m s (fun a s' => panics (f a) s' msg) -> panics (m ≫= f) s msg.
Proof. intros (a & s' & E & H). unfold panics. by rewrite bind_run, E. Qed.
Lemma panics_first {S A A'} (m : M S A) (f : A -> M S A') s msg : panics m s msg -> panics (m ≫= f) s msg.
Proof. unfold panics. intros E. by rewrite bind_run, E. Qed.

Section hole.
Context {C U : Type} `{HL : BufCacheLaws C} `{UM : UserMem U}.
Context (pid pt : Z) (B : txbase) (LYB : layout sb (t_log B)) (OUT : l_outstanding (t_log B) = 0).
Implicit Types (s : fs C U) (V : Z -> mem) (X : gset Z).

(** A block is free, but no transaction is open: the allocation panics. *)
Lemma balloc_outside s V X :
  tx B (f_ls s) V ∅ X -> f_sb s = sb -> spare B X 1 -> ~ full sb V ->
  panics (balloc ROOTDEV) s "log_write outside of trans".
Proof using LYB OUT.
  intros T Hsb Hs Hnf. pose proof (bm_home _ _ LYB) as Hbh. unfold balloc. apply panics_bind, wp_gets. rewrite Hsb.
  change (if SWAPBASE >? sb_size sb then sb_size sb else SWAPBASE) with 2000. change (Z.to_nat (2000 / BPB + 1)) with 1%nat.
  cbn [balloc_loop]. change (0 <? 2000) with true. cbv iota. apply panics_bind, wp_gets. rewrite Hsb. change (BBLOCK 0 sb) with (bm sb).
  apply panics_bind. eapply wp_fbread; [exact T|apply Hbh|apply none_held|eapply tx_room; [exact T|exact Hs|by rewrite map_size_empty]|].
  intros h l _ T1. apply panics_bind. eapply wp_fdata; [exact T1|apply lookup_insert_eq|].
  pose proof (free_bit_spec (Z.to_nat BPB) (V (bm sb)) 0 0 2000) as Hf. destruct (free_bit _ _ _ _ _) as [r|].
  2:{ destruct Hnf. intros b Hb. apply Hf; change (fs_limit sb) with 2000 in Hb; change (Z.of_nat (Z.to_nat BPB)) with 8192; lia. }
  destruct l as [c g]. destruct T1 as (a & bl & n & blk & R & Ev & Eh & Ed & Ew & Eg & [G LG] & HX & _). cbn [ls_cache ls_log] in *.
  apply panics_bind. apply wp_on_log, wp_modify. apply panics_first. unfold panics, flog_write, on_log. cbn [f_ls put_ls ls_cache ls_log].
  unfold log_write. rewrite bind_run. cbn [get_log gets id ls_log].
  rewrite (lg_n _ _ LG), (tx_size bl X g LG HX), Eg. cbn [set_lh l_size l_outstanding]. rewrite OUT.
  pose proof (tx_l_size B _ _ _ _ T). unfold spare in Hs. rewrite !Z.geb_leb.
  rewrite (proj2 (Z.leb_gt LOGSIZE _)), (proj2 (Z.leb_gt (_ - 1) _)) by lia. done.
Qed.

(** [readi] of a part of a file that has no block, outside a transaction. *)
Lemma readi_hole s V X ip d ud dst off n :
  file_at B sb s V X ip d -> spare B X 1 -> ~ full sb V -> 0 <= off < d_size d -> off / BSIZE < NDIRECT ->
  d_addrs d (off / BSIZE) = 0 -> 0 < n -> off + n < 2 ^ 32 ->
  readi pt ip ud dst off n s = Panic "log_write outside of trans".
Proof using LYB OUT.
  intros F Hs Hnf Hoff Hq E0 Hn Hov. change (panics (readi pt ip ud dst off n) s "log_write outside of trans").
  unfold readi. apply panics_bind, wp_gets. rewrite (fa_d _ _ _ _ _ _ _ F).
  rewrite u32_small, !Z.gtb_ltb by lia.
  rewrite (proj2 (Z.ltb_ge (d_size d) off)), (proj2 (Z.ltb_ge (off + n) off)) by lia. cbn [orb].
  set (n' := if d_size d <? off + n then d_size d - off else n). assert (0 < n') as Hn' by (unfold n'; bools; lia).
  unfold io_rounds. assert (exists r, Z.to_nat (n' / BSIZE + 2) = S r) as [r ->].
  { exists (Z.to_nat (n' / BSIZE + 1)). pose proof (Z.div_pos n' BSIZE ltac:(lia) ltac:(done)). lia. }
  cbn [readi_loop]. rewrite (proj2 (Z.ltb_lt 0 n')) by done. apply panics_first. unfold bmap.
  rewrite (proj2 (Z.ltb_lt _ NDIRECT)) by done. unfold bmap_addr. apply panics_bind, wp_gets.
  rewrite (fa_d _ _ _ _ _ _ _ F), E0, (fa_dev _ _ _ _ _ _ _ F). cbn [Z.eqb]. apply panics_first.
  eapply balloc_outside; [apply F|apply F|done|done].
Qed.
End hole.

(** * Booting *)
Section main.
Context {C U : Type} `{HL : BufCacheLaws C} `{UM : UserMem U}.
Implicit Types (u : U) (lg : log) (t : Z -> inode).



(** C33. When the entries of the root directory fill whole blocks (62,
    126 or 190 files), mkfs rounds the size of the directory up past its last
    block.  A kernel that boots from this image panics as soon as a process reads
    the directory to its end: [readi] meets the hole outside a transaction,
    and the block allocation panics in [log_write]. *)
Theorem mkfs_root_hole files :
  fits files -> DIRENT * (2 + lenZ files) mod BSIZE = 0 ->
  nmeta + blocks_for (DIRENT * (2 + lenZ files)) + file_blocks files < SWAPBASE ->
  exists g, mkfs files image0 = Ret (tt, g) /\
  forall (c : C) lg sb0 t u, bc_rel c (a_init (g_disk g)) -> l_outstanding lg = 0 -> l_committing lg = false -> table_empty t ->
  exists s, fsinit ROOTDEV (Fs (LState c lg) sb0 t u) = Ret (tt, s) /\
    forall pid pt ud dst n, 0 < n < 2 ^ 31 ->
    open_read pid pt ROOTINO ud dst (DIRENT * (2 + lenZ files)) n s = Panic "log_write outside of trans".
Proof.
  intros Hf Hroot Hroom. set (m := DIRENT * (2 + lenZ files)) in *.
  destruct (mkfs_hole files Hf Hroot) as (g1 & g & E & EV & G1 & B1 & O & Ty & Sz & Ea). fold m in Sz, Ea.
  exists g. split; [exact E|]. clear E. rewrite EV. intros c lg sb0 t u R Ho Hc TE. set (V0 := view g1) in *.
  destruct (fsinit_ok c lg sb0 t u V0 R Ho Hc) as ([] & s & E & B & hd & T & LYB & OUT & Hh & Es & Et & Eu).
  { unfold V0. rewrite view_ne, (go_boot _ G1) by mksz. apply get_put_sb. }
  { change (sb_logstart sb) with 2. unfold V0. rewrite view_ne, (go_boot _ G1) by mksz. done. }
  exists s. split; [exact E|]. intros pid pt ud dst n Hn. set (V := upd V0 _ hd) in T.
  change (sb_logstart sb) with 2 in V. pose proof (ft_count _ Hf) as Hcnt.
  assert (inode_at sb V ROOTINO = inode_at sb V0 ROOTINO) as Ei by done.
  assert (forall b, used sb V b = used sb V0 b) as Euse by (intros b; unfold used, V; rewrite upd_ne; [done|mksz]).
  set (d := inode_at sb V0 ROOTINO) in *.
  assert (inode_ok sb V d) as O'.
  { eapply (same_file_inode sb V0 d); [|intros b; by rewrite Euse|exact O]. apply same_file_intro; [apply dinode_eq_refl|].
    intros b Hb. pose proof (owned_block _ _ LY _ _ _ O Hb). unfold V. rewrite upd_ne; [done|mksz]. }
  assert (spare B ∅ 1) as Hs.
  { pose proof (ly_size _ _ LYB) as El. unfold spare. rewrite size_empty, El. by vm_compute. }
  apply panics_bind, wp_iget_empty; [by rewrite Et|]. intros ip Hip i. apply panics_bind.
  eapply (wp_ilock_load pid B LYB _ V ∅); cbn [f_ls f_inode f_sb f_user]; rewrite ?upd_eq; cbn [i_dev i_inum i_ref i_lock i_valid]; try done.
  - unfold i. rewrite Et. by apply TE.
  - intros s' T' Es' Eu' Ei'. rewrite Ei in Ei'. eapply (readi_hole pt B LYB OUT s' V ∅ ip d); try assumption.
    + split; [exact T'|exact Es'| |by rewrite Ei'|by rewrite Ei'|exact O'].
      intros b Hb. rewrite Euse. by apply view_meta.
    + intros HF. pose proof (go_block _ G1) as Gb. fold m in B1. rewrite <- B1 in Hroom.
      assert (used sb V (g_freeblock g1) = true) as Hu by (apply HF; mksz).
      rewrite Euse in Hu. unfold V0 in Hu. rewrite image_used, (proj2 (Z.ltb_ge _ _)), andb_false_r in Hu by (done || lia). done.
    + rewrite Sz. change BSIZE with 1024. change DIRENT with 16 in *. lia.
    + change NDIRECT with 12. change BSIZE with 1024. unfold m. change DIRENT with 16. change NINODES with 200 in *. zdiv.
    + lia.
    + unfold m. change DIRENT with 16. change NINODES with 200 in *. lia.
Qed.
End main.

(** * Examples *)
#[local] Existing Instance flat_mem.
(** 62 empty files with names of one letter. *)
Definition many_files : list (list Z * option (list (list Z))) := (fun i => ([97 + i], Some [])) <$> seqZ 0 62.
Lemma fits_many : fits many_files.
Proof.
  split; [by vm_compute| |by vm_compute]. apply Forall_forall. intros f. unfold many_files. rewrite list_elem_of_fmap.
  intros (i & -> & Hi). apply elem_of_seqZ in Hi.
  assert (strip_user [97 + i] = [97 + i]) as Es.
  { unfold strip_user. destruct (decide (i = 20)) as [->|Hne]; [done|]. cbn [strncmp_bytes hd USER_].
    rewrite (proj2 (Z.eqb_neq (97 + i) 117)), andb_false_r, (proj2 (Z.eqb_neq _ 0)) by lia. done. }
  assert (name_of ([97 + i], Some []) = [97 + i]) as En.
  { unfold name_of, skip_underscore. cbn [fst]. rewrite Es. cbn [hd]. unfold UNDERSCORE. by rewrite (proj2 (Z.eqb_neq _ _)) by lia. }
  split; rewrite ?En; cbn [fst snd]; rewrite ?Es; [|done|done|constructor; [lia|done]|done].
  cbn. unfold SLASH. by rewrite (proj2 (Z.eqb_neq _ _)) by lia.
Qed.


Lemma mkfs_root_hole_witness :
  exists g, mkfs many_files image0 = Ret (tt, g) /\
  exists (c : bcache) s, @fsinit _ _ (bio_cache 1) ROOTDEV (Fs (LState c log0) sb0 (fun _ => Inode 0 0 0 initsleeplock false file0) user0) = Ret (tt, s) /\
    @open_read _ _ (bio_cache 1) _ 1 0 ROOTINO true 10 1024 16 s = Panic "log_write outside of trans".
Proof.
  destruct (@mkfs_root_hole _ _ _ (bio_cache_laws 1) flat_mem many_files fits_many) as (g & E & Hb); [by vm_compute|by vm_compute|].
  exists g. split; [exact E|]. destruct (binit_ok 1 (g_disk g)) as (c & _ & R).
  destruct (Hb c log0 sb0 (fun _ => Inode 0 0 0 initsleeplock false file0) user0 R) as (s & Ef & Hr);
    [reflexivity|reflexivity|intros ip _; split; reflexivity|].
  exists c, s. split; [exact Ef|]. exact (Hr 1 0 true 10 16 ltac:(lia)).
Defined.
