(* ===== verification/Sysfile.v ===== *)
(** File system calls (kernel/sysfile.c) and the fetching of their arguments
    (kernel/syscall.c).

    The state is that of File.v with the calling process's descriptors and
    current directory.  [args n] is the register that holds argument [n], [sz]
    the size of the process. *)
From S2P Require Import Prelude Riscv Memory Locks Blocks Log UserMem Pipe Fs File.

Definition O_RDONLY : Z := 0.
Definition O_WRONLY : Z := 1.
Definition O_RDWR : Z := 2.
Definition O_CREATE : Z := 0x200.
Definition O_TRUNC : Z := 0x400.
Definition DOTDIR : list Z := [46].
Definition DOTDOT : list Z := [46; 46].

Record sst (C U : Type) := Sst { s_k : kst C U; s_ofile : Z -> option Z; s_cwd : Z }.
Arguments Sst {C U} _ _ _.
Arguments s_k {C U} _.
Arguments s_ofile {C U} _ _.
Arguments s_cwd {C U} _.

(** The integer of the bytes [l], least significant first. *)
Fixpoint le_value (l : list Z) : Z := match l with [] => 0 | b :: l => b + 256 * le_value l end.

Section sysfile.
Context {C U : Type} `{BufCache C} `{UserMem U} `{PageAlloc U}.
Context (pid pt de : Z) (killed : Z -> bool) (args : Z -> Z) (sz : Z).
Context (devsw : Z -> devops (kst C U)) (pad : list Z).
Abbreviation S := (M (sst C U)).

Definition on_k {A} (m : M (kst C U) A) : S A := fun s =>
  match m (s_k s) with
  | Ret (a, k) => Ret (a, Sst k (s_ofile s) (s_cwd s))
  | Panic e => Panic e
  | Blocked => Blocked
  | NoFuel => NoFuel
  end.
Definition sfs {A} (m : M (fs C U) A) : S A := on_k (on_fs m).
Definition sbegin_op : S unit := on_k kbegin_op.
Definition send_op : S unit := on_k kend_op.
Definition set_fd (fd : Z) (f : option Z) : S unit :=
  modify (fun s => Sst (s_k s) (upd (s_ofile s) fd f) (s_cwd s)).
Definition sinode (ip : Z) : S inode := sfs (get_inode ip).

(** ** syscall.c *)
Definition argint (n : Z) : Z := s32 (args n).
Definition argaddr (n : Z) : Z := args n.
Definition fetchaddr (addr : Z) : S (option Z) :=
  if (addr >=? sz) || (u64 (addr + 8) >? sz) then mret None
  else gets (fun s => le_value <$> ucopyin (f_user (k_fs (s_k s))) pt addr 8).
Definition fetchstr (addr max : Z) : S (option (list Z)) :=
  gets (fun s => ustr (f_user (k_fs (s_k s))) pt addr (Z.to_nat max)).
Definition argstr (n max : Z) : S (option (list Z)) := fetchstr (argaddr n) max.

(** ** Descriptors *)
(** The descriptor and its file. *)
Definition argfd (n : Z) : S (option (Z * Z)) :=
  let fd := argint n in
  if (fd <? 0) || (fd >=? NOFILE) then mret None
  else gets (fun s => (fun f => (fd, f)) <$> s_ofile s fd).

Fixpoint fd_scan (k : nat) (t : Z -> option Z) (fd : Z) : option Z :=
  match k with
  | O => None
  | Datatypes.S k => match t fd with None => Some fd | Some _ => fd_scan k t (fd + 1) end
  end.
Definition fdalloc (f : Z) : S (option Z) :=
  t ← gets s_ofile;
  match fd_scan (Z.to_nat NOFILE) t 0 with
  | Some fd => _ ← set_fd fd (Some f); mret (Some fd)
  | None => mret None
  end.

Definition sys_dup : S Z :=
  a ← argfd 0;
  match a with
  | None => mret (-1)
  | Some (_, f) =>
      fd ← fdalloc f;
      match fd with
      | None => mret (-1)
      | Some fd => _ ← on_k (filedup f); mret fd
      end
  end.
Definition sys_read : S Z :=
  a ← argfd 0;
  match a with
  | None => mret (-1)
  | Some (_, f) => on_k (fileread pid pt killed devsw f (argaddr 1) (argint 2))
  end.
Definition sys_write : S Z :=
  a ← argfd 0;
  match a with
  | None => mret (-1)
  | Some (_, f) => on_k (filewrite pid pt killed devsw f (argaddr 1) (argint 2))
  end.
Definition sys_close : S Z :=
  a ← argfd 0;
  match a with
  | None => mret (-1)
  | Some (fd, f) => _ ← set_fd fd None; _ ← on_k (fileclose pid f); mret 0
  end.
Definition sys_fstat : S Z :=
  a ← argfd 0;
  match a with
  | None => mret (-1)
  | Some (_, f) => on_k (filestat pid pt pad f (argaddr 1))
  end.

(** ** Links *)
Definition sys_link_bad (ip : Z) : S Z :=
  _ ← sfs (ilock pid ip);
  _ ← sfs (mod_d ip (fun d => set_nlink (s16 (d_nlink d - 1)) d));
  _ ← sfs (iupdate ip);
  _ ← sfs (iunlockput pid ip);
  _ ← send_op;
  mret (-1).
Definition sys_link : S Z :=
  old ← argstr 0 MAXPATH;
  new ← argstr 1 MAXPATH;
  match old, new with
  | Some old, Some new =>
      _ ← sbegin_op;
      cwd ← gets s_cwd;
      r ← sfs (namei pid pt de cwd old);
      match r with
      | None => _ ← send_op; mret (-1)
      | Some ip =>
          _ ← sfs (ilock pid ip);
          i ← sinode ip;
          if d_type (i_d i) =? T_DIR then _ ← sfs (iunlockput pid ip); _ ← send_op; mret (-1)
          else
            _ ← sfs (mod_d ip (fun d => set_nlink (s16 (d_nlink d + 1)) d));
            _ ← sfs (iupdate ip);
            _ ← sfs (iunlock pid ip);
            r ← sfs (nameiparent pid pt de cwd new);
            match r with
            | None => sys_link_bad ip
            | Some (dp, name) =>
                _ ← sfs (ilock pid dp);
                i ← sinode ip;
                d ← sinode dp;
                bad ← (if negb (i_dev d =? i_dev i) then mret true
                       else r ← sfs (dirlink pid pt de dp name (i_inum i)); mret (r <? 0));
                _ ← sfs (iunlockput pid dp);
                if bad : bool then sys_link_bad ip
                else _ ← sfs (iput pid ip); _ ← send_op; mret 0
            end
      end
  | _, _ => mret (-1)
  end.

Fixpoint isdirempty_loop (rounds : nat) (dp off : Z) : M (fs C U) bool :=
  i ← get_inode dp;
  if off <? d_size (i_d i) then
    match rounds with
    | O => nofuel
    | Datatypes.S rounds =>
        r ← readi pt dp false de off DIRENT;
        if negb (r =? DIRENT) then panic "isdirempty: readi"
        else
          u ← gets f_user;
          if negb (de_inum de u =? 0) then mret false else isdirempty_loop rounds dp (off + DIRENT)
    end
  else mret true.
Definition isdirempty (dp : Z) : M (fs C U) bool :=
  i ← get_inode dp; isdirempty_loop (dir_rounds (d_size (i_d i))) dp (2 * DIRENT).

Definition sys_unlink_bad (dp : Z) : S Z := _ ← sfs (iunlockput pid dp); _ ← send_op; mret (-1).
Definition sys_unlink : S Z :=
  path ← argstr 0 MAXPATH;
  match path with
  | None => mret (-1)
  | Some path =>
      _ ← sbegin_op;
      cwd ← gets s_cwd;
      r ← sfs (nameiparent pid pt de cwd path);
      match r with
      | None => _ ← send_op; mret (-1)
      | Some (dp, name) =>
          _ ← sfs (ilock pid dp);
          if (namecmp name DOTDIR =? 0) || (namecmp name DOTDOT =? 0) then sys_unlink_bad dp
          else
            r ← sfs (dirlookup pt de dp name);
            match r with
            | None => sys_unlink_bad dp
            | Some (ip, off) =>
                _ ← sfs (ilock pid ip);
                i ← sinode ip;
                if d_nlink (i_d i) <? 1 then panic "unlink: nlink < 1"
                else
                  busy ← (if d_type (i_d i) =? T_DIR then e ← sfs (isdirempty ip); mret (negb e) else mret false);
                  if busy : bool then _ ← sfs (iunlockput pid ip); sys_unlink_bad dp
                  else
                    _ ← sfs (modify (fun s => set_user (kcopyout de (replicate (Z.to_nat DIRENT) 0) (f_user s)) s));
                    r ← sfs (writei pt dp false de off DIRENT);
                    if negb (r =? DIRENT) then panic "unlink: writei"
                    else
                      _ ← (if d_type (i_d i) =? T_DIR then
                             _ ← sfs (mod_d dp (fun d => set_nlink (s16 (d_nlink d - 1)) d)); sfs (iupdate dp)
                           else mret tt);
                      _ ← sfs (iunlockput pid dp);
                      _ ← sfs (mod_d ip (fun d => set_nlink (s16 (d_nlink d - 1)) d));
                      _ ← sfs (iupdate ip);
                      _ ← sfs (iunlockput pid ip);
                      _ ← send_op;
                      mret 0
            end
      end
  end.

(** ** [create] *)
Definition create_fail (ip dp : Z) : M (fs C U) (option Z) :=
  _ ← mod_d ip (set_nlink 0);
  _ ← iupdate ip;
  _ ← iunlockput pid ip;
  _ ← iunlockput pid dp;
  mret None.
(** The new inode, or the file that was there, locked. *)
Definition create (cwd : Z) (path : list Z) (type major minor : Z) : M (fs C U) (option Z) :=
  r ← nameiparent pid pt de cwd path;
  match r with
  | None => mret None
  | Some (dp, name) =>
      _ ← ilock pid dp;
      r ← dirlookup pt de dp name;
      match r with
      | Some (ip, _) =>
          _ ← iunlockput pid dp;
          _ ← ilock pid ip;
          i ← get_inode ip;
          if (type =? T_FILE) && ((d_type (i_d i) =? T_FILE) || (d_type (i_d i) =? T_DEVICE)) then mret (Some ip)
          else _ ← iunlockput pid ip; mret None
      | None =>
          d ← get_inode dp;
          r ← ialloc (i_dev d) type;
          match r with
          | None => _ ← iunlockput pid dp; mret None
          | Some ip =>
              _ ← ilock pid ip;
              _ ← mod_d ip (fun d => set_nlink 1 (set_dev_ids major minor d));
              _ ← iupdate ip;
              i ← get_inode ip;
              bad ← (if type =? T_DIR then
                       r ← dirlink pid pt de ip DOTDIR (i_inum i);
                       if r <? 0 then mret true
                       else r ← dirlink pid pt de ip DOTDOT (i_inum d); mret (r <? 0)
                     else mret false);
              if bad : bool then create_fail ip dp
              else
                r ← dirlink pid pt de dp name (i_inum i);
                if r <? 0 then create_fail ip dp
                else
                  _ ← (if type =? T_DIR then
                         _ ← mod_d dp (fun d => set_nlink (s16 (d_nlink d + 1)) d); iupdate dp
                       else mret tt);
                  _ ← iunlockput pid dp;
                  mret (Some ip)
          end
      end
  end.

(** ** [sys_open] *)
Definition open_fail (ip : Z) : S Z := _ ← sfs (iunlockput pid ip); _ ← send_op; mret (-1).
(** The inode [sys_open] works on, locked; [None] when the call fails here. *)
Definition open_inode (path : list Z) (omode : Z) : S (option Z) :=
  cwd ← gets s_cwd;
  if nz (Z.land omode O_CREATE) then sfs (create cwd path T_FILE 0 0)
  else
    r ← sfs (namei pid pt de cwd path);
    match r with
    | None => mret None
    | Some ip =>
        _ ← sfs (ilock pid ip);
        i ← sinode ip;
        if (d_type (i_d i) =? T_DIR) && negb (omode =? O_RDONLY) then _ ← sfs (iunlockput pid ip); mret None
        else mret (Some ip)
    end.
Definition sys_open : S Z :=
  let omode := argint 1 in
  path ← argstr 0 MAXPATH;
  match path with
  | None => mret (-1)
  | Some path =>
      _ ← sbegin_op;
      r ← open_inode path omode;
      match r with
      | None => _ ← send_op; mret (-1)
      | Some ip =>
          i ← sinode ip;
          if (d_type (i_d i) =? T_DEVICE) && ((d_major (i_d i) <? 0) || (d_major (i_d i) >=? NDEV)) then open_fail ip
          else
            f ← on_k filealloc;
            match f with
            | None => open_fail ip
            | Some f =>
                fd ← fdalloc f;
                match fd with
                | None => _ ← on_k (fileclose pid f); open_fail ip
                | Some fd =>
                    _ ← on_k (mod_file f (fun ff =>
                          if d_type (i_d i) =? T_DEVICE then set_major (d_major (i_d i)) (set_ftype FD_DEVICE ff)
                          else set_off 0 (set_ftype FD_INODE ff)));
                    _ ← on_k (mod_file f (fun ff => set_ip ip ff));
                    _ ← on_k (mod_file f (set_modes (negb (nz (Z.land omode O_WRONLY)))
                                           (nz (Z.land omode O_WRONLY) || nz (Z.land omode O_RDWR))));
                    _ ← (if nz (Z.land omode O_TRUNC) && (d_type (i_d i) =? T_FILE) then sfs (itrunc ip) else mret tt);
                    _ ← sfs (iunlock pid ip);
                    _ ← send_op;
                    mret fd
                end
            end
      end
  end.

Definition sys_mkdir : S Z :=
  _ ← sbegin_op;
  path ← argstr 0 MAXPATH;
  cwd ← gets s_cwd;
  r ← match path with None => mret None | Some path => sfs (create cwd path T_DIR 0 0) end;
  match r with
  | None => _ ← send_op; mret (-1)
  | Some ip => _ ← sfs (iunlockput pid ip); _ ← send_op; mret 0
  end.
Definition sys_mknod : S Z :=
  _ ← sbegin_op;
  path ← argstr 0 MAXPATH;
  cwd ← gets s_cwd;
  r ← match path with
      | None => mret None
      | Some path => sfs (create cwd path T_DEVICE (s16 (argint 1)) (s16 (argint 2)))
      end;
  match r with
  | None => _ ← send_op; mret (-1)
  | Some ip => _ ← sfs (iunlockput pid ip); _ ← send_op; mret 0
  end.
Definition sys_chdir : S Z :=
  _ ← sbegin_op;
  path ← argstr 0 MAXPATH;
  cwd ← gets s_cwd;
  r ← match path with None => mret None | Some path => sfs (namei pid pt de cwd path) end;
  match r with
  | None => _ ← send_op; mret (-1)
  | Some ip =>
      _ ← sfs (ilock pid ip);
      i ← sinode ip;
      if negb (d_type (i_d i) =? T_DIR) then _ ← sfs (iunlockput pid ip); _ ← send_op; mret (-1)
      else
        _ ← sfs (iunlock pid ip);
        _ ← sfs (iput pid cwd);
        _ ← send_op;
        _ ← modify (fun s => Sst (s_k s) (s_ofile s) ip);
        mret 0
  end.

(** ** [sys_exec]: [exec] (Exec.v) is an argument, and [err] the result for -1; the
    strings of [argv] are copied to pages of their own, which are freed again. *)
Definition free_pages (pages : list Z) : S unit := for_each pages (fun p => sfs (on_user (page_free p))).
Fixpoint fetch_argv (k : nat) (i uargv : Z) (pages : list Z) (argv : list (list Z)) : S (list Z * option (list (list Z))) :=
  match k with
  | O => mret (pages, None)                      (* i >= NELEM(argv) *)
  | Datatypes.S k =>
      uarg ← fetchaddr (u64 (uargv + 8 * i));
      match uarg with
      | None => mret (pages, None)
      | Some uarg =>
          if uarg =? 0 then mret (pages, Some argv)
          else
            p ← sfs (on_user page_alloc);
            if p =? 0 then mret (pages, None)
            else
              str ← fetchstr uarg PGSIZE;
              match str with
              | None => mret (pages ++ [p], None)
              | Some str => fetch_argv k (i + 1) uargv (pages ++ [p]) (argv ++ [str])
              end
      end
  end.
Definition sys_exec {R} (err : R) (exec : list Z -> list (list Z) -> S R) : S R :=
  path ← argstr 0 MAXPATH;
  match path with
  | None => mret err
  | Some path =>
      r ← fetch_argv (Z.to_nat MAXARG) 0 (argaddr 1) [] [];
      let '(pages, argv) := r in
      match argv with
      | None => _ ← free_pages pages; mret err
      | Some argv => ret ← exec path argv; _ ← free_pages pages; mret ret
      end
  end.

(** ** [sys_pipe] *)
Definition sys_pipe : S Z :=
  r ← on_k (pipealloc pid);
  match r with
  | None => mret (-1)
  | Some (rf, wf) =>
      fd0 ← fdalloc rf;
      fd1 ← match fd0 with None => mret None | Some _ => fdalloc wf end;
      match fd0, fd1 with
      | Some fd0, Some fd1 =>
          ok ← on_k (kcopy_out pt (argaddr 0) (le_bytes 4 fd0));
          ok ← (if ok : bool then on_k (kcopy_out pt (argaddr 0 + 4) (le_bytes 4 fd1)) else mret false);
          if ok : bool then mret 0
          else
            _ ← set_fd fd0 None;
            _ ← set_fd fd1 None;
            _ ← on_k (fileclose pid rf);
            _ ← on_k (fileclose pid wf);
            mret (-1)
      | _, _ =>
          _ ← match fd0 with Some fd0 => set_fd fd0 None | None => mret tt end;
          _ ← on_k (fileclose pid rf);
          _ ← on_k (fileclose pid wf);
          mret (-1)
      end
  end.
End sysfile.
