(* ===== verification/FdSpec.v ===== *)
(** Reference counts of open files across the file system calls.

    Every reference that the file table counts belongs to somebody: to a
    descriptor of the calling process, or to a descriptor of another process or
    a variable of the kernel, which [others] adds up.  The balance is kept by
    every call of kernel/sysfile.c, and so a file that some descriptor names is
    never reused, and [filedup] does not panic. *)
From S2P Require Import Prelude Riscv Memory Locks Blocks Log UserMem Pipe Fs File Sysfile.
From S2P Require Import Bio Stack FsExample.

(** The descriptors of [t] that name [f]. *)
Fixpoint fd_count (k : nat) (t : Z -> option Z) (f fd : Z) : Z :=
  match k with
  | O => 0
  | S k => (if bool_decide (t fd = Some f) then 1 else 0) + fd_count k t f (fd + 1)
  end.
Definition fds (t : Z -> option Z) (f : Z) : Z := fd_count (Z.to_nat NOFILE) t f 0.

Lemma fd_count_nonneg k t f fd : 0 <= fd_count k t f fd.
Proof. revert fd. induction k as [|k IH]; intros fd; cbn; [done|]. specialize (IH (fd + 1)). case_bool_decide; lia. Qed.
Lemma fd_count_out k t f fd x v : x < fd -> fd_count k (upd t x v) f fd = fd_count k t f fd.
Proof.
  revert fd. induction k as [|k IH]; intros fd Hx; cbn; [done|]. by rewrite upd_ne, IH by lia.
Qed.
Lemma fd_count_upd k t f fd x v :
  fd <= x < fd + Z.of_nat k ->
  fd_count k (upd t x v) f fd =
    fd_count k t f fd - (if bool_decide (t x = Some f) then 1 else 0) + (if bool_decide (v = Some f) then 1 else 0).
Proof.
  revert fd. induction k as [|k IH]; intros fd Hx; cbn; [lia|].
  destruct (Z.eq_dec x fd) as [->|Hne].
  - rewrite upd_eq, fd_count_out by lia. lia.
  - rewrite upd_ne, IH by lia. lia.
Qed.
Lemma fds_upd t f x v :
  0 <= x < NOFILE ->
  fds (upd t x v) f = fds t f - (if bool_decide (t x = Some f) then 1 else 0) + (if bool_decide (v = Some f) then 1 else 0).
Proof. intros Hx. apply fd_count_upd. unfold NOFILE in *. lia. Qed.
Lemma fds_nonneg t f : 0 <= fds t f.
Proof. apply fd_count_nonneg. Qed.
Lemma fd_count_pos k t f fd x : fd <= x < fd + Z.of_nat k -> t x = Some f -> 1 <= fd_count k t f fd.
Proof.
  revert fd. induction k as [|k IH]; intros fd Hx E; cbn; [lia|].
  pose proof (fd_count_nonneg k t f (fd + 1)). destruct (Z.eq_dec x fd) as [->|Hne].
  - rewrite bool_decide_eq_true_2 by done. lia.
  - specialize (IH (fd + 1) ltac:(lia) E). case_bool_decide; lia.
Qed.
Lemma fds_pos t f x : 0 <= x < NOFILE -> t x = Some f -> 1 <= fds t f.
Proof. intros Hx. apply fd_count_pos. unfold NOFILE in *. lia. Qed.

Lemma fd_scan_range k t fd x :
  fd_scan k t fd = Some x -> fd <= x < fd + Z.of_nat k /\ t x = None /\ forall y, fd <= y < x -> t y <> None.
Proof.
  revert fd. induction k as [|k IH]; intros fd; cbn; [done|].
  destruct (t fd) eqn:E; intros HS.
  - apply IH in HS as (H1 & H2 & H3). split_and!; [lia|lia|done|]. intros y Hy.
    destruct (Z.eq_dec y fd) as [->|]; [congruence|]. apply H3. lia.
  - injection HS as <-. split_and!; [lia|lia|done|]. intros. lia.
Qed.
Lemma fd_scan_none k t fd : fd_scan k t fd = None -> forall y, fd <= y < fd + Z.of_nat k -> t y <> None.
Proof.
  revert fd. induction k as [|k IH]; intros fd; cbn; [intros; lia|].
  destruct (t fd) eqn:E; [|done]. intros HS y Hy. destruct (Z.eq_dec y fd) as [->|]; [congruence|].
  apply (IH _ HS). lia.
Qed.
Lemma filealloc_scan_range k t f x :
  filealloc_scan k t f = Some x -> f <= x < f + Z.of_nat k /\ ff_ref (t x) = 0.
Proof.
  revert f. induction k as [|k IH]; intros f; cbn; [done|]. destruct (Z.eqb_spec (ff_ref (t f)) 0).
  - intros [= <-]. split; [lia|done].
  - intros [H1 H2]%IH. split; [lia|done].
Qed.

Section refs.
Context {C U : Type} `{BufCache C} `{UserMem U} `{PageAlloc U}.
Implicit Types (s : sst C U) (o : Z -> Z).

Definition refs s (f : Z) : Z := ff_ref (k_file (s_k s) f).
(** The references are those of the descriptors and [o]. *)
Record fd_inv (o : Z -> Z) (s : sst C U) : Prop := FdInv {
  fi_refs : forall f, 0 <= f < NFILE -> refs s f = o f + fds (s_ofile s) f;
  fi_range : forall fd f, 0 <= fd < NOFILE -> s_ofile s fd = Some f -> 0 <= f < NFILE }.

Definition add1 (o : Z -> Z) (f : Z) : Z -> Z := upd o f (o f + 1).
Definition sub1 (o : Z -> Z) (f : Z) : Z -> Z := upd o f (o f - 1).

Lemma fd_inv_ext o o' s : (forall f, o f = o' f) -> fd_inv o s -> fd_inv o' s.
Proof. intros E [I1 I2]. split; [|done]. intros f Hf. rewrite <-E. by apply I1. Qed.
Lemma add1_sub1 o f g : sub1 (add1 o f) f g = o g.
Proof. unfold sub1, add1. destruct (Z.eq_dec g f) as [->|]; [rewrite !upd_eq; lia|by rewrite !upd_ne]. Qed.
Lemma sub1_add1 o f g : add1 (sub1 o f) f g = o g.
Proof. unfold sub1, add1. destruct (Z.eq_dec g f) as [->|]; [rewrite !upd_eq; lia|by rewrite !upd_ne]. Qed.

(** *** Actions that leave the balance alone *)
Definition keeps {A} (m : M (sst C U) A) : Prop :=
  forall o s a s', fd_inv o s -> m s = Ret (a, s') -> fd_inv o s'.
Definition keeps_refs {A} (m : M (kst C U) A) : Prop :=
  forall k a k', m k = Ret (a, k') -> forall f, ff_ref (k_file k' f) = ff_ref (k_file k f).

Lemma keeps_ret {A} (a : A) : keeps (mret a).
Proof. intros o s a' s' I [= <- <-]. done. Qed.
Lemma keeps_gets {A} (g : sst C U -> A) : keeps (gets g).
Proof. intros o s a' s' I [= <- <-]. done. Qed.
Lemma keeps_panic {A} e : keeps (panic (A := A) e).
Proof. intros o s a' s' I E. discriminate. Qed.
Lemma keeps_bind {A B} (m : M (sst C U) A) (g : A -> M (sst C U) B) :
  keeps m -> (forall a, keeps (g a)) -> keeps (m ≫= g).
Proof. intros Hm Hg o s b s' I E. minv E. eapply Hg, E. by eapply Hm. Qed.
Lemma keeps_for {l : list Z} (g : Z -> M (sst C U) unit) : (forall x, keeps (g x)) -> keeps (for_each l g).
Proof. intros Hg. induction l; cbn; [apply keeps_ret|]. by apply keeps_bind. Qed.
Lemma keeps_on_k {A} (m : M (kst C U) A) : keeps_refs m -> keeps (on_k m).
Proof.
  intros Hm o s a s' [I1 I2] E. unfold on_k in E. destruct (m (s_k s)) as [[x k]| | |] eqn:Ek; try discriminate.
  injection E as <- <-. split; [|done]. intros f Hf. rewrite <-I1 by done. apply (Hm _ _ _ Ek).
Qed.
Lemma refs_ret {A} (a : A) : keeps_refs (mret a).
Proof. intros k a' k' [= <- <-]. done. Qed.
Lemma refs_gets {A} (g : kst C U -> A) : keeps_refs (gets g).
Proof. intros k a' k' [= <- <-]. done. Qed.
Lemma refs_panic {A} e : keeps_refs (panic (A := A) e).
Proof. intros k a' k' E. discriminate. Qed.
Lemma refs_nofuel {A} : keeps_refs (nofuel (A := A)).
Proof. intros k a' k' E. discriminate. Qed.
Lemma refs_bind {A B} (m : M (kst C U) A) (g : A -> M (kst C U) B) :
  keeps_refs m -> (forall a, keeps_refs (g a)) -> keeps_refs (m ≫= g).
Proof. intros Hm Hg k b k' E f. minv E. rewrite (Hg _ _ _ _ E). apply (Hm _ _ _ Hrun). Qed.
Lemma refs_on_fs {A} (m : M (fs C U) A) : keeps_refs (on_fs m).
Proof.
  intros k a k' E. unfold on_fs in E. destruct (m (k_fs k)) as [[x k1]| | |]; try discriminate. by injection E as <- <-.
Qed.
Lemma refs_mod_file f g : (forall ff, ff_ref (g ff) = ff_ref ff) -> keeps_refs (mod_file (C := C) (U := U) f g).
Proof.
  intros Hg k a k' [= <- <-] f'. cbn. destruct (Z.eq_dec f' f) as [->|]; [by rewrite upd_eq|by rewrite upd_ne].
Qed.
Lemma refs_set_pipe pi p : keeps_refs (set_pipe_at (C := C) (U := U) pi p).
Proof. intros k a k' [= <- <-] f. done. Qed.
End refs.

Create HintDb refs.
#[export] Hint Resolve keeps_ret keeps_gets keeps_panic keeps_on_k refs_ret refs_gets refs_panic refs_nofuel
  refs_on_fs refs_set_pipe : refs.
#[export] Hint Extern 1 (keeps_refs (mod_file _ _)) => (apply refs_mod_file; intros ?; repeat case_match; reflexivity) : refs.
(** Take an action apart along its text. *)
Ltac keeps_tac := repeat first
  [ progress eauto 2 with refs nocore
  | apply keeps_bind; [|intros]
  | apply refs_bind; [|intros]
  | apply keeps_for; intros
  | match goal with
    | |- keeps (if ?b then _ else _) => destruct b
    | |- keeps_refs (if ?b then _ else _) => destruct b
    | |- keeps (match ?x with _ => _ end) => destruct x
    | |- keeps_refs (match ?x with _ => _ end) => destruct x
    end ].

Section calls.
Context {C U : Type} `{BufCache C} {UM : UserMem U} {PA : PageAlloc U}.
Context (pid pt de : Z) (killed : Z -> bool) (args : Z -> Z) (sz : Z).
Context (devsw : Z -> devops (kst C U)) (pad : list Z).
Implicit Types (s : sst C U) (o : Z -> Z).

(** Drivers leave the table of open files alone. *)
Definition devices_keep : Prop :=
  forall major u addr n,
    match dev_rd (devsw major) with Some rd => keeps_refs (rd u addr n) | None => True end /\
    match dev_wr (devsw major) with Some wr => keeps_refs (wr u addr n) | None => True end.

(** *** The descriptor table *)
Lemma argfd_some n s fd f s' :
  argfd (C := C) (U := U) args n s = Ret (Some (fd, f), s') -> s' = s /\ 0 <= fd < NOFILE /\ s_ofile s fd = Some f.
Proof.
  unfold argfd. destruct ((argint args n <? 0) || (argint args n >=? NOFILE)) eqn:Eb; [discriminate|].
  intros [= E <-]. destruct (s_ofile s (argint args n)) eqn:Ef; [|discriminate]. injection E as <- <-.
  split_and!; [done|..|done]; bools.
Qed.
Lemma keeps_argfd n : keeps (C := C) (U := U) (argfd args n).
Proof. unfold argfd. keeps_tac. Qed.

(** A descriptor is given up: its reference goes to the caller. *)
Lemma set_fd_none o s fd f s' :
  fd_inv o s -> 0 <= fd < NOFILE -> s_ofile s fd = Some f -> set_fd fd None s = Ret (tt, s') -> fd_inv (add1 o f) s'.
Proof.
  intros [I1 I2] Hfd Ef [= <-]. split; cbn.
  - intros g Hg. unfold refs. cbn. fold (refs s g). rewrite I1, fds_upd, Ef by done. unfold add1.
    destruct (Z.eq_dec g f) as [->|Hne].
    + rewrite upd_eq, bool_decide_eq_true_2, bool_decide_eq_false_2 by done. lia.
    + rewrite upd_ne, !bool_decide_eq_false_2 by congruence. lia.
  - intros x g Hx. destruct (Z.eq_dec x fd) as [->|]; [by rewrite upd_eq|]. rewrite upd_ne by done. by apply I2.
Qed.

(** [fdalloc] takes the lowest free descriptor, and with it a reference. *)
Lemma fdalloc_run f s r s' :
  fdalloc f s = Ret (r, s') ->
  match r with
  | Some fd => 0 <= fd < NOFILE /\ s_ofile s fd = None /\ (forall y, 0 <= y < fd -> s_ofile s y <> None) /\
               s' = Sst (s_k s) (upd (s_ofile s) fd (Some f)) (s_cwd s)
  | None => s' = s /\ forall y, 0 <= y < NOFILE -> s_ofile s y <> None
  end.
Proof.
  unfold fdalloc. intros E. rewrite bind_run in E. cbn [gets] in E.
  destruct (fd_scan (Z.to_nat NOFILE) (s_ofile s) 0) as [fd|] eqn:Es.
  - injection E as <- <-. apply fd_scan_range in Es as (H1 & H2 & H3). split_and!; [lia| |done|done|done].
    unfold NOFILE in *. lia.
  - injection E as <- <-. split; [done|]. intros y Hy. apply (fd_scan_none _ _ _ Es). unfold NOFILE in *. lia.
Qed.
Lemma fdalloc_inv o s f r s' :
  fd_inv o s -> 0 <= f < NFILE -> fdalloc f s = Ret (r, s') ->
  match r with
  | Some fd => fd_inv (sub1 o f) s' /\ 0 <= fd < NOFILE /\ s_ofile s' fd = Some f
  | None => fd_inv o s'
  end.
Proof.
  intros [I1 I2] Hf E%fdalloc_run. destruct r as [fd|]; [|by destruct E as [-> _]].
  destruct E as (Hfd & E0 & _ & ->). split_and!; [|lia|lia|cbn; by rewrite upd_eq]. split; cbn.
  - intros g Hg. unfold refs. cbn. fold (refs s g). rewrite I1, fds_upd, E0 by done. unfold sub1.
    destruct (Z.eq_dec g f) as [->|Hne].
    + rewrite upd_eq, bool_decide_eq_false_2, bool_decide_eq_true_2 by done. lia.
    + rewrite upd_ne, !bool_decide_eq_false_2 by congruence. lia.
  - intros x g Hx. destruct (Z.eq_dec x fd) as [->|]; [rewrite upd_eq; by intros [= <-]|]. rewrite upd_ne by done. by apply I2.
Qed.

(** *** The file table *)
(** An action on the table that changes one count by [d]. *)
Definition counts {A} (f d : Z) (m : M (kst C U) A) : Prop :=
  forall k a k', m k = Ret (a, k') ->
    forall g, ff_ref (k_file k' g) = ff_ref (k_file k g) + (if g =? f then d else 0).
Lemma counts_bind {A B} f d (m : M (kst C U) A) (g : A -> M (kst C U) B) :
  counts f d m -> (forall a, keeps_refs (g a)) -> counts f d (m ≫= g).
Proof. intros Hm Hg k b k' E x. minv E. rewrite (Hg _ _ _ _ E). apply (Hm _ _ _ Hrun). Qed.
Lemma counts_on_k {A} o f d (m : M (kst C U) A) s a s' :
  counts f d m -> fd_inv o s -> on_k m s = Ret (a, s') -> fd_inv (upd o f (o f + d)) s' /\ s_ofile s' = s_ofile s.
Proof.
  intros Hm [I1 I2] E. unfold on_k in E. destruct (m (s_k s)) as [[x k]| | |] eqn:Ek; try discriminate.
  injection E as <- <-. split; [|done]. split; [|done]. intros g Hg. unfold refs. cbn. rewrite (Hm _ _ _ Ek).
  fold (refs s g). rewrite I1 by done. unfold upd. destruct (Z.eqb_spec g f) as [->|]; lia.
Qed.

Lemma fileclose_counts f : counts f (-1) (fileclose pid f).
Proof.
  intros k a k' E. unfold fileclose in E. rewrite bind_run in E. cbn [get_file gets] in E.
  destruct (ff_ref (k_file k f) <? 1) eqn:E1; [discriminate|]. minv E. injection Hrun as <- <-.
  set (k1 := Kst _ _ _) in E.
  assert (R1 : forall g, ff_ref (k_file k1 g) = ff_ref (k_file k g) + (if g =? f then -1 else 0)).
  { intros g. subst k1. cbn. unfold upd. destruct (Z.eqb_spec g f) as [->|]; cbn; lia. }
  destruct (ff_ref (k_file k f) - 1 >? 0) eqn:E2; [by injection E as <- <-|]. minv E. injection Hrun as <- <-.
  set (k2 := Kst _ _ _) in E.
  assert (R2 : forall g, ff_ref (k_file k2 g) = ff_ref (k_file k1 g)).
  { intros g. subst k2. cbn [k_file]. unfold upd at 1. destruct (Z.eqb_spec g f) as [->|]; [|done].
    cbn. rewrite upd_eq. cbn. bools. }
  intros g. rewrite <-R1, <-R2. clearbody k1 k2.
  assert (K : keeps_refs (match ff_type (k_file k f) with
      | FD_PIPE => kpipeclose (ff_pipe (k_file k f)) (ff_writable (k_file k f))
      | FD_INODE | FD_DEVICE => _ ← kbegin_op; _ ← on_fs (iput pid (ff_ip (k_file k f))); kend_op
      | FD_NONE => mret tt end)).
  { unfold kpipeclose, kbegin_op, kend_op. keeps_tac. }
  apply (K _ _ _ E).
Qed.
Lemma filedup_counts f : counts f 1 (filedup f).
Proof.
  intros k a k' E g. unfold filedup in E. rewrite bind_run in E. cbn [get_file gets] in E.
  destruct (ff_ref (k_file k f) <? 1); [discriminate|]. injection E as <- <-. cbn.
  unfold upd. destruct (Z.eqb_spec g f) as [->|]; cbn; lia.
Qed.
Lemma filealloc_counts (k : kst C U) r k' :
  filealloc k = Ret (r, k') ->
  match r with
  | Some f => 0 <= f < NFILE /\ forall g, ff_ref (k_file k' g) = ff_ref (k_file k g) + (if g =? f then 1 else 0)
  | None => k' = k
  end.
Proof.
  unfold filealloc. intros E. rewrite bind_run in E. cbn [gets] in E.
  destruct (filealloc_scan (Z.to_nat NFILE) (k_file k) 0) as [f|] eqn:Es; injection E as <- <-; [|done].
  apply filealloc_scan_range in Es as [H1 H2]. split; [unfold NFILE in *; lia|]. intros g. cbn.
  unfold upd. destruct (Z.eqb_spec g f) as [->|]; cbn; lia.
Qed.

(** [fileclose] returns a reference that the caller holds. *)
Lemma fileclose_inv o s f a s' : fd_inv o s -> on_k (fileclose pid f) s = Ret (a, s') -> fd_inv (sub1 o f) s'.
Proof. intros I E. by destruct (counts_on_k _ _ _ _ _ _ _ (fileclose_counts f) I E). Qed.
Lemma filealloc_inv o s r s' :
  fd_inv o s -> on_k filealloc s = Ret (r, s') ->
  match r with Some f => 0 <= f < NFILE /\ fd_inv (add1 o f) s' | None => fd_inv o s' end.
Proof.
  intros [I1 I2] E. unfold on_k in E. destruct (filealloc (s_k s)) as [[x k]| | |] eqn:Ek; try discriminate.
  injection E as -> <-. apply filealloc_counts in Ek. destruct r as [f|].
  - destruct Ek as [Hf R]. split; [done|]. split; [|done]. intros g Hg. unfold refs. cbn. rewrite R. fold (refs s g).
    rewrite I1 by done. unfold add1, upd. destruct (Z.eqb_spec g f) as [->|]; lia.
  - subst k. split; done.
Qed.

Lemma pipealloc_bad_refs pi f0 f1 (k : kst C U) r k' :
  pipealloc_bad pid pi f0 f1 k = Ret (r, k') ->
  r = None /\ forall g, ff_ref (k_file k' g) =
    ff_ref (k_file k g) - (if bool_decide (f0 = Some g) then 1 else 0) - (if bool_decide (f1 = Some g) then 1 else 0).
Proof.
  assert (Hc : forall x k r k', (match x with Some f => fileclose pid f | None => mret tt end) k = Ret (r, k') ->
    forall g, ff_ref (k_file k' g) = ff_ref (k_file k g) - (if bool_decide (x = Some g) then 1 else 0)).
  { intros [f|] k1 r1 k1' E g; [|injection E as <- <-; case_bool_decide; [discriminate|lia]].
    rewrite (fileclose_counts _ _ _ _ E). destruct (Z.eqb_spec g f) as [->|Hne].
    - rewrite bool_decide_eq_true_2 by done. lia.
    - rewrite bool_decide_eq_false_2 by congruence. lia. }
  unfold pipealloc_bad. intros E. minv E. minv E. minv E. injection E as <- <-. split; [done|]. intros g.
  rewrite (Hc _ _ _ _ Hrun1), (Hc _ _ _ _ Hrun0).
  assert (K : keeps_refs (C := C) (U := U) (if negb (pi =? 0) then on_fs (on_user (page_free pi)) else mret tt)) by keeps_tac.
  by rewrite (K _ _ _ Hrun).
Qed.
Lemma pipealloc_refs (k : kst C U) r k' :
  pipealloc pid k = Ret (r, k') ->
  match r with
  | Some (f0, f1) => 0 <= f0 < NFILE /\ 0 <= f1 < NFILE /\ forall g, ff_ref (k_file k' g) =
      ff_ref (k_file k g) + (if g =? f0 then 1 else 0) + (if g =? f1 then 1 else 0)
  | None => forall g, ff_ref (k_file k' g) = ff_ref (k_file k g)
  end.
Proof.
  unfold pipealloc. intros E. minv E. apply filealloc_counts in Hrun. destruct a as [f0|].
  2: { subst s. apply pipealloc_bad_refs in E as [-> R]. intros g. rewrite R. repeat case_bool_decide; simplify_eq; lia. }
  destruct Hrun as [H0 R0]. minv E. apply filealloc_counts in Hrun. destruct a as [f1|].
  2: { subst s0. apply pipealloc_bad_refs in E as [-> R]. intros g. rewrite R, R0.
       destruct (Z.eqb_spec g f0) as [->|]; repeat case_bool_decide; simplify_eq; lia. }
  destruct Hrun as [H1 R1]. minv E. pose proof (refs_on_fs _ _ _ _ Hrun) as R2. clear Hrun.
  destruct (a =? 0).
  { apply pipealloc_bad_refs in E as [-> R]. intros g. rewrite R, R2, R1, R0.
    destruct (Z.eqb_spec g f0), (Z.eqb_spec g f1); repeat case_bool_decide; simplify_eq; lia. }
  repeat minv E. injection E as <- <-. split_and!; [lia..|]. intros g. rewrite <-R0, <-R1, <-R2.
  injection Hrun as <- <-. injection Hrun0 as <- <-. injection Hrun1 as <- <-. cbn.
  unfold upd. repeat (case_bool; subst; cbn; try done).
Qed.

(** *** The calls *)
Lemma fileread_refs f addr n : devices_keep -> keeps_refs (fileread pid pt killed devsw f addr n).
Proof.
  intros D. unfold fileread. apply refs_bind; [apply refs_gets|]. intros ff.
  destruct (negb _); [keeps_tac|]. destruct (ff_type ff); [keeps_tac| |keeps_tac|].
  - intros k a k' E. unfold kpiperead in E. destruct (piperead _ _ _ _ _ _) as [[[? ?] []] ?]; [|discriminate].
    by injection E as <- <-.
  - destruct (_ || _); [keeps_tac|]. destruct (D (ff_major ff) true addr n) as [Dr _].
    destruct (dev_rd _); [done|keeps_tac].
Qed.
Lemma filewrite_refs f addr n : devices_keep -> keeps_refs (filewrite pid pt killed devsw f addr n).
Proof.
  intros D. unfold filewrite. apply refs_bind; [apply refs_gets|]. intros ff.
  destruct (negb _); [keeps_tac|]. destruct (ff_type ff); [keeps_tac| | |].
  - intros k a k' E. unfold kpipewrite in E. destruct (pipewrite _ _ _ _ _ _ _) as [[? []] ?]; [|discriminate].
    by injection E as <- <-.
  - apply refs_bind; [|intros; keeps_tac]. generalize 0 as i. induction (Z.to_nat (n / wmax + 1)) as [|r IH]; intros i; cbn.
    + keeps_tac.
    + destruct (i <? n); [|keeps_tac]. apply refs_bind.
      * unfold filewrite_one, kbegin_op, kend_op, get_file. keeps_tac.
      * intros x. destruct (negb _); [keeps_tac|]. apply IH.
  - destruct (_ || _); [keeps_tac|]. destruct (D (ff_major ff) true addr n) as [_ Dw].
    destruct (dev_wr _); [done|keeps_tac].
Qed.

Lemma filestat_refs f addr : keeps_refs (filestat (C := C) pid pt pad f addr).
Proof. unfold filestat, get_file, kcopy_out. keeps_tac. Qed.
Lemma keeps_argstr n max : keeps (argstr (C := C) (U := U) pt args n max).
Proof. unfold argstr, fetchstr. keeps_tac. Qed.
Lemma keeps_sfs {A} (m : M (fs C U) A) : keeps (sfs m).
Proof. apply keeps_on_k, refs_on_fs. Qed.
Lemma keeps_begin : keeps (C := C) (U := U) sbegin_op.
Proof. apply keeps_on_k, refs_on_fs. Qed.
Lemma keeps_end : keeps (C := C) (U := U) send_op.
Proof. apply keeps_on_k, refs_on_fs. Qed.
Lemma keeps_inode ip : keeps (C := C) (U := U) (sinode ip).
Proof. apply keeps_sfs. Qed.
#[local] Hint Resolve keeps_argstr keeps_sfs keeps_begin keeps_end keeps_inode keeps_argfd : refs.

Lemma keeps_sys_link : keeps (sys_link (C := C) pid pt de args).
Proof. unfold sys_link, sys_link_bad. keeps_tac. Qed.
Lemma keeps_sys_unlink : keeps (sys_unlink (C := C) pid pt de args).
Proof. unfold sys_unlink, sys_unlink_bad. keeps_tac. Qed.
Lemma keeps_sys_mkdir : keeps (sys_mkdir (C := C) pid pt de args).
Proof. unfold sys_mkdir. keeps_tac. Qed.
Lemma keeps_sys_mknod : keeps (sys_mknod (C := C) pid pt de args).
Proof. unfold sys_mknod. keeps_tac. Qed.
Lemma keeps_set_cwd ip : keeps (C := C) (U := U) (modify (fun s => Sst (s_k s) (s_ofile s) ip)).
Proof. intros o s a s' [I1 I2] [= <- <-]. by split. Qed.
Lemma keeps_sys_chdir : keeps (sys_chdir (C := C) pid pt de args).
Proof. pose proof keeps_set_cwd. unfold sys_chdir. keeps_tac. Qed.
Lemma keeps_open_inode path omode : keeps (open_inode (C := C) pid pt de path omode).
Proof. unfold open_inode. keeps_tac. Qed.

Lemma keeps_sys_dup : keeps (C := C) (U := U) (sys_dup args).
Proof.
  intros o s r s' I E. unfold sys_dup in E. minv E. destruct a as [[fd f]|]; [|injection E as <- <-; by eapply keeps_argfd].
  apply argfd_some in Hrun as (-> & Hfd & Ef). minv E. pose proof (fi_range _ _ I _ _ Hfd Ef) as Hf.
  pose proof (fdalloc_inv _ _ _ _ _ I Hf Hrun) as I1. destruct a as [fd'|]; [|by injection E as <- <-].
  destruct I1 as (I1 & _). minv E. injection E as <- <-.
  destruct (counts_on_k _ _ _ _ _ _ _ (filedup_counts f) I1 Hrun0) as [I2 _].
  eapply fd_inv_ext, I2. apply (sub1_add1 o f).
Qed.
Lemma keeps_sys_close : keeps (C := C) (U := U) (sys_close pid args).
Proof.
  intros o s r s' I E. unfold sys_close in E. minv E. destruct a as [[fd f]|]; [|injection E as <- <-; by eapply keeps_argfd].
  apply argfd_some in Hrun as (-> & Hfd & Ef). minv E. minv E. injection E as <- <-.
  destruct a. pose proof (set_fd_none _ _ _ _ _ I Hfd Ef Hrun) as I1.
  apply (fileclose_inv _ _ _ _ _ I1) in Hrun0. eapply fd_inv_ext, Hrun0. apply add1_sub1.
Qed.
Lemma keeps_sys_open : keeps (sys_open (C := C) pid pt de args).
Proof.
  unfold sys_open. apply keeps_bind; [apply keeps_argstr|]. intros [path|]; [|apply keeps_ret].
  apply keeps_bind; [apply keeps_begin|]. intros _. apply keeps_bind; [apply keeps_open_inode|].
  intros [ip|]; [|keeps_tac]. apply keeps_bind; [apply keeps_inode|]. intros i.
  assert (HF : keeps (open_fail (C := C) (U := U) pid ip)) by (unfold open_fail; keeps_tac).
  destruct (_ && _); [done|]. intros o s r s' I E. minv E. apply (filealloc_inv _ _ _ _ I) in Hrun.
  destruct a as [f|]; [|by eapply HF]. destruct Hrun as [Hf I1]. minv E.
  pose proof (fdalloc_inv _ _ _ _ _ I1 Hf Hrun) as I2. destruct a as [fd|].
  - destruct I2 as [I2 _]. eapply fd_inv_ext; [apply (add1_sub1 o f)|]. clear Hrun I I1. revert E. generalize I2.
    match goal with |- _ -> ?m s1 = _ -> _ => assert (K : keeps m) end.
    { keeps_tac. }
    intros I3 E. by eapply K.
  - minv E. apply (fileclose_inv _ _ _ _ _ I2) in Hrun0. eapply HF; [|exact E].
    eapply fd_inv_ext, Hrun0. apply add1_sub1.
Qed.

Lemma on_k_ofile {A} (m : M (kst C U) A) s a s' : on_k m s = Ret (a, s') -> s_ofile s' = s_ofile s.
Proof. unfold on_k. destruct (m (s_k s)) as [[x k]| | |]; try discriminate. by intros [= <- <-]. Qed.
(** Both ends of a new pipe are the caller's. *)
Lemma pipealloc_inv o s r s' :
  fd_inv o s -> on_k (pipealloc pid) s = Ret (r, s') ->
  match r with
  | Some (rf, wf) => 0 <= rf < NFILE /\ 0 <= wf < NFILE /\ fd_inv (add1 (add1 o rf) wf) s'
  | None => fd_inv o s'
  end.
Proof.
  intros [I1 I2] E. unfold on_k in E. destruct (pipealloc pid (s_k s)) as [[x k]| | |] eqn:Ek; try discriminate.
  injection E as -> <-. apply pipealloc_refs in Ek. destruct r as [[rf wf]|].
  - destruct Ek as (H0 & H1 & R). split; [done|]. split; [done|]. split; [|done]. intros g Hg.
    unfold refs. cbn. rewrite R. fold (refs s g). rewrite I1 by done. unfold add1, upd. repeat (case_bool; subst; try lia).
  - split; [|done]. intros g Hg. unfold refs. cbn. rewrite Ek. by apply I1.
Qed.
Lemma close_ends o rf wf s (v r : Z) s' :
  fd_inv (add1 (add1 o rf) wf) s ->
  (_ ← on_k (fileclose pid rf); _ ← on_k (fileclose pid wf); mret v) s = Ret (r, s') -> fd_inv o s'.
Proof.
  intros I1 E1. minv E1. minv E1. injection E1 as _ <-.
  apply (fileclose_inv _ _ _ _ _ I1) in Hrun. apply (fileclose_inv _ _ _ _ _ Hrun) in Hrun0.
  eapply fd_inv_ext, Hrun0. intros g. unfold sub1, add1, upd. repeat (case_bool; subst; try lia).
Qed.
Lemma keeps_sys_pipe : keeps (sys_pipe (C := C) pid pt args).
Proof.
  intros o s r s' I E. unfold sys_pipe in E. minv E. apply (pipealloc_inv _ _ _ _ I) in Hrun. clear I.
  destruct a as [[rf wf]|]; [|by injection E as <- <-]. destruct Hrun as (Hr & Hw & I).
  pose proof (close_ends o rf wf) as Hend.
  minv E. pose proof (fdalloc_inv _ _ _ _ _ I Hr Hrun) as J. destruct a as [fd0|]; cycle 1.
  { minv E. injection Hrun0 as <- <-. minv E. injection Hrun0 as <- <-. by eapply Hend. }
  destruct J as (J & Hfd0 & E0). minv E. pose proof (fdalloc_inv _ _ _ _ _ J Hw Hrun0) as J1. destruct a as [fd1|]; cycle 1.
  { apply fdalloc_run in Hrun0 as [-> _]. minv E. destruct a. eapply Hend; [|exact E].
    eapply fd_inv_ext, (set_fd_none _ _ _ _ _ J Hfd0 E0 Hrun0). intros g. apply sub1_add1. }
  destruct J1 as (J1 & Hfd1 & E1). apply fdalloc_run in Hrun0 as (_ & E2 & _ & ->). cbn in E1.
  assert (Hne : fd1 <> fd0) by congruence. clear Hrun. set (s2 := Sst _ _ _) in *.
  assert (E0' : s_ofile s2 fd0 = Some rf) by (cbn; by rewrite upd_ne by congruence).
  assert (E1' : s_ofile s2 fd1 = Some wf) by done. clearbody s2. clear E0 E1 E2 J. minv E. minv E.
  assert (Hok : fd_inv (sub1 (sub1 (add1 (add1 o rf) wf) rf) wf) s4 /\ s_ofile s4 = s_ofile s2).
  { pose proof (keeps_on_k _ (refs_on_fs _) _ _ _ _ J1 Hrun) as J2. pose proof (on_k_ofile _ _ _ _ Hrun) as F2.
    destruct a; [|by injection Hrun0 as <- <-]. split; [by eapply keeps_on_k; [apply refs_on_fs|..]|].
    by rewrite (on_k_ofile _ _ _ _ Hrun0). }
  destruct Hok as [J4 F4]. rewrite <-F4 in E0', E1'. clear J1 Hrun Hrun0 F4. destruct a0.
  { injection E as <- <-. eapply fd_inv_ext, J4. intros g. unfold sub1, add1, upd. repeat (case_bool; subst; try lia). }
  minv E. minv E. destruct a0, a1. pose proof (set_fd_none _ _ _ _ _ J4 Hfd0 E0' Hrun) as J5.
  assert (E1'' : s_ofile s5 fd1 = Some wf) by (injection Hrun as <-; cbn; by rewrite upd_ne).
  pose proof (set_fd_none _ _ _ _ _ J5 Hfd1 E1'' Hrun0) as J6. eapply Hend; [|exact E].
  eapply fd_inv_ext, J6. intros g. unfold sub1, add1, upd. repeat (case_bool; subst; try lia).
Qed.

(** The calls of kernel/sysfile.c on descriptors and paths. *)
Inductive fcall := Dup | Read | Write | Close | Fstat | Link | Unlink | Open | Mkdir | Mknod | Chdir | MkPipe.
Definition run_call (c : fcall) : M (sst C U) Z :=
  match c with
  | Dup => sys_dup args
  | Read => sys_read pid pt killed args devsw
  | Write => sys_write pid pt killed args devsw
  | Close => sys_close pid args
  | Fstat => sys_fstat pid pt args pad
  | Link => sys_link pid pt de args
  | Unlink => sys_unlink pid pt de args
  | Open => sys_open pid pt de args
  | Mkdir => sys_mkdir pid pt de args
  | Mknod => sys_mknod pid pt de args
  | Chdir => sys_chdir pid pt de args
  | MkPipe => sys_pipe pid pt args
  end.

(** Every call of sysfile.c on descriptors and paths, whatever its arguments and on
    every path including the failing ones, keeps the balance of references: after it
    the count of each open file is still the number of descriptors of the caller that
    name it plus the references held elsewhere. *)
Lemma keeps_call (c : fcall) : devices_keep -> keeps (run_call c).
Proof.
  intros D. destruct c; cbn [run_call].
  - apply keeps_sys_dup.
  - unfold sys_read. keeps_tac. by apply keeps_on_k, fileread_refs.
  - unfold sys_write. keeps_tac. by apply keeps_on_k, filewrite_refs.
  - apply keeps_sys_close.
  - unfold sys_fstat. keeps_tac. apply keeps_on_k, filestat_refs.
  - apply keeps_sys_link.
  - apply keeps_sys_unlink.
  - apply keeps_sys_open.
  - apply keeps_sys_mkdir.
  - apply keeps_sys_mknod.
  - apply keeps_sys_chdir.
  - apply keeps_sys_pipe.
Qed.

(** dup of an open descriptor always returns.  When a descriptor is free
    it gives the lowest one, which names the same open file, and the file has one
    reference more; otherwise it fails and nothing has changed. *)
Theorem sys_dup_shares (others : Z -> Z) (s : sst C U) (f : Z) :
  fd_inv others s -> (forall g, 0 <= others g) ->
  0 <= argint args 0 < NOFILE -> s_ofile s (argint args 0) = Some f ->
  wp (sys_dup args) s (fun r s' =>
    (0 <= r < NOFILE /\ s_ofile s r = None /\ (forall y, 0 <= y < r -> s_ofile s y <> None) /\
     s_ofile s' = upd (s_ofile s) r (Some f) /\ k_fs (s_k s') = k_fs (s_k s) /\
     k_file (s_k s') = upd (k_file (s_k s)) f (set_fref (ff_ref (k_file (s_k s) f) + 1) (k_file (s_k s) f))) \/
    (r = -1 /\ s' = s /\ forall y, 0 <= y < NOFILE -> s_ofile s y <> None)).
Proof using Type.
  clear killed devsw pad. intros I Ho Hfd Ef. unfold sys_dup. apply wp_bind. exists (Some (argint args 0, f)), s. split.
  { unfold argfd. replace (_ || _) with false by bools. unfold gets. by rewrite Ef. }
  apply wp_bind. destruct (fdalloc f s) as [[r s1]| | |] eqn:Ea.
  2-4: unfold fdalloc in Ea; rewrite bind_run in Ea; cbn in Ea; by destruct (fd_scan _ _ _).
  exists r, s1. split; [done|]. apply fdalloc_run in Ea. destruct r as [fd|]; [|apply wp_ret; right; naive_solver].
  destruct Ea as (H1 & H2 & H3 & ->). apply wp_bind. unfold wp at 1, on_k, filedup. cbn [s_k].
  rewrite bind_run. cbn [get_file gets].
  assert (1 <= ff_ref (k_file (s_k s) f)).
  { pose proof (fds_pos _ _ _ Hfd Ef). pose proof (fi_refs _ _ I f (fi_range _ _ I _ _ Hfd Ef)). specialize (Ho f).
    unfold refs in *. lia. }
  replace (_ <? 1) with false by bools. eexists _, _. split; [reflexivity|]. apply wp_ret. left. naive_solver.
Qed.
End calls.

(** * A process with one open file *)
Section example.
#[local] Existing Instance flat_mem.
#[local] Instance flat_pages : PageAlloc flat := {| page_alloc := mret 0; page_free := fun _ => mret tt |}.
Definition ofile0 : Z -> option Z := fun fd => if fd =? 4 then Some 3 else None.
Definition sst0 (c : bcache) : sst bcache flat :=
  Sst (Kst (Fs (LState c log0) sb0 itable0 user0) ftable0 (fun _ => Pipe (fun _ => 0) 0 0 false false)) ofile0 1.
Lemma fd_inv0 c : fd_inv (fun _ => 0) (sst0 c).
Proof.
  split.
  - intros f _. unfold refs. cbn [sst0 s_k k_file s_ofile]. unfold ftable0. destruct (Z.eqb_spec f 3) as [->|Hne].
    + by vm_compute.
    + assert (forall k fd, fd_count k ofile0 f fd = 0) as E.
      { induction k as [|k IH]; intros fd; cbn; [done|]. rewrite IH. unfold ofile0.
        destruct (fd =? 4); case_bool_decide; simplify_eq; lia. }
      unfold fds. by rewrite E.
  - intros fd f _. cbn. unfold ofile0. destruct (fd =? 4); [|done]. intros [= <-]. by vm_compute.
Qed.
Lemma sys_dup_shares_witness : exists c r s', sys_dup (fun _ => 4) (sst0 c) = Ret (r, s') /\ s_ofile (sst0 c) 4 = Some 3.
Proof.
  destruct (binit_ok 1 disk0) as (c & _ & _). exists c.
  destruct (sys_dup_shares (fun _ => 4) (fun _ => 0) (sst0 c) 3) as (r & s' & E & _).
  - apply fd_inv0.
  - intros. lia.
  - vm_compute. intuition discriminate.
  - reflexivity.
  - exists r, s'. split; [exact E|reflexivity].
Defined.
End example.
