(* ===== verification/Proc.v ===== *)
(** Processes (kernel/proc.c).

    The process table with the current process of every CPU is [ptab]; what the
    operations do to it, critical section by critical section, are functions on
    [ptab], from which both the operations of proc.c on the whole kernel and the
    interleavings of ProcSpec.v are built.  A process is the index of its entry.
    The saved context of a kernel thread ([swtch]) is not part of the state: a
    routine that gives up the CPU ends where it calls [sched]. *)
From S2P Require Import Prelude Riscv Memory Locks Blocks Log UserMem Pipe Fs File Sysfile.

Inductive procstate := UNUSED | USED | SLEEPING | RUNNABLE | RUNNING | ZOMBIE.
#[export] Instance procstate_eq : EqDecision procstate.
Proof. solve_decision. Defined.
(** What a process sleeps on: the entry of a process (only [wait] does that) or
    another kernel address. *)
Inductive wchan := ChanProc (p : Z) | ChanAt (a : Z).
#[export] Instance wchan_eq : EqDecision wchan.
Proof. solve_decision. Defined.

Record proc := Proc {
  p_state : procstate;
  p_chan : option wchan;
  p_killed : Z;
  p_xstate : Z;
  p_pid : Z;
  p_parent : option Z;
  p_kstack : Z;
  p_sz : Z;
  p_pagetable : Z;
  p_trapframe : Z;
  p_ofile : Z -> option Z;
  p_cwd : option Z;
  p_name : list Z }.
Definition set_pstate (v : procstate) (p : proc) : proc :=
  Proc v (p_chan p) (p_killed p) (p_xstate p) (p_pid p) (p_parent p) (p_kstack p) (p_sz p) (p_pagetable p) (p_trapframe p) (p_ofile p) (p_cwd p) (p_name p).
Definition set_pchan (v : option wchan) (p : proc) : proc :=
  Proc (p_state p) v (p_killed p) (p_xstate p) (p_pid p) (p_parent p) (p_kstack p) (p_sz p) (p_pagetable p) (p_trapframe p) (p_ofile p) (p_cwd p) (p_name p).
Definition set_pkilled (v : Z) (p : proc) : proc :=
  Proc (p_state p) (p_chan p) v (p_xstate p) (p_pid p) (p_parent p) (p_kstack p) (p_sz p) (p_pagetable p) (p_trapframe p) (p_ofile p) (p_cwd p) (p_name p).
Definition set_pxstate (v : Z) (p : proc) : proc :=
  Proc (p_state p) (p_chan p) (p_killed p) v (p_pid p) (p_parent p) (p_kstack p) (p_sz p) (p_pagetable p) (p_trapframe p) (p_ofile p) (p_cwd p) (p_name p).
Definition set_ppid (v : Z) (p : proc) : proc :=
  Proc (p_state p) (p_chan p) (p_killed p) (p_xstate p) v (p_parent p) (p_kstack p) (p_sz p) (p_pagetable p) (p_trapframe p) (p_ofile p) (p_cwd p) (p_name p).
Definition set_pparent (v : option Z) (p : proc) : proc :=
  Proc (p_state p) (p_chan p) (p_killed p) (p_xstate p) (p_pid p) v (p_kstack p) (p_sz p) (p_pagetable p) (p_trapframe p) (p_ofile p) (p_cwd p) (p_name p).
Definition set_pkstack (v : Z) (p : proc) : proc :=
  Proc (p_state p) (p_chan p) (p_killed p) (p_xstate p) (p_pid p) (p_parent p) v (p_sz p) (p_pagetable p) (p_trapframe p) (p_ofile p) (p_cwd p) (p_name p).
Definition set_psz (v : Z) (p : proc) : proc :=
  Proc (p_state p) (p_chan p) (p_killed p) (p_xstate p) (p_pid p) (p_parent p) (p_kstack p) v (p_pagetable p) (p_trapframe p) (p_ofile p) (p_cwd p) (p_name p).
Definition set_ppagetable (v : Z) (p : proc) : proc :=
  Proc (p_state p) (p_chan p) (p_killed p) (p_xstate p) (p_pid p) (p_parent p) (p_kstack p) (p_sz p) v (p_trapframe p) (p_ofile p) (p_cwd p) (p_name p).
Definition set_ptrapframe (v : Z) (p : proc) : proc :=
  Proc (p_state p) (p_chan p) (p_killed p) (p_xstate p) (p_pid p) (p_parent p) (p_kstack p) (p_sz p) (p_pagetable p) v (p_ofile p) (p_cwd p) (p_name p).
Definition set_pofile (v : Z -> option Z) (p : proc) : proc :=
  Proc (p_state p) (p_chan p) (p_killed p) (p_xstate p) (p_pid p) (p_parent p) (p_kstack p) (p_sz p) (p_pagetable p) (p_trapframe p) v (p_cwd p) (p_name p).
Definition set_pcwd (v : option Z) (p : proc) : proc :=
  Proc (p_state p) (p_chan p) (p_killed p) (p_xstate p) (p_pid p) (p_parent p) (p_kstack p) (p_sz p) (p_pagetable p) (p_trapframe p) (p_ofile p) v (p_name p).
Definition set_pname (v : list Z) (p : proc) : proc :=
  Proc (p_state p) (p_chan p) (p_killed p) (p_xstate p) (p_pid p) (p_parent p) (p_kstack p) (p_sz p) (p_pagetable p) (p_trapframe p) (p_ofile p) (p_cwd p) v.

Record ptab := PTab {
  t_proc : Z -> proc;
  t_nextpid : Z;                (* int *)
  t_initproc : option Z;
  t_cpu : Z -> option Z }.      (* cpus[c].proc *)
Definition mod_tab (p : Z) (g : proc -> proc) (t : ptab) : ptab :=
  PTab (upd (t_proc t) p (g (t_proc t p))) (t_nextpid t) (t_initproc t) (t_cpu t).
Definition set_cpu (c : Z) (p : option Z) (t : ptab) : ptab :=
  PTab (t_proc t) (t_nextpid t) (t_initproc t) (upd (t_cpu t) c p).
Definition set_initproc (p : option Z) (t : ptab) : ptab := PTab (t_proc t) (t_nextpid t) p (t_cpu t).
(** [for(p = proc; p < &proc[NPROC]; p++)] *)
Definition for_procs (f : Z -> ptab -> ptab) (t : ptab) : ptab := fold_left (fun t p => f p t) (seqZ 0 NPROC) t.

(** * Operations on the table *)
Definition procinit (t : ptab) : ptab :=
  for_procs (fun p => mod_tab p (fun e => set_pkstack (KSTACK p) (set_pstate UNUSED e))) t.

Definition myproc (c : Z) (t : ptab) : option Z := t_cpu t c.

Definition allocpid (t : ptab) : Z * ptab :=
  (t_nextpid t, PTab (t_proc t) (s32 (t_nextpid t + 1)) (t_initproc t) (t_cpu t)).

(** The first part of [allocproc], under the lock of the entry it finds. *)
Fixpoint unused_scan (k : nat) (t : ptab) (p : Z) : option Z :=
  match k with
  | O => None
  | S k => if bool_decide (p_state (t_proc t p) = UNUSED) then Some p else unused_scan k t (p + 1)
  end.
Definition alloc_slot (t : ptab) : option (Z * ptab) :=
  match unused_scan (Z.to_nat NPROC) t 0 with
  | None => None
  | Some p =>
      let '(pid, t) := allocpid t in
      Some (p, mod_tab p (fun e => set_pstate USED (set_ppid pid e)) t)
  end.
(** What [freeproc] does to the entry once its pages are freed. *)
Definition clear_proc (e : proc) : proc :=
  set_pstate UNUSED (set_pxstate 0 (set_pkilled 0 (set_pchan None (set_pname [] (set_pparent None
    (set_ppid 0 (set_psz 0 (set_ppagetable 0 (set_ptrapframe 0 e))))))))).

(** [wakeup], called with [me] the current process. *)
Definition wake_one (me : option Z) (chan : option wchan) (p : Z) (t : ptab) : ptab :=
  if bool_decide (Some p = me) then t
  else if bool_decide (p_state (t_proc t p) = SLEEPING) && bool_decide (p_chan (t_proc t p) = chan)
  then mod_tab p (set_pstate RUNNABLE) t
  else t.
Definition wakeup (me : option Z) (chan : option wchan) (t : ptab) : ptab := for_procs (wake_one me chan) t.

(** [reparent(p)], called by [p] itself. *)
Definition reparent (p : Z) (t : ptab) : ptab :=
  for_procs (fun pp t =>
    if bool_decide (p_parent (t_proc t pp) = Some p)
    then wakeup (Some p) (ChanProc <$> t_initproc t) (mod_tab pp (set_pparent (t_initproc t)) t)
    else t) t.
(** [exit] from the acquisition of [wait_lock] to the call of [sched]. *)
Definition exit_tab (p status : Z) (t : ptab) : ptab :=
  let t := reparent p t in
  let t := wakeup (Some p) (ChanProc <$> p_parent (t_proc t p)) t in
  mod_tab p (fun e => set_pstate ZOMBIE (set_pxstate status e)) t.

(** The scan of [wait]: the first child that is a zombie, or whether there are
    children at all. *)
Fixpoint wait_scan (k : nat) (p : Z) (t : ptab) (pp : Z) (havekids : bool) : Z + bool :=
  match k with
  | O => inr havekids
  | S k =>
      if bool_decide (p_parent (t_proc t pp) = Some p)
      then if bool_decide (p_state (t_proc t pp) = ZOMBIE) then inl pp else wait_scan k p t (pp + 1) true
      else wait_scan k p t (pp + 1) havekids
  end.
Definition wait_find (p : Z) (t : ptab) : Z + bool := wait_scan (Z.to_nat NPROC) p t 0 false.

(** [kill]: the result and the table. *)
Fixpoint kill_scan (k : nat) (pid : Z) (t : ptab) (p : Z) : Z * ptab :=
  match k with
  | O => (-1, t)
  | S k =>
      if p_pid (t_proc t p) =? pid
      then (0, mod_tab p (fun e =>
                 let e := set_pkilled 1 e in
                 if bool_decide (p_state e = SLEEPING) then set_pstate RUNNABLE e else e) t)
      else kill_scan k pid t (p + 1)
  end.
Definition kill (pid : Z) (t : ptab) : Z * ptab := kill_scan (Z.to_nat NPROC) pid t 0.
Definition setkilled (p : Z) (t : ptab) : ptab := mod_tab p (set_pkilled 1) t.
Definition killed (p : Z) (t : ptab) : Z := p_killed (t_proc t p).

(** ** The scheduler *)
(** [scheduler] on CPU [c] looks at entry [p]: whether it switched to it. *)
Definition sched_try (c p : Z) (t : ptab) : bool * ptab :=
  if bool_decide (p_state (t_proc t p) = RUNNABLE)
  then (true, set_cpu c (Some p) (mod_tab p (set_pstate RUNNING) t))
  else (false, t).
(** [sched] on CPU [c]: [held] says whether [p]'s lock is held, [noff] is the
    depth of [push_off], [intr] whether interrupts are on.  The switch takes the
    CPU back to [scheduler], which has no process then. *)
Definition sched (held : bool) (noff : Z) (intr : bool) (c p : Z) (t : ptab) : outcome ptab :=
  if negb held then Panic "sched p->lock"
  else if negb (noff =? 1) then Panic "sched locks"
  else if bool_decide (p_state (t_proc t p) = RUNNING) then Panic "sched running"
  else if intr then Panic "sched interruptible"
  else Ret (set_cpu c None t).
Definition yield (noff : Z) (c p : Z) (t : ptab) : outcome ptab :=
  sched true noff false c p (mod_tab p (set_pstate RUNNABLE) t).
(** [sleep] up to the switch; [noff] counts [p]'s own lock after [lk] is released. *)
Definition sleep (noff : Z) (c p : Z) (chan : wchan) (t : ptab) : outcome ptab :=
  sched true noff false c p (mod_tab p (fun e => set_pstate SLEEPING (set_pchan (Some chan) e)) t).
(** [sleep] after the switch back. *)
Definition sleep_return (p : Z) (t : ptab) : ptab := mod_tab p (set_pchan None) t.

(** * Operations on the whole kernel *)

(** What proc.c, exec.c, trap.c and sysfile.c use of vm.c.  [as_pagetable] is
    [proc_pagetable] of the page of the trapframe; AddrSpace.v implements the class
    by the page tables of Vm.v. *)
Class AddrSpace (U : Type) := {
  as_pagetable : Z -> M U Z;
  as_freepagetable : Z -> Z -> M U unit;
  as_first : Z -> list Z -> M U unit;            (* uvmfirst *)
  as_alloc : Z -> Z -> Z -> Z -> M U Z;          (* uvmalloc *)
  as_dealloc : Z -> Z -> Z -> M U Z;             (* uvmdealloc *)
  as_copy : Z -> Z -> Z -> M U Z;                (* uvmcopy *)
  as_clear : Z -> Z -> M U unit;                 (* uvmclear *)
  as_walkaddr : Z -> Z -> M U Z;
  as_swapin : Z -> Z -> M U Z;
  as_swapread : Z -> Z -> M U unit;
  as_swapwrite : Z -> Z -> M U unit;
  as_counts : U -> Z * Z }.                      (* nr_sectors_read, nr_sectors_write *)

(** [struct trapframe]: the offsets of the registers that the kernel names. *)
Definition TF_KSATP : Z := 0.
Definition TF_KSP : Z := 8.
Definition TF_KTRAP : Z := 16.
Definition TF_EPC : Z := 24.
Definition TF_KHART : Z := 32.
Definition TF_SP : Z := 48.
Definition TF_A (n : Z) : Z := 112 + 8 * n.
Definition TF_SIZE : Z := 288.
Definition tf_get {U} `{UserMem U} (tf off : Z) (u : U) : Z := le_value (kcopyin u (tf + off) 8).
Definition tf_put {U} `{UserMem U} (tf off v : Z) (u : U) : U := kcopyout (tf + off) (le_bytes 8 v) u.

Definition initcode : list Z :=
  [0x17; 0x05; 0x00; 0x00; 0x13; 0x05; 0x45; 0x02;
   0x97; 0x05; 0x00; 0x00; 0x93; 0x85; 0x35; 0x02;
   0x93; 0x08; 0x70; 0x00; 0x73; 0x00; 0x00; 0x00;
   0x93; 0x08; 0x20; 0x00; 0x73; 0x00; 0x00; 0x00;
   0xef; 0xf0; 0x9f; 0xff; 0x2f; 0x69; 0x6e; 0x69;
   0x74; 0x00; 0x00; 0x24; 0x00; 0x00; 0x00; 0x00;
   0x00; 0x00; 0x00; 0x00].
Definition initcode_name : list Z := [105; 110; 105; 116; 99; 111; 100; 101].

Record sys (C U : Type) := Sys { y_k : kst C U; y_t : ptab }.
Arguments Sys {C U} _ _.
Arguments y_k {C U} _.
Arguments y_t {C U} _.

Section proc.
Context {C U : Type} `{BufCache C} `{UserMem U} `{PageAlloc U} `{AddrSpace U}.
(** The buffer that [namei] reads directory entries into. *)
Context (de : Z).
Abbreviation Y := (M (sys C U)).

Definition yk {A} (m : M (kst C U) A) : Y A := fun s =>
  match m (y_k s) with
  | Ret (a, k) => Ret (a, Sys k (y_t s))
  | Panic e => Panic e
  | Blocked => Blocked
  | NoFuel => NoFuel
  end.
Definition yuser {A} (m : M U A) : Y A := yk (on_fs (on_user m)).
Definition ytab (g : ptab -> ptab) : Y unit := modify (fun s => Sys (y_k s) (g (y_t s))).
Definition ysched (g : ptab -> outcome ptab) : Y unit := fun s =>
  match g (y_t s) with
  | Ret t => Ret (tt, Sys (y_k s) t)
  | Panic e => Panic e
  | Blocked => Blocked
  | NoFuel => NoFuel
  end.
Definition get_proc (p : Z) : Y proc := gets (fun s => t_proc (y_t s) p).
Definition mod_proc (p : Z) (g : proc -> proc) : Y unit := ytab (mod_tab p g).

Definition freeproc (p : Z) : Y unit :=
  e ← get_proc p;
  _ ← (if nz (p_trapframe e) then yuser (page_free (p_trapframe e)) else mret tt);
  _ ← mod_proc p (set_ptrapframe 0);
  _ ← (if nz (p_pagetable e) then yuser (as_freepagetable (p_pagetable e) (p_sz e)) else mret tt);
  mod_proc p clear_proc.

Definition allocproc : Y (option Z) :=
  t ← gets y_t;
  match alloc_slot t with
  | None => mret None
  | Some (p, t) =>
      _ ← ytab (fun _ => t);
      tf ← yuser page_alloc;
      _ ← mod_proc p (set_ptrapframe tf);
      if tf =? 0 then _ ← freeproc p; mret None
      else
        pt ← yuser (as_pagetable tf);
        _ ← mod_proc p (set_ppagetable pt);
        if pt =? 0 then _ ← freeproc p; mret None else mret (Some p)
  end.

(** [allocproc] that fails leaves [p] null, and the next line faults. *)
Definition userinit : Y unit :=
  r ← allocproc;
  _ ← ytab (set_initproc r);
  match r with
  | None => panic "kerneltrap"
  | Some p =>
      e ← get_proc p;
      _ ← yuser (as_first (p_pagetable e) initcode);
      _ ← mod_proc p (set_psz PGSIZE);
      _ ← yuser (modify (tf_put (p_trapframe e) TF_EPC 0));
      _ ← yuser (modify (tf_put (p_trapframe e) TF_SP PGSIZE));
      _ ← mod_proc p (set_pname initcode_name);
      cwd ← yk (on_fs (namei (p_pid e) 0 de 0 [47]));
      _ ← mod_proc p (set_pcwd cwd);
      mod_proc p (set_pstate RUNNABLE)
  end.

(** The calls of process [p] on CPU [c]. *)
Definition growproc (p n : Z) : Y Z :=
  e ← get_proc p;
  if n >? 0 then
    sz ← yuser (as_alloc (p_pagetable e) (p_sz e) (u64 (p_sz e + n)) PTE_W);
    if sz =? 0 then mret (-1) else _ ← mod_proc p (set_psz sz); mret 0
  else if n <? 0 then
    sz ← yuser (as_dealloc (p_pagetable e) (p_sz e) (u64 (p_sz e + n)));
    _ ← mod_proc p (set_psz sz); mret 0
  else _ ← mod_proc p (set_psz (p_sz e)); mret 0.

(** The descriptors of the child: [filedup] of each that is open. *)
Definition dup_files (p np : Z) : Y unit :=
  for_each (seqZ 0 NOFILE) (fun i =>
    e ← get_proc p;
    match p_ofile e i with
    | Some f => f ← yk (filedup f); mod_proc np (fun e => set_pofile (upd (p_ofile e) i (Some f)) e)
    | None => mret tt
    end).
Definition fork (p : Z) : Y Z :=
  r ← allocproc;
  match r with
  | None => mret (-1)
  | Some np =>
      e ← get_proc p;
      ne ← get_proc np;
      r ← yuser (as_copy (p_pagetable e) (p_pagetable ne) (p_sz e));
      if r <? 0 then _ ← freeproc np; mret (-1)
      else
        _ ← mod_proc np (set_psz (p_sz e));
        _ ← yuser (modify (fun u => kcopyout (p_trapframe ne) (kcopyin u (p_trapframe e) (Z.to_nat TF_SIZE)) u));
        _ ← yuser (modify (tf_put (p_trapframe ne) (TF_A 0) 0));
        _ ← dup_files p np;
        match p_cwd e with
        | None => panic "kerneltrap"
        | Some cwd =>
            _ ← yk (on_fs (idup cwd));
            _ ← mod_proc np (set_pcwd (Some cwd));
            _ ← mod_proc np (set_pname (take 15 (p_name e)));
            _ ← mod_proc np (set_pparent (Some p));
            _ ← mod_proc np (set_pstate RUNNABLE);
            mret (p_pid ne)
        end
  end.

Definition close_files (p : Z) : Y unit :=
  for_each (seqZ 0 NOFILE) (fun fd =>
    e ← get_proc p;
    match p_ofile e fd with
    | Some f => _ ← yk (fileclose (p_pid e) f); mod_proc p (fun e => set_pofile (upd (p_ofile e) fd None) e)
    | None => mret tt
    end).
(** [exit] ends in the switch to the scheduler. *)
Definition exit (c p status : Z) : Y unit :=
  t ← gets y_t;
  if bool_decide (Some p = t_initproc t) then panic "init exiting"
  else
    _ ← close_files p;
    _ ← yk kbegin_op;
    e ← get_proc p;
    match p_cwd e with
    | None => panic "kerneltrap"
    | Some cwd =>
        _ ← yk (on_fs (iput (p_pid e) cwd));
        _ ← yk kend_op;
        _ ← mod_proc p (set_pcwd None);
        _ ← ytab (exit_tab p status);
        ysched (sched true 1 false c p)
    end.

(** One round of the loop of [wait]: the value returned, or [None] when the
    process has gone to sleep; it starts the next round when it is woken up. *)
Definition wait (c p addr : Z) : Y (option Z) :=
  t ← gets y_t;
  match wait_find p t with
  | inl pp =>
      e ← get_proc p;
      pe ← get_proc pp;
      ok ← (if nz addr then yk (on_fs (fcopyout (p_pagetable e) true addr (le_bytes 4 (p_xstate pe)))) else mret true);
      if ok : bool then _ ← freeproc pp; mret (Some (p_pid pe)) else mret (Some (-1))
  | inr havekids =>
      if negb havekids || nz (killed p t) then mret (Some (-1))
      else _ ← ysched (sleep 1 c p (ChanProc p)); mret None
  end.

(** [first] is the static variable; the result is its new value.  The caller goes
    on to [usertrapret]. *)
Definition forkret (first : bool) : Y bool :=
  _ ← (if first then yk (on_fs (fsinit ROOTDEV)) else mret tt); mret false.
End proc.
