(* ===== verification/ProcSpec.v ===== *)
(** Processes: the invariants of the process table in every interleaving of the
    critical sections of kernel/proc.c, and the fate of zombies. *)
From S2P Require Import Prelude Riscv Memory Locks Blocks Log UserMem Pipe Fs File Sysfile Proc.

Abbreviation inproc p := (0 <= p < NPROC).
Definition live (st : procstate) : Prop := st = SLEEPING \/ st = RUNNABLE \/ st = RUNNING.

(** * What the scans over the table do *)
Lemma mod_tab_eq p g t : t_proc (mod_tab p g t) p = g (t_proc t p).
Proof. apply upd_eq. Qed.
Lemma mod_tab_ne p g t q : q <> p -> t_proc (mod_tab p g t) q = t_proc t q.
Proof. apply upd_ne. Qed.

(** The parts of the table beside the entries. *)
Definition same_rest (t t' : ptab) : Prop :=
  t_nextpid t' = t_nextpid t /\ t_initproc t' = t_initproc t /\ t_cpu t' = t_cpu t.
#[export] Instance same_rest_pre : PreOrder same_rest.
Proof. split; [done|]. intros x y z (? & ? & ?) (? & ? & ?). unfold same_rest. split_and!; congruence. Qed.

Lemma mod_tab_rest p g t : same_rest t (mod_tab p g t).
Proof. done. Qed.
Lemma fold_rest (f : Z -> ptab -> ptab) l t :
  (forall p t, same_rest t (f p t)) -> same_rest t (fold_left (fun t p => f p t) l t).
Proof. intros Hf. revert t. induction l as [|p l IH]; intros t; cbn; [done|]. etrans; [apply Hf|apply IH]. Qed.

(** What [wakeup] does to entry [q]. *)
Definition wake_e (me : option Z) (ch : option wchan) (q : Z) (e : proc) : proc :=
  if bool_decide (Some q = me) then e
  else if bool_decide (p_state e = SLEEPING) && bool_decide (p_chan e = ch) then set_pstate RUNNABLE e else e.
Lemma wake_one_at me ch p t q :
  t_proc (wake_one me ch p t) q = if q =? p then wake_e me ch q (t_proc t q) else t_proc t q.
Proof.
  unfold wake_one, wake_e. destruct (Z.eqb_spec q p) as [->|Hne].
  - case_bool_decide; [done|]. destruct (_ && _); [|done]. by rewrite mod_tab_eq.
  - case_bool_decide; [done|]. destruct (_ && _); [|done]. by rewrite mod_tab_ne.
Qed.
Lemma wake_one_rest me ch p t : same_rest t (wake_one me ch p t).
Proof. unfold wake_one. case_bool_decide; [done|]. by destruct (_ && _). Qed.
Lemma wakeup_rest me ch t : same_rest t (wakeup me ch t).
Proof. apply fold_rest. intros. apply wake_one_rest. Qed.

Lemma wake_fold_at me ch l t q :
  NoDup l ->
  t_proc (fold_left (fun t p => wake_one me ch p t) l t) q =
    if bool_decide (q ∈ l) then wake_e me ch q (t_proc t q) else t_proc t q.
Proof.
  intros HD. revert t. induction HD as [|p l Hp HD IH]; intros t; cbn; [done|]. rewrite IH, wake_one_at.
  destruct (Z.eqb_spec q p) as [->|Hne].
  - rewrite bool_decide_eq_false_2, bool_decide_eq_true_2 by set_solver. done.
  - destruct (decide (q ∈ l)); [rewrite !bool_decide_eq_true_2 by set_solver|rewrite !bool_decide_eq_false_2 by set_solver]; done.
Qed.
Lemma wakeup_at me ch t q :
  t_proc (wakeup me ch t) q = if bool_decide (inproc q) then wake_e me ch q (t_proc t q) else t_proc t q.
Proof.
  unfold wakeup, for_procs. rewrite wake_fold_at by apply NoDup_seqZ.
  erewrite bool_decide_ext; [reflexivity|]. rewrite elem_of_seqZ. lia.
Qed.

(** An entry that others may have woken up. *)
Definition nudged (e e' : proc) : Prop :=
  e' = e \/ (p_state e = SLEEPING /\ e' = set_pstate RUNNABLE e).
Lemma wake_e_nudged me ch q e : nudged e (wake_e me ch q e).
Proof.
  unfold wake_e, nudged. case_bool_decide; [by left|]. case_bool_decide; [|by left]. case_bool_decide; [by right|by left].
Qed.
Lemma wakeup_nudged me ch t q : nudged (t_proc t q) (t_proc (wakeup me ch t) q).
Proof. rewrite wakeup_at. case_bool_decide; [apply wake_e_nudged|by left]. Qed.
(** Nobody else sleeps on the channel afterwards. *)
Lemma wakeup_wakes me ch t q :
  inproc q -> Some q <> me -> p_state (t_proc (wakeup me ch t) q) = SLEEPING -> p_chan (t_proc t q) <> ch.
Proof.
  intros Hq Hne. rewrite wakeup_at, bool_decide_eq_true_2 by done. unfold wake_e. rewrite bool_decide_eq_false_2 by done.
  repeat case_bool_decide; cbn; congruence.
Qed.

(** [reparent] by [p]: its children get [init] as their parent, and [init] is
    woken up when there was one. *)
Definition adopt_e (p : Z) (i : option Z) (e : proc) : proc :=
  if bool_decide (p_parent e = Some p) then set_pparent i e else e.
Definition adopt_one (p pp : Z) (t : ptab) : ptab :=
  if bool_decide (p_parent (t_proc t pp) = Some p)
  then wakeup (Some p) (ChanProc <$> t_initproc t) (mod_tab pp (set_pparent (t_initproc t)) t)
  else t.
Lemma nudged_trans e1 e2 e3 : nudged e1 e2 -> nudged e2 e3 -> nudged e1 e3.
Proof. intros [->|[E ->]] [->|[E' ->]]; unfold nudged; auto. Qed.
Lemma nudged_parent p i e e' : nudged e e' -> nudged (adopt_e p i e) (adopt_e p i e').
Proof.
  intros [->|[E ->]]; [by left|]. unfold adopt_e. cbn. case_bool_decide; right; done.
Qed.
Lemma adopt_one_rest p pp t : same_rest t (adopt_one p pp t).
Proof. unfold adopt_one. case_bool_decide; [|done]. etrans; [|apply wakeup_rest]. done. Qed.
Lemma reparent_rest p t : same_rest t (reparent p t).
Proof. apply (fold_rest (adopt_one p)), adopt_one_rest. Qed.
Lemma adopt_one_at p pp t q :
  nudged (if q =? pp then adopt_e p (t_initproc t) (t_proc t q) else t_proc t q) (t_proc (adopt_one p pp t) q).
Proof.
  unfold adopt_one, adopt_e. destruct (Z.eqb_spec q pp) as [->|Hne].
  - case_bool_decide; [|by left]. pose proof (wakeup_nudged (Some p) (ChanProc <$> t_initproc t)
      (mod_tab pp (set_pparent (t_initproc t)) t) pp) as W. by rewrite mod_tab_eq in W.
  - case_bool_decide; [|by left]. pose proof (wakeup_nudged (Some p) (ChanProc <$> t_initproc t)
      (mod_tab pp (set_pparent (t_initproc t)) t) q) as W. by rewrite mod_tab_ne in W.
Qed.
Lemma adopt_fold_at p l t q :
  NoDup l ->
  nudged (if bool_decide (q ∈ l) then adopt_e p (t_initproc t) (t_proc t q) else t_proc t q)
    (t_proc (fold_left (fun t pp => adopt_one p pp t) l t) q).
Proof.
  intros HD. revert t. induction HD as [|pp l Hp HD IH]; intros t; cbn; [by left|].
  destruct (adopt_one_rest p pp t) as (_ & Ei & _). pose proof (adopt_one_at p pp t q) as A.
  eapply nudged_trans; [|apply IH]. rewrite Ei. destruct (Z.eqb_spec q pp) as [->|Hne].
  - rewrite bool_decide_eq_true_2, bool_decide_eq_false_2 by set_solver. done.
  - destruct (decide (q ∈ l)); [rewrite !bool_decide_eq_true_2 by set_solver|rewrite !bool_decide_eq_false_2 by set_solver];
      [by apply nudged_parent|done].
Qed.
Lemma reparent_at p t q : inproc q -> nudged (adopt_e p (t_initproc t) (t_proc t q)) (t_proc (reparent p t) q).
Proof.
  intros Hq. pose proof (adopt_fold_at p (seqZ 0 NPROC) t q (NoDup_seqZ _ _)) as A.
  rewrite bool_decide_eq_true_2 in A by (apply elem_of_seqZ; lia). exact A.
Qed.
(** Asleep in [wait]. *)
Definition in_wait (t : ptab) (q : Z) : Prop := p_state (t_proc t q) = SLEEPING /\ p_chan (t_proc t q) = Some (ChanProc q).
Lemma nudged_asleep e e' : nudged e e' -> p_state e' = SLEEPING -> e' = e.
Proof. intros [->|[E ->]]; done. Qed.
Lemma adopt_one_wait p pp t q : in_wait (adopt_one p pp t) q -> in_wait t q.
Proof.
  intros [Es Ec]. pose proof (nudged_asleep _ _ (adopt_one_at p pp t q) Es) as E. rewrite E in Es, Ec. unfold in_wait.
  destruct (q =? pp); [|done]. unfold adopt_e in *. by case_bool_decide.
Qed.
Lemma adopt_fold_wait p l t q : in_wait (fold_left (fun t pp => adopt_one p pp t) l t) q -> in_wait t q.
Proof. revert t. induction l as [|pp l IH]; intros t; cbn; [done|]. intros W%IH. by eapply adopt_one_wait. Qed.
(** Once a child has been handed over, [init] is not asleep in [wait]. *)
Lemma adopt_fold_wakes p l t i z :
  NoDup l -> t_initproc t = Some i -> inproc i -> i <> p -> z ∈ l -> p_parent (t_proc t z) = Some p ->
  ~ in_wait (fold_left (fun t pp => adopt_one p pp t) l t) i.
Proof.
  intros HD. revert t. induction HD as [|pp l Hp HD IH]; intros t Ei Hi Hne Hz Hzp; cbn; [set_solver|].
  destruct (decide (z = pp)) as [->|Hzne].
  - intros W%adopt_fold_wait. unfold adopt_one in W. rewrite bool_decide_eq_true_2, Ei in W by done. destruct W as [W1 W2].
    pose proof (wakeup_nudged (Some p) (ChanProc <$> Some i) (mod_tab pp (set_pparent (Some i)) t) i) as N.
    apply wakeup_wakes in W1 as W3; [|done|congruence]. apply nudged_asleep in N; [|done]. by rewrite N in W2.
  - apply IH; [|done|done|set_solver|].
    + destruct (adopt_one_rest p pp t) as (_ & E & _). congruence.
    + pose proof (adopt_one_at p pp t z) as A. rewrite (proj2 (Z.eqb_neq _ _)) in A by done.
      by destruct A as [->|[_ ->]].
Qed.
Lemma reparent_wakes p t i z :
  t_initproc t = Some i -> inproc i -> i <> p -> inproc z -> p_parent (t_proc t z) = Some p -> ~ in_wait (reparent p t) i.
Proof. intros Ei Hi Hne Hz. apply adopt_fold_wakes; auto using NoDup_seqZ. apply elem_of_seqZ. lia. Qed.

Lemma exit_tab_rest p status t : same_rest t (exit_tab p status t).
Proof.
  unfold exit_tab. transitivity (reparent p t); [apply reparent_rest|].
  etransitivity; [|apply mod_tab_rest]. apply wakeup_rest.
Qed.
(** [exit] seen from another entry. *)
Record exited (p status : Z) (t t' : ptab) : Prop := Exited {
  ex_rest : same_rest t t';
  ex_other : forall q, inproc q -> q <> p -> nudged (adopt_e p (t_initproc t) (t_proc t q)) (t_proc t' q);
  ex_self : p_state (t_proc t' p) = ZOMBIE /\ p_pid (t_proc t' p) = p_pid (t_proc t p) /\
            p_parent (t_proc t' p) = p_parent (t_proc t p);
  ex_parent : forall r, inproc r -> r <> p -> p_parent (t_proc t p) = Some r -> ~ in_wait t' r;
  ex_init : forall i z, t_initproc t = Some i -> inproc i -> i <> p -> inproc z ->
              p_parent (t_proc t z) = Some p -> ~ in_wait t' i }.
Lemma exited_intro p status t t1 t2 :
  inproc p -> p_parent (t_proc t p) <> Some p -> same_rest t t1 -> same_rest t1 t2 ->
  (forall q, inproc q -> nudged (adopt_e p (t_initproc t) (t_proc t q)) (t_proc t1 q)) ->
  (forall i z, t_initproc t = Some i -> inproc i -> i <> p -> inproc z -> p_parent (t_proc t z) = Some p -> ~ in_wait t1 i) ->
  (forall q, nudged (t_proc t1 q) (t_proc t2 q)) ->
  (forall q, inproc q -> Some q <> Some p -> p_state (t_proc t2 q) = SLEEPING ->
     p_chan (t_proc t1 q) <> ChanProc <$> p_parent (t_proc t1 p)) ->
  exited p status t (mod_tab p (fun e => set_pstate ZOMBIE (set_pxstate status e)) t2).
Proof.
  intros Hp Hself R1 R2 A1 W1 N2 W2.
  assert (E1 : nudged (t_proc t p) (t_proc t1 p)).
  { specialize (A1 p Hp). unfold adopt_e in A1. by rewrite bool_decide_eq_false_2 in A1. }
  assert (Hpar : p_parent (t_proc t1 p) = p_parent (t_proc t p)) by (by destruct E1 as [->|[_ ->]]).
  split.
  - etrans; [exact R1|]. etrans; [exact R2|apply mod_tab_rest].
  - intros q Hq Hne. rewrite mod_tab_ne by done. eapply nudged_trans; [by apply A1|apply N2].
  - rewrite mod_tab_eq. cbn. split; [done|]. destruct (nudged_trans _ _ _ E1 (N2 p)) as [->|[_ ->]]; done.
  - intros r Hr Hne Er [S1 S2]. rewrite mod_tab_ne in S1, S2 by done.
    apply W2 in S1 as W3; [|done|congruence]. rewrite (nudged_asleep _ _ (N2 r) S1) in S2. by rewrite Hpar, Er in W3.
  - intros i z Ei Hi Hne Hz Hzp [S1 S2]. rewrite mod_tab_ne in S1, S2 by done.
    pose proof (nudged_asleep _ _ (N2 i) S1) as N. rewrite N in S1, S2. by apply (W1 i z).
Qed.
Lemma exit_tab_exited p status t :
  inproc p -> p_parent (t_proc t p) <> Some p -> exited p status t (exit_tab p status t).
Proof.
  intros Hp Hself. apply (exited_intro p status t (reparent p t)); [done|done|apply reparent_rest|apply wakeup_rest| | | |].
  - intros q. apply reparent_at.
  - intros i z. apply reparent_wakes.
  - intros q. apply wakeup_nudged.
  - intros q. apply wakeup_wakes.
Qed.

Lemma wait_scan_inl k p t pp b z :
  wait_scan k p t pp b = inl z -> pp <= z < pp + Z.of_nat k /\ p_parent (t_proc t z) = Some p /\ p_state (t_proc t z) = ZOMBIE.
Proof.
  revert pp b. induction k as [|k IH]; intros pp b; cbn; [done|]. repeat case_bool_decide.
  - intros [= <-]. split; [lia|done].
  - intros (H1 & H2 & H3)%IH. split; [lia|done].
  - intros (H1 & H2 & H3)%IH. split; [lia|done].
Qed.
Lemma wait_scan_inr k p t pp b b' z :
  wait_scan k p t pp b = inr b' -> pp <= z < pp + Z.of_nat k -> p_parent (t_proc t z) = Some p -> p_state (t_proc t z) <> ZOMBIE.
Proof.
  revert pp b. induction k as [|k IH]; intros pp b; cbn; [lia|]. intros HS Hz Hp Ez.
  destruct (Z.eq_dec z pp) as [->|Hne].
  - by rewrite !bool_decide_eq_true_2 in HS.
  - revert HS. repeat case_bool_decide; intros HS; try done; by eapply (IH _ _ HS); [lia|..].
Qed.
Lemma wait_find_inl p t z : wait_find p t = inl z -> inproc z /\ p_parent (t_proc t z) = Some p /\ p_state (t_proc t z) = ZOMBIE.
Proof.
  unfold wait_find. intros E. apply wait_scan_inl in E as (H1 & H2 & H3).
  change (Z.of_nat (Z.to_nat NPROC)) with NPROC in H1. split; [lia|done].
Qed.
Lemma wait_find_inr p t b z :
  wait_find p t = inr b -> inproc z -> p_parent (t_proc t z) = Some p -> p_state (t_proc t z) <> ZOMBIE.
Proof.
  unfold wait_find. intros HS Hz. eapply wait_scan_inr; [exact HS|]. change (Z.of_nat (Z.to_nat NPROC)) with NPROC. lia.
Qed.

Lemma unused_scan_some k t p q :
  unused_scan k t p = Some q ->
  p <= q < p + Z.of_nat k /\ p_state (t_proc t q) = UNUSED /\ forall y, p <= y < q -> p_state (t_proc t y) <> UNUSED.
Proof.
  revert p. induction k as [|k IH]; intros p; cbn; [done|]. case_bool_decide as E.
  - intros [= <-]. split_and!; [lia|lia|done|]. intros. lia.
  - intros (H1 & H2 & H3)%IH. split_and!; [lia|lia|done|]. intros y Hy.
    destruct (Z.eq_dec y p) as [->|]; [done|]. apply H3. lia.
Qed.
Lemma alloc_slot_some t np t' :
  alloc_slot t = Some (np, t') ->
  inproc np /\ p_state (t_proc t np) = UNUSED /\ (forall y, 0 <= y < np -> p_state (t_proc t y) <> UNUSED) /\
  t_proc t' = upd (t_proc t) np (set_pstate USED (set_ppid (t_nextpid t) (t_proc t np))) /\
  t_nextpid t' = s32 (t_nextpid t + 1) /\ t_initproc t' = t_initproc t /\ t_cpu t' = t_cpu t.
Proof.
  unfold alloc_slot. destruct (unused_scan _ _ _) as [q|] eqn:E; [|done]. apply unused_scan_some in E as (H1 & H2 & H3).
  intros [= <- <-]. unfold NPROC in *. split_and!; [lia|lia|done|done|done..].
Qed.
Lemma kill_scan_cases k pid t p r t' :
  kill_scan k pid t p = (r, t') ->
  (r = -1 /\ t' = t /\ forall y, p <= y < p + Z.of_nat k -> p_pid (t_proc t y) <> pid) \/
  exists q, r = 0 /\ p <= q < p + Z.of_nat k /\ p_pid (t_proc t q) = pid /\ (forall y, p <= y < q -> p_pid (t_proc t y) <> pid) /\
    same_rest t t' /\
    t_proc t' = upd (t_proc t) q (if bool_decide (p_state (t_proc t q) = SLEEPING)
                                  then set_pstate RUNNABLE (set_pkilled 1 (t_proc t q)) else set_pkilled 1 (t_proc t q)).
Proof.
  revert p. induction k as [|k IH]; intros p; cbn.
  - intros [= <- <-]. left. split_and!; [done..|]. lia.
  - destruct (Z.eqb_spec (p_pid (t_proc t p)) pid) as [E|E].
    + intros [= <- <-]. right. exists p. split_and!; [done|lia|lia|done|lia|done|done].
    + intros [(-> & -> & HN)|(q & -> & Hq & Hpid & HN & R & Ep)]%IH.
      * left. split_and!; [done..|]. intros y Hy. destruct (Z.eq_dec y p) as [->|]; [done|]. apply HN. lia.
      * right. exists q. split_and!; [done|lia|lia|done| |done|done]. intros y Hy.
        destruct (Z.eq_dec y p) as [->|]; [done|]. apply HN. lia.
Qed.

(** * Interleavings

    The steps are the critical sections of proc.c.  [forks r] is the entry that
    process [r] is filling in its call of [fork], which gives up its locks while it
    allocates and copies memory.  A process that the scheduler picks resumes in
    [sched]; if it went to sleep, it leaves [sleep] before it gives up its lock. *)
Record cfg := Cfg { g_t : ptab; g_forks : Z -> option Z }.

Inductive pstep : cfg -> cfg -> Prop :=
| S_pick c p t t' fk : t_cpu t c = None -> inproc p -> sched_try c p t = (true, t') ->
    pstep (Cfg t fk) (Cfg (sleep_return p t') fk)
| S_yield c p t t' fk : t_cpu t c = Some p -> yield 1 c p t = Ret t' -> pstep (Cfg t fk) (Cfg t' fk)
| S_sleep c p a t t' fk : t_cpu t c = Some p -> sleep 1 c p (ChanAt a) t = Ret t' -> pstep (Cfg t fk) (Cfg t' fk)
| S_wakeup me a t fk : pstep (Cfg t fk) (Cfg (wakeup me (Some (ChanAt a)) t) fk)
| S_kill pid r t t' fk : kill pid t = (r, t') -> pstep (Cfg t fk) (Cfg t' fk)
| S_setkilled c p t fk : t_cpu t c = Some p -> pstep (Cfg t fk) (Cfg (setkilled p t) fk)
| S_alloc c p np t t' fk : t_cpu t c = Some p -> fk p = None -> alloc_slot t = Some (np, t') ->
    pstep (Cfg t fk) (Cfg t' (upd fk p (Some np)))
| S_fork_fail c p np t fk : t_cpu t c = Some p -> fk p = Some np -> p_parent (t_proc t np) = None ->
    pstep (Cfg t fk) (Cfg (mod_tab np clear_proc t) (upd fk p None))
| S_fork_parent c p np t fk : t_cpu t c = Some p -> fk p = Some np ->
    pstep (Cfg t fk) (Cfg (mod_tab np (set_pparent (Some p)) t) fk)
| S_fork_run c p np t fk : t_cpu t c = Some p -> fk p = Some np -> p_parent (t_proc t np) = Some p ->
    pstep (Cfg t fk) (Cfg (mod_tab np (set_pstate RUNNABLE) t) (upd fk p None))
| S_exit c p status t t' fk : t_cpu t c = Some p -> fk p = None -> Some p <> t_initproc t ->
    sched true 1 false c p (exit_tab p status t) = Ret t' -> pstep (Cfg t fk) (Cfg t' fk)
| S_reap c p pp t fk : t_cpu t c = Some p -> fk p = None -> wait_find p t = inl pp ->
    pstep (Cfg t fk) (Cfg (mod_tab pp clear_proc t) fk)
| S_wait_sleep c p t t' fk : t_cpu t c = Some p -> fk p = None -> wait_find p t = inr true -> killed p t = 0 ->
    sleep 1 c p (ChanProc p) t = Ret t' -> pstep (Cfg t fk) (Cfg t' fk).

(** The table after [procinit] and [userinit]: the static data is zero. *)
Definition zero_proc : proc := Proc UNUSED None 0 0 0 None 0 0 0 0 (fun _ => None) None [].
Definition zero_tab : ptab := PTab (fun _ => zero_proc) 1 None (fun _ => None).
Definition boot_tab : ptab :=
  match alloc_slot (procinit zero_tab) with
  | Some (p, t) => mod_tab p (set_pstate RUNNABLE) (set_initproc (Some p) t)
  | None => zero_tab
  end.
Definition boot : cfg := Cfg boot_tab (fun _ => None).

(** [n] steps after the first process was made. *)
Inductive preach : nat -> cfg -> Prop :=
| R_boot : preach O boot
| R_step n g g' : preach n g -> pstep g g' -> preach (S n) g'.

(** * The invariant *)
(** Process identifiers. *)
Record ids (t : ptab) : Prop := Ids {
  id_unused : forall q, inproc q -> p_state (t_proc t q) = UNUSED -> p_pid (t_proc t q) = 0;
  id_used : forall q, inproc q -> p_state (t_proc t q) <> UNUSED -> 0 < p_pid (t_proc t q) < t_nextpid t;
  id_uniq : forall q r, inproc q -> inproc r -> p_state (t_proc t q) <> UNUSED ->
              p_pid (t_proc t q) = p_pid (t_proc t r) -> q = r }.
(** Running processes and CPUs. *)
Record cpus_ok (t : ptab) : Prop := CpusOk {
  cp_running : forall c q, t_cpu t c = Some q -> inproc q /\ p_state (t_proc t q) = RUNNING;
  cp_one : forall c c' q, t_cpu t c = Some q -> t_cpu t c' = Some q -> c = c';
  cp_on : forall q, inproc q -> p_state (t_proc t q) = RUNNING -> exists c, t_cpu t c = Some q }.
(** Parents. *)
Record family (t : ptab) (fk : Z -> option Z) : Prop := Family {
  fm_init : exists i, t_initproc t = Some i /\ inproc i /\ live (p_state (t_proc t i)) /\ p_parent (t_proc t i) = None;
  fm_parent : forall q, inproc q -> live (p_state (t_proc t q)) \/ p_state (t_proc t q) = ZOMBIE -> Some q <> t_initproc t ->
    exists r, p_parent (t_proc t q) = Some r /\ inproc r /\ r <> q /\ live (p_state (t_proc t r));
  fm_unused : forall q, inproc q -> p_state (t_proc t q) = UNUSED -> p_parent (t_proc t q) = None;
  fm_used : forall q, inproc q -> p_state (t_proc t q) = USED -> exists r, fk r = Some q;
  fm_forks : forall r q, fk r = Some q -> inproc r /\ inproc q /\ live (p_state (t_proc t r)) /\ p_state (t_proc t q) = USED /\
    (p_parent (t_proc t q) = None \/ p_parent (t_proc t q) = Some r);
  fm_one : forall r r' q, fk r = Some q -> fk r' = Some q -> r = r' }.
(** Who is asleep in [wait] has no zombie to collect, and is not in [fork]. *)
Definition waits_ok (t : ptab) (fk : Z -> option Z) : Prop :=
  forall q r, inproc q -> p_state (t_proc t q) = SLEEPING -> p_chan (t_proc t q) = Some (ChanProc r) ->
    r = q /\ fk q = None /\ forall z, inproc z -> p_parent (t_proc t z) = Some q -> p_state (t_proc t z) <> ZOMBIE.
Record pinv (g : cfg) : Prop := PInv {
  pi_ids : ids (g_t g);
  pi_cpus : cpus_ok (g_t g);
  pi_family : family (g_t g) (g_forks g);
  pi_waits : waits_ok (g_t g) (g_forks g) }.

(** ** Changes that one part of the invariant does not see *)
Lemma ids_ext t t' :
  ids t -> t_nextpid t' = t_nextpid t ->
  (forall q, inproc q -> (p_state (t_proc t' q) = UNUSED <-> p_state (t_proc t q) = UNUSED) /\
                         p_pid (t_proc t' q) = p_pid (t_proc t q)) -> ids t'.
Proof.
  intros [I1 I2 I3] En E. split.
  - intros q Hq. destruct (E q Hq) as [-> ->]. by apply I1.
  - intros q Hq. destruct (E q Hq) as [Es ->]. rewrite En. intros Hs. apply I2; tauto.
  - intros q r Hq Hr. destruct (E q Hq) as [Es ->], (E r Hr) as [Es' ->]. intros Hs. apply I3; tauto.
Qed.
Lemma cpus_ext t t' :
  cpus_ok t -> t_cpu t' = t_cpu t ->
  (forall q, inproc q -> p_state (t_proc t' q) = RUNNING <-> p_state (t_proc t q) = RUNNING) -> cpus_ok t'.
Proof.
  intros [I1 I2 I3] Ec E. split; rewrite ?Ec.
  - intros c q Hc. destruct (I1 c q Hc) as [Hq Hs]. split; [done|]. by apply E.
  - done.
  - intros q Hq Hs. apply I3; [done|]. by apply E.
Qed.
(** A process leaves its CPU. *)
Lemma cpus_leave t t' c p :
  cpus_ok t -> t_cpu t c = Some p -> t_cpu t' = upd (t_cpu t) c None -> p_state (t_proc t' p) <> RUNNING ->
  (forall q, inproc q -> q <> p -> p_state (t_proc t' q) = RUNNING <-> p_state (t_proc t q) = RUNNING) -> cpus_ok t'.
Proof.
  intros [I1 I2 I3] Hc Ec Hp E. split.
  - intros c' q. rewrite Ec. destruct (Z.eq_dec c' c) as [->|Hne]; [by rewrite upd_eq|]. rewrite upd_ne by done.
    intros Hc'. destruct (I1 _ _ Hc') as [Hq Hs]. split; [done|]. apply E; [done| |done].
    intros ->. by apply Hne, (I2 c' c p).
  - intros c1 c2 q. rewrite Ec. unfold upd. do 2 case_bool; try done. apply I2.
  - intros q Hq Hs. assert (q <> p) as Hne by congruence. apply E in Hs; [|done..]. destruct (I3 q Hq Hs) as [c' Hc'].
    exists c'. rewrite Ec, upd_ne; [done|]. intros ->. congruence.
Qed.
(** A process gets an idle CPU. *)
Lemma cpus_enter t t' c p :
  cpus_ok t -> t_cpu t c = None -> inproc p -> t_cpu t' = upd (t_cpu t) c (Some p) -> p_state (t_proc t p) <> RUNNING ->
  p_state (t_proc t' p) = RUNNING ->
  (forall q, q <> p -> t_proc t' q = t_proc t q) -> cpus_ok t'.
Proof.
  intros [J1 J2 J3] Hc Hp Ecpu Hs Hs' E. split; rewrite Ecpu.
  - intros c' q. destruct (Z.eq_dec c' c) as [->|]; [rewrite upd_eq|rewrite upd_ne by done].
    + intros [= <-]. done.
    + intros Hc'. destruct (J1 _ _ Hc') as [Hq Hr]. rewrite E by congruence. done.
  - intros c1 c2 q. unfold upd. do 2 case_bool; subst; [done|..].
    + intros [= <-] Hq. by destruct (J1 _ _ Hq).
    + intros Hq [= <-]. by destruct (J1 _ _ Hq).
    + apply J2.
  - intros q Hq. destruct (Z.eq_dec q p) as [->|]; [intros _; exists c; apply upd_eq|]. rewrite E by done.
    intros Hr. destruct (J3 q Hq Hr) as [c' Hc']. exists c'. rewrite upd_ne; [done|]. congruence.
Qed.
Lemma family_ext t t' fk :
  family t fk -> t_initproc t' = t_initproc t ->
  (forall q, inproc q -> p_parent (t_proc t' q) = p_parent (t_proc t q) /\
     (p_state (t_proc t' q) = p_state (t_proc t q) \/ (live (p_state (t_proc t' q)) /\ live (p_state (t_proc t q))))) ->
  family t' fk.
Proof.
  intros [I1 I2 I3 I4 I5 I6] Ei E.
  assert (EL : forall q, inproc q -> live (p_state (t_proc t' q)) <-> live (p_state (t_proc t q))).
  { intros q Hq. destruct (E q Hq) as [_ [->|[? ?]]]; tauto. }
  assert (ES : forall q st, inproc q -> ~ live st -> p_state (t_proc t' q) = st <-> p_state (t_proc t q) = st).
  { intros q st Hq Hst. destruct (E q Hq) as [_ [->|[? ?]]]; [tauto|]. split; intros; congruence. }
  assert (HL : ~ live ZOMBIE /\ ~ live UNUSED /\ ~ live USED) by (unfold live; intuition discriminate).
  destruct HL as (HZ & HU & HD). split.
  - destruct I1 as (i & H1 & H2 & H3 & H4). exists i. destruct (E i H2) as [-> _]. rewrite Ei, EL by done. done.
  - intros q Hq. rewrite EL, ES, Ei by done. intros HS Hi. destruct (E q Hq) as [-> _].
    destruct (I2 q Hq HS Hi) as (r & H1 & H2 & H3 & H4). exists r. by rewrite EL.
  - intros q Hq. destruct (E q Hq) as [-> _]. rewrite ES by done. by apply I3.
  - intros q Hq. rewrite ES by done. by apply I4.
  - intros r q Hf. destruct (I5 r q Hf) as (H1 & H2 & H3 & H4 & H5). destruct (E q H2) as [-> _].
    by rewrite EL, ES.
  - done.
Qed.
Lemma waits_ext t t' fk fk' :
  waits_ok t fk ->
  (forall q, inproc q -> p_state (t_proc t' q) = SLEEPING ->
     p_state (t_proc t q) = SLEEPING /\ p_chan (t_proc t' q) = p_chan (t_proc t q) /\ (fk q = None -> fk' q = None)) ->
  (forall z q, inproc z -> p_parent (t_proc t' z) = Some q -> p_state (t_proc t' z) = ZOMBIE ->
     p_parent (t_proc t z) = Some q /\ p_state (t_proc t z) = ZOMBIE) ->
  waits_ok t' fk'.
Proof.
  intros W E1 E2 q r Hq Hs Hc. destruct (E1 q Hq Hs) as (Es & Ec & Ef). rewrite Ec in Hc.
  destruct (W q r Hq Es Hc) as (-> & Hf & Hz). split_and!; [done|auto|]. intros z Hiz Hp HZ.
  destruct (E2 z q Hiz Hp HZ). by apply (Hz z).
Qed.

(** ** The steps *)
(** Others may be woken up or marked as killed. *)
Definition soft (e e' : proc) : Prop :=
  p_pid e' = p_pid e /\ p_parent e' = p_parent e /\ p_chan e' = p_chan e /\
  (p_state e' = p_state e \/ (p_state e = SLEEPING /\ p_state e' = RUNNABLE)).
Lemma nudged_soft e e' : nudged e e' -> soft e e'.
Proof. intros [->|[E ->]]; unfold soft; cbn; split_and!; auto. Qed.
Lemma pinv_soft t t' fk :
  pinv (Cfg t fk) -> same_rest t t' -> (forall q, inproc q -> soft (t_proc t q) (t_proc t' q)) -> pinv (Cfg t' fk).
Proof.
  intros [I1 I2 I3 I4] (En & Ei & Ec) HS. cbn in *. split; cbn.
  - apply (ids_ext t); [done..|]. intros q Hq. destruct (HS q Hq) as (-> & _ & _ & [->|[-> ->]]); [done|]. by split.
  - apply (cpus_ext t); [done..|]. intros q Hq. destruct (HS q Hq) as (_ & _ & _ & [->|[-> ->]]); done.
  - apply (family_ext t); [done..|]. intros q Hq. destruct (HS q Hq) as (_ & -> & _ & E). split; [done|].
    unfold live. destruct E as [->|[-> ->]]; auto.
  - apply (waits_ext t _ fk); [done|..].
    + intros q Hq. destruct (HS q Hq) as (_ & _ & -> & [->|[-> ->]]); done.
    + intros z q Hz. destruct (HS z Hz) as (_ & -> & _ & [->|[-> ->]]); done.
Qed.

(** One entry moves between the states of a live process. *)
Lemma family_local t t' fk p e :
  family t fk -> t_initproc t' = t_initproc t -> t_proc t' = upd (t_proc t) p e -> live (p_state e) -> live (p_state (t_proc t p)) ->
  p_parent e = p_parent (t_proc t p) -> family t' fk.
Proof.
  intros F Ei Ep L1 L2 Epar. apply (family_ext t); [done..|]. intros q Hq. rewrite Ep.
  destruct (Z.eq_dec q p) as [->|]; [rewrite upd_eq; auto|rewrite upd_ne by done; auto].
Qed.
Lemma ids_local t t' p e :
  ids t -> t_nextpid t' = t_nextpid t -> t_proc t' = upd (t_proc t) p e -> live (p_state e) -> live (p_state (t_proc t p)) ->
  p_pid e = p_pid (t_proc t p) -> ids t'.
Proof.
  intros F En Ep L1 L2 Epid. apply (ids_ext t); [done..|]. intros q Hq. rewrite Ep.
  destruct (Z.eq_dec q p) as [->|]; [rewrite upd_eq; split; [|done]|by rewrite upd_ne by done].
  unfold live in *. intuition congruence.
Qed.
Lemma sched_ret c p t t' : sched true 1 false c p t = Ret t' -> t' = set_cpu c None t /\ p_state (t_proc t p) <> RUNNING.
Proof. unfold sched. cbn. case_bool_decide; [done|]. by intros [= <-]. Qed.

Lemma step_pick c p t t' fk :
  pinv (Cfg t fk) -> t_cpu t c = None -> inproc p -> sched_try c p t = (true, t') -> pinv (Cfg (sleep_return p t') fk).
Proof.
  intros [I1 I2 I3 I4] Hc Hp E. cbn in *. unfold sched_try in E. case_bool_decide as Hs; [|done]. injection E as <-.
  set (t1 := sleep_return _ _).
  assert (Ep : t_proc t1 = upd (upd (t_proc t) p (set_pstate RUNNING (t_proc t p))) p (set_pchan None (set_pstate RUNNING (t_proc t p)))).
  { unfold t1, sleep_return, mod_tab. cbn. by rewrite upd_eq. }
  assert (Eq : forall q, t_proc t1 q = upd (t_proc t) p (set_pchan None (set_pstate RUNNING (t_proc t p))) q).
  { intros q. rewrite Ep. unfold upd. by case_bool. }
  assert (L : live RUNNING /\ live RUNNABLE) by (unfold live; auto). destruct L as [L1 L2].
  assert (Ecpu : t_cpu t1 = upd (t_cpu t) c (Some p)) by done.
  assert (Erest : t_nextpid t1 = t_nextpid t /\ t_initproc t1 = t_initproc t) by done. destruct Erest as [En Ei].
  clearbody t1. split; cbn.
  - apply (ids_ext t); [done..|]. intros q Hq. rewrite Eq. destruct (Z.eq_dec q p) as [->|]; [|by rewrite upd_ne].
    rewrite upd_eq, Hs. done.
  - apply (cpus_enter t _ c p); [done..|congruence| |].
    + by rewrite Eq, upd_eq.
    + intros q Hne. by rewrite Eq, upd_ne.
  - apply (family_ext t); [done..|]. intros q Hq. rewrite Eq. destruct (Z.eq_dec q p) as [->|]; [|rewrite upd_ne by done; auto].
    rewrite upd_eq, Hs. auto.
  - apply (waits_ext t _ fk); [done|..].
    + intros q Hq. rewrite Eq. destruct (Z.eq_dec q p) as [->|]; [by rewrite upd_eq|by rewrite upd_ne].
    + intros z q Hz. rewrite Eq. destruct (Z.eq_dec z p) as [->|]; [by rewrite upd_eq|by rewrite upd_ne].
Qed.

(** The current process of [c] gives up the CPU. *)
Lemma step_off c p g t t' fk :
  pinv (Cfg t fk) -> t_cpu t c = Some p -> sched true 1 false c p (mod_tab p g t) = Ret t' ->
  live (p_state (g (t_proc t p))) -> p_pid (g (t_proc t p)) = p_pid (t_proc t p) ->
  p_parent (g (t_proc t p)) = p_parent (t_proc t p) ->
  (forall r, p_state (g (t_proc t p)) = SLEEPING -> p_chan (g (t_proc t p)) = Some (ChanProc r) ->
     r = p /\ fk p = None /\ forall z, inproc z -> p_parent (t_proc t z) = Some p -> p_state (t_proc t z) <> ZOMBIE) ->
  pinv (Cfg t' fk).
Proof.
  intros [I1 I2 I3 I4] Hc [-> Hs]%sched_ret L Epid Epar HW. cbn in *. rewrite upd_eq in Hs.
  destruct (cp_running _ I2 _ _ Hc) as [Hp Hr]. assert (L0 : live (p_state (t_proc t p))) by (rewrite Hr; unfold live; auto).
  split; cbn.
  - by apply (ids_local t _ p (g (t_proc t p))).
  - apply (cpus_leave t _ c p); [done..|by cbn; rewrite upd_eq|]. intros q Hq Hne. cbn. by rewrite upd_ne.
  - by apply (family_local t _ _ p (g (t_proc t p))).
  - assert (HZ : forall z q, p_parent (upd (t_proc t) p (g (t_proc t p)) z) = Some q ->
        p_state (upd (t_proc t) p (g (t_proc t p)) z) = ZOMBIE -> p_parent (t_proc t z) = Some q /\ p_state (t_proc t z) = ZOMBIE).
    { intros z q. destruct (Z.eq_dec z p) as [->|]; [|by rewrite upd_ne]. rewrite upd_eq. intros _ E. rewrite E in L.
      unfold live in L. intuition discriminate. }
    intros q r Hq. cbn. destruct (Z.eq_dec q p) as [->|Hne].
    + rewrite upd_eq. intros Es Ec. destruct (HW r Es Ec) as (-> & Hf & Hz). split_and!; [done..|].
      intros z Hiz Hzp E. destruct (HZ z p Hzp E). by apply (Hz z).
    + rewrite upd_ne by done. intros Es Ec. destruct (I4 q r Hq Es Ec) as (-> & Hf & Hz). split_and!; [done..|].
      intros z Hiz Hzp E. destruct (HZ z q Hzp E). by apply (Hz z).
Qed.

(** An entry is cleared: the child of a failed [fork], or a zombie. *)
Lemma ids_clear t p : ids t -> ids (mod_tab p clear_proc t).
Proof.
  intros [I1 I2 I3]. split; cbn.
  - intros q Hq. destruct (Z.eq_dec q p) as [->|]; [by rewrite upd_eq|rewrite upd_ne by done; by apply I1].
  - intros q Hq. destruct (Z.eq_dec q p) as [->|]; [by rewrite upd_eq|rewrite upd_ne by done; by apply I2].
  - intros q r Hq Hr. destruct (Z.eq_dec q p) as [->|]; [by rewrite upd_eq|]. rewrite (upd_ne _ p _ q) by done.
    intros Hs. destruct (Z.eq_dec r p) as [->|]; [|rewrite upd_ne by done; by apply I3].
    rewrite upd_eq. cbn. specialize (I2 q Hq Hs). lia.
Qed.
Lemma cpus_clear t p : cpus_ok t -> p_state (t_proc t p) <> RUNNING -> cpus_ok (mod_tab p clear_proc t).
Proof.
  intros I Hs. apply (cpus_ext t); [done..|]. intros q Hq. cbn. destruct (Z.eq_dec q p) as [->|]; [|by rewrite upd_ne].
  rewrite upd_eq. by split.
Qed.
Lemma waits_clear t p fk fk' :
  waits_ok t fk -> (forall q, fk q = None -> fk' q = None) -> waits_ok (mod_tab p clear_proc t) fk'.
Proof.
  intros W HF. apply (waits_ext t _ fk); [done|..].
  - intros q Hq. cbn. destruct (Z.eq_dec q p) as [->|]; [by rewrite upd_eq|rewrite upd_ne by done; auto].
  - intros z q Hz. cbn. destruct (Z.eq_dec z p) as [->|]; [by rewrite upd_eq|rewrite upd_ne by done; auto].
Qed.
(** A dead entry is nobody's parent. *)
Lemma family_clear t p fk fk' :
  family t fk -> ~ live (p_state (t_proc t p)) -> (forall r q, fk' r = Some q <-> fk r = Some q /\ q <> p) ->
  family (mod_tab p clear_proc t) fk'.
Proof.
  intros [I1 I2 I3 I4 I5 I6] Hd HF.
  assert (HL : forall r, live (p_state (t_proc t r)) -> upd (t_proc t) p (clear_proc (t_proc t p)) r = t_proc t r).
  { intros r Hr. apply upd_ne. intros ->. done. }
  split; cbn.
  - destruct I1 as (i & H1 & H2 & H3 & H4). exists i. by rewrite HL.
  - intros q Hq. destruct (Z.eq_dec q p) as [->|Hne]; [rewrite upd_eq; unfold live; cbn; intuition discriminate|].
    rewrite upd_ne by done. intros Hs Hi. destruct (I2 q Hq Hs Hi) as (r & H1 & H2 & H3 & H4). exists r. by rewrite HL.
  - intros q Hq. destruct (Z.eq_dec q p) as [->|Hne]; [by rewrite upd_eq|]. rewrite upd_ne by done. by apply I3.
  - intros q Hq. destruct (Z.eq_dec q p) as [->|Hne]; [by rewrite upd_eq|]. rewrite upd_ne by done. intros Hs.
    destruct (I4 q Hq Hs) as [r Hr]. exists r. by apply HF.
  - intros r q [Hf Hne]%HF. destruct (I5 r q Hf) as (H1 & H2 & H3 & H4 & H5). rewrite HL by done. by rewrite upd_ne.
  - intros r r' q [Hf _]%HF [Hf' _]%HF. by apply (I6 r r' q).
Qed.
Lemma step_reap p pp t fk : pinv (Cfg t fk) -> wait_find p t = inl pp -> pinv (Cfg (mod_tab pp clear_proc t) fk).
Proof.
  intros [I1 I2 I3 I4] (Hpp & Hpar & Hz)%wait_find_inl. cbn in *.
  split; cbn; [by apply ids_clear|by apply cpus_clear; [|congruence]| |by apply (waits_clear t pp fk)].
  apply (family_clear t pp fk); [done|rewrite Hz; unfold live; intuition discriminate|]. intros r q. split; [|by intros []].
  intros Hf. split; [done|]. intros ->. destruct (fm_forks _ _ I3 _ _ Hf) as (_ & _ & _ & Hu & _). congruence.
Qed.
Lemma step_fork_fail p np t fk : pinv (Cfg t fk) -> fk p = Some np -> pinv (Cfg (mod_tab np clear_proc t) (upd fk p None)).
Proof.
  intros [I1 I2 I3 I4] Hf. cbn in *. destruct (fm_forks _ _ I3 _ _ Hf) as (H1 & H2 & H3 & H4 & H5).
  split; cbn; [by apply ids_clear|by apply cpus_clear; [|congruence]| |apply (waits_clear t np fk); [done|]].
  - apply (family_clear t np fk); [done|rewrite H4; unfold live; intuition discriminate|]. intros r q.
    destruct (Z.eq_dec r p) as [->|Hne]; [rewrite upd_eq|rewrite upd_ne by done]; split; [done|naive_solver| |by intros []].
    intros Hr. split; [done|]. intros ->. by apply Hne, (fm_one _ _ I3 r p np).
  - intros q Hq. unfold upd. by case_bool.
Qed.

(** [fork] takes an unused entry. *)
Lemma ids_alloc t t' np e :
  ids t -> 0 < t_nextpid t -> t_nextpid t' = t_nextpid t + 1 -> t_proc t' = upd (t_proc t) np e ->
  p_state e = USED -> p_pid e = t_nextpid t -> ids t'.
Proof.
  intros [J1 J2 J3] Hn En Ep Es Epid. split; rewrite Ep.
  - intros q Hq. destruct (Z.eq_dec q np) as [->|]; [rewrite upd_eq; congruence|rewrite upd_ne by done; by apply J1].
  - intros q Hq. destruct (Z.eq_dec q np) as [->|]; [rewrite upd_eq; cbn; lia|rewrite upd_ne by done]. intros Hs.
    specialize (J2 q Hq Hs). lia.
  - assert (HJ : forall q, inproc q -> p_pid (t_proc t q) < t_nextpid t).
    { intros q Hq. destruct (decide (p_state (t_proc t q) = UNUSED)) as [E|E]; [rewrite J1; [lia|done..]|]. apply J2; done. }
    intros q r Hq Hr. destruct (Z.eq_dec q np) as [->|], (Z.eq_dec r np) as [->|];
      rewrite ?upd_eq; rewrite ?upd_ne by done; [done| | |by apply J3].
    + specialize (HJ r Hr). lia.
    + specialize (HJ q Hq). lia.
Qed.
Lemma family_alloc t t' fk p np e :
  family t fk -> inproc np -> p_state (t_proc t np) = UNUSED -> t_proc t' = upd (t_proc t) np e -> p_state e = USED ->
  p_parent e = p_parent (t_proc t np) -> t_initproc t' = t_initproc t -> inproc p -> live (p_state (t_proc t p)) -> fk p = None ->
  family t' (upd fk p (Some np)).
Proof.
  intros [J1 J2 J3 J4 J5 J6] Hnp Hu Ep Es Epar Ei Hp Lp Hf.
  assert (HL : forall r, live (p_state (t_proc t r)) -> t_proc t' r = t_proc t r).
  { intros r Hr. rewrite Ep. apply upd_ne. intros ->. rewrite Hu in Hr. unfold live in Hr. intuition discriminate. }
  assert (HN : forall r, fk r <> Some np).
  { intros r Hr. destruct (J5 _ _ Hr) as (_ & _ & _ & Hu' & _). congruence. }
  assert (Enp : t_proc t' np = e) by (by rewrite Ep, upd_eq).
  assert (Eq : forall q, q <> np -> t_proc t' q = t_proc t q) by (intros; by rewrite Ep, upd_ne).
  split.
  - destruct J1 as (i & H1 & H2 & H3 & H4). exists i. by rewrite Ei, HL.
  - intros q Hq. destruct (Z.eq_dec q np) as [->|Hne]; [rewrite Enp, Es; unfold live; intuition discriminate|].
    rewrite Eq, Ei by done. intros Hs Hi. destruct (J2 q Hq Hs Hi) as (r & H1 & H2 & H3 & H4). exists r. by rewrite HL.
  - intros q Hq. destruct (Z.eq_dec q np) as [->|Hne]; [rewrite Enp; congruence|]. rewrite Eq by done. by apply J3.
  - intros q Hq. destruct (Z.eq_dec q np) as [->|Hne]; [intros _; exists p; apply upd_eq|]. rewrite Eq by done. intros Hs.
    destruct (J4 q Hq Hs) as [r Hr]. exists r. rewrite upd_ne; [done|]. congruence.
  - intros r q. destruct (Z.eq_dec r p) as [->|Hne]; [rewrite upd_eq|rewrite upd_ne by done].
    + intros [= <-]. rewrite HL, Enp, Epar by done. split_and!; [lia..|done|done|left; by apply J3].
    + intros Hr. destruct (J5 r q Hr) as (H1 & H2 & H3 & H4 & H5). rewrite HL by done. rewrite Eq; [done|].
      intros ->. by apply (HN r).
  - intros r r' q. unfold upd. do 2 case_bool; subst; [done|..|by apply J6].
    + intros [= <-] Hr. by destruct (HN _ Hr).
    + intros Hr [= <-]. by destruct (HN _ Hr).
Qed.
Lemma step_alloc c p np t t' fk :
  pinv (Cfg t fk) -> 0 < t_nextpid t < 2 ^ 31 - 1 -> t_cpu t c = Some p -> fk p = None -> alloc_slot t = Some (np, t') ->
  pinv (Cfg t' (upd fk p (Some np))).
Proof.
  intros [I1 I2 I3 I4] Hn Hc Hf (Hnp & Hu & _ & Ep & En & Ei & Ec)%alloc_slot_some. cbn in *.
  destruct (cp_running _ I2 _ _ Hc) as [Hp Hr]. rewrite s32_small in En by lia. split; cbn.
  - by eapply ids_alloc; [exact I1|lia|..].
  - apply (cpus_ext t); [done..|]. intros q Hq. rewrite Ep. destruct (Z.eq_dec q np) as [->|]; [|by rewrite upd_ne].
    rewrite upd_eq, Hu. done.
  - eapply family_alloc; [exact I3|done|done|exact Ep|done|done|done|done| |done]. rewrite Hr. unfold live. auto.
  - apply (waits_ext t _ fk); [done|..].
    + intros q Hq. rewrite Ep. destruct (Z.eq_dec q np) as [->|]; [by rewrite upd_eq|rewrite upd_ne by done].
      intros Hs. split_and!; [done..|]. intros Hq'. rewrite upd_ne; [done|]. intros ->. congruence.
    + intros z q Hz. rewrite Ep. destruct (Z.eq_dec z np) as [->|]; [by rewrite upd_eq|by rewrite upd_ne].
Qed.

(** [fork] publishes the child: first its parent, then its state. *)
Lemma step_fork_parent p np t fk :
  pinv (Cfg t fk) -> fk p = Some np -> pinv (Cfg (mod_tab np (set_pparent (Some p)) t) fk).
Proof.
  intros [I1 I2 I3 I4] Hf. cbn in *. destruct (fm_forks _ _ I3 _ _ Hf) as (H1 & H2 & H3 & H4 & H5).
  set (t' := mod_tab _ _ _).
  assert (Es : forall q, p_state (t_proc t' q) = p_state (t_proc t q)).
  { intros q. subst t'; cbn. destruct (Z.eq_dec q np) as [->|]; [by rewrite upd_eq|by rewrite upd_ne]. }
  assert (Eq : forall q, q <> np -> t_proc t' q = t_proc t q) by (intros; by apply mod_tab_ne).
  assert (Enp : p_parent (t_proc t' np) = Some p) by (subst t'; by rewrite mod_tab_eq).
  assert (R : same_rest t t') by apply mod_tab_rest. destruct R as (En & Ei & Ec).
  assert (Epid : forall q, p_pid (t_proc t' q) = p_pid (t_proc t q)).
  { intros q. subst t'; cbn. destruct (Z.eq_dec q np) as [->|]; [by rewrite upd_eq|by rewrite upd_ne]. }
  assert (Ech : forall q, p_chan (t_proc t' q) = p_chan (t_proc t q)).
  { intros q. subst t'; cbn. destruct (Z.eq_dec q np) as [->|]; [by rewrite upd_eq|by rewrite upd_ne]. }
  clearbody t'. split; cbn.
  - apply (ids_ext t); [done..|]. intros q Hq. by rewrite Es, Epid.
  - apply (cpus_ext t); [done..|]. intros q Hq. by rewrite Es.
  - destruct I3 as [J1 J2 J3 J4 J5 J6]. split; [| | | | |done].
    + destruct J1 as (i & K1 & K2 & K3 & K4). exists i. rewrite Ei, Es, Eq; [done|]. intros ->. rewrite H4 in K3.
      unfold live in K3. intuition discriminate.
    + intros q Hq. rewrite Es, Ei. intros Hs Hi. assert (q <> np). { intros ->. rewrite H4 in Hs. unfold live in Hs. intuition discriminate. }
      rewrite Eq by done. destruct (J2 q Hq Hs Hi) as (r & K1 & K2 & K3 & K4). exists r. by rewrite Es.
    + intros q Hq. rewrite Es. intros Hs. rewrite Eq by congruence. by apply J3.
    + intros q Hq. rewrite Es. by apply J4.
    + intros r q Hr. rewrite !Es. destruct (J5 r q Hr) as (K1 & K2 & K3 & K4 & K5). split_and!; [lia..|done|done|].
      destruct (Z.eq_dec q np) as [->|]; [|by rewrite Eq]. right. rewrite Enp. f_equal. by apply (J6 p r np).
  - apply (waits_ext t _ fk); [done|..].
    + intros q Hq. by rewrite Es, Ech.
    + intros z q Hz. rewrite Es. intros Hzp Hs. rewrite Eq in Hzp by congruence. done.
Qed.
Lemma step_fork_run p np t fk :
  pinv (Cfg t fk) -> fk p = Some np -> p_parent (t_proc t np) = Some p ->
  pinv (Cfg (mod_tab np (set_pstate RUNNABLE) t) (upd fk p None)).
Proof.
  intros [I1 I2 I3 I4] Hf Hpar. cbn in *. destruct (fm_forks _ _ I3 _ _ Hf) as (H1 & H2 & H3 & H4 & H5).
  set (t' := mod_tab _ _ _).
  assert (Eq : forall q, q <> np -> t_proc t' q = t_proc t q) by (intros; by apply mod_tab_ne).
  assert (Enp : t_proc t' np = set_pstate RUNNABLE (t_proc t np)) by (apply mod_tab_eq).
  assert (R : same_rest t t') by apply mod_tab_rest. destruct R as (En & Ei & Ec).
  assert (LR : live RUNNABLE /\ ~ live USED) by (unfold live; intuition discriminate). destruct LR as [LR LU].
  assert (HL : forall r, live (p_state (t_proc t r)) -> t_proc t' r = t_proc t r).
  { intros r Hr. apply Eq. intros ->. by rewrite H4 in Hr. }
  clearbody t'. split; cbn.
  - apply (ids_ext t); [done..|]. intros q Hq. destruct (Z.eq_dec q np) as [->|]; [|by rewrite Eq]. by rewrite Enp, H4.
  - apply (cpus_ext t); [done..|]. intros q Hq. destruct (Z.eq_dec q np) as [->|]; [|by rewrite Eq]. by rewrite Enp, H4.
  - destruct I3 as [J1 J2 J3 J4 J5 J6]. split.
    + destruct J1 as (i & K1 & K2 & K3 & K4). exists i. by rewrite Ei, HL.
    + intros q Hq Hs Hi. rewrite Ei in Hi. destruct (Z.eq_dec q np) as [->|Hne].
      * exists p. rewrite Enp, HL by done. split_and!; [done|lia|lia| |done]. intros ->. by rewrite H4 in H3.
      * rewrite Eq in * by done. destruct (J2 q Hq Hs Hi) as (r & K1 & K2 & K3 & K4). exists r. by rewrite HL.
    + intros q Hq. destruct (Z.eq_dec q np) as [->|]; [by rewrite Enp|]. rewrite Eq by done. by apply J3.
    + intros q Hq. destruct (Z.eq_dec q np) as [->|]; [by rewrite Enp|]. rewrite Eq by done. intros Hs.
      destruct (J4 q Hq Hs) as [r Hr]. exists r. rewrite upd_ne; [done|]. congruence.
    + intros r q. destruct (Z.eq_dec r p) as [->|Hne]; [by rewrite upd_eq|]. rewrite upd_ne by done. intros Hr.
      destruct (J5 r q Hr) as (K1 & K2 & K3 & K4 & K5). rewrite HL by done. rewrite Eq; [done|].
      intros ->. by apply Hne, (J6 r p np).
    + intros r r' q. unfold upd. do 2 case_bool; try done. apply J6.
  - apply (waits_ext t _ fk); [done|..].
    + intros q Hq. destruct (Z.eq_dec q np) as [->|]; [by rewrite Enp|]. rewrite Eq by done. intros Hs. split_and!; [done..|].
      intros. unfold upd. by case_bool.
    + intros z q Hz. destruct (Z.eq_dec z np) as [->|]; [by rewrite Enp|]. by rewrite Eq.
Qed.

(** [exit]: the children go to [init], and nobody who could wait for them sleeps. *)
Lemma exited_other p status t t' q :
  exited p status t t' -> inproc q -> q <> p ->
  p_pid (t_proc t' q) = p_pid (t_proc t q) /\ p_chan (t_proc t' q) = p_chan (t_proc t q) /\
  p_parent (t_proc t' q) = (if bool_decide (p_parent (t_proc t q) = Some p) then t_initproc t else p_parent (t_proc t q)) /\
  (p_state (t_proc t' q) = p_state (t_proc t q) \/ (p_state (t_proc t q) = SLEEPING /\ p_state (t_proc t' q) = RUNNABLE)).
Proof.
  intros X Hq Hne. destruct (nudged_soft _ _ (ex_other _ _ _ _ X q Hq Hne)) as (-> & -> & -> & E).
  unfold adopt_e in *. by case_bool_decide.
Qed.
Lemma family_exit p status t t' fk :
  family t fk -> exited p status t t' -> inproc p -> p_state (t_proc t p) = RUNNING -> fk p = None -> Some p <> t_initproc t ->
  family t' fk.
Proof.
  intros [J1 J2 J3 J4 J5 J6] X Hp Hr Hf Hi. destruct (ex_self _ _ _ _ X) as (Zs & Zpid & Zpar).
  pose proof exited_other as EO. destruct (ex_rest _ _ _ _ X) as (En & Ei & Ec).
  assert (HL : ~ live UNUSED /\ ~ live ZOMBIE /\ ~ live USED /\ live SLEEPING /\ live RUNNABLE) by (unfold live; intuition discriminate).
  destruct HL as (LU & LZ & LD & LS & LR).
  assert (EL : forall q, inproc q -> q <> p -> live (p_state (t_proc t q)) -> live (p_state (t_proc t' q))).
  { intros q Hq Hne L. destruct (EO _ _ _ _ _ X Hq Hne) as (_ & _ & _ & [->|[_ ->]]); done. }
  assert (ES : forall q st, inproc q -> q <> p -> st <> RUNNABLE -> p_state (t_proc t' q) = st -> p_state (t_proc t q) = st).
  { intros q st Hq Hne Hst E. destruct (EO _ _ _ _ _ X Hq Hne) as (_ & _ & _ & [E'|[_ E']]); congruence. }
  destruct J1 as (i & K1 & K2 & K3 & K4). assert (i <> p) as Hip by congruence. split.
  - exists i. destruct (EO _ _ _ _ _ X K2 Hip) as (_ & _ & -> & _). rewrite Ei, K4, bool_decide_eq_false_2 by done.
    split_and!; [done|lia|lia|by apply EL|done].
  - intros q Hq Hs Hqi. rewrite Ei in Hqi. destruct (Z.eq_dec q p) as [->|Hne].
    { destruct (J2 p Hq) as (r & M1 & M2 & M3 & M4); [left; rewrite Hr; unfold live; auto|done|]. exists r. rewrite Zpar. auto 6. }
    destruct (EO _ _ _ _ _ X Hq Hne) as (_ & _ & Epar & Est).
    destruct (J2 q Hq) as (r & M1 & M2 & M3 & M4).
    { destruct Est as [Est|[Est _]]; [by rewrite Est in Hs|rewrite Est; auto]. }
    { done. }
    rewrite M1 in Epar. rewrite Epar. clear Epar. case_bool_decide as Er.
    + exists i. split_and!; [done|lia|lia|congruence|by apply EL].
    + exists r. split_and!; [done|lia|lia|done|]. apply EL; [done| |done]. congruence.
  - intros q Hq Hs. destruct (Z.eq_dec q p) as [->|Hne]; [congruence|]. apply ES in Hs; [|done..].
    destruct (EO _ _ _ _ _ X Hq Hne) as (_ & _ & -> & _). by rewrite (J3 q Hq Hs), bool_decide_eq_false_2.
  - intros q Hq Hs. destruct (Z.eq_dec q p) as [->|Hne]; [congruence|]. apply ES in Hs; [|done..]. by apply J4.
  - intros r q Hfr. destruct (J5 r q Hfr) as (M1 & M2 & M3 & M4 & M5).
    assert (r <> p) by congruence. assert (q <> p) by congruence.
    destruct (EO _ _ _ _ _ X M2 ltac:(done)) as (_ & _ & -> & Est). split_and!; [lia..|by apply EL| |].
    + destruct Est as [->|[Est _]]; [done|congruence].
    + rewrite bool_decide_eq_false_2; [done|]. destruct M5; congruence.
  - done.
Qed.
Lemma waits_exit p status t t' fk :
  waits_ok t fk -> family t fk -> exited p status t t' -> inproc p -> p_state (t_proc t p) = RUNNING -> Some p <> t_initproc t ->
  waits_ok t' fk.
Proof.
  intros W F X Hp Hr Hi. destruct (ex_self _ _ _ _ X) as (Zs & Zpid & Zpar).
  destruct (fm_init _ _ F) as (i & K1 & K2 & K3 & K4). assert (i <> p) as Hip by congruence.
  intros q r Hq Hs Hc. assert (q <> p) as Hne by congruence.
  destruct (exited_other _ _ _ _ _ X Hq Hne) as (_ & Ec & _ & Est).
  destruct Est as [Est|[_ Est]]; [|congruence]. assert (Hs0 := Hs). rewrite Est in Hs0. assert (Hc0 := Hc). rewrite Ec in Hc0.
  destruct (W q r Hq Hs0 Hc0) as (-> & Hf & Hz). split_and!; [done..|]. intros z Hiz Hzp HZ.
  destruct (Z.eq_dec z p) as [->|Hzne].
  - rewrite Zpar in Hzp. by apply (ex_parent _ _ _ _ X q Hq Hne Hzp).
  - destruct (exited_other _ _ _ _ _ X Hiz Hzne) as (_ & _ & Epar & Ez). rewrite Epar in Hzp.
    destruct Ez as [Ez|[_ Ez]]; [|congruence]. rewrite Ez in HZ. case_bool_decide as Ep.
    + assert (i = q) as -> by congruence. by apply (ex_init _ _ _ _ X q z K1 K2 Hip Hiz Ep).
    + by apply (Hz z).
Qed.
Lemma step_exit c p status t t' fk :
  pinv (Cfg t fk) -> t_cpu t c = Some p -> fk p = None -> Some p <> t_initproc t ->
  sched true 1 false c p (exit_tab p status t) = Ret t' -> pinv (Cfg t' fk).
Proof.
  intros [I1 I2 I3 I4] Hc Hf Hi [-> Hs]%sched_ret. cbn in *. destruct (cp_running _ I2 _ _ Hc) as [Hp Hr].
  assert (Hself : p_parent (t_proc t p) <> Some p).
  { destruct (fm_parent _ _ I3 p Hp) as (r & E & _ & Hne & _); [left; rewrite Hr; unfold live; auto|done|]. congruence. }
  pose proof (exit_tab_exited p status t Hp Hself) as X. revert X. generalize (exit_tab p status t). clear Hs. intros t1 X.
  destruct (ex_self _ _ _ _ X) as (Zs & Zpid & Zpar). destruct (ex_rest _ _ _ _ X) as (En & Ei & Ec). split; cbn.
  - apply (ids_ext t); [done..|]. intros q Hq. cbn. destruct (Z.eq_dec q p) as [->|Hne]; [by rewrite Zs, Zpid, Hr|].
    destruct (exited_other _ _ _ _ _ X Hq Hne) as (-> & _ & _ & [->|[-> ->]]); done.
  - apply (cpus_leave t _ c p); [done|done|by cbn; rewrite Ec|cbn; congruence|]. intros q Hq Hne. cbn.
    destruct (exited_other _ _ _ _ _ X Hq Hne) as (_ & _ & _ & [->|[-> ->]]); done.
  - apply (family_ext t1); [by eapply family_exit|done|]. intros q Hq. cbn. auto.
  - apply (waits_ext t1 _ fk); [by eapply waits_exit|cbn; auto..].
Qed.

(** ** Every interleaving *)
Lemma pstep_pinv g g' : 0 < t_nextpid (g_t g) < 2 ^ 31 - 1 -> pinv g -> pstep g g' -> pinv g'.
Proof.
  intros Hn I HS. destruct HS; cbn [g_t g_forks] in *.
  - by eapply step_pick.
  - by eapply (step_off c p); [exact I|done|exact H0|unfold live; cbn; auto|done..].
  - by eapply (step_off c p); [exact I|done|exact H0|unfold live; cbn; auto|done..].
  - eapply pinv_soft; [exact I|apply wakeup_rest|]. intros q _. apply nudged_soft, wakeup_nudged.
  - unfold kill in H. apply kill_scan_cases in H as [(_ & -> & _)|(q & _ & _ & _ & _ & R & Ep)]; [done|].
    eapply pinv_soft; [exact I|done|]. intros r0 _. rewrite Ep. destruct (Z.eq_dec r0 q) as [->|].
    + rewrite upd_eq. case_bool_decide; unfold soft; cbn; split_and!; auto.
    + rewrite upd_ne by done. unfold soft. split_and!; auto.
  - eapply pinv_soft; [exact I|apply mod_tab_rest|]. intros r _. unfold setkilled. destruct (Z.eq_dec r p) as [->|].
    + rewrite mod_tab_eq. unfold soft. cbn. split_and!; auto.
    + rewrite mod_tab_ne by done. unfold soft. split_and!; auto.
  - by eapply step_alloc.
  - by eapply step_fork_fail.
  - by eapply step_fork_parent.
  - by eapply step_fork_run.
  - eapply step_exit; eassumption.
  - eapply step_reap; eassumption.
  - eapply (step_off c p); [exact I|done|exact H3|unfold live; cbn; auto|done|done|]. cbn. intros r _ [= <-].
    split_and!; [done..|]. intros z Hz. by eapply wait_find_inr.
Qed.

(** The table that [procinit] and [userinit] make. *)
Lemma init_fold_at (g : Z -> proc -> proc) l t q :
  NoDup l ->
  t_proc (fold_left (fun t p => mod_tab p (g p) t) l t) q = if bool_decide (q ∈ l) then g q (t_proc t q) else t_proc t q.
Proof.
  intros HD. revert t. induction HD as [|p l Hp HD IH]; intros t; cbn; [done|]. rewrite IH.
  destruct (Z.eq_dec q p) as [->|Hne].
  - rewrite bool_decide_eq_false_2, bool_decide_eq_true_2, mod_tab_eq by set_solver. done.
  - rewrite mod_tab_ne by done.
    destruct (decide (q ∈ l)); [rewrite !bool_decide_eq_true_2 by set_solver|rewrite !bool_decide_eq_false_2 by set_solver]; done.
Qed.
Lemma procinit_at t q :
  t_proc (procinit t) q = if bool_decide (inproc q) then set_pkstack (KSTACK q) (set_pstate UNUSED (t_proc t q)) else t_proc t q.
Proof.
  unfold procinit, for_procs.
  rewrite (init_fold_at (fun p e => set_pkstack (KSTACK p) (set_pstate UNUSED e))) by apply NoDup_seqZ.
  erewrite bool_decide_ext; [reflexivity|]. rewrite elem_of_seqZ. lia.
Qed.
Lemma procinit_rest t : same_rest t (procinit t).
Proof. apply (fold_rest (fun p => mod_tab p (fun e => set_pkstack (KSTACK p) (set_pstate UNUSED e)))). intros. apply mod_tab_rest. Qed.
Lemma boot_facts :
  t_nextpid boot_tab = 2 /\ t_initproc boot_tab = Some 0 /\ (forall c, t_cpu boot_tab c = None) /\
  (forall q, inproc q -> p_parent (t_proc boot_tab q) = None /\
     if q =? 0 then p_state (t_proc boot_tab q) = RUNNABLE /\ p_pid (t_proc boot_tab q) = 1
     else p_state (t_proc boot_tab q) = UNUSED /\ p_pid (t_proc boot_tab q) = 0).
Proof.
  unfold boot_tab. destruct (procinit_rest zero_tab) as (En & Ei & Ec). pose proof (procinit_at zero_tab) as Ea.
  revert En Ei Ec Ea. generalize (procinit zero_tab). intros t En Ei Ec Ea.
  destruct (alloc_slot t) as [[p t']|] eqn:Es.
  - apply alloc_slot_some in Es as (Hp & Hu & HF & Ep & En' & Ei' & Ec').
    assert (p = 0) as ->.
    { destruct (Z.eq_dec p 0) as [|Hne]; [done|]. exfalso. apply (HF 0); [lia|]. rewrite Ea. done. }
    cbn. rewrite En', Ec', En, Ec. split_and!; [done|done|done|]. intros q Hq. rewrite Ep. unfold upd.
    destruct (Z.eqb_spec q 0) as [->|Hne]; cbn; [rewrite Ea, En; done|]. rewrite Ea, bool_decide_eq_true_2 by done. done.
  - exfalso. unfold alloc_slot in Es. change (Z.to_nat NPROC) with (S 63) in Es. cbn [unused_scan] in Es.
    rewrite bool_decide_eq_true_2 in Es; [done|]. by rewrite Ea.
Qed.
Lemma boot_pinv : pinv boot.
Proof.
  destruct boot_facts as (En & Ei & Ec & Eq). unfold boot. revert En Ei Ec Eq. generalize boot_tab. intros t En Ei Ec Eq.
  assert (E0 : inproc 0) by (unfold NPROC; lia).
  assert (HQ : forall q, inproc q -> p_state (t_proc t q) <> UNUSED -> q = 0).
  { intros q Hq Hs. destruct (Eq q Hq) as [_ Hq']. destruct (Z.eqb_spec q 0); [done|]. by destruct Hq'. }
  destruct (Eq 0 E0) as (P0 & S0 & D0). split; cbn.
  - split.
    + intros q Hq Hs. destruct (Eq q Hq) as [_ Hq']. destruct (Z.eqb_spec q 0); [subst; congruence|]. apply Hq'.
    + intros q Hq Hs. apply HQ in Hs as ->; [|done]. rewrite D0, En. lia.
    + intros q r Hq Hr Hs. apply HQ in Hs as ->; [|done]. intros E. symmetry. apply HQ; [done|]. intros Hu.
      destruct (Eq r Hr) as [_ Hr']. destruct (Z.eqb_spec r 0); [subst; congruence|]. destruct Hr'. lia.
  - split.
    + intros c q. by rewrite Ec.
    + intros c c' q. by rewrite Ec.
    + intros q Hq Hs. apply HQ in Hq as ->; congruence.
  - split; [| | | |done|done].
    + exists 0. rewrite S0. unfold live. split; [done|]. split; [done|]. auto.
    + intros q Hq Hs Hi. destruct Hi. rewrite Ei, (HQ q); [done..|]. unfold live in Hs. intuition congruence.
    + intros q Hq _. by apply Eq.
    + intros q Hq Hs. assert (q = 0) as -> by (apply HQ; congruence). congruence.
  - intros q r Hq Hs _. assert (q = 0) as -> by (apply HQ; congruence). congruence.
Qed.

Lemma set_cpu_next c p t : t_nextpid (set_cpu c p t) = t_nextpid t.
Proof. done. Qed.
Lemma pstep_next g g' :
  pstep g g' -> t_nextpid (g_t g') = t_nextpid (g_t g) \/ t_nextpid (g_t g') = s32 (t_nextpid (g_t g) + 1).
Proof.
  intros HS. destruct HS as [c p t t' fk _ _ E|c p t t' fk _ E|c p a t t' fk _ E|me a t fk|pid r t t' fk E|c p t fk _
    |c p np t t' fk _ _ E|c p np t fk _ _ _|c p np t fk _ _|c p np t fk _ _ _|c p status t t' fk _ _ _ E|c p pp t fk _ _ _|c p t t' fk _ _ _ _ E];
    cbn [g_t]; try (left; reflexivity).
  - left. unfold sched_try in E. case_bool_decide; [|done]. by injection E as <-.
  - left. apply sched_ret in E as [-> _]. done.
  - left. apply sched_ret in E as [-> _]. done.
  - left. apply wakeup_rest.
  - left. unfold kill in E. apply kill_scan_cases in E as [(_ & -> & _)|(q & _ & _ & _ & _ & R & _)]; [done|apply R].
  - right. by apply alloc_slot_some in E as (_ & _ & _ & _ & -> & _).
  - left. apply sched_ret in E as [-> _]. rewrite set_cpu_next. apply exit_tab_rest.
  - left. apply sched_ret in E as [-> _]. done.
Qed.
Lemma preach_pinv n g : preach n g -> Z.of_nat n < 2 ^ 31 - 3 -> pinv g /\ 0 < t_nextpid (g_t g) <= 2 + Z.of_nat n.
Proof.
  induction 1 as [|n g g' HR IH HS]; intros Hn.
  - split; [apply boot_pinv|]. destruct boot_facts as (En & _). unfold boot. cbn [g_t]. rewrite En. lia.
  - destruct IH as [I Hb]; [lia|]. split; [apply (pstep_pinv g); [lia|done..]|].
    destruct (pstep_next _ _ HS) as [->| ->]; [lia|]. rewrite s32_small by lia. lia.
Qed.

(** C36. In every interleaving of the critical sections of proc.c on any
    number of CPUs, as long as fewer than 2^31 - 3 of them have run (each takes at
    most one of the int process identifiers): two processes never have the same identifier; the
    current process of a CPU is in state RUNNING, is current on no other CPU, and
    every RUNNING process is current somewhere; and every process but init,
    zombies included, has another process as its parent which has not exited. *)
Theorem proc_invariant (n : nat) (g : cfg) (R : preach n g) (Hn : Z.of_nat n < 2 ^ 31 - 3) :
  (forall q r, inproc q -> inproc r -> p_state (t_proc (g_t g) q) <> UNUSED ->
     p_pid (t_proc (g_t g) q) = p_pid (t_proc (g_t g) r) -> q = r) /\
  (forall c q, t_cpu (g_t g) c = Some q -> inproc q /\ p_state (t_proc (g_t g) q) = RUNNING) /\
  (forall c c' q, t_cpu (g_t g) c = Some q -> t_cpu (g_t g) c' = Some q -> c = c') /\
  (forall q, inproc q -> p_state (t_proc (g_t g) q) = RUNNING -> exists c, t_cpu (g_t g) c = Some q) /\
  (forall q, inproc q -> live (p_state (t_proc (g_t g) q)) \/ p_state (t_proc (g_t g) q) = ZOMBIE ->
     Some q <> t_initproc (g_t g) ->
     exists r, p_parent (t_proc (g_t g) q) = Some r /\ inproc r /\ r <> q /\ live (p_state (t_proc (g_t g) r))).
Proof.
  destruct (preach_pinv n g R Hn) as [[[_ _ I1] [I2 I3 I4] [_ I5 _ _ _ _] _] _]. auto 6.
Qed.

(** C37. No zombie is stranded: in every interleaving the parent of a zombie
    has not exited (the children of a process that exits have gone to init), it is
    not asleep in wait, and its next round of wait finds a zombie to collect.  In
    particular the wakeups of exit and reparent are never lost. *)
Theorem zombie_not_stranded (n : nat) (g : cfg) (z : Z) (R : preach n g) (Hn : Z.of_nat n < 2 ^ 31 - 3) :
  inproc z -> p_state (t_proc (g_t g) z) = ZOMBIE ->
  exists r z', p_parent (t_proc (g_t g) z) = Some r /\ inproc r /\ live (p_state (t_proc (g_t g) r)) /\
    ~ in_wait (g_t g) r /\ wait_find r (g_t g) = inl z'.
Proof.
  intros Hz Zs. destruct (preach_pinv n g R Hn) as [[_ _ I3 I4] _].
  destruct (fm_init _ _ I3) as (i & K1 & _ & K3 & _).
  destruct (fm_parent _ _ I3 z Hz) as (r & E & Hr & _ & L); [by right| |].
  { rewrite K1. intros [= <-]. rewrite Zs in K3. unfold live in K3. intuition discriminate. }
  destruct (wait_find r (g_t g)) as [z'|b] eqn:EW; [|by destruct (wait_find_inr _ _ _ _ EW Hz E)].
  exists r, z'. split_and!; [done|lia|lia|done| |done]. intros [W1 W2].
  destruct (I4 r r Hr W1 W2) as (_ & _ & HN). by apply (HN z).
Qed.

Lemma unused_scan_first k t p q :
  p <= q < p + Z.of_nat k -> p_state (t_proc t q) = UNUSED -> (forall y, p <= y < q -> p_state (t_proc t y) <> UNUSED) ->
  unused_scan k t p = Some q.
Proof.
  revert p. induction k as [|k IH]; intros p Hq Hu HF; [lia|]. cbn. destruct (Z.eq_dec p q) as [->|Hne].
  - by rewrite bool_decide_eq_true_2.
  - rewrite bool_decide_eq_false_2 by (apply HF; lia). apply IH; [lia|done|]. intros y Hy. apply HF. lia.
Qed.
Lemma alloc_slot_first t q :
  inproc q -> p_state (t_proc t q) = UNUSED -> (forall y, 0 <= y < q -> p_state (t_proc t y) <> UNUSED) ->
  exists t', alloc_slot t = Some (q, t').
Proof.
  intros Hq Hu HF. unfold alloc_slot. rewrite (unused_scan_first _ t 0 q); [|unfold NPROC in *; lia|done..]. cbn. eauto.
Qed.

(** C40. kill(0) succeeds although no process has identifier 0: it finds the
    first unused entry of the table, whose pid field is 0, and marks it as
    killed.  allocproc does not reset the mark, so the process that the next fork
    creates is born killed and exits on its first trap. *)
Theorem kill_zero_dooms_next_child (n : nat) (g : cfg) (np : Z) (t' : ptab) (R : preach n g) (Hn : Z.of_nat n < 2 ^ 31 - 3) :
  alloc_slot (g_t g) = Some (np, t') ->
  exists t1 t2, kill 0 (g_t g) = (0, t1) /\ alloc_slot t1 = Some (np, t2) /\ killed np t2 = 1.
Proof.
  intros (Hnp & Hu & HF & _)%alloc_slot_some. destruct (preach_pinv n g R Hn) as [[[I1 I2 _] _ _ _] _].
  assert (HP : forall y, 0 <= y < np -> p_pid (t_proc (g_t g) y) <> 0).
  { intros y Hy. specialize (I2 y ltac:(lia) (HF y Hy)). lia. }
  destruct (kill 0 (g_t g)) as [r t1] eqn:EK. pose proof EK as EK'. unfold kill in EK.
  apply kill_scan_cases in EK as [(_ & _ & HN)|(q & -> & Hq & Hpid & HN & _ & Ep)].
  { exfalso. apply (HN np); [unfold NPROC in *; lia|]. by apply I1. }
  assert (q = np) as ->.
  { destruct (Z.lt_trichotomy q np) as [Hlt|[|Hgt]]; [|done|].
    - exfalso. apply (HP q); [lia|done].
    - exfalso. apply (HN np); [lia|]. by apply I1. }
  rewrite Hu, bool_decide_eq_false_2 in Ep by done.
  destruct (alloc_slot_first t1 np) as [t2 E2]; [done|by rewrite Ep, upd_eq| |].
  { intros y Hy. rewrite Ep, upd_ne by lia. by apply HF. }
  exists t1, t2. split_and!; [done|done|]. apply alloc_slot_some in E2 as (_ & _ & _ & E2 & _).
  unfold killed. rewrite E2, upd_eq. cbn. by rewrite Ep, upd_eq.
Qed.

(** * A run: init forks a child, which exits *)
Definition run1 : ptab := sleep_return 0 (snd (sched_try 0 0 boot_tab)).
Definition run2 : ptab := match alloc_slot run1 with Some (_, t) => t | None => run1 end.
Definition run3 : ptab := mod_tab 1 (set_pparent (Some 0)) run2.
Definition run4 : ptab := mod_tab 1 (set_pstate RUNNABLE) run3.
Definition run5 : ptab := sleep_return 1 (snd (sched_try 1 1 run4)).
Definition run6 : ptab := set_cpu 1 None (exit_tab 1 7 run5).
Definition fk1 : Z -> option Z := upd (fun _ => None) 0 (Some 1).
Lemma run_zombie : preach 6 (Cfg run6 (upd fk1 0 None)).
Proof.
  apply (R_step _ (Cfg run5 (upd fk1 0 None))).
  2: { apply (S_exit 1 1 7); [by vm_compute..|]. unfold sched. cbn [negb Z.eqb]. rewrite bool_decide_eq_false_2; [reflexivity|].
       unfold exit_tab. rewrite mod_tab_eq. done. }
  apply (R_step _ (Cfg run4 (upd fk1 0 None))).
  2: { apply (S_pick 1 1 run4); [by vm_compute|by vm_compute|]. unfold sched_try. rewrite bool_decide_eq_true_2 by by vm_compute. reflexivity. }
  apply (R_step _ (Cfg run3 fk1)); [|by apply (S_fork_run 0 0 1); vm_compute].
  apply (R_step _ (Cfg run2 fk1)); [|by apply (S_fork_parent 0 0 1); vm_compute].
  apply (R_step _ (Cfg run1 (fun _ => None))).
  2: { apply (S_alloc 0 0 1); [by vm_compute..|]. assert (fst <$> alloc_slot run1 = Some 1) as E by by vm_compute.
       unfold run2. revert E. generalize (alloc_slot run1). intros [[q t]|] [= ->]. reflexivity. }
  apply (R_step _ boot); [apply R_boot|]. unfold boot, run1. apply (S_pick 0 0 boot_tab); [by vm_compute|by vm_compute|].
  unfold sched_try. rewrite bool_decide_eq_true_2 by by vm_compute. reflexivity.
Qed.
Lemma proc_invariant_witness :
  exists r, p_parent (t_proc run6 1) = Some r /\ inproc r /\ r <> 1 /\ live (p_state (t_proc run6 r)).
Proof.
  destruct (proc_invariant 6 (Cfg run6 (upd fk1 0 None)) run_zombie ltac:(lia)) as (_ & _ & _ & _ & HP).
  apply (HP 1); [unfold NPROC; lia|right; vm_compute; reflexivity|vm_compute; discriminate].
Defined.
Lemma zombie_not_stranded_witness :
  exists r z', p_parent (t_proc run6 1) = Some r /\ ~ in_wait run6 r /\ wait_find r run6 = inl z'.
Proof.
  destruct (zombie_not_stranded 6 (Cfg run6 (upd fk1 0 None)) 1 run_zombie ltac:(lia)) as (r & z' & H1 & _ & _ & H2 & H3).
  - unfold NPROC. lia.
  - vm_compute. reflexivity.
  - exists r, z'. split; [exact H1|]. split; [exact H2|exact H3].
Defined.
Lemma kill_zero_dooms_next_child_witness :
  exists t1 t2, kill 0 (g_t boot) = (0, t1) /\ alloc_slot t1 = Some (1, t2) /\ killed 1 t2 = 1.
Proof.
  destruct boot_facts as (_ & _ & _ & HB). destruct (alloc_slot_first (g_t boot) 1) as [t' E].
  - unfold NPROC. lia.
  - apply (HB 1). unfold NPROC. lia.
  - intros y Hy. assert (y = 0) as -> by lia. destruct (HB 0) as [_ [E _]]; [unfold NPROC; lia|]. cbn [g_t boot]. rewrite E. discriminate.
  - exact (kill_zero_dooms_next_child 0 boot 1 t' R_boot ltac:(lia) E).
Defined.
