(* ===== verification/AddrSpace.v ===== *)
(** Address spaces of processes (proc_pagetable and proc_freepagetable of
    kernel/proc.c) and the implementation of the interfaces of the process layer by
    the page tables of Vm.v.  [trampoline] and [initaddr] (the array [initcode]) are
    addresses the linker chooses. *)
From S2P Require Import Prelude Riscv Memory Lru Blocks Kmem Vm UserMem UserCopy Proc.

Section space.
Context {C : Type} `{BufCache C}.
Context (kend : Z) (fuel : nat) (trampoline initaddr : Z).

Definition proc_pagetable (trapframe : Z) : M (vm C) Z :=
  pagetable ← uvmcreate kend fuel;
  if pagetable =? 0 then mret 0
  else
    r ← mappages kend fuel pagetable TRAMPOLINE PGSIZE trampoline (Z.lor PTE_R PTE_X);
    if r <? 0 then _ ← uvmfree kend fuel pagetable 0; mret 0
    else
      r ← mappages kend fuel pagetable TRAPFRAME PGSIZE trapframe (Z.lor PTE_R PTE_W);
      if r <? 0 then
        _ ← uvmunmap kend fuel pagetable TRAMPOLINE 1 false;
        _ ← uvmfree kend fuel pagetable 0; mret 0
      else mret pagetable.
Definition proc_freepagetable (pagetable sz : Z) : M (vm C) unit :=
  _ ← uvmunmap kend fuel pagetable TRAMPOLINE 1 false;
  _ ← uvmunmap kend fuel pagetable TRAPFRAME 1 false;
  uvmfree kend fuel pagetable sz.

Definition vm_pages : PageAlloc (vm C) := {|
  page_alloc := kalloc kend fuel;
  page_free := kfree kend |}.
Definition vm_space : AddrSpace (vm C) := {|
  as_pagetable := proc_pagetable;
  as_freepagetable := proc_freepagetable;
  as_first pt code := uvmfirst kend fuel pt initaddr (lenZ code);
  as_alloc := uvmalloc kend fuel;
  as_dealloc := uvmdealloc kend fuel;
  as_copy := uvmcopy kend fuel;
  as_clear := uvmclear kend fuel;
  as_walkaddr := walkaddr kend fuel;
  as_swapin := swapin kend fuel;
  as_swapread := swapread;
  as_swapwrite := swapwrite;
  as_counts s := (v_nread s, v_nwrite s) |}.
End space.
