(* ===== verification/Exec.v ===== *)
(** Running a program (kernel/exec.c).

    [exec] builds the new address space beside the old one and replaces the image of
    the process only at the end, so its result carries the new image: the page
    table, the size and the name that the caller's entry gets.  The header and the
    program headers are read into the variables [elf] and [ph] on the kernel stack,
    at the addresses [elf] and [ph]. *)
From S2P Require Import Prelude Riscv Memory Locks Blocks Log UserMem Pipe Fs File Sysfile Proc.

Definition ELF_MAGIC : Z := 0x464C457F.
Definition ELF_PROG_LOAD : Z := 1.
Definition ELFHDR : Z := 64.      (* sizeof(struct elfhdr) *)
Definition PROGHDR : Z := 56.     (* sizeof(struct proghdr) *)

Definition flags2perm (flags : Z) : Z :=
  let perm := if nz (Z.land flags 1) then PTE_X else 0 in
  if nz (Z.land flags 2) then Z.lor perm PTE_W else perm.

(** The part of [path] after its last slash. *)
Fixpoint last_elem (last s : list Z) : list Z :=
  match s with
  | [] => last
  | c :: s => last_elem (if c =? 47 then s else last) s
  end.

Record image := Image { im_pagetable : Z; im_sz : Z; im_name : list Z }.

Section exec.
Context {C U : Type} `{BufCache C} `{UserMem U} `{PageAlloc U} `{AddrSpace U}.
(** The process: its pid, page table, size and trapframe. *)
Context (pid pt sz tf : Z).
Context (de elf ph : Z).
Abbreviation S := (M (sst C U)).

Definition suser {A} (m : M U A) : S A := sfs (on_user m).
(** The integer of [n] bytes at a kernel address. *)
Definition field (a : Z) (n : nat) : S Z := gets (fun s => le_value (kcopyin (f_user (k_fs (s_k s))) a n)).
(** [readi] into kernel memory: whether all the bytes came. *)
Definition read_kernel (ip dst off n : Z) : S bool := r ← sfs (readi pt ip false dst off n); mret (r =? n).

(** The loop runs at most once per page; [i] is a [uint]. *)
Fixpoint loadseg_loop (rounds : nat) (pagetable va ip offset sz i : Z) : S Z :=
  if i <? sz then
    match rounds with
    | O => nofuel
    | Datatypes.S rounds =>
        pa ← suser (as_walkaddr pagetable (u64 (va + i)));
        if pa =? 0 then panic "loadseg: address should exist"
        else
          let n := if sz - i <? PGSIZE then sz - i else PGSIZE in
          ok ← read_kernel ip pa (u32 (offset + i)) n;
          if ok : bool then loadseg_loop rounds pagetable va ip offset sz (u32 (i + PGSIZE)) else mret (-1)
    end
  else mret 0.
Definition loadseg (pagetable va ip offset sz : Z) : S Z :=
  loadseg_loop (Z.to_nat (sz / PGSIZE + 1)) pagetable va ip offset sz 0.

(** The program headers: whether all was well, and the size so far. *)
Fixpoint load_segments (k : nat) (pagetable ip off sz : Z) : S (bool * Z) :=
  match k with
  | O => mret (true, sz)
  | Datatypes.S k =>
      ok ← read_kernel ip ph (u32 off) PROGHDR;
      if negb ok then mret (false, sz)
      else
        type ← field ph 4;
        if negb (type =? ELF_PROG_LOAD) then load_segments k pagetable ip (s32 (off + PROGHDR)) sz
        else
          flags ← field (ph + 4) 4;
          foff ← field (ph + 8) 8;
          vaddr ← field (ph + 16) 8;
          filesz ← field (ph + 32) 8;
          memsz ← field (ph + 40) 8;
          if memsz <? filesz then mret (false, sz)
          else if u64 (vaddr + memsz) <? vaddr then mret (false, sz)
          else if negb (vaddr mod PGSIZE =? 0) then mret (false, sz)
          else
            sz1 ← suser (as_alloc pagetable sz (u64 (vaddr + memsz)) (flags2perm flags));
            if sz1 =? 0 then mret (false, sz)
            else
              r ← loadseg pagetable vaddr ip (u32 foff) (u32 filesz);
              if r <? 0 then mret (false, sz1) else load_segments k pagetable ip (s32 (off + PROGHDR)) sz1
  end.

(** ** The user stack *)
(** [sp] after making room for [n] bytes at a multiple of 16. *)
Definition push_sp (sp n : Z) : Z := let sp := u64 (sp - n) in sp - sp mod 16.
(** The argument strings: the stack pointer and [ustack], or failure. *)
Fixpoint push_strings (pagetable stackbase sp : Z) (argv : list (list Z)) (ustack : list Z) : S (option (Z * list Z)) :=
  match argv with
  | [] => mret (Some (sp, ustack))
  | s :: argv =>
      if lenZ ustack >=? MAXARG then mret None
      else
        let sp := push_sp sp (lenZ s + 1) in
        if sp <? stackbase then mret None
        else
          ok ← sfs (fcopyout pagetable true sp (s ++ [0]));
          if ok : bool then push_strings pagetable stackbase sp argv (ustack ++ [sp]) else mret None
  end.
(** The strings and the array of pointers to them; the number of arguments and the
    stack pointer. *)
Definition push_args (pagetable sz : Z) (argv : list (list Z)) : S (option (Z * Z)) :=
  let stackbase := u64 (sz - USERSTACK * PGSIZE) in
  r ← push_strings pagetable stackbase sz argv [];
  match r with
  | None => mret None
  | Some (sp, ustack) =>
      let argc := lenZ ustack in
      let sp := push_sp sp ((argc + 1) * 8) in
      if sp <? stackbase then mret None
      else
        ok ← sfs (fcopyout pagetable true sp (concat (le_bytes 8 <$> ustack ++ [0])));
        if ok : bool then mret (Some (argc, sp)) else mret None
  end.

(** ** [exec] *)
Definition bad (pagetable sz : Z) (ip : option Z) : S (Z * option image) :=
  _ ← (if nz pagetable then suser (as_freepagetable pagetable sz) else mret tt);
  _ ← match ip with
      | Some ip => _ ← sfs (iunlockput pid ip); send_op
      | None => mret tt
      end;
  mret (-1, None).
(** From the stack on, with the program loaded and the inode released. *)
Definition exec_commit (pagetable sz0 entry : Z) (path : list Z) (argv : list (list Z)) : S (Z * option image) :=
  let sz1 := PGROUNDUP sz0 in
  sz2 ← suser (as_alloc pagetable sz1 (u64 (sz1 + (USERSTACK + 1) * PGSIZE)) PTE_W);
  if sz2 =? 0 then bad pagetable sz1 None
  else
    _ ← suser (as_clear pagetable (u64 (sz2 - (USERSTACK + 1) * PGSIZE)));
    r ← push_args pagetable sz2 argv;
    match r with
    | None => bad pagetable sz2 None
    | Some (argc, sp) =>
        _ ← suser (modify (tf_put tf (TF_A 1) sp));
        _ ← suser (modify (tf_put tf TF_EPC entry));
        _ ← suser (modify (tf_put tf TF_SP sp));
        _ ← suser (as_freepagetable pt sz);
        mret (argc, Some (Image pagetable sz2 (take 15 (last_elem path path))))
    end.
Definition exec (path : list Z) (argv : list (list Z)) : S (Z * option image) :=
  _ ← sbegin_op;
  cwd ← gets s_cwd;
  r ← sfs (namei pid pt de cwd path);
  match r with
  | None => _ ← send_op; mret (-1, None)
  | Some ip =>
      _ ← sfs (ilock pid ip);
      ok ← read_kernel ip elf 0 ELFHDR;
      if negb ok then bad 0 0 (Some ip)
      else
        magic ← field elf 4;
        if negb (magic =? ELF_MAGIC) then bad 0 0 (Some ip)
        else
          pagetable ← suser (as_pagetable tf);
          if pagetable =? 0 then bad 0 0 (Some ip)
          else
            phoff ← field (elf + 32) 8;
            phnum ← field (elf + 56) 2;
            r ← load_segments (Z.to_nat phnum) pagetable ip (s32 phoff) 0;
            let '(ok, sz0) := r in
            if negb ok then bad pagetable sz0 (Some ip)
            else
              _ ← sfs (iunlockput pid ip);
              _ ← send_op;
              entry ← field (elf + 24) 8;
              exec_commit pagetable sz0 entry path argv
  end.
End exec.

(** * The stack that the program starts on *)
Section stack.
Context {C U : Type} `{BufCache C} `{UserMemLaws U}.
Implicit Types (s : sst C U) (u : U).

(** The bytes [l] are at the user address [va]. *)
Definition holds u (pt va : Z) (l : list Z) : Prop :=
  forall i b, l !! i = Some b -> ubyte u pt (va + Z.of_nat i) = Some (u8 b).
Definition is_byte (b : Z) : Prop := 0 <= b < 2 ^ 8.

Lemma holds_ucopyin u pt l : forall va, Forall is_byte l -> holds u pt va l -> ucopyin u pt va (length l) = Some l.
Proof using Type.
  induction l as [|b l IH]; intros va Hb Hl; [done|]. apply Forall_cons in Hb as [Hb Hbs]. cbn [ucopyin length].
  assert (ubyte u pt va = Some b) as ->.
  { specialize (Hl O b eq_refl). rewrite Z.add_0_r in Hl. rewrite Hl. f_equal. by apply u8_small. }
  cbn. rewrite IH; [done|done|]. intros i c Hc. specialize (Hl (S i) c Hc). rewrite <- Hl. f_equal. lia.
Qed.
(** A copy to user memory that succeeds. *)
Lemma ucopyout_done pt l : forall va u u', uinv u pt -> ucopyout pt va l u = (true, u') ->
  uinv u' pt /\ holds u' pt va l /\
  forall x, x < va \/ va + lenZ l <= x -> ubyte u' pt x = ubyte u pt x.
Proof using Type.
  induction l as [|b l IH]; intros va u u' I E; cbn [ucopyout] in E.
  { injection E as <-. split; [done|]. split; [|done]. intros i b Hb. discriminate. }
  destruct (uput pt va b u) as [u1|] eqn:E1; [|discriminate].
  destruct (IH (va + 1) u1 u' (uput_inv _ _ _ _ _ _ I E1 I) E) as (I' & Hl & Ho). cbn [length] in *.
  split; [done|]. split.
  - intros [|i] c Hc.
    + injection Hc as <-. rewrite Z.add_0_r, Ho by lia. by apply (uput_same pt va b u u1).
    + rewrite <- (Hl i c Hc). f_equal. lia.
  - intros x Hx. rewrite Ho by lia. apply (uput_other pt va x b u u1); [done|done|lia].
Qed.
Lemma holds_off u u' pt va l : holds u pt va l ->
  (forall i, (i < length l)%nat -> ubyte u' pt (va + Z.of_nat i) = ubyte u pt (va + Z.of_nat i)) -> holds u' pt va l.
Proof using Type. intros Hl He i b Hb. rewrite He; [by apply Hl|]. by eapply lookup_lt_Some. Qed.

Lemma push_sp_spec sp n : 0 <= n <= sp -> sp < 2 ^ 64 ->
  0 <= push_sp sp n <= sp - n /\ push_sp sp n mod 16 = 0.
Proof using Type.
  intros Hn Hs. unfold push_sp. rewrite u64_small by lia. zdiv.
Qed.
Definition umem s : U := f_user (k_fs (s_k s)).
Lemma sfs_copyout pt va l s ok s' :
  sfs (fcopyout pt true va l) s = Ret (ok, s') -> ucopyout pt va l (umem s) = (ok, umem s').
Proof using Type.
  unfold sfs, on_k, on_fs, fcopyout, umem. cbn. destruct (ucopyout pt va l (f_user (k_fs (s_k s)))) as [ok1 u1]. by intros [= <- <-].
Qed.
(** A string that [sys_exec] can have fetched: without NUL, and in a page. *)
Definition arg_ok (a : list Z) : Prop := Forall is_byte a /\ lenZ a < PGSIZE.

Lemma push_strings_ok pt base argv : forall sp ustack s sp' us' s',
  uinv (umem s) pt -> PGSIZE <= base -> base <= sp < 2 ^ 64 -> Forall arg_ok argv ->
  push_strings pt base sp argv ustack s = Ret (Some (sp', us'), s') ->
  uinv (umem s') pt /\ base <= sp' <= sp /\ (forall x, sp <= x -> ubyte (umem s') pt x = ubyte (umem s) pt x) /\
  lenZ us' <= Z.max (lenZ ustack) MAXARG /\
  exists ptrs, us' = ustack ++ ptrs /\
    Forall2 (fun p a => sp' <= p /\ p + lenZ a + 1 <= sp /\ holds (umem s') pt p (a ++ [0])) ptrs argv.
Proof using Type.
  induction argv as [|a argv IH]; intros sp ustack s sp' us' s' I Hb Hsp Ha E; cbn [push_strings] in E.
  { injection E as <- <- <-. split_and!; [done|lia|lia|done|lia|]. exists []. by rewrite app_nil_r. }
  apply Forall_cons in Ha as [[Hab Hal] Ha]. destruct (lenZ ustack >=? MAXARG) eqn:Em; [discriminate|].
  destruct (push_sp_spec sp (lenZ a + 1)) as [Hp _]; [lia..|]. set (sp1 := push_sp sp (lenZ a + 1)) in *.
  destruct (Z.ltb_spec sp1 base); [discriminate|]. apply bind_Ret_inv in E as (ok & s1 & Hrun & E). apply sfs_copyout in Hrun.
  destruct ok; [|discriminate]. destruct (ucopyout_done _ _ _ _ _ I Hrun) as (I1 & Hh & Ho).
  assert (base <= sp1 < 2 ^ 64) as Hs1 by lia. destruct (IH _ _ _ _ _ _ I1 Hb Hs1 Ha E) as (I2 & Hsp' & Hab2 & Hm & ptrs & -> & HF).
  rewrite length_app in Ho. cbn [length] in Ho.
  split_and!; [done|lia|lia| | |].
  - intros x Hx. rewrite Hab2, Ho by lia. done.
  - rewrite !length_app in Hm |- *. cbn [length] in Hm |- *. rewrite Z.geb_leb in Em. apply Z.leb_gt in Em. lia.
  - exists (sp1 :: ptrs). rewrite <- app_assoc. split; [done|]. apply Forall2_cons. split.
    + split_and!; [lia|lia|]. eapply holds_off; [exact Hh|]. intros i Hi. apply Hab2. lia.
    + eapply Forall2_impl; [exact HF|]. cbn. intros p b (J1 & J2 & J3). split_and!; [lia|lia|done].
Qed.

Lemma le_bytes_bytes n v : Forall is_byte (le_bytes n v).
Proof using Type. revert v. induction n as [|n IH]; intros v; cbn; [constructor|]. constructor; [apply u8_range|apply IH]. Qed.
Lemma length_le_bytes n v : length (le_bytes n v) = n.
Proof using Type. revert v. induction n as [|n IH]; intros v; cbn; [done|]. by rewrite IH. Qed.
Lemma words_bytes l : Forall is_byte (concat (le_bytes 8 <$> l)).
Proof using Type. induction l as [|v l IH]; cbn [fmap list_fmap concat]; [constructor|]. apply Forall_app. split; [apply le_bytes_bytes|done]. Qed.
Lemma length_words l : length (concat (le_bytes 8 <$> l)) = (8 * length l)%nat.
Proof using Type. induction l as [|v l IH]; [done|]. rewrite fmap_cons. cbn [concat length]. rewrite length_app, length_le_bytes, IH. lia. Qed.

(** C39. When [exec] has set up the stack of a program, the program finds its
    arguments as main expects them: the count is the number of arguments; the stack
    pointer is a multiple of 16 and lies in the one page of stack, above the guard
    page; at the stack pointer there is an array of that many pointers, ended by a
    null pointer; and every pointer points, inside the stack, to the
    NUL-terminated string of its argument. *)
Theorem exec_stack pt sz argv s argc sp s' :
  uinv (umem s) pt -> 2 * PGSIZE <= sz < 2 ^ 64 -> Forall arg_ok argv ->
  push_args pt sz argv s = Ret (Some (argc, sp), s') ->
  argc = lenZ argv /\ sp mod 16 = 0 /\ sz - PGSIZE <= sp <= sz /\
  exists ptrs,
    ucopyin (umem s') pt sp (8 * (length argv + 1)) = Some (concat (le_bytes 8 <$> ptrs ++ [0])) /\
    Forall2 (fun p a => sp <= p /\ p + lenZ a + 1 <= sz /\ ucopyin (umem s') pt p (length a + 1) = Some (a ++ [0])) ptrs argv.
Proof using Type.
  intros I Hsz Ha E. unfold push_args in E. change (USERSTACK * PGSIZE) with PGSIZE in E. rewrite u64_small in E by (unfold PGSIZE in *; lia).
  apply bind_Ret_inv in E as (r & s1 & Hrun & E). destruct r as [[sp1 us]|]; [|discriminate].
  assert (PGSIZE = 4096) as HP by done.
  assert (PGSIZE <= sz - PGSIZE) as Hbase by lia. assert (sz - PGSIZE <= sz < 2 ^ 64) as Htop by lia.
  destruct (push_strings_ok _ _ _ _ _ _ _ _ _ I Hbase Htop Ha Hrun) as (I1 & Hsp1 & _ & Hm & ptrs & -> & HF). cbn [app] in E, Hm.
  pose proof (Forall2_length _ _ _ HF) as Hlen. assert (MAXARG = 32) as HM by done. cbn [length] in Hm.
  destruct (push_sp_spec sp1 ((lenZ ptrs + 1) * 8)) as [Hp Hp16]; [lia..|]. set (sp2 := push_sp sp1 _) in *.
  destruct (Z.ltb_spec sp2 (sz - PGSIZE)); [discriminate|].
  apply bind_Ret_inv in E as (ok & s2 & Hrun2 & E). apply sfs_copyout in Hrun2.
  destruct ok; [|discriminate]. injection E as <- <- <-.
  destruct (ucopyout_done _ _ _ _ _ I1 Hrun2) as (_ & Hh & Ho). rewrite length_words, length_app in Ho. cbn [length] in Ho.
  split_and!; [by rewrite Hlen|done|lia|lia|]. exists ptrs. split.
  - rewrite <- Hlen. replace (8 * (length ptrs + 1))%nat with (length (concat (le_bytes 8 <$> ptrs ++ [0])))
      by (rewrite length_words, length_app; done).
    apply holds_ucopyin; [apply words_bytes|exact Hh].
  - apply Forall2_same_length_lookup. split; [done|]. intros i p a Hp_i Ha_i.
    destruct (Forall2_lookup_lr _ _ _ _ _ _ HF Hp_i Ha_i) as (J1 & J2 & J3). split_and!; [lia|lia|].
    destruct (Forall_lookup_1 _ _ _ _ Ha Ha_i) as [Hab _].
    replace (length a + 1)%nat with (length (a ++ [0])) by (by rewrite length_app).
    apply holds_ucopyin; [apply Forall_app; split; [done|by repeat constructor]|].
    eapply holds_off; [exact J3|]. intros j Hj. apply Ho. lia.
Qed.
End stack.
