(* ===== verification/Virtio.v ===== *)
(** The disk driver (kernel/virtio_disk.c).

    The memory shared with the device is data: descriptors whose addresses name
    the driver's objects, the ring of available chains and the ring of used ones.
    The registers that set the device up and notify it carry no data of a request
    and are not modelled; neither are the wakeups, since every sleeper of this file
    tests its condition again in a loop (Proc.v has [sleep] and [wakeup]).  The device is the environment: it fetches the heads of
    available chains, carries out each chain once, in any order, by the transfer
    [xfer] of the hardware, and then reports it in the used ring with status 0. *)
From S2P Require Import Prelude Riscv Queue.

Definition NUM : Z := 8.
Definition VRING_DESC_F_NEXT : Z := 1.
Definition VRING_DESC_F_WRITE : Z := 2.

Inductive vaddr := ANull | AOps (i : Z) | AData (b : Z) | AStatus (i : Z).
Record virtq_desc := Desc { v_addr : vaddr; v_len : Z; v_flags : Z; v_next : Z }.
(** [struct virtio_blk_req]; [b_write] is [type == VIRTIO_BLK_T_OUT]. *)
Record virtio_blk_req := BlkReq { b_write : bool; b_sector : Z }.
Record vdisk := VDisk {
  d_desc : Z -> virtq_desc;
  d_avail_idx : Z;               (* avail->idx, uint16 *)
  d_avail_ring : Z -> Z;
  d_used_dev : Z;                (* used->idx, uint16 *)
  d_used_ring : Z -> Z;          (* the ids *)
  d_free : Z -> bool;
  d_used_idx : Z;                (* uint16 *)
  d_info_b : Z -> option Z;
  d_info_status : Z -> Z;
  d_ops : Z -> virtio_blk_req;
  d_busy : Z -> bool }.          (* b->disk *)
Definition set_desc (f : Z -> virtq_desc) (d : vdisk) : vdisk :=
  VDisk f (d_avail_idx d) (d_avail_ring d) (d_used_dev d) (d_used_ring d) (d_free d) (d_used_idx d) (d_info_b d) (d_info_status d) (d_ops d) (d_busy d).
Definition set_vfree (f : Z -> bool) (d : vdisk) : vdisk :=
  VDisk (d_desc d) (d_avail_idx d) (d_avail_ring d) (d_used_dev d) (d_used_ring d) f (d_used_idx d) (d_info_b d) (d_info_status d) (d_ops d) (d_busy d).
Definition set_avail (i : Z) (r : Z -> Z) (d : vdisk) : vdisk :=
  VDisk (d_desc d) i r (d_used_dev d) (d_used_ring d) (d_free d) (d_used_idx d) (d_info_b d) (d_info_status d) (d_ops d) (d_busy d).
Definition set_used (i : Z) (r : Z -> Z) (d : vdisk) : vdisk :=
  VDisk (d_desc d) (d_avail_idx d) (d_avail_ring d) i r (d_free d) (d_used_idx d) (d_info_b d) (d_info_status d) (d_ops d) (d_busy d).
Definition set_used_idx (i : Z) (d : vdisk) : vdisk :=
  VDisk (d_desc d) (d_avail_idx d) (d_avail_ring d) (d_used_dev d) (d_used_ring d) (d_free d) i (d_info_b d) (d_info_status d) (d_ops d) (d_busy d).
Definition set_info (b : Z -> option Z) (st : Z -> Z) (d : vdisk) : vdisk :=
  VDisk (d_desc d) (d_avail_idx d) (d_avail_ring d) (d_used_dev d) (d_used_ring d) (d_free d) (d_used_idx d) b st (d_ops d) (d_busy d).
Definition set_ops_ (o : Z -> virtio_blk_req) (d : vdisk) : vdisk :=
  VDisk (d_desc d) (d_avail_idx d) (d_avail_ring d) (d_used_dev d) (d_used_ring d) (d_free d) (d_used_idx d) (d_info_b d) (d_info_status d) o (d_busy d).
Definition set_busy (f : Z -> bool) (d : vdisk) : vdisk :=
  VDisk (d_desc d) (d_avail_idx d) (d_avail_ring d) (d_used_dev d) (d_used_ring d) (d_free d) (d_used_idx d) (d_info_b d) (d_info_status d) (d_ops d) f.

(** What [virtio_disk_init] leaves: zeroed queues, all descriptors free. *)
Definition no_desc : virtq_desc := Desc ANull 0 0 0.
Definition vdisk0 : vdisk :=
  VDisk (fun _ => no_desc) 0 (fun _ => 0) 0 (fun _ => 0) (fun _ => true) 0 (fun _ => None) (fun _ => 0) (fun _ => BlkReq false 0) (fun _ => false).

(** * The driver *)
Fixpoint desc_scan (k : nat) (i : Z) (d : vdisk) : option Z :=
  match k with
  | O => None
  | S k => if d_free d i then Some i else desc_scan k (i + 1) d
  end.
Definition alloc_desc (d : vdisk) : option Z * vdisk :=
  match desc_scan (Z.to_nat NUM) 0 d with
  | Some i => (Some i, set_vfree (upd (d_free d) i false) d)
  | None => (None, d)
  end.
Definition free_desc (i : Z) (d : vdisk) : outcome vdisk :=
  if i >=? NUM then Panic "free_desc 1"
  else if d_free d i then Panic "free_desc 2"
  else Ret (set_vfree (upd (d_free d) i true) (set_desc (upd (d_desc d) i no_desc) d)).
(** A chain has at most [NUM] descriptors. *)
Fixpoint free_chain (fuel : nat) (i : Z) (d : vdisk) : outcome vdisk :=
  match fuel with
  | O => NoFuel
  | S fuel =>
      let flag := v_flags (d_desc d i) in
      let nxt := v_next (d_desc d i) in
      d ← free_desc i d;
      if nz (Z.land flag VRING_DESC_F_NEXT) then free_chain fuel nxt d else Ret d
  end.
(** The three descriptors, or [None] for -1 after giving back those allocated. *)
Definition alloc3_desc (d : vdisk) : outcome (option (Z * Z * Z) * vdisk) :=
  let '(i0, d) := alloc_desc d in
  match i0 with
  | None => Ret (None, d)
  | Some i0 =>
      let '(i1, d) := alloc_desc d in
      match i1 with
      | None => d ← free_desc i0 d; Ret (None, d)
      | Some i1 =>
          let '(i2, d) := alloc_desc d in
          match i2 with
          | None => d ← free_desc i0 d; d ← free_desc i1 d; Ret (None, d)
          | Some i2 => Ret (Some (i0, i1, i2), d)
          end
      end
  end.

(** [virtio_disk_rw] once it has its descriptors, to the notification. *)
Definition format_chain (b blockno : Z) (write : bool) (i0 i1 i2 : Z) (d : vdisk) : vdisk :=
  let sector := u32 (blockno * (BSIZE / 512)) in
  let d := set_ops_ (upd (d_ops d) i0 (BlkReq write sector)) d in
  let d := set_desc (upd (d_desc d) i0 (Desc (AOps i0) 16 VRING_DESC_F_NEXT i1)) d in
  let flags := if write then 0 else VRING_DESC_F_WRITE in
  let d := set_desc (upd (d_desc d) i1 (Desc (AData b) BSIZE (Z.lor flags VRING_DESC_F_NEXT) i2)) d in
  let d := set_info (d_info_b d) (upd (d_info_status d) i0 0xff) d in
  let d := set_desc (upd (d_desc d) i2 (Desc (AStatus i0) 1 VRING_DESC_F_WRITE 0)) d in
  let d := set_busy (upd (d_busy d) b true) d in
  let d := set_info (upd (d_info_b d) i0 (Some b)) (d_info_status d) d in
  set_avail (u16 (d_avail_idx d + 1)) (upd (d_avail_ring d) (d_avail_idx d mod NUM) i0) d.
(** The part before the wait: [None] when the process has to sleep for descriptors. *)
Definition rw_submit (b blockno : Z) (write : bool) (d : vdisk) : outcome (option (Z * Z * Z) * vdisk) :=
  r ← alloc3_desc d;
  let '(idx, d) := r in
  match idx with
  | None => Ret (None, d)
  | Some (i0, i1, i2) => Ret (idx, format_chain b blockno write i0 i1 i2 d)
  end.
(** The part after it, when [b->disk] is 0 again. *)
Definition rw_finish (i0 : Z) (d : vdisk) : outcome vdisk :=
  free_chain (Z.to_nat NUM) i0 (set_info (upd (d_info_b d) i0 None) (d_info_status d) d).

(** One round of the loop of [virtio_disk_intr]. *)
Definition intr_one (d : vdisk) : outcome vdisk :=
  let id := d_used_ring d (d_used_idx d mod NUM) in
  if negb (d_info_status d id =? 0) then Panic "virtio_disk_intr status"
  else match d_info_b d id with
  | None => Panic "kerneltrap"              (* b is null *)
  | Some b => Ret (set_used_idx (u16 (d_used_idx d + 1)) (set_busy (upd (d_busy d) b false) d))
  end.
Fixpoint virtio_disk_intr (fuel : nat) (d : vdisk) : outcome vdisk :=
  if d_used_idx d =? d_used_dev d then Ret d
  else match fuel with
  | O => NoFuel
  | S fuel => d ← intr_one d; virtio_disk_intr fuel d
  end.

(** * The system: the driver, the device, and the processes in [virtio_disk_rw] *)
(** A process waiting for its request: its arguments and its local [idx]. *)
Record vreq := VReq { r_b : Z; r_blk : Z; r_write : bool; r_0 : Z; r_1 : Z; r_2 : Z }.
Record vsys {T : Type} := VSys {
  s_d : vdisk;
  s_seen : Z;                    (* the device's position in the available ring *)
  s_fetched : list Z;            (* chains it has taken and not finished *)
  s_mem : T;                     (* the disk and the buffers *)
  s_wait : list vreq }.
Arguments vsys : clear implicits.
Arguments VSys {T}.

(** What the device reads from a chain: it needs the header, the data and the status
    descriptor, with the data writable exactly when the disk is read. *)
Definition dev_chain (d : vdisk) (h : Z) : option (bool * Z * Z * Z * Z) :=
  let d0 := d_desc d h in
  let d1 := d_desc d (v_next d0) in
  let d2 := d_desc d (v_next d1) in
  match v_addr d0, v_addr d1, v_addr d2 with
  | AOps i, AData b, AStatus j =>
      if nz (Z.land (v_flags d0) VRING_DESC_F_NEXT) && nz (Z.land (v_flags d1) VRING_DESC_F_NEXT)
         && negb (nz (Z.land (v_flags d2) VRING_DESC_F_NEXT)) && nz (Z.land (v_flags d2) VRING_DESC_F_WRITE)
         && Bool.eqb (nz (Z.land (v_flags d1) VRING_DESC_F_WRITE)) (negb (b_write (d_ops d i)))
         && (v_len d0 =? 16) && (v_len d2 =? 1)
      then Some (b_write (d_ops d i), b_sector (d_ops d i), b, v_len d1, j) else None
  | _, _, _ => None
  end.
Definition dev_report (h j : Z) (d : vdisk) : vdisk :=
  set_used (u16 (d_used_dev d + 1)) (upd (d_used_ring d) (d_used_dev d mod NUM) h)
    (set_info (d_info_b d) (upd (d_info_status d) j 0) d).

Inductive event := ESubmit (b blk : Z) (w : bool) | ETransfer (b : Z) | EFinish (b : Z).

Section system.
Context {T : Type} (xfer : bool -> Z -> Z -> Z -> T -> T).

Inductive vstep : vsys T -> option event -> vsys T -> Prop :=
| VS_submit d d' n F m W b blk w i0 i1 i2 :
    b ∉ (r_b <$> W) ->           (* the caller holds the lock of the buffer *)
    rw_submit b blk w d = Ret (Some (i0, i1, i2), d') ->
    vstep (VSys d n F m W) (Some (ESubmit b blk w)) (VSys d' n F m (VReq b blk w i0 i1 i2 :: W))
| VS_sleep d d' n F m W b blk w :
    rw_submit b blk w d = Ret (None, d') ->
    vstep (VSys d n F m W) None (VSys d' n F m W)
| VS_fetch d n F m W :
    n <> d_avail_idx d ->
    vstep (VSys d n F m W) None (VSys d (u16 (n + 1)) (d_avail_ring d (n mod NUM) :: F) m W)
| VS_complete d n F1 h F2 m W w sec b len j :
    dev_chain d h = Some (w, sec, b, len, j) ->
    vstep (VSys d n (F1 ++ h :: F2) m W) (Some (ETransfer b)) (VSys (dev_report h j d) n (F1 ++ F2) (xfer w sec b len m) W)
| VS_intr d d' n F m W :
    d_used_idx d <> d_used_dev d -> intr_one d = Ret d' ->
    vstep (VSys d n F m W) None (VSys d' n F m W)
| VS_finish d d' n F m W1 r W2 :
    d_busy d (r_b r) = false -> rw_finish (r_0 r) d = Ret d' ->
    vstep (VSys d n F m (W1 ++ r :: W2)) (Some (EFinish (r_b r))) (VSys d' n F m (W1 ++ W2)).

Inductive vreach (m : T) : vsys T -> Prop :=
| vreach_init : vreach m (VSys vdisk0 0 [] m [])
| vreach_step s e s' : vreach m s -> vstep s e s' -> vreach m s'.

(** * What the driver promises: an asynchronous block device *)
(** Each outstanding request, by buffer: block, direction, and whether the transfer
    has happened. *)
Record adisk := ADisk { a_mem : T; a_req : gmap Z (Z * bool * bool) }.
Inductive astep : adisk -> event -> adisk -> Prop :=
| AS_submit m R b blk w : R !! b = None ->
    astep (ADisk m R) (ESubmit b blk w) (ADisk m (<[b := (blk, w, false)]> R))
| AS_transfer m R b blk w : R !! b = Some (blk, w, false) ->
    astep (ADisk m R) (ETransfer b) (ADisk (xfer w (u32 (blk * 2)) b BSIZE m) (<[b := (blk, w, true)]> R))
| AS_finish m R b blk w : R !! b = Some (blk, w, true) ->
    astep (ADisk m R) (EFinish b) (ADisk m (delete b R)).

(** The heads the device has still to work on, and those it has reported. *)
Definition todo (s : vsys T) : list Z :=
  s_fetched s ++ qlist NUM (2 ^ 16) (d_avail_ring (s_d s)) (s_seen s) (d_avail_idx (s_d s)).
Definition used (s : vsys T) : list Z := qlist NUM (2 ^ 16) (d_used_ring (s_d s)) (d_used_idx (s_d s)) (d_used_dev (s_d s)).
Definition entry (A : list Z) (r : vreq) : Z * (Z * bool * bool) := (r_b r, (r_blk r, r_write r, bool_decide (r_0 r ∉ A))).
Definition abs (s : vsys T) : adisk := ADisk (s_mem s) (list_to_map (entry (todo s) <$> s_wait s)).

(** * The invariant *)
Definition idxs (W : list vreq) : list Z := W ≫= fun r => [r_0 r; r_1 r; r_2 r].
(** [L] are the descriptors in use. *)
Record freeinv (d : vdisk) (L : list Z) : Prop := {
  fi_nodup : NoDup L;
  fi_range : forall i, i ∈ L -> 0 <= i < NUM;
  fi_free : forall i, 0 <= i < NUM -> d_free d i = true <-> i ∉ L }.
Record chain_ok (d : vdisk) (r : vreq) : Prop := {
  ch_0 : d_desc d (r_0 r) = Desc (AOps (r_0 r)) 16 VRING_DESC_F_NEXT (r_1 r);
  ch_1 : d_desc d (r_1 r) = Desc (AData (r_b r)) BSIZE (Z.lor (if r_write r then 0 else VRING_DESC_F_WRITE) VRING_DESC_F_NEXT) (r_2 r);
  ch_2 : d_desc d (r_2 r) = Desc (AStatus (r_0 r)) 1 VRING_DESC_F_WRITE 0;
  ch_ops : d_ops d (r_0 r) = BlkReq (r_write r) (u32 (r_blk r * 2));
  ch_info : d_info_b d (r_0 r) = Some (r_b r) }.
Record vinv (s : vsys T) : Prop := {
  vi_free : freeinv (s_d s) (idxs (s_wait s));
  vi_bufs : NoDup (r_b <$> s_wait s);
  vi_avail : qwf NUM (2 ^ 16) (s_seen s) (d_avail_idx (s_d s));
  vi_used : qwf NUM (2 ^ 16) (d_used_idx (s_d s)) (d_used_dev (s_d s));
  vi_nodup : NoDup (todo s ++ used s);
  vi_heads : forall h, h ∈ todo s ++ used s -> h ∈ r_0 <$> s_wait s;
  vi_chain : forall r, r ∈ s_wait s -> chain_ok (s_d s) r;
  vi_busy : forall r, r ∈ s_wait s -> d_busy (s_d s) (r_b r) = true <-> r_0 r ∈ todo s ++ used s;
  vi_status : forall h, h ∈ used s -> d_info_status (s_d s) h = 0 }.

(** * Descriptors *)
Lemma desc_scan_spec k i d : match desc_scan k i d with
  | Some j => i <= j < i + Z.of_nat k /\ d_free d j = true
  | None => forall j, i <= j < i + Z.of_nat k -> d_free d j = false
  end.
Proof using Type.
  revert i. induction k as [|k IH]; intros i; cbn [desc_scan]; [lia|].
  destruct (d_free d i) eqn:E; [split; [lia|done]|]. specialize (IH (i + 1)). destruct desc_scan; [destruct IH; split; [lia|done]|].
  intros j Hj. destruct (decide (j = i)) as [->|]; [done|]. apply IH. lia.
Qed.
Lemma freeinv_length d L : freeinv d L -> (length L <= 8)%nat.
Proof using Type.
  intros [Hn Hr _]. change 8%nat with (length (seqZ 0 NUM)). apply submseteq_length, NoDup_submseteq; [done|].
  intros i Hi. apply elem_of_seqZ. specialize (Hr i Hi). lia.
Qed.
(** [d'] has the other fields of [d], and its descriptors on [L]. *)
Record same_but (L : list Z) (d d' : vdisk) : Prop := {
  sb_desc : forall i, i ∈ L -> d_desc d' i = d_desc d i;
  sb_rest : d' = set_vfree (d_free d') (set_desc (d_desc d') d) }.
Lemma same_but_refl L d : same_but L d d.
Proof using Type. split; [done|by destruct d]. Qed.
Lemma same_but_trans L d1 d2 d3 : same_but L d1 d2 -> same_but L d2 d3 -> same_but L d1 d3.
Proof using Type. intros [A1 B1] [A2 B2]. split; [intros i Hi; by rewrite A2, A1|]. rewrite B2 at 1. by rewrite B1. Qed.
Lemma same_but_mono L L' d d' : L ⊆ L' -> same_but L' d d' -> same_but L d d'.
Proof using Type. intros S [A B]. split; [|done]. intros i Hi. by apply A, S. Qed.

Lemma alloc_desc_spec d L : freeinv d L ->
  ((8 <= length L)%nat /\ alloc_desc d = (None, d)) \/
  exists i d', alloc_desc d = (Some i, d') /\ freeinv d' (i :: L) /\ (forall L', same_but L' d d').
Proof using Type.
  intros [Hn Hr Hf]. unfold alloc_desc. pose proof (desc_scan_spec (Z.to_nat NUM) 0 d) as H.
  destruct desc_scan as [i|]; [right|left].
  - destruct H as [Hi E]. exists i, (set_vfree (upd (d_free d) i false) d). split; [done|]. split; [split|].
    + constructor; [|done]. by apply Hf.
    + intros j [->|Hj]%elem_of_cons; [done|by apply Hr].
    + intros j Hj. cbn. rewrite not_elem_of_cons, <- Hf by done. unfold upd. destruct (Z.eqb_spec j i); naive_solver.
    + intros L'. by split.
  - split; [|done]. change 8%nat with (length (seqZ 0 NUM)). apply submseteq_length, NoDup_submseteq; [apply NoDup_seqZ|].
    intros j Hj%elem_of_seqZ. destruct (decide (j ∈ L)) as [|HL]; [done|]. apply Hf in HL; [|done]. rewrite H in HL; [done|done].
Qed.
Lemma free_desc_spec d i L : freeinv d (i :: L) ->
  exists d', free_desc i d = Ret d' /\ freeinv d' L /\ same_but L d d'.
Proof using Type.
  intros [Hn Hr Hf]. apply NoDup_cons in Hn as [Hi Hn]. assert (0 <= i < NUM) as Hi0 by (apply Hr; set_solver).
  unfold free_desc. rewrite Z.geb_leb. destruct (Z.leb_spec NUM i); [lia|].
  destruct (d_free d i) eqn:E; [apply Hf in E; [|done]; set_solver|].
  eexists. split; [reflexivity|]. split; [split|split]; cbn.
  - done.
  - intros j Hj. apply Hr. set_solver.
  - intros j Hj. specialize (Hf j Hj). rewrite not_elem_of_cons in Hf. unfold upd. destruct (Z.eqb_spec j i) as [->|]; naive_solver.
  - intros j Hj. apply upd_ne. by intros ->.
  - done.
Qed.
Lemma freeinv_perm d L L' : L ≡ₚ L' -> freeinv d L -> freeinv d L'.
Proof using Type. intros P [A B C]. split; [by rewrite <- P|by intros i; rewrite <- P; apply B|]. intros i. rewrite <- P. apply C. Qed.

Lemma alloc3_desc_spec d L : freeinv d L ->
  exists o d', alloc3_desc d = Ret (o, d') /\ same_but L d d' /\
    match o with
    | Some (i0, i1, i2) => (length L <= 5)%nat /\ freeinv d' (i0 :: i1 :: i2 :: L)
    | None => (6 <= length L)%nat /\ freeinv d' L
    end.
Proof using Type.
  intros F. unfold alloc3_desc.
  destruct (alloc_desc_spec d L F) as [[Hl ->]|(i0 & d1 & -> & F1 & S1)].
  { exists None, d. split; [done|]. split; [apply same_but_refl|]. split; [lia|done]. }
  destruct (alloc_desc_spec _ _ F1) as [[Hl ->]|(i1 & d2 & -> & F2 & S2)].
  { cbn [length] in Hl. destruct (free_desc_spec _ _ _ F1) as (d2 & E & F2 & S2). exists None, d2. cbn. rewrite E.
    split; [done|]. split; [eapply same_but_trans; [apply S1|done]|]. split; [lia|done]. }
  destruct (alloc_desc_spec _ _ F2) as [[Hl ->]|(i2 & d3 & -> & F3 & S3)].
  - cbn [length] in Hl. apply (freeinv_perm _ _ (i0 :: i1 :: L)) in F2; [|constructor].
    destruct (free_desc_spec _ _ _ F2) as (d3 & E3 & F3 & S3). destruct (free_desc_spec _ _ _ F3) as (d4 & E4 & F4 & S4).
    exists None, d4. cbn. rewrite E3. cbn. rewrite E4. split; [done|]. split; [|split; [lia|done]].
    eapply same_but_trans; [apply S1|]. eapply same_but_trans; [apply S2|]. eapply same_but_trans; [|exact S4].
    eapply same_but_mono; [|exact S3]. set_solver.
  - exists (Some (i0, i1, i2)), d3. split; [done|]. split.
    + eapply same_but_trans; [apply S1|]. eapply same_but_trans; [apply S2|apply S3].
    + pose proof (freeinv_length _ _ F3) as Hl. cbn [length] in Hl. split; [lia|].
      eapply freeinv_perm; [|exact F3]. rewrite (Permutation_swap i0 i1), (Permutation_swap i0 i2), (Permutation_swap i1 i2). by constructor.
Qed.

(** * The requests and their descriptors *)
Lemma idxs_cons r W : idxs (r :: W) = [r_0 r; r_1 r; r_2 r] ++ idxs W.
Proof using Type. done. Qed.
Lemma elem_of_idxs i W : i ∈ idxs W <-> exists r, r ∈ W /\ i ∈ [r_0 r; r_1 r; r_2 r].
Proof using Type. unfold idxs. rewrite list_elem_of_bind. naive_solver. Qed.
Lemma length_idxs W : length (idxs W) = (3 * length W)%nat.
Proof using Type. induction W as [|r W IH]; [done|]. rewrite idxs_cons, length_app, IH. cbn. lia. Qed.
Lemma idxs_inj W r r' i : NoDup (idxs W) -> r ∈ W -> r' ∈ W ->
  i ∈ [r_0 r; r_1 r; r_2 r] -> i ∈ [r_0 r'; r_1 r'; r_2 r'] -> r = r'.
Proof using Type.
  induction W as [|a W IH]; [set_solver|]. rewrite idxs_cons. intros (Ha & Hd & Hn)%NoDup_app Hr Hr' Hi Hi'.
  apply elem_of_cons in Hr as [->|Hr]; apply elem_of_cons in Hr' as [->|Hr']; [done| | |by apply IH].
  - destruct (Hd i Hi). apply elem_of_idxs. by exists r'.
  - destruct (Hd i Hi'). apply elem_of_idxs. by exists r.
Qed.
Lemma bufs_inj W r r' : NoDup (r_b <$> W) -> r ∈ W -> r' ∈ W -> r_b r = r_b r' -> r = r'.
Proof using Type.
  induction W as [|a W IH]; [set_solver|]. rewrite fmap_cons. intros [Ha Hn]%NoDup_cons Hr Hr' E.
  apply elem_of_cons in Hr as [->|Hr]; apply elem_of_cons in Hr' as [->|Hr']; [done| | |by apply IH].
  - destruct Ha. rewrite E. by apply list_elem_of_fmap_2.
  - destruct Ha. rewrite <- E. by apply list_elem_of_fmap_2.
Qed.
Lemma chain_ok_ext d d' r : chain_ok d r ->
  (forall i, i ∈ [r_0 r; r_1 r; r_2 r] -> d_desc d' i = d_desc d i) ->
  d_ops d' (r_0 r) = d_ops d (r_0 r) -> d_info_b d' (r_0 r) = d_info_b d (r_0 r) -> chain_ok d' r.
Proof using Type. intros [A0 A1 A2 A3 A4] Hd Ho Hi. split; rewrite ?Ho, ?Hi, ?Hd by set_solver; done. Qed.
Lemma few_heads (s : vsys T) : vinv s -> (length (todo s) + length (used s) <= 2)%nat.
Proof using Type.
  intros V. pose proof (freeinv_length _ _ (vi_free s V)) as H. rewrite length_idxs in H.
  rewrite <- length_app. enough (length (todo s ++ used s) <= length (r_0 <$> s_wait s))%nat by (rewrite length_fmap in *; lia).
  apply submseteq_length, NoDup_submseteq; apply V.
Qed.
Lemma req_entry_dom A (W : list vreq) : (entry A <$> W).*1 = r_b <$> W.
Proof using Type. by rewrite <- list_fmap_compose. Qed.
Lemma req_entry_ext A A' (W : list vreq) : (forall r, r ∈ W -> r_0 r ∈ A <-> r_0 r ∈ A') -> entry A <$> W = entry A' <$> W.
Proof using Type.
  intros H. apply list_fmap_ext. intros k r Hr%list_elem_of_lookup_2. unfold entry. do 2 f_equal.
  apply bool_decide_ext. by rewrite H.
Qed.
(** The abstract request of a waiting process. *)
Lemma req_entry_perm A W1 r W2 : NoDup (r_b <$> W1 ++ r :: W2) ->
  list_to_map (M := gmap Z (Z * bool * bool)) (entry A <$> W1 ++ r :: W2)
  = <[r_b r := (r_blk r, r_write r, bool_decide (r_0 r ∉ A))]> (list_to_map (entry A <$> W1 ++ W2))
  /\ list_to_map (M := gmap Z (Z * bool * bool)) (entry A <$> W1 ++ W2) !! r_b r = None.
Proof using Type.
  intros Hn. split.
  - rewrite (list_to_map_proper _ (entry A <$> r :: W1 ++ W2)); [done|by rewrite req_entry_dom|].
    by rewrite Permutation_middle.
  - apply not_elem_of_list_to_map_1. rewrite req_entry_dom. rewrite <- Permutation_middle, fmap_cons in Hn. apply NoDup_cons in Hn as [Hn _]. exact Hn.
Qed.

(** * Every step keeps the invariant and is a step of the abstract device *)
Definition sim (s : vsys T) (e : option event) (s' : vsys T) : Prop :=
  match e with None => abs s' = abs s | Some e => astep (abs s) e (abs s') end.

Lemma HNUM : 0 < NUM. Proof using Type. done. Qed.
Lemma HNUMB : NUM < 2 ^ 16. Proof using Type. done. Qed.
Lemma HNUMD : (NUM | 2 ^ 16). Proof using Type. by exists (2 ^ 13). Qed.

Lemma vinv_init m : vinv (VSys vdisk0 0 [] m []).
Proof using Type.
  split; cbn; try set_solver; try by split.
  - split; [constructor|set_solver|]. intros i Hi. split; [set_solver|done].
  - apply NoDup_nil_2.
  - apply NoDup_nil_2.
Qed.
Lemma sleep_ok d d' n F m W b blk w : vinv (VSys d n F m W) -> rw_submit b blk w d = Ret (None, d') ->
  vinv (VSys d' n F m W) /\ sim (VSys d n F m W) None (VSys d' n F m W).
Proof using Type.
  intros V E. pose proof (vi_free _ V) as Hf. cbn in Hf. unfold rw_submit in E.
  destruct (alloc3_desc_spec _ _ Hf) as (o & d1 & E1 & [Sd Sr] & Ho). rewrite E1 in E. cbn in E.
  destruct o as [[[i0 i1] i2]|]; [done|]. injection E as <-. destruct Ho as [_ Ff].
  destruct d1 as [f1 f2 f3 f4 f5 f6 f7 f8 f9 f10 f11]. cbn in Sr. injection Sr as -> -> -> -> -> -> -> -> ->.
  split; [|done]. destruct V as [_ V2 V3 V4 V5 V6 V7 V8 V9]. split; try done.
  intros r Hr. apply (chain_ok_ext d); [by apply V7| |done|done].
  intros i Hi. apply Sd, elem_of_idxs. by exists r.
Qed.

(** The new chain of [format_chain], and the others. *)
Lemma format_chain_new b blk w i0 i1 i2 d : i0 <> i1 -> i0 <> i2 -> i1 <> i2 ->
  chain_ok (format_chain b blk w i0 i1 i2 d) (VReq b blk w i0 i1 i2).
Proof using Type.
  intros N1 N2 N3. split; cbn; repeat first [rewrite upd_eq|rewrite upd_ne by auto using not_eq_sym]; reflexivity.
Qed.
Lemma format_chain_old b blk w i0 i1 i2 d r : chain_ok d r ->
  (forall i, i ∈ [r_0 r; r_1 r; r_2 r] -> i ∉ [i0; i1; i2]) -> chain_ok (format_chain b blk w i0 i1 i2 d) r.
Proof using Type.
  clear T xfer. intros C N. apply (chain_ok_ext d); [done| | |]; cbn.
  - intros i Hi%N. rewrite !not_elem_of_cons in Hi. by rewrite !upd_ne by naive_solver.
  - apply upd_ne. specialize (N (r_0 r)). set_solver.
  - apply upd_ne. specialize (N (r_0 r)). set_solver.
Qed.
Lemma submit_ok d d' n F m W b blk w i0 i1 i2 : vinv (VSys d n F m W) -> b ∉ (r_b <$> W) ->
  rw_submit b blk w d = Ret (Some (i0, i1, i2), d') ->
  vinv (VSys d' n F m (VReq b blk w i0 i1 i2 :: W)) /\
  sim (VSys d n F m W) (Some (ESubmit b blk w)) (VSys d' n F m (VReq b blk w i0 i1 i2 :: W)).
Proof using Type.
  intros V Hb E. pose proof (vi_free _ V) as Hf. cbn in Hf. unfold rw_submit in E.
  destruct (alloc3_desc_spec _ _ Hf) as (o & d1 & E1 & [Sd Sr] & Ho). rewrite E1 in E. cbn [mbind outcome_bind] in E.
  destruct o as [[[j0 j1] j2]|]; [|done]. injection E as <- <- <- <-. destruct Ho as [_ Ff].
  destruct d1 as [f1 f2 f3 f4 f5 f6 f7 f8 f9 f10 f11]. cbn in Sr. injection Sr as -> -> -> -> -> -> -> -> ->.
  set (d1 := VDisk f1 _ _ _ _ _ _ _ _ _ _) in *. set (r := VReq b blk w j0 j1 j2). set (d' := format_chain b blk w j0 j1 j2 d1).
  pose proof (few_heads _ V) as Hl. pose proof (fi_nodup _ _ Ff) as Hn. rewrite !NoDup_cons, !not_elem_of_cons in Hn.
  destruct Hn as ((N01 & N02 & N0) & (N12 & N1) & N2 & _).
  destruct V as [_ V2 V3 V4 V5 V6 V7 V8 V9]. cbn in V2, V3, V4, V7, V8.
  assert (forall r', r' ∈ W -> forall i, i ∈ [r_0 r'; r_1 r'; r_2 r'] -> i ∈ idxs W) as HW by (intros r' Hr' i Hi; apply elem_of_idxs; by exists r').
  assert (qlen (2 ^ 16) n (d_avail_idx d) < NUM) as Hq.
  { unfold todo in Hl. cbn in Hl. rewrite length_app, (length_qlist NUM (2 ^ 16) HNUM HNUMB HNUMD) in Hl. unfold NUM. lia. }
  destruct (q_put NUM (2 ^ 16) HNUM HNUMB HNUMD (d_avail_ring d) n (d_avail_idx d) j0 V3 Hq) as [Wq Eq].
  assert (todo (VSys d' n F m (r :: W)) = todo (VSys d n F m W) ++ [j0]) as Et
    by (unfold todo; cbn; unfold u16; by rewrite Eq, app_assoc).
  assert (used (VSys d' n F m (r :: W)) = used (VSys d n F m W)) as Eu by done.
  assert (forall h, h ∈ todo (VSys d n F m W) ++ used (VSys d n F m W) -> h <> j0) as Hj0.
  { intros h (r' & -> & Hr')%V6%list_elem_of_fmap E. apply N0. rewrite <- E. apply (HW r' Hr'). set_solver. }
  split; [split|].
  - destruct Ff as [A B C]. by split.
  - cbn. by constructor.
  - exact Wq.
  - exact V4.
  - rewrite Et, Eu, <- app_assoc, (Permutation_app_comm [j0]), app_assoc. apply NoDup_app. split; [done|].
    split; [|apply NoDup_singleton]. intros h Hh ->%list_elem_of_singleton. by apply (Hj0 j0).
  - intros h. rewrite Et, Eu, !elem_of_app, list_elem_of_singleton. cbn. rewrite elem_of_cons.
    specialize (V6 h). rewrite elem_of_app in V6. clear -V6. tauto.
  - intros r' [->|Hr']%elem_of_cons; [by apply format_chain_new|]. apply format_chain_old.
    + apply (chain_ok_ext d); [by apply V7| |done|done]. intros i Hi. by apply Sd, (HW r').
    + intros i Hi%(HW r' Hr'). rewrite !not_elem_of_cons. split_and!; [by intros ->..|by intros ?%elem_of_nil].
  - intros r' Hr'. rewrite Et, Eu. cbn. apply elem_of_cons in Hr' as [->|Hr'].
    + cbn. rewrite upd_eq. set_solver.
    + rewrite upd_ne by (intros <-; apply Hb; by apply list_elem_of_fmap_2). rewrite (V8 r' Hr').
      enough (r_0 r' <> j0) by set_solver. intros <-. apply N0, (HW r' Hr'). set_solver.
  - intros h Hh. rewrite Eu in Hh. cbn. rewrite upd_ne; [by apply V9|]. apply Hj0. set_solver.
  - cbn. unfold abs. rewrite Et. cbn [s_mem s_wait]. rewrite fmap_cons. cbn [list_to_map foldr uncurry].
    rewrite (req_entry_ext (todo (VSys d n F m W) ++ [j0]) (todo (VSys d n F m W)) W).
    2: { intros r' Hr'. enough (r_0 r' <> j0) by set_solver. intros <-. apply N0, (HW r' Hr'). set_solver. }
    unfold entry at 2. cbn. rewrite (bool_decide_eq_false_2 (j0 ∉ _)) by set_solver. apply AS_submit.
    apply not_elem_of_list_to_map_1. by rewrite req_entry_dom.
Qed.

(** The ring operations at the counters of the driver. *)
Lemma ring_nonempty r w : qwf NUM (2 ^ 16) r w -> r <> w -> qlen (2 ^ 16) r w <> 0.
Proof using Type. intros W N E. pose proof (q_empty NUM (2 ^ 16) HNUM HNUMB HNUMD r w W) as H. rewrite E in H. apply Z.eqb_eq in H. done. Qed.
Lemma fetch_ok d n F m W : vinv (VSys d n F m W) -> n <> d_avail_idx d ->
  let s' := VSys d (u16 (n + 1)) (d_avail_ring d (n mod NUM) :: F) m W in
  vinv s' /\ sim (VSys d n F m W) None s'.
Proof using Type.
  intros V Hn s'. pose proof (vi_avail _ V) as Wq. cbn in Wq.
  destruct (q_get NUM (2 ^ 16) HNUM HNUMB HNUMD (d_avail_ring d) n (d_avail_idx d) Wq (ring_nonempty _ _ Wq Hn)) as (Wq' & _ & Eq).
  assert (todo s' ≡ₚ todo (VSys d n F m W)) as Et.
  { unfold todo, s'. cbn. rewrite Eq. unfold u16. by rewrite <- Permutation_middle. }
  assert (used s' = used (VSys d n F m W)) as Eu by done.
  destruct V as [V1 V2 V3 V4 V5 V6 V7 V8 V9]. split; [split|]; try done.
  - by rewrite Et, Eu.
  - intros h. rewrite Et, Eu. apply V6.
  - intros r Hr. rewrite Et, Eu. by apply V8.
  - cbn. unfold abs. f_equal. cbn [s_wait]. f_equal. apply req_entry_ext. intros r _. by rewrite Et.
Qed.

Lemma dev_chain_ok d r : chain_ok d r ->
  dev_chain d (r_0 r) = Some (r_write r, u32 (r_blk r * 2), r_b r, BSIZE, r_0 r).
Proof using Type.
  intros [C0 C1 C2 C3 C4]. unfold dev_chain. rewrite C0. cbn [v_next v_addr v_flags v_len]. rewrite C1. cbn [v_next v_addr v_flags v_len].
  rewrite C2. cbn [v_next v_addr v_flags v_len]. rewrite C3. by destruct (r_write r).
Qed.
(** The process that waits for a chain the device works on. *)
Lemma head_req (s : vsys T) h : vinv s -> h ∈ todo s ++ used s -> exists r, r ∈ s_wait s /\ r_0 r = h.
Proof using Type. intros V (r & -> & Hr)%(vi_heads s V)%list_elem_of_fmap. by exists r. Qed.
Lemma head_unique (s : vsys T) r r' : vinv s -> r ∈ s_wait s -> r' ∈ s_wait s -> r_0 r = r_0 r' -> r = r'.
Proof using Type.
  intros V Hr Hr' E. apply (idxs_inj (s_wait s) r r' (r_0 r)); [apply V|done|done|apply elem_of_cons; by left|apply elem_of_cons; by left].
Qed.
Lemma complete_ok d n F1 h F2 m W w sec b len j : vinv (VSys d n (F1 ++ h :: F2) m W) ->
  dev_chain d h = Some (w, sec, b, len, j) ->
  let s' := VSys (dev_report h j d) n (F1 ++ F2) (xfer w sec b len m) W in
  vinv s' /\ sim (VSys d n (F1 ++ h :: F2) m W) (Some (ETransfer b)) s'.
Proof using Type.
  intros V E s'. set (s := VSys d n (F1 ++ h :: F2) m W) in *.
  assert (todo s ≡ₚ h :: todo s') as Et.
  { unfold todo, s, s'. cbn. by rewrite <- Permutation_middle. }
  destruct (head_req s h V) as (r & Hr & <-). { rewrite Et. set_solver. }
  rewrite dev_chain_ok in E by (by apply (vi_chain s V)). injection E as <- <- <- <- <-.
  pose proof (few_heads s V) as Hl. rewrite Et in Hl. cbn [length] in Hl.
  assert (qlen (2 ^ 16) (d_used_idx d) (d_used_dev d) < NUM) as Hq.
  { unfold used in Hl. cbn in Hl. rewrite (length_qlist NUM (2 ^ 16) HNUM HNUMB HNUMD) in Hl. unfold NUM. lia. }
  destruct (q_put NUM (2 ^ 16) HNUM HNUMB HNUMD (d_used_ring d) _ _ (r_0 r) (vi_used s V) Hq) as [Wq Eq].
  assert (used s' = used s ++ [r_0 r]) as Eu by exact Eq.
  assert (todo s' ++ used s' ≡ₚ todo s ++ used s) as Ep.
  { rewrite Et, Eu, app_assoc. by rewrite (Permutation_app_comm _ [r_0 r]). }
  pose proof (head_unique s r) as Hu. assert (NoDup (todo s)) as Hnd by exact (proj1 (proj1 (NoDup_app _ _) (vi_nodup s V))).
  rewrite Et in Hnd. apply NoDup_cons in Hnd as [Hnd _].
  specialize (fun r' => Hu r' V). destruct V as [V1 V2 V3 V4 V5 V6 V7 V8 V9]. split; [split|]; try done.
  - destruct V1 as [A B C]. by split.
  - by rewrite Ep.
  - intros h. rewrite Ep. apply V6.
  - intros r' Hr'. by apply (chain_ok_ext d); [apply V7|..].
  - intros r' Hr'. rewrite Ep. by apply V8.
  - intros h Hh. rewrite Eu, elem_of_app, list_elem_of_singleton in Hh. cbn. unfold upd.
    destruct (Z.eqb_spec h (r_0 r)); [done|]. apply V9. by destruct Hh.
  - cbn [sim]. unfold abs. change (s_wait s') with (s_wait s). change (s_mem s) with m. change (s_mem s') with (xfer (r_write r) (u32 (r_blk r * 2)) (r_b r) BSIZE m).
    clearbody s' s. pose proof Hr as (W1 & W2 & EW)%list_elem_of_split. rewrite EW in V2, Hu |- *.
    destruct (req_entry_perm (todo s) W1 r W2 V2) as [E1 _]. destruct (req_entry_perm (todo s') W1 r W2 V2) as [E2 N2].
    rewrite (req_entry_ext (todo s) (todo s') (W1 ++ W2)) in E1.
    2: { intros r' Hr'. rewrite Et, elem_of_cons. enough (r_0 r' <> r_0 r) by tauto. intros E0.
         assert (r = r') as <-. { apply Hu; [by rewrite <- EW|set_solver|done]. }
         rewrite <- Permutation_middle, fmap_cons in V2. apply NoDup_cons in V2 as [V2 _]. apply V2. by apply list_elem_of_fmap_2. }
    rewrite E1, E2. rewrite bool_decide_eq_false_2 by (rewrite Et; set_solver). rewrite bool_decide_eq_true_2 by done.
    rewrite <- (insert_insert_eq (list_to_map (entry (todo s') <$> W1 ++ W2)) (r_b r) (r_blk r, r_write r, true) (r_blk r, r_write r, false)).
    apply AS_transfer. by rewrite lookup_insert_eq.
Qed.

(** The entry the handler reads belongs to a waiting process. *)
Lemma intr_one_run d n F m W : vinv (VSys d n F m W) -> d_used_idx d <> d_used_dev d ->
  exists r, r ∈ W /\ used (VSys d n F m W) = r_0 r :: qlist NUM (2 ^ 16) (d_used_ring d) (u16 (d_used_idx d + 1)) (d_used_dev d) /\
    qwf NUM (2 ^ 16) (u16 (d_used_idx d + 1)) (d_used_dev d) /\
    intr_one d = Ret (set_used_idx (u16 (d_used_idx d + 1)) (set_busy (upd (d_busy d) (r_b r) false) d)).
Proof using Type.
  intros V Hn. pose proof (vi_used _ V) as Wq. cbn in Wq.
  destruct (q_get NUM (2 ^ 16) HNUM HNUMB HNUMD (d_used_ring d) _ _ Wq (ring_nonempty _ _ Wq Hn)) as (Wq' & _ & Eq).
  set (h := d_used_ring d (d_used_idx d mod NUM)) in *.
  assert (h ∈ used (VSys d n F m W)) as Hh by (unfold used; cbn; rewrite Eq; apply elem_of_cons; by left).
  destruct (head_req _ h V) as (r & Hr & Eh); [apply elem_of_app; by right|]. exists r. rewrite Eh.
  split_and!; [done|exact Eq|exact Wq'|]. unfold intr_one. fold h.
  pose proof (vi_status _ V h Hh) as Es. cbn in Es. rewrite Es. cbn. pose proof (ch_info _ _ (vi_chain _ V r Hr)) as Ei.
  rewrite Eh in Ei. cbn in Ei. by rewrite Ei.
Qed.
Lemma intr_ok d d' n F m W : vinv (VSys d n F m W) -> d_used_idx d <> d_used_dev d -> intr_one d = Ret d' ->
  vinv (VSys d' n F m W) /\ sim (VSys d n F m W) None (VSys d' n F m W).
Proof using Type.
  intros V Hn E. destruct (intr_one_run _ _ _ _ _ V Hn) as (r & Hr & Eu & Wq & E'). rewrite E' in E. injection E as <-.
  set (s := VSys d n F m W) in *. set (s' := VSys _ n F m W).
  change (used s = r_0 r :: used s') in Eu. pose proof (fun r' => bufs_inj W r' r (vi_bufs s V)) as Hbu.
  pose proof (vi_nodup s V) as Hnd. rewrite Eu, <- Permutation_middle in Hnd. apply NoDup_cons in Hnd as [Hnd Hnd'].
  pose proof (fun r' => head_unique s r' r V) as Hu.
  destruct V as [V1 V2 V3 V4 V5 V6 V7 V8 V9]. split; [split|]; try done.
  - destruct V1 as [A B C]. by split.
  - intros h Hh. apply V6. rewrite Eu, <- Permutation_middle. apply elem_of_cons. by right.
  - intros r' Hr'. by apply (chain_ok_ext d); [apply V7|..].
  - intros r' Hr'. specialize (V8 r' Hr'). change (d_busy (s_d s)) with (d_busy d) in V8.
    rewrite Eu, <- Permutation_middle, elem_of_cons in V8. cbn. unfold upd.
    destruct (Z.eqb_spec (r_b r') (r_b r)) as [Eb|Nb].
    + rewrite (Hbu r' Hr' Hr Eb). split; [done|]. by intros ?%Hnd.
    + change (todo s') with (todo s). rewrite V8. split; [intros [E0|]; [|done]|by right]. by rewrite (Hu r' Hr' Hr E0) in Nb.
  - intros h Hh. apply V9. rewrite Eu. apply elem_of_cons. by right.
Qed.

Lemma free_chain_run d0 d r L : chain_ok d0 r -> d_desc d = d_desc d0 -> freeinv d ([r_0 r; r_1 r; r_2 r] ++ L) ->
  exists d', free_chain (Z.to_nat NUM) (r_0 r) d = Ret d' /\ freeinv d' L /\ same_but L d d'.
Proof using Type.
  intros [C0 C1 C2 _ _] Ed F. rewrite <- Ed in C0, C1, C2. change (Z.to_nat NUM) with 8%nat.
  destruct (free_desc_spec _ _ _ F) as (d1 & E1 & F1 & S1). destruct (free_desc_spec _ _ _ F1) as (d2 & E2 & F2 & S2).
  destruct (free_desc_spec _ _ _ F2) as (d3 & E3 & F3 & S3).
  assert (d_desc d1 (r_1 r) = d_desc d (r_1 r)) as D1 by (apply (sb_desc _ _ _ S1); apply elem_of_cons; by left).
  assert (d_desc d2 (r_2 r) = d_desc d (r_2 r)) as D2.
  { rewrite (sb_desc _ _ _ S2) by (apply elem_of_cons; by left). apply (sb_desc _ _ _ S1). apply elem_of_cons. right. apply elem_of_cons. by left. }
  exists d3. split; [|split; [done|]].
  - cbn [free_chain]. rewrite C0, E1. cbn [v_flags v_next mbind outcome_bind].
    replace (nz (Z.land VRING_DESC_F_NEXT VRING_DESC_F_NEXT)) with true by done. rewrite D1, C1, E2.
    cbn [v_flags v_next mbind outcome_bind].
    replace (nz (Z.land (Z.lor (if r_write r then 0 else VRING_DESC_F_WRITE) VRING_DESC_F_NEXT) VRING_DESC_F_NEXT)) with true by (by destruct (r_write r)).
    rewrite D2, C2, E3. done.
  - eapply same_but_trans; [|exact S3]. eapply same_but_trans; [eapply same_but_mono; [|exact S1]|eapply same_but_mono; [|exact S2]]; set_solver.
Qed.
Lemma finish_run d n F m W1 r W2 : vinv (VSys d n F m (W1 ++ r :: W2)) ->
  exists d', rw_finish (r_0 r) d = Ret d' /\ freeinv d' (idxs (W1 ++ W2)) /\
    same_but (idxs (W1 ++ W2)) (set_info (upd (d_info_b d) (r_0 r) None) (d_info_status d) d) d'.
Proof using Type.
  intros V. assert (idxs (W1 ++ r :: W2) ≡ₚ [r_0 r; r_1 r; r_2 r] ++ idxs (W1 ++ W2)) as P.
  { rewrite <- idxs_cons. unfold idxs. by rewrite Permutation_middle. }
  apply (free_chain_run d).
  - apply (vi_chain _ V). cbn. apply elem_of_app. right. apply elem_of_cons. by left.
  - done.
  - destruct (freeinv_perm _ _ _ P (vi_free _ V)) as [A B C]. by split.
Qed.
Lemma finish_ok d d' n F m W1 r W2 : vinv (VSys d n F m (W1 ++ r :: W2)) ->
  d_busy d (r_b r) = false -> rw_finish (r_0 r) d = Ret d' ->
  vinv (VSys d' n F m (W1 ++ W2)) /\
  sim (VSys d n F m (W1 ++ r :: W2)) (Some (EFinish (r_b r))) (VSys d' n F m (W1 ++ W2)).
Proof using Type.
  intros V Hb E. destruct (finish_run _ _ _ _ _ _ _ V) as (d1 & E1 & Ff & [Sd Sr]). rewrite E1 in E. injection E as <-.
  set (s := VSys d n F m (W1 ++ r :: W2)) in *.
  assert (r ∈ s_wait s) as Hr by (cbn; apply elem_of_app; right; apply elem_of_cons; by left).
  assert (r_0 r ∉ todo s ++ used s) as Hh. { rewrite <- (vi_busy s V r Hr). cbn. by rewrite Hb. }
  assert (forall r', r' ∈ W1 ++ W2 -> r' ∈ s_wait s) as Hin.
  { intros r' Hr'. cbn. rewrite <- Permutation_middle. apply elem_of_cons. by right. }
  pose proof (vi_bufs s V) as Hn. cbn in Hn. pose proof (fun A => req_entry_perm A W1 r W2 Hn) as He.
  assert (forall r', r' ∈ W1 ++ W2 -> r_0 r' <> r_0 r) as Hne.
  { intros r' Hr' E0. rewrite (head_unique s r' r V (Hin r' Hr') Hr E0) in Hr'.
    rewrite <- Permutation_middle, fmap_cons in Hn. apply NoDup_cons in Hn as [Hn _]. apply Hn. by apply list_elem_of_fmap_2. }
  destruct d1 as [f1 f2 f3 f4 f5 f6 f7 f8 f9 f10 f11]. cbn in Sr. injection Sr as -> -> -> -> -> -> -> -> ->.
  set (s' := VSys _ n F m (W1 ++ W2)). change (todo s) with (todo s') in Hh. change (used s) with (used s') in Hh.
  destruct V as [_ V2 V3 V4 V5 V6 V7 V8 V9]. split; [split|]; try done.
  - rewrite <- Permutation_middle, fmap_cons in Hn. apply NoDup_cons in Hn as [_ Hn]. exact Hn.
  - intros h Hh'. specialize (V6 h Hh'). cbn in V6. rewrite <- Permutation_middle, fmap_cons, elem_of_cons in V6.
    destruct V6 as [->|V6]; [done|exact V6].
  - intros r' Hr'. apply (chain_ok_ext d); [by apply V7, Hin| |done|].
    + intros i Hi. apply Sd, elem_of_idxs. by exists r'.
    + apply upd_ne. by apply Hne.
  - intros r' Hr'. by apply V8, Hin.
  - unfold sim, abs. change (todo s) with (todo s'). change (s_mem s') with (s_mem s). cbn [s_wait s s'].
    destruct (He (todo s')) as [Ea Eb]. rewrite Ea, bool_decide_eq_true_2 by (intros ?; apply Hh, elem_of_app; by left).
    rewrite <- (delete_insert_id (list_to_map (entry (todo s') <$> W1 ++ W2)) (r_b r) (r_blk r, r_write r, true) Eb) at 2.
    apply (AS_finish _ _ _ (r_blk r) (r_write r)). apply lookup_insert_eq.
Qed.

Lemma vstep_ok s e s' : vinv s -> vstep s e s' -> vinv s' /\ sim s e s'.
Proof using Type.
  intros V S. destruct S.
  - by apply submit_ok.
  - by eapply sleep_ok.
  - by apply fetch_ok.
  - by apply complete_ok.
  - by apply intr_ok.
  - by apply finish_ok.
Qed.
Lemma vreach_inv m s : vreach m s -> vinv s.
Proof using Type. induction 1 as [|s e s' _ IH S]; [apply vinv_init|]. exact (proj1 (vstep_ok _ _ _ IH S)). Qed.

(** The handler takes every entry of the used ring, within as many rounds. *)
Lemma intr_loop k d n F m W : vinv (VSys d n F m W) -> (length (used (VSys d n F m W)) <= k)%nat ->
  exists d', virtio_disk_intr k d = Ret d' /\ vinv (VSys d' n F m W) /\ d_used_idx d' = d_used_dev d' /\
    todo (VSys d' n F m W) = todo (VSys d n F m W).
Proof using xfer.
  revert d. induction k as [|k IH]; intros d V Hk; cbn [virtio_disk_intr].
  all: destruct (Z.eqb_spec (d_used_idx d) (d_used_dev d)) as [E|N]; [by exists d|].
  all: destruct (intr_one_run _ _ _ _ _ V N) as (r & _ & Eu & _ & E1); rewrite Eu in Hk; cbn [length] in Hk; try lia.
  destruct (intr_ok _ _ _ _ _ _ V N E1) as [V' _]. rewrite E1.
  destruct (IH _ V') as (d' & E' & V2 & Ed & Et); [unfold used; cbn in *; lia|]. by exists d'.
Qed.

(** C9. The disk driver implements an asynchronous block device.  In every
    state that processes, interrupts and the device can reach together, a step of the
    concrete system is a step of the abstract one, or leaves it unchanged: a call
    records its request; the device moves exactly the block of a recorded request,
    once, in the recorded direction, to or from the caller's buffer; and
    [virtio_disk_rw] returns only after the transfer of its own request. *)
Theorem virtio_refines m s e s' : vreach m s -> vstep s e s' ->
  match e with None => abs s' = abs s | Some e => astep (abs s) e (abs s') end.
Proof using Type. intros R S. exact (proj2 (vstep_ok _ _ _ (vreach_inv _ _ R) S)). Qed.

(** The driver never panics and never blocks for good on its own
    bookkeeping.  In every reachable state: a caller gets its three descriptors
    exactly when fewer than two requests are outstanding, and nothing is lost when it
    does not; the interrupt handler returns within [NUM] rounds, having taken every
    report, and then the buffers still marked busy are exactly those whose transfer is
    to come; a process whose buffer is no longer busy can release its chain; and every
    chain the device has fetched is one it can carry out. *)
Theorem virtio_safe m s : vreach m s ->
  (forall b blk w, exists o d', rw_submit b blk w (s_d s) = Ret (o, d') /\ (o = None <-> length (s_wait s) = 2%nat)) /\
  (exists d', virtio_disk_intr (Z.to_nat NUM) (s_d s) = Ret d' /\ d_used_idx d' = d_used_dev d' /\
     forall r, r ∈ s_wait s -> d_busy d' (r_b r) = true <-> r_0 r ∈ todo s) /\
  (forall r, r ∈ s_wait s -> d_busy (s_d s) (r_b r) = false -> exists d', rw_finish (r_0 r) (s_d s) = Ret d') /\
  (forall h, h ∈ s_fetched s -> exists x, dev_chain (s_d s) h = Some x).
Proof using Type.
  intros V%vreach_inv. pose proof (few_heads s V) as Hl. destruct s as [d n F m' W]. split_and!.
  - intros b blk w. unfold rw_submit. pose proof (vi_free _ V) as Hf. cbn in Hf |- *.
    pose proof (freeinv_length _ _ Hf) as Hn. destruct (alloc3_desc_spec _ _ Hf) as (o & d1 & -> & _ & Ho).
    rewrite length_idxs in *. destruct o as [[[i0 i1] i2]|]; cbn; eexists _, _; (split; [reflexivity|]).
    + split; [done|]. lia.
    + split; [intros _; lia|done].
  - destruct (intr_loop (Z.to_nat NUM) _ _ _ _ _ V) as (d' & E & V' & Ed & Et); [change (Z.to_nat NUM) with 8%nat; lia|].
    exists d'. split; [exact E|]. split; [done|]. intros r Hr. rewrite <- Et. pose proof (vi_busy _ V' r Hr) as Hb. cbn in Hb.
    rewrite Hb, elem_of_app. enough (used (VSys d' n F m' W) = []) as ->; [rewrite elem_of_nil; unfold todo; cbn; clear; tauto|].
    apply (q_empty_nil NUM (2 ^ 16) HNUM HNUMB HNUMD); [apply (vi_used _ V')|]. apply Z.eqb_eq. exact Ed.
  - cbn. intros r (W1 & W2 & ->)%list_elem_of_split _. destruct (finish_run _ _ _ _ _ _ _ V) as (d' & E & _). by exists d'.
  - intros h Hh. destruct (head_req _ h V) as (r & Hr & <-); [unfold todo; cbn; rewrite !elem_of_app; by left; left|].
    eexists. apply dev_chain_ok, (vi_chain _ V), Hr.
Qed.
End system.

(** A write of block 5 from buffer 100, up to the transfer. *)
Definition count_xfer (_ : bool) (_ _ _ : Z) (t : nat) : nat := S t.
Definition wit_d1 : vdisk := format_chain 100 5 true 0 1 2 (set_vfree (upd (upd (upd (fun _ => true) 0 false) 1 false) 2 false) vdisk0).
Definition wit_s1 : vsys nat := VSys wit_d1 1 [0] 0%nat [VReq 100 5 true 0 1 2].
Lemma wit_reach : vreach count_xfer 0%nat wit_s1.
Proof.
  eapply vreach_step; [eapply vreach_step; [apply vreach_init|]|].
  - apply (VS_submit _ _ wit_d1 _ _ _ _ 100 5 true 0 1 2); [set_solver|reflexivity].
  - apply (VS_fetch _ wit_d1 0 [] 0%nat). done.
Qed.
Lemma virtio_refines_witness :
  astep count_xfer (abs wit_s1) (ETransfer 100) (abs (VSys (dev_report 0 0 wit_d1) 1 [] 1%nat [VReq 100 5 true 0 1 2])).
Proof.
  apply (virtio_refines count_xfer 0%nat wit_s1 (Some (ETransfer 100))).
  - apply wit_reach.
  - apply (VS_complete count_xfer wit_d1 1 [] 0 [] 0%nat _ true 10 100 1024 0). reflexivity.
Defined.
Lemma virtio_safe_witness : exists x, dev_chain wit_d1 0 = Some x.
Proof. apply (virtio_safe count_xfer 0%nat wit_s1 wit_reach). cbn. set_solver. Defined.
