(* ===== verification/Trap.v ===== *)
(** Traps and system calls: kernel/trap.c, kernel/sysproc.c, the dispatch of
    kernel/syscall.c, and the calls on the swap area of kernel/sysfile.c.

    This is where the components meet.  The state is the kernel of Proc.v with the
    clock and the devices.  A trap is described by what the hardware hands over
    ([scause], [stval], [sepc], the previous mode, and the interrupt that the
    interrupt controller reports); it ends with the return to user space or with the
    process giving up the CPU.  Messages on the console are not modelled here. *)
From S2P Require Import Prelude Riscv Memory Locks Blocks Log UserMem Pipe Uart Console Fs File Sysfile Proc Exec Virtio.

(** The device handlers that [devintr] calls.  What they wake up is not part of them
    here: ProcSpec.v has wakeups at any time. *)
Class Devices (X : Type) := { dev_uart : M X unit; dev_disk : M X unit }.
(** The handlers of Console.v and Virtio.v. *)
Definition on_vdisk {A} (f : vdisk -> outcome vdisk) (s : A * vdisk) : outcome (unit * (A * vdisk)) :=
  match f s.2 with
  | Ret d => Ret (tt, (s.1, d))
  | Panic e => Panic e
  | Blocked => Blocked
  | NoFuel => NoFuel
  end.
Definition console_disk {D} `{UartDev D} (procdump : M (console D) unit) (fuel rounds : nat) : Devices (console D * vdisk) := {|
  dev_uart s := match uartintr procdump fuel rounds s.1 with
                | Ret (_, c) => Ret (tt, (c, s.2))
                | Panic e => Panic e
                | Blocked => Blocked
                | NoFuel => NoFuel
                end;
  dev_disk := on_vdisk (virtio_disk_intr (Z.to_nat NUM)) |}.

Definition MAKE_SATP (pagetable : Z) : Z := Z.lor (Z.shiftl 8 60) (Z.shiftr pagetable 12).
Definition UART0_IRQ : Z := 10.
Definition VIRTIO0_IRQ : Z := 1.
Definition SCAUSE_EXTERNAL : Z := 0x8000000000000009.
Definition SCAUSE_TIMER : Z := 0x8000000000000005.
(** The address of the variable [ticks], as a channel. *)
Definition TICKS : wchan := ChanAt 0.

Record world (C U X : Type) := World { w_sys : sys C U; w_ticks : Z; w_dev : X }.
Arguments World {C U X} _ _ _.
Arguments w_sys {C U X} _.
Arguments w_ticks {C U X} _.
Arguments w_dev {C U X} _.

(** How a trap ends: in user space at [sepc] with the page table of [satp], or with
    the CPU given up by exit, by yield, or by sleep. *)
Inductive tend := ToUser (sepc satp : Z) | Exited | Yielded | Asleep.
(** How a system call ends: with a value, or with the CPU given up. *)
Inductive sysend := Value (v : Z) | Leaves (t : tend).

Section trap.
Context {C U X : Type} `{BufCache C} `{UserMem U} `{PageAlloc U} `{AddrSpace U} `{Devices X}.
(** Addresses on the kernel stack, the device switch, and what the padding of
    [struct stat] holds. *)
Context (de elf ph : Z) (devsw : Z -> devops (kst C U)) (pad : list Z).
(** Registers that only the assembly looks at: [satp] of the kernel and [usertrap]. *)
Context (ksatp utrap : Z).
Abbreviation W := (M (world C U X)).

Definition wy {A} (m : M (sys C U) A) : W A := fun w =>
  match m (w_sys w) with
  | Ret (a, s) => Ret (a, World s (w_ticks w) (w_dev w))
  | Panic e => Panic e
  | Blocked => Blocked
  | NoFuel => NoFuel
  end.
Definition wdev (m : M X unit) : W unit := fun w =>
  match m (w_dev w) with
  | Ret (_, x) => Ret (tt, World (w_sys w) (w_ticks w) x)
  | Panic e => Panic e
  | Blocked => Blocked
  | NoFuel => NoFuel
  end.
Definition wproc (p : Z) : W proc := wy (get_proc p).
Definition wuser {A} (m : M U A) : W A := wy (yuser m).
Definition wkilled (p : Z) : W bool := gets (fun w => nz (killed p (y_t (w_sys w)))).
(** A register of the trapframe of [p]. *)
Definition get_reg (p off : Z) : W Z := e ← wproc p; wuser (gets (tf_get (p_trapframe e) off)).
Definition put_reg (p off v : Z) : W unit := e ← wproc p; wuser (modify (tf_put (p_trapframe e) off v)).

(** A call of Sysfile.v in process [p], whose descriptors and directory it may change. *)
Definition on_proc {A} (p : Z) (m : M (sst C U) A) : M (sys C U) A := fun s =>
  let e := t_proc (y_t s) p in
  match p_cwd e with
  | None => Panic "kerneltrap"
  | Some cwd =>
      match m (Sst (y_k s) (p_ofile e) cwd) with
      | Ret (a, s') => Ret (a, Sys (s_k s') (mod_tab p (fun e => set_pcwd (Some (s_cwd s')) (set_pofile (s_ofile s') e)) (y_t s)))
      | Panic e => Panic e
      | Blocked => Blocked
      | NoFuel => NoFuel
      end
  end.

(** ** sysproc.c and the swap calls *)
Definition sys_exit (c p n : Z) : W sysend := _ ← wy (exit c p n); mret (Leaves Exited).
Definition sys_getpid (p : Z) : W sysend := e ← wproc p; mret (Value (p_pid e)).
Definition sys_fork (p : Z) : W sysend := r ← wy (fork p); mret (Value r).
Definition sys_wait (c p addr : Z) : W sysend :=
  r ← wy (wait c p addr); mret (match r with Some v => Value v | None => Leaves Asleep end).
Definition sys_sbrk (p n : Z) : W sysend :=
  e ← wproc p;
  r ← wy (growproc p n);
  mret (Value (if r <? 0 then -1 else p_sz e)).
(** One round of the loop of [sys_sleep] that started at [ticks0]. *)
Definition sleep_round (c p n ticks0 : Z) : W sysend :=
  t ← gets w_ticks;
  if u32 (t - ticks0) <? n then
    k ← wkilled p;
    if k : bool then mret (Value (-1)) else _ ← wy (ysched (sleep 1 c p TICKS)); mret (Leaves Asleep)
  else mret (Value 0).
Definition sys_sleep (c p n : Z) : W sysend :=
  let n := if n <? 0 then 0 else n in
  ticks0 ← gets w_ticks;
  sleep_round c p n ticks0.
Definition sys_kill (pid : Z) : W sysend := fun w =>
  let '(r, t) := kill pid (y_t (w_sys w)) in
  Ret (Value r, World (Sys (y_k (w_sys w)) t) (w_ticks w) (w_dev w)).
Definition sys_uptime : W sysend := t ← gets w_ticks; mret (Value t).
(** The user pointer is taken for a kernel address. *)
Definition sys_swapread (ptr blkno : Z) : W sysend := _ ← wuser (as_swapread ptr blkno); mret (Value 0).
Definition sys_swapwrite (ptr blkno : Z) : W sysend := _ ← wuser (as_swapwrite ptr blkno); mret (Value 0).
Definition ycopyout (pt dst : Z) (l : list Z) : W bool := wy (yk (on_fs (fcopyout pt true dst l))).
Definition sys_swapstat (p rd wr : Z) : W sysend :=
  e ← wproc p;
  n ← wuser (gets as_counts);
  ok ← ycopyout (p_pagetable e) rd (le_bytes 4 n.1);
  if negb ok then mret (Value (-1))
  else
    n ← wuser (gets as_counts);
    ok ← ycopyout (p_pagetable e) wr (le_bytes 4 n.2);
    mret (Value (if ok : bool then 0 else -1)).
(** [sys_exec] with the commit of [exec] to the entry of the process. *)
Definition do_exec (p : Z) (args : Z -> Z) : W sysend :=
  e ← wproc p;
  r ← wy (on_proc p (sys_exec (p_pagetable e) args (p_sz e) (-1, None)
                        (exec (p_pid e) (p_pagetable e) (p_sz e) (p_trapframe e) de elf ph)));
  _ ← match r.2 with
      | Some im => wy (mod_proc p (fun e => set_psz (im_sz im) (set_ppagetable (im_pagetable im) (set_pname (im_name im) e))))
      | None => mret tt
      end;
  mret (Value r.1).

(** ** syscall.c *)
(** The table [syscalls], for the process [p] on CPU [c]. *)
Definition run_syscall (c p num : Z) : W (option sysend) :=
  e ← wproc p;
  args ← wuser (gets (fun u n => tf_get (p_trapframe e) (TF_A n) u));
  k ← wkilled p;
  let pid := p_pid e in
  let pt := p_pagetable e in
  let int n := s32 (args n) in
  let file (m : M (sst C U) Z) := r ← wy (on_proc p m); mret (Some (Value r)) in
  let proc (m : W sysend) := r ← m; mret (Some r) in
  match num with
  | 1 => proc (sys_fork p)
  | 2 => proc (sys_exit c p (int 0))
  | 3 => proc (sys_wait c p (args 0))
  | 4 => file (sys_pipe pid pt args)
  | 5 => file (sys_read pid pt (fun _ => k) args devsw)
  | 6 => proc (sys_kill (int 0))
  | 7 => proc (do_exec p args)
  | 8 => file (sys_fstat pid pt args pad)
  | 9 => file (sys_chdir pid pt de args)
  | 10 => file (sys_dup args)
  | 11 => proc (sys_getpid p)
  | 12 => proc (sys_sbrk p (int 0))
  | 13 => proc (sys_sleep c p (int 0))
  | 14 => proc sys_uptime
  | 15 => file (sys_open pid pt de args)
  | 16 => file (sys_write pid pt (fun _ => k) args devsw)
  | 17 => file (sys_mknod pid pt de args)
  | 18 => file (sys_unlink pid pt de args)
  | 19 => file (sys_link pid pt de args)
  | 20 => file (sys_mkdir pid pt de args)
  | 21 => file (sys_close pid args)
  | 22 => proc (sys_swapread (args 0) (int 1))
  | 23 => proc (sys_swapwrite (args 0) (int 1))
  | 24 => proc (sys_swapstat p (args 0) (args 1))
  | _ => mret None
  end.
(** [None] when the call has returned to [usertrap]. *)
Definition syscall (c p : Z) : W (option tend) :=
  a7 ← get_reg p (TF_A 7);
  r ← run_syscall c p (s32 a7);
  match r with
  | Some (Value v) => _ ← put_reg p (TF_A 0) v; mret None
  | Some (Leaves t) => mret (Some t)
  | None => _ ← put_reg p (TF_A 0) (-1); mret None
  end.

(** ** trap.c *)
Definition clockintr (c : Z) : W unit :=
  if c =? 0 then
    modify (fun w => World (Sys (y_k (w_sys w)) (wakeup (myproc c (y_t (w_sys w))) (Some TICKS) (y_t (w_sys w))))
                           (u32 (w_ticks w + 1)) (w_dev w))
  else mret tt.
(** [irq] is what [plic_claim] returns. *)
Definition devintr (c scause irq : Z) : W Z :=
  if scause =? SCAUSE_EXTERNAL then
    _ ← (if irq =? UART0_IRQ then wdev dev_uart else if irq =? VIRTIO0_IRQ then wdev dev_disk else mret tt);
    mret 1
  else if scause =? SCAUSE_TIMER then _ ← clockintr c; mret 2
  else mret 0.

Definition usertrapret (c p : Z) : W tend :=
  e ← wproc p;
  _ ← put_reg p TF_KSATP ksatp;
  _ ← put_reg p TF_KSP (p_kstack e + PGSIZE);
  _ ← put_reg p TF_KTRAP utrap;
  _ ← put_reg p TF_KHART c;
  epc ← get_reg p TF_EPC;
  mret (ToUser epc (MAKE_SATP (p_pagetable e))).
(** [exit(-1)] for a process that was killed. *)
Definition exit_killed (c p : Z) : W tend := _ ← wy (exit c p (-1)); mret Exited.
(** The end of [usertrap]. *)
Definition trap_end (c p which_dev : Z) : W tend :=
  k ← wkilled p;
  if k : bool then exit_killed c p
  else if which_dev =? 2 then _ ← wy (ysched (yield 1 c p)); mret Yielded
  else usertrapret c p.
Definition wsetkilled (p : Z) : W unit := wy (ytab (setkilled p)).
Definition usertrap (c : Z) (spp : bool) (scause stval sepc irq : Z) : W tend :=
  if spp then panic "usertrap: not from user mode"
  else
    p ← gets (fun w => myproc c (y_t (w_sys w)));
    match p with
    | None => panic "kerneltrap"
    | Some p =>
        _ ← put_reg p TF_EPC sepc;
        if scause =? 8 then
          k ← wkilled p;
          if k : bool then exit_killed c p
          else
            epc ← get_reg p TF_EPC;
            _ ← put_reg p TF_EPC (u64 (epc + 4));
            r ← syscall c p;
            match r with
            | Some t => mret t
            | None => trap_end c p 0
            end
        else
          which_dev ← devintr c scause irq;
          if negb (which_dev =? 0) then trap_end c p which_dev
          else
            _ ← (if (scause =? 12) || (scause =? 13) || (scause =? 15) then
                   if stval >=? MAXVA then wsetkilled p
                   else
                     e ← wproc p;
                     r ← wuser (as_swapin (p_pagetable e) stval);
                     if r <? 0 then wsetkilled p else mret tt
                 else wsetkilled p);
            trap_end c p 0
    end.
(** [kerneltrap], with the interrupt flag [intr]: whether the CPU was given up. *)
Definition kerneltrap (c : Z) (spp intr : bool) (scause irq : Z) : W bool :=
  if negb spp then panic "kerneltrap: not from supervisor mode"
  else if intr then panic "kerneltrap: interrupts enabled"
  else
    which_dev ← devintr c scause irq;
    if which_dev =? 0 then panic "kerneltrap"
    else
      p ← gets (fun w => myproc c (y_t (w_sys w)));
      match p with
      | Some p => if which_dev =? 2 then _ ← wy (ysched (yield 1 c p)); mret true else mret false
      | None => mret false
      end.
End trap.
