(* ===== verification/Boot.v ===== *)
(** Boot: the control registers (riscv.h), start.c, plic.c and main.c.

    A hart is its privilege mode, its program counter and its registers.  A
    control register holds what was written; sstatus and sie are the views of
    mstatus and mie that the privileged architecture defines, and mret is its
    return instruction.  Device registers are words at their addresses. *)
From S2P Require Import Prelude Riscv Vm Trap.

(** * riscv.h *)
Inductive csr :=
| Mhartid | Mstatus | Mepc | Sip | Mie | Sepc | Medeleg | Mideleg | Stvec | Stimecmp | Menvcfg
| Pmpcfg0 | Pmpaddr0 | Satp | Scause | Stval | Mcounteren | Time | Tp | Sp | Ra.
#[export] Instance csr_eq : EqDecision csr.
Proof. solve_decision. Defined.
Inductive priv := UMode | SMode | MMode.
Record hart := Hart { mode : priv; pc : Z; regs : csr -> Z }.
Definition get (r : csr) : M hart Z := gets (fun s => regs s r).
Definition put (r : csr) (x : Z) : M hart unit :=
  modify (fun s => Hart (mode s) (pc s) (fun r' => if decide (r' = r) then u64 x else regs s r')).

Definition MSTATUS_MPP_MASK : Z := Z.shiftl 3 11.
Definition MSTATUS_MPP_S : Z := Z.shiftl 1 11.
Definition SSTATUS_SIE : Z := Z.shiftl 1 1.
Definition SIE_SEIE : Z := Z.shiftl 1 9.
Definition SIE_STIE : Z := Z.shiftl 1 5.
Definition SIE_SSIE : Z := Z.shiftl 1 1.
Definition MIE_STIE : Z := Z.shiftl 1 5.

(** [x] in the bits of [mask], [old] elsewhere. *)
Definition merge (mask old x : Z) : Z := Z.lor (Z.land old (Z.lnot mask)) (Z.land x mask).
(** The bits of mstatus that sstatus shows. *)
Definition SSTATUS_BITS : Z := 0x80000003000de762.

Definition r_mhartid : M hart Z := get Mhartid.
Definition r_mstatus : M hart Z := get Mstatus.
Definition w_mstatus (x : Z) : M hart unit := put Mstatus x.
Definition w_mepc (x : Z) : M hart unit := put Mepc x.
Definition r_sstatus : M hart Z := x ← get Mstatus; mret (Z.land x SSTATUS_BITS).
Definition w_sstatus (x : Z) : M hart unit := old ← get Mstatus; put Mstatus (merge SSTATUS_BITS old x).
Definition r_sip : M hart Z := get Sip.
Definition w_sip (x : Z) : M hart unit := put Sip x.
Definition r_sie : M hart Z := x ← get Mie; d ← get Mideleg; mret (Z.land x d).
Definition w_sie (x : Z) : M hart unit := old ← get Mie; d ← get Mideleg; put Mie (merge d old x).
Definition r_mie : M hart Z := get Mie.
Definition w_mie (x : Z) : M hart unit := put Mie x.
Definition w_sepc (x : Z) : M hart unit := put Sepc x.
Definition r_sepc : M hart Z := get Sepc.
Definition r_medeleg : M hart Z := get Medeleg.
Definition w_medeleg (x : Z) : M hart unit := put Medeleg x.
Definition r_mideleg : M hart Z := get Mideleg.
Definition w_mideleg (x : Z) : M hart unit := put Mideleg x.
Definition w_stvec (x : Z) : M hart unit := put Stvec x.
Definition r_stvec : M hart Z := get Stvec.
Definition r_stimecmp : M hart Z := get Stimecmp.
Definition w_stimecmp (x : Z) : M hart unit := put Stimecmp x.
Definition r_menvcfg : M hart Z := get Menvcfg.
Definition w_menvcfg (x : Z) : M hart unit := put Menvcfg x.
Definition w_pmpcfg0 (x : Z) : M hart unit := put Pmpcfg0 x.
Definition w_pmpaddr0 (x : Z) : M hart unit := put Pmpaddr0 x.
Definition w_satp (x : Z) : M hart unit := put Satp x.
Definition r_satp : M hart Z := get Satp.
Definition r_scause : M hart Z := get Scause.
Definition r_stval : M hart Z := get Stval.
Definition w_mcounteren (x : Z) : M hart unit := put Mcounteren x.
Definition r_mcounteren : M hart Z := get Mcounteren.
Definition r_time : M hart Z := get Time.
Definition r_tp : M hart Z := get Tp.
Definition w_tp (x : Z) : M hart unit := put Tp x.
Definition csr_intr_on : M hart unit := x ← r_sstatus; w_sstatus (Z.lor x SSTATUS_SIE).
Definition csr_intr_off : M hart unit := x ← r_sstatus; w_sstatus (Z.land x (u64 (Z.lnot SSTATUS_SIE))).
Definition csr_intr_get : M hart Z := x ← r_sstatus; mret (if negb (Z.land x SSTATUS_SIE =? 0) then 1 else 0).
(** The instruction mret: to the mode in MPP, which becomes user mode, and to mepc; MPIE
    becomes MIE, and is set. *)
Definition do_mret : M hart unit :=
  modify (fun s =>
    let x := regs s Mstatus in
    let mpp := Z.land (Z.shiftr x 11) 3 in
    let mpie := Z.land (Z.shiftr x 7) 1 in
    let x := merge (Z.lor (Z.shiftl 3 11) (Z.lor (Z.shiftl 1 7) (Z.shiftl 1 3))) x (Z.lor (Z.shiftl 1 7) (Z.shiftl mpie 3)) in
    Hart (if mpp =? 0 then UMode else if mpp =? 1 then SMode else MMode) (regs s Mepc)
         (fun r => if decide (r = Mstatus) then x else regs s r)).

(** * start.c *)
Definition timerinit : M hart unit :=
  x ← r_mie; _ ← w_mie (Z.lor x MIE_STIE);
  x ← r_menvcfg; _ ← w_menvcfg (Z.lor x (Z.shiftl 1 63));
  x ← r_mcounteren; _ ← w_mcounteren (Z.lor x 2);
  x ← r_time; w_stimecmp (x + 1000000).
Definition start (main : Z) : M hart unit :=
  x ← r_mstatus;
  let x := Z.land x (u64 (Z.lnot MSTATUS_MPP_MASK)) in
  let x := Z.lor x MSTATUS_MPP_S in
  _ ← w_mstatus x;
  _ ← w_mepc main;
  _ ← w_satp 0;
  _ ← w_medeleg 0xffff;
  _ ← w_mideleg 0xffff;
  x ← r_sie; _ ← w_sie (Z.lor (Z.lor (Z.lor x SIE_SEIE) SIE_STIE) SIE_SSIE);
  _ ← w_pmpaddr0 0x3fffffffffffff;
  _ ← w_pmpcfg0 0xf;
  _ ← timerinit;
  id ← r_mhartid;
  _ ← w_tp (s32 id);
  do_mret.

(** * Turning on paging and traps *)
(** [kvminithart] (vm.c); the fences of the translation cache are not visible in the registers. *)
Definition kvminithart (kernel_pagetable : Z) : M hart unit := w_satp (MAKE_SATP kernel_pagetable).
(** [trapinithart] (trap.c) *)
Definition trapinithart (kernelvec : Z) : M hart unit := w_stvec kernelvec.

(** * plic.c *)
Definition PLIC_SENABLE (hart : Z) : Z := PLIC + 0x2080 + hart * 0x100.
Definition PLIC_SPRIORITY (hart : Z) : Z := PLIC + 0x201000 + hart * 0x2000.
Definition PLIC_SCLAIM (hart : Z) : Z := PLIC + 0x201004 + hart * 0x2000.
(** Loads and stores of device registers; a load can change the device. *)
Class Mmio (D : Type) := { ld32 : Z -> M D Z; st32 : Z -> Z -> M D unit }.
Section plic.
Context {D : Type} `{Mmio D}.
Definition plicinit : M D unit :=
  _ ← st32 (PLIC + UART0_IRQ * 4) 1;
  st32 (PLIC + VIRTIO0_IRQ * 4) 1.
Definition plicinithart (hart : Z) : M D unit :=
  _ ← st32 (PLIC_SENABLE hart) (Z.lor (Z.shiftl 1 UART0_IRQ) (Z.shiftl 1 VIRTIO0_IRQ));
  st32 (PLIC_SPRIORITY hart) 0.
Definition plic_claim (hart : Z) : M D Z := x ← ld32 (PLIC_SCLAIM hart); mret (s32 x).
Definition plic_complete (hart irq : Z) : M D unit := st32 (PLIC_SCLAIM hart) (u32 irq).
End plic.

(** * main.c *)
Inductive action :=
| Consoleinit | Printfinit | Banner | Kinit | Swapinit | Kvminit | Kvminithart | Procinit | Trapinit | Trapinithart
| Plicinit | Plicinithart | Binit | Iinit | Fileinit | Virtio_disk_init | Userinit | SetStarted | AwaitStarted | Hello | Scheduler.
#[export] Instance action_eq : EqDecision action.
Proof. solve_decision. Defined.
Definition main (id : Z) : list action :=
  (if id =? 0 then
     [Consoleinit; Printfinit; Banner; Kinit; Swapinit; Kvminit; Kvminithart; Procinit; Trapinit; Trapinithart;
      Plicinit; Plicinithart; Binit; Iinit; Fileinit; Virtio_disk_init; Userinit; SetStarted]
   else [AwaitStarted; Hello; Kvminithart; Trapinithart; Plicinithart]) ++ [Scheduler].
(** All harts together: the variable [started], what each has left to do, and what was
    done, the last action first. *)
Record boot := Boot { started : bool; todo : Z -> list action; did : list (Z * action) }.
Definition boot0 : boot := Boot false main [].
(** A hart takes its next action; the loop on [started] ends when it is set. *)
Inductive bstep : boot -> boot -> Prop :=
| bstep_act s c a l : 0 <= c < NCPU -> todo s c = a :: l -> (a = AwaitStarted -> started s = true) ->
    bstep s (Boot (started s || bool_decide (a = SetStarted)) (upd (todo s) c l) ((c, a) :: did s)).

(** * Correctness *)
(** ** Registers *)
Lemma testbit_u64 x i : 0 <= i < 64 -> Z.testbit (u64 x) i = Z.testbit x i.
Proof. intros Hi. unfold u64. apply Z.mod_pow2_bits_low. lia. Qed.
Lemma testbit_lnot x i : 0 <= i -> Z.testbit (Z.lnot x) i = negb (Z.testbit x i).
Proof. apply Z.lnot_spec. Qed.
Lemma testbit_merge mask old x i : 0 <= i -> Z.testbit (merge mask old x) i = if Z.testbit mask i then Z.testbit x i else Z.testbit old i.
Proof.
  intros Hi. unfold merge. rewrite Z.lor_spec, !Z.land_spec, Z.lnot_spec by done.
  destruct (Z.testbit mask i), (Z.testbit old i), (Z.testbit x i); done.
Qed.
(** Bit [i] of a power of two. *)
Lemma testbit_one k i : 0 <= k -> 0 <= i -> Z.testbit (Z.shiftl 1 k) i = (i =? k).
Proof. intros Hk Hi. rewrite Z.shiftl_mul_pow2, Z.mul_1_l, Z.pow2_bits_eqb by done. apply Z.eqb_sym. Qed.

Lemma land_one x k : 0 <= k -> (Z.land x (Z.shiftl 1 k) =? 0) = negb (Z.testbit x k).
Proof.
  intros Hk. destruct (Z.testbit x k) eqn:E.
  - apply Z.eqb_neq. intros E0. apply (f_equal (fun y => Z.testbit y k)) in E0.
    rewrite Z.land_spec, E, testbit_one, Z.eqb_refl, Z.bits_0 in E0 by done. done.
  - apply Z.eqb_eq, Z.bits_inj'. intros i Hi. rewrite Z.land_spec, testbit_one, Z.bits_0 by done.
    destruct (Z.eqb_spec i k) as [->|]; [by rewrite E|apply andb_false_r].
Qed.
(** A register after a write. *)
Definition setr (s : hart) (r : csr) (x : Z) : hart := Hart (mode s) (pc s) (fun r' => if decide (r' = r) then u64 x else regs s r').
Lemma setr_eq s r x : regs (setr s r x) r = u64 x.
Proof. cbn. by rewrite decide_True. Qed.
Lemma setr_ne s r r' x : r' <> r -> regs (setr s r x) r' = regs s r'.
Proof. intros H. cbn. by rewrite decide_False. Qed.

(** intr_on and intr_off change the bit SIE of mstatus and nothing else, and intr_get
    reads it. *)
Theorem intr_bit s : exists s1 s2,
  csr_intr_on s = Ret (tt, s1) /\ csr_intr_get s1 = Ret (1, s1) /\
  csr_intr_off s = Ret (tt, s2) /\ csr_intr_get s2 = Ret (0, s2) /\
  forall r i, 0 <= i < 64 -> ~ (r = Mstatus /\ i = 1) -> Z.testbit (regs s1 r) i = Z.testbit (regs s r) i /\ Z.testbit (regs s2 r) i = Z.testbit (regs s r) i.
Proof.
  set (x := regs s Mstatus).
  exists (setr s Mstatus (merge SSTATUS_BITS x (Z.lor (Z.land x SSTATUS_BITS) SSTATUS_SIE))),
    (setr s Mstatus (merge SSTATUS_BITS x (Z.land (Z.land x SSTATUS_BITS) (u64 (Z.lnot SSTATUS_SIE))))).
  assert (forall y, csr_intr_get (setr s Mstatus y) = Ret (if Z.testbit y 1 then 1 else 0, setr s Mstatus y)) as Hg.
  { intros y. change (csr_intr_get (setr s Mstatus y)) with
      (Ret (if negb (Z.land (Z.land (regs (setr s Mstatus y) Mstatus) SSTATUS_BITS) SSTATUS_SIE =? 0) then 1 else 0, setr s Mstatus y)).
    unfold SSTATUS_SIE. rewrite setr_eq, land_one, negb_involutive, Z.land_spec, testbit_u64 by lia.
    change (Z.testbit SSTATUS_BITS 1) with true. by rewrite andb_true_r. }
  split; [reflexivity|]. split; [|split; [reflexivity|split]].
  - rewrite Hg, testbit_merge by lia. change (Z.testbit SSTATUS_BITS 1) with true. cbv iota. rewrite Z.lor_spec.
    change (Z.testbit SSTATUS_SIE 1) with true. by rewrite orb_true_r.
  - rewrite Hg, testbit_merge by lia. change (Z.testbit SSTATUS_BITS 1) with true. cbv iota. rewrite Z.land_spec.
    change (Z.testbit (u64 (Z.lnot SSTATUS_SIE)) 1) with false. by rewrite andb_false_r.
  - intros r i Hi Hr. destruct (decide (r = Mstatus)) as [->|]; [|by rewrite !setr_ne]. rewrite !setr_eq, !testbit_u64, !testbit_merge by lia.
    assert (i <> 1) as Hne by (intros ->; by apply Hr). unfold SSTATUS_SIE.
    rewrite Z.lor_spec, !Z.land_spec, testbit_u64, testbit_lnot, testbit_one, (proj2 (Z.eqb_neq i 1)) by (done || lia).
    destruct (Z.testbit SSTATUS_BITS i); [|done]. cbn [negb]. by rewrite !andb_true_r, orb_false_r.
Qed.

(** ** start *)
(** The first entry of physical memory protection lets supervisor mode read, write and
    execute [a]: top of range, from 0 to pmpaddr0 * 4. *)
Definition pmp_allows (s : hart) (a : Z) : Prop :=
  Z.land (regs s Pmpcfg0) 7 = 7 /\ Z.land (Z.shiftr (regs s Pmpcfg0) 3) 3 = 1 /\ 0 <= a < regs s Pmpaddr0 * 4.

Lemma get_run {A} r (f : Z -> M hart A) s : (get r ≫= f) s = f (regs s r) s.
Proof. done. Qed.
Lemma put_run {A} r x (f : unit -> M hart A) s : (put r x ≫= f) s = f tt (setr s r x).
Proof. done. Qed.
Lemma r_sie_run {A} (f : Z -> M hart A) s : (r_sie ≫= f) s = f (Z.land (regs s Mie) (regs s Mideleg)) s.
Proof. done. Qed.
Lemma w_sie_run {A} x (f : unit -> M hart A) s : (w_sie x ≫= f) s = f tt (setr s Mie (merge (regs s Mideleg) (regs s Mie) x)).
Proof. done. Qed.
Lemma timerinit_run {A} (f : unit -> M hart A) s :
  (timerinit ≫= f) s =
  f tt (setr (setr (setr (setr s Mie (Z.lor (regs s Mie) MIE_STIE)) Menvcfg (Z.lor (regs s Menvcfg) (Z.shiftl 1 63)))
    Mcounteren (Z.lor (regs s Mcounteren) 2)) Stimecmp (regs s Time + 1000000)).
Proof. done. Qed.
Lemma two_bits x k : 0 <= k -> Z.land (Z.shiftr x k) 3 = Z.b2z (Z.testbit x k) + 2 * Z.b2z (Z.testbit x (k + 1)).
Proof.
  intros Hk. change 3 with (Z.ones 2). rewrite Z.land_ones, Z.shiftr_div_pow2 by lia. change (2 ^ 2) with (2 * 2).
  rewrite Z.rem_mul_r, !Z.testbit_spec' by lia. rewrite Z.pow_add_r, Z.div_div by lia. done.
Qed.
Ltac regs := repeat first [rewrite setr_eq | rewrite setr_ne by discriminate].

(** start enters main in supervisor mode, on every hart and from any state of the
    registers: paging is off, all of RAM is accessible, exceptions and interrupts are
    delegated to supervisor mode and its three interrupts enabled, tp is the number of
    the hart, the timer is set to a million ticks from now and open to supervisor
    mode, and mstatus keeps its other bits. *)
Theorem start_enters_main main_pc s : 0 <= main_pc < 2 ^ 64 -> 0 <= regs s Mhartid < NCPU ->
  exists s', start main_pc s = Ret (tt, s') /\ mode s' = SMode /\ pc s' = main_pc /\ regs s' Satp = 0 /\
    regs s' Tp = regs s Mhartid /\ regs s' Medeleg = 0xffff /\ regs s' Mideleg = 0xffff /\
    Z.testbit (regs s' Mie) 1 = true /\ Z.testbit (regs s' Mie) 5 = true /\ Z.testbit (regs s' Mie) 9 = true /\
    (forall a, 0 <= a < PHYSTOP -> pmp_allows s' a) /\
    regs s' Stimecmp = u64 (regs s Time + 1000000) /\ Z.testbit (regs s' Menvcfg) 63 = true /\ Z.testbit (regs s' Mcounteren) 1 = true /\
    (forall i, 0 <= i < 64 -> i ∉ [3; 7; 11; 12] -> Z.testbit (regs s' Mstatus) i = Z.testbit (regs s Mstatus) i).
Proof.
  intros Hm Hid. unfold start, r_mstatus, w_mstatus, w_mepc, w_satp, w_medeleg, w_mideleg, w_pmpaddr0, w_pmpcfg0, r_mhartid, w_tp.
  rewrite get_run. cbv zeta. repeat first [rewrite put_run | rewrite r_sie_run | rewrite w_sie_run | rewrite timerinit_run | rewrite get_run].
  eexists. split; [reflexivity|]. cbn [mode pc].
  set (x0 := Z.lor (Z.land (regs s Mstatus) (u64 (Z.lnot MSTATUS_MPP_MASK))) MSTATUS_MPP_S).
  assert (forall i, 0 <= i < 64 -> Z.testbit (u64 x0) i = if i =? 11 then true else if i =? 12 then false else Z.testbit (regs s Mstatus) i) as Hx.
  { intros i Hi. unfold x0, MSTATUS_MPP_MASK, MSTATUS_MPP_S. rewrite testbit_u64, Z.lor_spec, Z.land_spec, testbit_u64, testbit_lnot, testbit_one by lia.
    change (Z.shiftl 3 11) with (Z.lor (Z.shiftl 1 11) (Z.shiftl 1 12)). rewrite Z.lor_spec, !testbit_one by lia.
    destruct (Z.eqb_spec i 11), (Z.eqb_spec i 12); try lia; cbn [orb negb]; by rewrite ?andb_true_r, ?andb_false_r, ?orb_false_r, ?orb_true_r. }
  assert (forall i, 0 <= i < 64 -> Z.testbit 0xffff i = (i <? 16)) as Hd.
  { intros i Hi. change 0xffff with (Z.ones 16). destruct (Z.ltb_spec i 16); [apply Z.ones_spec_low|apply Z.ones_spec_high]; lia. }
  split_and!; cbn [regs]; rewrite ?decide_False, ?decide_True by done.
  - regs. rewrite two_bits, !Hx by lia. done.
  - regs. by rewrite u64_small.
  - by regs.
  - regs. unfold NCPU in Hid. rewrite s32_small, u64_small by lia. done.
  - by regs.
  - by regs.
  - regs. change (u64 0xffff) with 0xffff. rewrite testbit_u64, Z.lor_spec, testbit_u64, testbit_merge, Hd, !Z.lor_spec by lia. by rewrite !orb_true_r.
  - regs. rewrite testbit_u64, Z.lor_spec by lia. apply orb_true_r.
  - regs. change (u64 0xffff) with 0xffff. rewrite testbit_u64, Z.lor_spec, testbit_u64, testbit_merge, Hd, !Z.lor_spec by lia.
    change (Z.testbit SIE_SEIE 9) with true. by rewrite !orb_true_r.
  - intros a Ha. unfold pmp_allows. cbn [regs]. rewrite !decide_False by done. regs. split; [done|]. split; [done|].
    change (u64 0x3fffffffffffff) with 0x3fffffffffffff. unfold PHYSTOP, KERNBASE in Ha. lia.
  - by regs.
  - regs. rewrite testbit_u64, Z.lor_spec by lia. apply orb_true_r.
  - regs. rewrite testbit_u64, Z.lor_spec by lia. apply orb_true_r.
  - intros i Hi Hn. regs. rewrite testbit_merge by lia.
    assert (Z.testbit (Z.lor (Z.shiftl 3 11) (Z.lor (Z.shiftl 1 7) (Z.shiftl 1 3))) i = false) as ->.
    { change (Z.shiftl 3 11) with (Z.lor (Z.shiftl 1 11) (Z.shiftl 1 12)). rewrite !Z.lor_spec, !testbit_one by lia.
      rewrite !orb_false_iff, !Z.eqb_neq. set_solver. }
    rewrite Hx by lia. rewrite (proj2 (Z.eqb_neq i 11)), (proj2 (Z.eqb_neq i 12)) by set_solver. done.
Qed.
Lemma start_enters_main_witness : exists s',
  start 0x80000100 (Hart MMode 0x80000000 (fun r => match r with Mhartid => 3 | Mstatus => 0x1888 | Time => 500 | _ => 0 end)) = Ret (tt, s') /\
  mode s' = SMode /\ pc s' = 0x80000100.
Proof.
  edestruct (start_enters_main 0x80000100 (Hart MMode 0x80000000 (fun r => match r with Mhartid => 3 | Mstatus => 0x1888 | Time => 500 | _ => 0 end)))
    as (s' & E & Hm & Hp & _); [lia|cbn; unfold NCPU; lia|]. by exists s'.
Defined.

(** ** The interrupt controller *)
(** Registers that keep what is stored. *)
#[export] Instance plain_mmio : Mmio (Z -> Z) := {|
  ld32 a := gets (fun w => w a);
  st32 a x := modify (fun w => upd w a (u32 x)) |}.
(** An interrupt is passed on to a hart: it is enabled there and its priority is above
    the threshold of the hart. *)
Definition passed (w : Z -> Z) (hart irq : Z) : bool :=
  Z.testbit (w (PLIC_SENABLE hart)) irq && (w (PLIC + irq * 4) >? w (PLIC_SPRIORITY hart)).
Definition plicinit_all (harts : list Z) : M (Z -> Z) unit := _ ← plicinit; for_each harts plicinithart.
Definition IRQS : Z := 0x402.
Lemma plic_harts harts : forall w, Forall (fun c => 0 <= c < NCPU) harts ->
  exists w', for_each harts plicinithart w = Ret (tt, w') /\
    (forall c, c ∈ harts -> w' (PLIC_SENABLE c) = IRQS /\ w' (PLIC_SPRIORITY c) = 0) /\
    (forall a, (forall c, c ∈ harts -> a <> PLIC_SENABLE c /\ a <> PLIC_SPRIORITY c) -> w' a = w a).
Proof.
  induction harts as [|c harts IH]; intros w Hh; [exists w; split; [done|]; split; [set_solver|done]|].
  apply Forall_cons in Hh as [Hc Hh]. unfold NCPU in *.
  destruct (IH (upd (upd w (PLIC_SENABLE c) IRQS) (PLIC_SPRIORITY c) 0) Hh) as (w' & E & Hs & Hf).
  exists w'. split; [exact E|]. split.
  - intros c' [->|Hc']%elem_of_cons; [|by apply Hs]. destruct (decide (c ∈ harts)) as [|Hni]; [by apply Hs|].
    assert (forall c', c' ∈ harts -> 0 <= c' < 8 /\ c' <> c) as Hd.
    { intros c' Hin. split; [by eapply Forall_forall in Hh|]. by intros ->. }
    rewrite !Hf; [rewrite upd_eq, upd_ne, upd_eq; [done|]|..]; unfold PLIC_SENABLE, PLIC_SPRIORITY; [lia|intros c' Hin; specialize (Hd c' Hin); lia..].
  - intros a Ha. rewrite Hf by (intros c' Hin; apply Ha; set_solver). destruct (Ha c) as [H1 H2]; [set_solver|]. by rewrite !upd_ne.
Qed.
(** After plicinit, and plicinithart on the harts in whatever order they arrive, the
    interrupts of the UART and of the disk, and of all sources 1 to 31 only these, are
    passed on to each of these harts, and all stores were to words of the PLIC's range
    that the kernel maps. *)
Theorem plic_passes harts w : Forall (fun c => 0 <= c < NCPU) harts ->
  exists w', plicinit_all harts w = Ret (tt, w') /\
    (forall c irq, c ∈ harts -> 0 < irq < 32 -> passed w' c irq = true <-> irq = UART0_IRQ \/ irq = VIRTIO0_IRQ) /\
    (forall a, w' a <> w a -> PLIC <= a < PLIC + 0x4000000 /\ a mod 4 = 0).
Proof.
  intros Hh. set (w1 := upd (upd w (PLIC + UART0_IRQ * 4) 1) (PLIC + VIRTIO0_IRQ * 4) 1).
  destruct (plic_harts harts w1 Hh) as (w' & E & Hs & Hf). exists w'. split; [exact E|].
  assert (forall c, c ∈ harts -> 0 <= c < 8) as Hb by (intros c Hc; by eapply Forall_forall in Hh).
  split.
  - intros c irq Hc Hi. unfold passed. destruct (Hs c Hc) as [-> ->].
    change IRQS with (Z.lor (Z.shiftl 1 UART0_IRQ) (Z.shiftl 1 VIRTIO0_IRQ)). unfold UART0_IRQ, VIRTIO0_IRQ.
    rewrite Z.lor_spec, !testbit_one by lia.
    rewrite Hf by (intros c' Hc'; specialize (Hb c' Hc'); unfold PLIC_SENABLE, PLIC_SPRIORITY; lia).
    rewrite andb_true_iff, orb_true_iff, !Z.eqb_eq. split; [by intros [? _]|]. intros [->| ->]; (split; [auto|]); unfold w1, UART0_IRQ, VIRTIO0_IRQ.
    + rewrite upd_ne, upd_eq by lia. done.
    + rewrite upd_eq. done.
  - intros a Ha. unfold PLIC in *.
    destruct (decide (Exists (fun c => a = PLIC_SENABLE c \/ a = PLIC_SPRIORITY c) harts)) as [(c & Hc & Ea)%Exists_exists|Hn].
    + specialize (Hb c Hc). destruct Ea as [->| ->]; unfold PLIC_SENABLE, PLIC_SPRIORITY, PLIC; (split; [lia|]); [replace (0xc000000 + 0x2080 + c * 0x100) with ((0x3000820 + c * 0x40) * 4) by lia|replace (0xc000000 + 0x201000 + c * 0x2000) with ((0x3080400 + c * 0x800) * 4) by lia]; apply Z.mod_mul; lia.
    + rewrite Hf in Ha; [|intros c Hc; split; intros ->; apply Hn, Exists_exists; eauto]. unfold w1, PLIC, UART0_IRQ, VIRTIO0_IRQ in Ha.
      destruct (decide (a = 0xc000000 + 1 * 4)) as [->|H1]; [done|]. rewrite upd_ne in Ha by done.
      destruct (decide (a = 0xc000000 + 10 * 4)) as [->|H2]; [done|]. by rewrite upd_ne in Ha.
Qed.
Lemma plic_passes_witness : exists w', plicinit_all [0; 2; 1] (fun _ => 0) = Ret (tt, w') /\ passed w' 2 UART0_IRQ = true.
Proof.
  destruct (plic_passes [0; 2; 1] (fun _ => 0)) as (w' & E & Hp & _).
  - repeat (apply Forall_cons; split; [unfold NCPU; lia|]). apply Forall_nil_2.
  - exists w'. split; [exact E|]. apply Hp; [set_solver|unfold UART0_IRQ; lia|by left].
Defined.

(** ** main *)
(** What hart 0 does before it sets [started]. *)
Definition prepared : list action :=
  [Consoleinit; Printfinit; Banner; Kinit; Swapinit; Kvminit; Kvminithart; Procinit; Trapinit; Trapinithart;
   Plicinit; Plicinithart; Binit; Iinit; Fileinit; Virtio_disk_init; Userinit].
(** The actions of one hart, in order. *)
Definition done_by (c : Z) (s : boot) : list action := reverse (snd <$> filter (fun e => e.1 = c) (did s)).
Record binv (s : boot) : Prop := Binv {
  bi_order : forall c, 0 <= c < NCPU -> done_by c s ++ todo s c = main c;
  bi_started : started s = true -> (0, SetStarted) ∈ did s;
  bi_wait : forall c a, (c, a) ∈ did s -> c <> 0 -> started s = true }.
Inductive breach : boot -> Prop :=
| breach_0 : breach boot0
| breach_step s s' : breach s -> bstep s s' -> breach s'.

Lemma done_by_cons c e s st td : done_by c (Boot st td (e :: did s)) = if decide (e.1 = c) then done_by c s ++ [e.2] else done_by c s.
Proof. unfold done_by. cbn [did]. rewrite filter_cons. destruct (decide (e.1 = c)); [|done]. cbn [fmap list_fmap]. by rewrite reverse_cons. Qed.
Lemma binv_reach s : breach s -> binv s.
Proof.
  induction 1 as [|s s' _ [Ho Hs Hw] Hstep]; [split; [done|done|set_solver]|].
  inversion Hstep as [? c a l Hc Ht Ha]; subst. split.
  - intros c' Hc'. rewrite done_by_cons. cbn [fst snd todo]. destruct (decide (c = c')) as [->|Hne].
    + rewrite upd_eq, <- app_assoc. cbn [app]. rewrite <- Ht. by apply Ho.
    + rewrite upd_ne by done. by apply Ho.
  - cbn [started did]. rewrite orb_true_iff, bool_decide_eq_true. intros [Hst| ->]; [right; by apply Hs|].
    enough (c = 0) as -> by left. specialize (Ho c Hc). rewrite Ht in Ho. unfold main in Ho.
    destruct (Z.eqb_spec c 0); [done|]. exfalso.
    assert (SetStarted ∈ done_by c s ++ SetStarted :: l) as Hin by set_solver. rewrite Ho in Hin. set_solver.
  - cbn [started did]. intros c' a' [[= -> ->]|Hin]%elem_of_cons Hne; [|by rewrite (Hw _ _ Hin Hne)].
    destruct (done_by c s) as [|x xs] eqn:Ed.
    + specialize (Ho c Hc). rewrite Ed, Ht in Ho. unfold main in Ho. rewrite (proj2 (Z.eqb_neq _ _)) in Ho by done.
      injection Ho as -> _. by rewrite Ha.
    + assert (x ∈ done_by c s) as Hx by (rewrite Ed; left). unfold done_by in Hx.
      apply elem_of_reverse, list_elem_of_fmap in Hx as ([c' x'] & -> & [Hc' Hin]%list_elem_of_filter). cbn in Hc'. subst c'.
      by rewrite (Hw _ _ Hin Hne).
Qed.
Lemma breach_at s l1 e l2 : breach s -> did s = l1 ++ e :: l2 -> exists s0 s1, breach s0 /\ breach s1 /\ did s0 = l2 /\ did s1 = e :: l2.
Proof.
  intros Hr. revert l1. induction Hr as [|s s' Hr IH Hstep]; intros l1 E; [by destruct l1|].
  destruct l1 as [|e' l1]; [|inversion Hstep; subst; injection E as _ E; by apply (IH l1)].
  exists s, s'. split; [done|]. split; [by eapply breach_step|]. split; [|done]. inversion Hstep; subst. by injection E as _ ->.
Qed.
Lemma prepared_done l l' : l ++ l' = prepared ++ [SetStarted; Scheduler] -> SetStarted ∈ l -> forall x, x ∈ prepared -> x ∈ l.
Proof.
  intros E Hin x Hx. destruct (decide (length prepared <= length l)%nat) as [Hl|Hl].
  - apply app_eq_inv in E as [(k & -> & _)|(k & Hk & _)]; [set_solver|]. rewrite Hk, length_app in Hl.
    destruct k; [|cbn [length] in Hl; lia]. rewrite app_nil_r in Hk. by rewrite <- Hk.
  - exfalso. apply app_eq_inv in E as [(k & -> & _)|(k & Hk & _)]; [rewrite length_app in Hl; lia|].
    assert (SetStarted ∈ prepared) as Hp by (rewrite Hk; set_solver). unfold prepared in Hp. set_solver.
Qed.

(** C19. Every action of another hart comes after the whole initialisation by hart 0: in
    every interleaving of the harts, when a hart other than 0 does anything, such as
    turning on paging with the kernel's page table, hart 0 has done all of its
    initialisations before it, and every hart does its actions in the order of main. *)
Theorem main_initialises_first s l1 c a l2 :
  breach s -> did s = l1 ++ (c, a) :: l2 -> c <> 0 ->
  (forall x, x ∈ prepared -> (0, x) ∈ l2) /\ (forall h, 0 <= h < NCPU -> done_by h s ++ todo s h = main h).
Proof.
  intros Hr E Hc. split; [|exact (bi_order _ (binv_reach _ Hr))].
  destruct (breach_at _ _ _ _ Hr E) as (s0 & s1 & R0 & R1 & E0 & E1). intros x Hx.
  pose proof (binv_reach _ R0) as [Ho _ _]. pose proof (binv_reach _ R1) as [_ Hs Hw].
  assert ((0, SetStarted) ∈ l2) as Hss.
  { assert ((0, SetStarted) ∈ (c, a) :: l2) as Hin by (rewrite <- E1; apply Hs, (Hw c a); [rewrite E1; left|done]).
    apply elem_of_cons in Hin as [[= <- _]|]; done. }
  assert (forall y, y ∈ done_by 0 s0 <-> (0, y) ∈ l2) as Hd.
  { intros y. unfold done_by. rewrite E0, elem_of_reverse, list_elem_of_fmap. split.
    - intros ([c' y'] & -> & [Hc' Hin]%list_elem_of_filter). cbn in Hc'. by subst.
    - intros Hin. exists (0, y). split; [done|]. by apply list_elem_of_filter. }
  apply Hd. apply (prepared_done (done_by 0 s0) (todo s0 0)); [apply (Ho 0); unfold NCPU; lia|by apply Hd|done].
Qed.
(** A run given by the harts that act. *)
Fixpoint brun (l : list Z) (s : boot) : option boot :=
  match l with
  | [] => Some s
  | c :: l =>
      match todo s c with
      | a :: t => if bool_decide (0 <= c < NCPU) && (negb (bool_decide (a = AwaitStarted)) || started s)
                  then brun l (Boot (started s || bool_decide (a = SetStarted)) (upd (todo s) c t) ((c, a) :: did s)) else None
      | [] => None
      end
  end.
Lemma brun_reach l : forall s s', breach s -> brun l s = Some s' -> breach s'.
Proof.
  induction l as [|c l IH]; intros s s' Hr; cbn [brun]; [by intros [= <-]|]. destruct (todo s c) as [|a t] eqn:Et; [done|].
  destruct (bool_decide_reflect (0 <= c < NCPU)) as [Hc|]; [|done]. cbn [andb]. destruct (_ || started s) eqn:E; [|done]. apply IH.
  eapply breach_step; [exact Hr|]. apply bstep_act; [done|done|]. intros ->. by rewrite bool_decide_eq_true_2 in E.
Qed.
Lemma main_initialises_first_witness : exists s l2, breach s /\ did s = [] ++ (1, AwaitStarted) :: l2 /\ (0, Kinit) ∈ l2.
Proof.
  destruct (brun (replicate 18 0 ++ [1]) boot0) as [s|] eqn:E; [|vm_compute in E; discriminate].
  assert (breach s) as Hr by (apply (brun_reach _ _ _ breach_0 E)).
  exists s, (tail (did s)). split; [exact Hr|]. assert (did s = [] ++ (1, AwaitStarted) :: tail (did s)) as Ed.
  { vm_compute in E. injection E as <-. reflexivity. }
  split; [exact Ed|]. apply (main_initialises_first s [] 1 AwaitStarted (tail (did s)) Hr Ed); [discriminate|].
  unfold prepared. repeat first [apply list_elem_of_here | apply list_elem_of_further].
Defined.
