(* ===== verification/DiskInit.v ===== *)
(** virtio_disk_init (kernel/virtio_disk.c): the conversation with the registers of
    the disk.  [desc], [avail] and [used] are the addresses that the three calls of
    kalloc returned; what the function leaves in the queues is in Virtio.v. *)
From S2P Require Import Prelude Riscv Vm Virtio Trap Boot.

(** virtio.h *)
Definition VIRTIO_MMIO_MAGIC_VALUE : Z := 0x000.
Definition VIRTIO_MMIO_VERSION : Z := 0x004.
Definition VIRTIO_MMIO_DEVICE_ID : Z := 0x008.
Definition VIRTIO_MMIO_VENDOR_ID : Z := 0x00c.
Definition VIRTIO_MMIO_DEVICE_FEATURES : Z := 0x010.
Definition VIRTIO_MMIO_DRIVER_FEATURES : Z := 0x020.
Definition VIRTIO_MMIO_QUEUE_SEL : Z := 0x030.
Definition VIRTIO_MMIO_QUEUE_NUM_MAX : Z := 0x034.
Definition VIRTIO_MMIO_QUEUE_NUM : Z := 0x038.
Definition VIRTIO_MMIO_QUEUE_READY : Z := 0x044.
Definition VIRTIO_MMIO_STATUS : Z := 0x070.
Definition VIRTIO_MMIO_QUEUE_DESC_LOW : Z := 0x080.
Definition VIRTIO_MMIO_QUEUE_DESC_HIGH : Z := 0x084.
Definition VIRTIO_MMIO_DRIVER_DESC_LOW : Z := 0x090.
Definition VIRTIO_MMIO_DRIVER_DESC_HIGH : Z := 0x094.
Definition VIRTIO_MMIO_DEVICE_DESC_LOW : Z := 0x0a0.
Definition VIRTIO_MMIO_DEVICE_DESC_HIGH : Z := 0x0a4.
Definition VIRTIO_CONFIG_S_ACKNOWLEDGE : Z := 1.
Definition VIRTIO_CONFIG_S_DRIVER : Z := 2.
Definition VIRTIO_CONFIG_S_DRIVER_OK : Z := 4.
Definition VIRTIO_CONFIG_S_FEATURES_OK : Z := 8.
Definition VIRTIO_BLK_F_RO : Z := 5.
Definition VIRTIO_BLK_F_SCSI : Z := 7.
Definition VIRTIO_BLK_F_CONFIG_WCE : Z := 11.
Definition VIRTIO_BLK_F_MQ : Z := 12.
Definition VIRTIO_F_ANY_LAYOUT : Z := 27.
Definition VIRTIO_RING_F_INDIRECT_DESC : Z := 28.
Definition VIRTIO_RING_F_EVENT_IDX : Z := 29.

Section init.
Context {D : Type} `{Mmio D}.
Definition R (r : Z) : Z := VIRTIO0 + r.
Definition rd (r : Z) : M D Z := ld32 (R r).
Definition wr (r x : Z) : M D unit := st32 (R r) x.
(** [features &= ~(1 << k)] *)
Definition without (features k : Z) : Z := Z.land features (u64 (Z.lnot (Z.shiftl 1 k))).
Definition negotiated (features : Z) : Z :=
  fold_left without [VIRTIO_BLK_F_RO; VIRTIO_BLK_F_SCSI; VIRTIO_BLK_F_CONFIG_WCE; VIRTIO_BLK_F_MQ; VIRTIO_F_ANY_LAYOUT;
                     VIRTIO_RING_F_EVENT_IDX; VIRTIO_RING_F_INDIRECT_DESC] features.
(** The registers are read until one of them is wrong. *)
Definition is_disk : M D bool :=
  x ← rd VIRTIO_MMIO_MAGIC_VALUE;
  if negb (x =? 0x74726976) then mret false else
  x ← rd VIRTIO_MMIO_VERSION;
  if negb (x =? 2) then mret false else
  x ← rd VIRTIO_MMIO_DEVICE_ID;
  if negb (x =? 2) then mret false else
  x ← rd VIRTIO_MMIO_VENDOR_ID;
  mret (x =? 0x554d4551).
Definition virtio_disk_init (desc avail used : Z) : M D unit :=
  b ← is_disk;
  if negb b then panic "could not find virtio disk" else
  let status := 0 in
  _ ← wr VIRTIO_MMIO_STATUS status;
  let status := Z.lor status VIRTIO_CONFIG_S_ACKNOWLEDGE in
  _ ← wr VIRTIO_MMIO_STATUS status;
  let status := Z.lor status VIRTIO_CONFIG_S_DRIVER in
  _ ← wr VIRTIO_MMIO_STATUS status;
  features ← rd VIRTIO_MMIO_DEVICE_FEATURES;
  _ ← wr VIRTIO_MMIO_DRIVER_FEATURES (negotiated features);
  let status := Z.lor status VIRTIO_CONFIG_S_FEATURES_OK in
  _ ← wr VIRTIO_MMIO_STATUS status;
  status ← rd VIRTIO_MMIO_STATUS;
  if Z.land status VIRTIO_CONFIG_S_FEATURES_OK =? 0 then panic "virtio disk FEATURES_OK unset" else
  _ ← wr VIRTIO_MMIO_QUEUE_SEL 0;
  x ← rd VIRTIO_MMIO_QUEUE_READY;
  if negb (x =? 0) then panic "virtio disk should not be ready" else
  max ← rd VIRTIO_MMIO_QUEUE_NUM_MAX;
  if max =? 0 then panic "virtio disk has no queue 0" else
  if max <? NUM then panic "virtio disk max queue too short" else
  if (desc =? 0) || (avail =? 0) || (used =? 0) then panic "virtio disk kalloc" else
  _ ← wr VIRTIO_MMIO_QUEUE_NUM NUM;
  _ ← wr VIRTIO_MMIO_QUEUE_DESC_LOW desc;
  _ ← wr VIRTIO_MMIO_QUEUE_DESC_HIGH (Z.shiftr desc 32);
  _ ← wr VIRTIO_MMIO_DRIVER_DESC_LOW avail;
  _ ← wr VIRTIO_MMIO_DRIVER_DESC_HIGH (Z.shiftr avail 32);
  _ ← wr VIRTIO_MMIO_DEVICE_DESC_LOW used;
  _ ← wr VIRTIO_MMIO_DEVICE_DESC_HIGH (Z.shiftr used 32);
  _ ← wr VIRTIO_MMIO_QUEUE_READY 1;
  let status := Z.lor status VIRTIO_CONFIG_S_DRIVER_OK in
  _ ← wr VIRTIO_MMIO_STATUS status;
  mret tt.
End init.

(** * Correctness *)
(** A device as the virtio specification describes it, as far as this function sees
    it: what it offers, the status it holds, whether it keeps FEATURES_OK for the
    features the driver chose, and its queue. *)
Record vdev := Vdev { v_id : Z -> Z; v_offer : Z; v_accept : Z -> bool; v_status : Z; v_driver : Z; v_max : Z;
                      v_ready : Z; v_num : Z; v_addr : Z -> Z }.
Definition set_status (x : Z) (v : vdev) : vdev := Vdev (v_id v) (v_offer v) (v_accept v) x (v_driver v) (v_max v) (v_ready v) (v_num v) (v_addr v).
#[export] Instance virtio_mmio : Mmio vdev := {|
  ld32 a := gets (fun v =>
    let r := a - VIRTIO0 in
    if r =? VIRTIO_MMIO_DEVICE_FEATURES then v_offer v else if r =? VIRTIO_MMIO_STATUS then v_status v
    else if r =? VIRTIO_MMIO_QUEUE_READY then v_ready v else if r =? VIRTIO_MMIO_QUEUE_NUM_MAX then v_max v else v_id v r);
  st32 a x := modify (fun v =>
    let r := a - VIRTIO0 in
    let x := u32 x in
    if r =? VIRTIO_MMIO_STATUS then
      if x =? 0 then Vdev (v_id v) (v_offer v) (v_accept v) 0 0 (v_max v) 0 0 (fun _ => 0)
      else set_status (if v_accept v (v_driver v) then x else Z.land x (Z.lnot VIRTIO_CONFIG_S_FEATURES_OK)) v
    else if r =? VIRTIO_MMIO_DRIVER_FEATURES then Vdev (v_id v) (v_offer v) (v_accept v) (v_status v) x (v_max v) (v_ready v) (v_num v) (v_addr v)
    else if r =? VIRTIO_MMIO_QUEUE_NUM then Vdev (v_id v) (v_offer v) (v_accept v) (v_status v) (v_driver v) (v_max v) (v_ready v) x (v_addr v)
    else if r =? VIRTIO_MMIO_QUEUE_READY then Vdev (v_id v) (v_offer v) (v_accept v) (v_status v) (v_driver v) (v_max v) x (v_num v) (v_addr v)
    else Vdev (v_id v) (v_offer v) (v_accept v) (v_status v) (v_driver v) (v_max v) (v_ready v) (v_num v) (upd (v_addr v) r x)) |}.

Section runs.
Context {A : Type} (v : vdev).
Implicit Types f : Z -> M vdev A.
Implicit Types g : unit -> M vdev A.
Lemma rd_id r f : r ∈ [VIRTIO_MMIO_MAGIC_VALUE; VIRTIO_MMIO_VERSION; VIRTIO_MMIO_DEVICE_ID; VIRTIO_MMIO_VENDOR_ID] ->
  (rd r ≫= f) v = f (v_id v r) v.
Proof. rewrite !elem_of_cons. intros [->|[->|[->|[->|[]%not_elem_of_nil]]]]; reflexivity. Qed.
Lemma rd_offer f : (rd VIRTIO_MMIO_DEVICE_FEATURES ≫= f) v = f (v_offer v) v.
Proof. reflexivity. Qed.
Lemma rd_status f : (rd VIRTIO_MMIO_STATUS ≫= f) v = f (v_status v) v.
Proof. reflexivity. Qed.
Lemma rd_ready f : (rd VIRTIO_MMIO_QUEUE_READY ≫= f) v = f (v_ready v) v.
Proof. reflexivity. Qed.
Lemma rd_max f : (rd VIRTIO_MMIO_QUEUE_NUM_MAX ≫= f) v = f (v_max v) v.
Proof. reflexivity. Qed.
Lemma wr_reset g : (wr VIRTIO_MMIO_STATUS 0 ≫= g) v = g tt (Vdev (v_id v) (v_offer v) (v_accept v) 0 0 (v_max v) 0 0 (fun _ => 0)).
Proof. reflexivity. Qed.
Lemma wr_status x g : 0 < x < 2 ^ 32 -> (wr VIRTIO_MMIO_STATUS x ≫= g) v =
  g tt (set_status (if v_accept v (v_driver v) then x else Z.land x (Z.lnot VIRTIO_CONFIG_S_FEATURES_OK)) v).
Proof.
  intros Hx. transitivity (g tt (if u32 x =? 0 then Vdev (v_id v) (v_offer v) (v_accept v) 0 0 (v_max v) 0 0 (fun _ => 0) else
    set_status (if v_accept v (v_driver v) then u32 x else Z.land (u32 x) (Z.lnot VIRTIO_CONFIG_S_FEATURES_OK)) v)); [reflexivity|].
  rewrite u32_small by lia. by rewrite (proj2 (Z.eqb_neq _ _)) by lia.
Qed.
Lemma wr_driver x g : (wr VIRTIO_MMIO_DRIVER_FEATURES x ≫= g) v =
  g tt (Vdev (v_id v) (v_offer v) (v_accept v) (v_status v) (u32 x) (v_max v) (v_ready v) (v_num v) (v_addr v)).
Proof. reflexivity. Qed.
Definition set_addr (r x : Z) : vdev :=
  Vdev (v_id v) (v_offer v) (v_accept v) (v_status v) (v_driver v) (v_max v) (v_ready v) (v_num v) (upd (v_addr v) r x).
Lemma wr_addr r x g : r ∈ [VIRTIO_MMIO_QUEUE_SEL; VIRTIO_MMIO_QUEUE_DESC_LOW; VIRTIO_MMIO_QUEUE_DESC_HIGH; VIRTIO_MMIO_DRIVER_DESC_LOW;
    VIRTIO_MMIO_DRIVER_DESC_HIGH; VIRTIO_MMIO_DEVICE_DESC_LOW; VIRTIO_MMIO_DEVICE_DESC_HIGH] ->
  (wr r x ≫= g) v = g tt (set_addr r (u32 x)).
Proof. rewrite !elem_of_cons. intros [->|[->|[->|[->|[->|[->|[->|[]%not_elem_of_nil]]]]]]]; reflexivity. Qed.
Lemma wr_num x g : (wr VIRTIO_MMIO_QUEUE_NUM x ≫= g) v =
  g tt (Vdev (v_id v) (v_offer v) (v_accept v) (v_status v) (v_driver v) (v_max v) (v_ready v) (u32 x) (v_addr v)).
Proof. reflexivity. Qed.
Lemma wr_ready x g : (wr VIRTIO_MMIO_QUEUE_READY x ≫= g) v =
  g tt (Vdev (v_id v) (v_offer v) (v_accept v) (v_status v) (v_driver v) (v_max v) (u32 x) (v_num v) (v_addr v)).
Proof. reflexivity. Qed.
End runs.

(** The features that the driver takes: those offered except seven that it does not
    understand. *)
Lemma negotiated_bits x i : 0 <= x < 2 ^ 32 -> 0 <= i < 64 ->
  Z.testbit (negotiated x) i = Z.testbit x i && negb (bool_decide (i ∈ [5; 7; 11; 12; 27; 28; 29])).
Proof.
  intros Hx Hi. unfold negotiated. cbn [fold_left]. unfold without.
  rewrite !Z.land_spec, !testbit_u64, !testbit_lnot, !testbit_one by (done || lia).
  unfold VIRTIO_BLK_F_RO, VIRTIO_BLK_F_SCSI, VIRTIO_BLK_F_CONFIG_WCE, VIRTIO_BLK_F_MQ, VIRTIO_F_ANY_LAYOUT, VIRTIO_RING_F_INDIRECT_DESC, VIRTIO_RING_F_EVENT_IDX.
  case_bool_decide as Hin; cbn [negb].
  - rewrite andb_false_r. rewrite !elem_of_cons in Hin.
    destruct Hin as [->|[->|[->|[->|[->|[->|[->|[]%not_elem_of_nil]]]]]]]; by rewrite ?andb_false_r.
  - rewrite !(proj2 (Z.eqb_neq _ _)) by set_solver. by rewrite !andb_true_r.
Qed.
Lemma negotiated_range x : 0 <= x < 2 ^ 32 -> 0 <= negotiated x < 2 ^ 32.
Proof.
  intros Hx. assert (forall y k, 0 <= y < 2 ^ 32 -> 0 <= without y k < 2 ^ 32) as Hw.
  { intros y k Hy. unfold without. split; [apply Z.land_nonneg; lia|]. destruct (Z.eq_dec (Z.land y (u64 (Z.lnot (Z.shiftl 1 k)))) 0) as [->|]; [lia|].
    apply Z.log2_lt_pow2; [pose proof (Z.land_nonneg y (u64 (Z.lnot (Z.shiftl 1 k)))); lia|].
    pose proof (Z.log2_land y (u64 (Z.lnot (Z.shiftl 1 k)))) as Hl. pose proof (u64_range (Z.lnot (Z.shiftl 1 k))).
    destruct (Z.eq_dec y 0) as [->|]; [done|]. assert (Z.log2 y < 32) by (apply Z.log2_lt_pow2; lia). lia. }
  unfold negotiated. generalize ([VIRTIO_BLK_F_RO; VIRTIO_BLK_F_SCSI; VIRTIO_BLK_F_CONFIG_WCE; VIRTIO_BLK_F_MQ; VIRTIO_F_ANY_LAYOUT;
    VIRTIO_RING_F_EVENT_IDX; VIRTIO_RING_F_INDIRECT_DESC]). intros l. revert x Hx. induction l as [|k l IH]; intros x Hx; [done|]. cbn [fold_left]. apply IH. by apply Hw.
Qed.

(** A 64-bit address in two registers. *)
Definition pair_at (v : vdev) (lo hi : Z) : Z := v_addr v lo + 2 ^ 32 * v_addr v hi.
Definition identified (v : vdev) : Prop :=
  v_id v VIRTIO_MMIO_MAGIC_VALUE = 0x74726976 /\ v_id v VIRTIO_MMIO_VERSION = 2 /\
  v_id v VIRTIO_MMIO_DEVICE_ID = 2 /\ v_id v VIRTIO_MMIO_VENDOR_ID = 0x554d4551.
Lemma is_disk_run v : is_disk v = Ret (bool_decide (identified v), v).
Proof.
  unfold is_disk, identified. rewrite rd_id by set_solver. destruct (Z.eqb_spec (v_id v VIRTIO_MMIO_MAGIC_VALUE) 0x74726976) as [->|]; cbn [negb].
  2:{ rewrite bool_decide_eq_false_2; [done|]. by intros (? & _). }
  rewrite rd_id by set_solver. destruct (Z.eqb_spec (v_id v VIRTIO_MMIO_VERSION) 2) as [->|]; cbn [negb].
  2:{ rewrite bool_decide_eq_false_2; [done|]. by intros (_ & ? & _). }
  rewrite rd_id by set_solver. destruct (Z.eqb_spec (v_id v VIRTIO_MMIO_DEVICE_ID) 2) as [->|]; cbn [negb].
  2:{ rewrite bool_decide_eq_false_2; [done|]. by intros (_ & _ & ? & _). }
  rewrite rd_id by set_solver. f_equal. f_equal. destruct (Z.eqb_spec (v_id v VIRTIO_MMIO_VENDOR_ID) 0x554d4551) as [->|].
  - by rewrite bool_decide_eq_true_2.
  - rewrite bool_decide_eq_false_2; [done|]. by intros (_ & _ & _ & ?).
Qed.

(** The device accepts the driver, and memory was there. *)
Definition usable (v : vdev) (desc avail used : Z) : Prop :=
  identified v /\ v_accept v (negotiated (v_offer v)) = true /\ NUM <= v_max v /\ desc <> 0 /\ avail <> 0 /\ used <> 0.
Lemma pair_split x : 0 <= x < 2 ^ 64 -> u32 x + 2 ^ 32 * u32 (Z.shiftr x 32) = x.
Proof.
  intros Hx. rewrite Z.shiftr_div_pow2 by lia. rewrite (u32_small (x / 2 ^ 32)) by (split; [apply Z.div_pos; lia|apply Z.div_lt_upper_bound; lia]).
  unfold u32. pose proof (Z.div_mod x (2 ^ 32)). lia.
Qed.
Ltac dev := cbn [v_id v_offer v_accept v_status v_driver v_max v_ready v_num v_addr set_addr set_status].
Ltac unusable := cbn [orb]; cbv iota; unfold panic; cbv beta iota; intros (? & ? & ? & ? & ? & ?); unfold NUM in *; first [done | lia].
(** virtio_disk_init either takes the device into use or panics.  If the device
    identifies itself as a disk, accepts the features offered less the seven the driver
    does not know, has a queue of at least NUM entries, and kalloc succeeded, then the
    device ends with the status that the specification asks for, the negotiated
    features, and a queue of NUM entries that is ready, at the three addresses, each in
    its two registers; otherwise the kernel panics. *)
Theorem virtio_disk_init_handshake v desc avail used :
  0 <= v_offer v < 2 ^ 32 -> 0 <= v_max v -> 0 <= desc < 2 ^ 64 -> 0 <= avail < 2 ^ 64 -> 0 <= used < 2 ^ 64 ->
  match virtio_disk_init desc avail used v with
  | Ret (_, v') =>
      usable v desc avail used /\ v_status v' = 15 /\ v_driver v' = negotiated (v_offer v) /\ v_num v' = NUM /\ v_ready v' = 1 /\
      pair_at v' VIRTIO_MMIO_QUEUE_DESC_LOW VIRTIO_MMIO_QUEUE_DESC_HIGH = desc /\
      pair_at v' VIRTIO_MMIO_DRIVER_DESC_LOW VIRTIO_MMIO_DRIVER_DESC_HIGH = avail /\
      pair_at v' VIRTIO_MMIO_DEVICE_DESC_LOW VIRTIO_MMIO_DEVICE_DESC_HIGH = used
  | Panic _ => ~ usable v desc avail used
  | _ => False
  end.
Proof.
  intros Ho Hmax Hd Ha Hu. unfold virtio_disk_init. rewrite bind_run, is_disk_run. case_bool_decide as Hid; cbn [negb]; [|by intros (? & _)].
  cbv zeta. rewrite wr_reset, !wr_status, rd_offer, wr_driver, wr_status, rd_status by (split; vm_compute; reflexivity).
  dev. rewrite u32_small by (by apply negotiated_range).
  destruct (v_accept v (negotiated (v_offer v))) eqn:Eacc; cycle 1.
  { intros (_ & E & _). by rewrite Eacc in E. }
  change (Z.land (Z.lor (Z.lor (Z.lor 0 VIRTIO_CONFIG_S_ACKNOWLEDGE) VIRTIO_CONFIG_S_DRIVER) VIRTIO_CONFIG_S_FEATURES_OK) VIRTIO_CONFIG_S_FEATURES_OK =? 0) with false.
  cbv iota. rewrite wr_addr, rd_ready by set_solver. dev. cbn [Z.eqb negb]. rewrite rd_max. dev.
  destruct (Z.eqb_spec (v_max v) 0) as [E0|E0]; [unusable|].
  destruct (Z.ltb_spec (v_max v) NUM) as [Hlt|Hge]; [unusable|].
  destruct (Z.eqb_spec desc 0); [unusable|]. destruct (Z.eqb_spec avail 0); [unusable|].
  destruct (Z.eqb_spec used 0); [unusable|]. cbn [orb].
  rewrite wr_num. rewrite !wr_addr by (repeat first [apply list_elem_of_here | apply list_elem_of_further]). rewrite wr_ready, wr_status by (split; vm_compute; reflexivity).
  cbn [mret]. unfold mret, M_ret. cbv iota beta. unfold pair_at. dev.
  rewrite Eacc. split; [done|]. do 4 (split; [done|]).
  split_and!; repeat first [rewrite upd_eq | rewrite upd_ne by (vm_compute; discriminate)]; by apply pair_split.
Qed.
Definition dev_example : vdev :=
  Vdev (fun r => if r =? 0 then 0x74726976 else if r =? 12 then 0x554d4551 else 2) 0x30006ed4 (fun _ => true) 0 0 1024 0 0 (fun _ => 0).
Lemma virtio_disk_init_handshake_witness :
  match virtio_disk_init 0x87f00000 0x87eff000 0x87efe000 dev_example with
  | Ret (_, v') => v_status v' = 15 /\ v_num v' = NUM /\ pair_at v' VIRTIO_MMIO_QUEUE_DESC_LOW VIRTIO_MMIO_QUEUE_DESC_HIGH = 0x87f00000
  | _ => False
  end.
Proof.
  pose proof (virtio_disk_init_handshake dev_example 0x87f00000 0x87eff000 0x87efe000) as Hi.
  destruct (virtio_disk_init 0x87f00000 0x87eff000 0x87efe000 dev_example) as [[u v']|e| |] eqn:E.
  - destruct Hi as (_ & H1 & _ & H2 & _ & H3 & _); [cbn; lia..|]. auto.
  - vm_compute in E. discriminate.
  - vm_compute in E. discriminate.
  - vm_compute in E. discriminate.
Defined.
