(* ===== verification/SysSpec.v ===== *)
(** Every trap keeps the reference counts of the open files of the whole system.

    The count of an open file is the number of descriptors that name it, over all
    entries of the process table, and entries that are unused or zombies have no open
    descriptors.  FdSpec.v has this balance for one process and one call; here it is
    carried through fork, exit, wait, exec and the dispatch of system calls. *)
From S2P Require Import Prelude Riscv Memory Locks Blocks Log UserMem Pipe Uart Console Fs File Sysfile Proc Exec Virtio Trap.
From S2P Require Import FdSpec ProcSpec.

(** * Sums over the process table *)
Fixpoint sumZ (g : Z -> Z) (l : list Z) : Z := match l with [] => 0 | x :: l => g x + sumZ g l end.
Lemma sumZ_ext g g' l : (forall x, x ∈ l -> g' x = g x) -> sumZ g' l = sumZ g l.
Proof. induction l as [|x l IH]; intros E; cbn; [done|]. rewrite E, IH by set_solver. done. Qed.
Lemma sumZ_upd g g' l p : NoDup l -> p ∈ l -> (forall q, q ∈ l -> q <> p -> g' q = g q) ->
  sumZ g' l = sumZ g l - g p + g' p.
Proof.
  induction 1 as [|x l Hx Hn IH]; intros Hp E; [set_solver|]. cbn. destruct (decide (x = p)) as [->|Hne].
  - rewrite (sumZ_ext g g' l); [lia|]. intros q Hq. apply E; [set_solver|]. by intros ->.
  - rewrite IH, (E x) by set_solver. lia.
Qed.
Definition procs : list Z := seqZ 0 NPROC.
(** The descriptors of all processes that name [f]. *)
Definition opens (t : ptab) (f : Z) : Z := sumZ (fun p => fds (p_ofile (t_proc t p)) f) procs.
Definition others (t : ptab) (p f : Z) : Z := opens t f - fds (p_ofile (t_proc t p)) f.
Lemma in_procs p : p ∈ procs <-> inproc p.
Proof. unfold procs. rewrite elem_of_seqZ. lia. Qed.
Lemma opens_mod t p g f : inproc p -> opens (mod_tab p g t) f = others t p f + fds (p_ofile (g (t_proc t p))) f.
Proof.
  intros Hp. unfold others, opens. rewrite (sumZ_upd (fun p => fds (p_ofile (t_proc t p)) f) _ procs p).
  - rewrite mod_tab_eq. lia.
  - apply NoDup_seqZ.
  - by apply in_procs.
  - intros q _ Hq. by rewrite mod_tab_ne.
Qed.

Definition idle (st : procstate) : Prop := st = UNUSED \/ st = ZOMBIE.
Abbreviation busy p t := (~ idle (p_state (t_proc t p))).
Definition no_files (e : proc) : Prop := forall fd, 0 <= fd < NOFILE -> p_ofile e fd = None.
(** [t'] has the descriptors of [t]; what is idle was so before or has no files. *)
Definition calm (t t' : ptab) : Prop := forall q, inproc q ->
  p_ofile (t_proc t' q) = p_ofile (t_proc t q) /\
  (idle (p_state (t_proc t' q)) -> idle (p_state (t_proc t q)) \/ no_files (t_proc t q)).
#[export] Instance calm_pre : PreOrder calm.
Proof.
  split; [intros t q _; auto|]. intros t1 t2 t3 H1 H2 q Hq. destruct (H1 q Hq) as [E1 I1], (H2 q Hq) as [E2 I2].
  split; [congruence|]. intros [Hi|Hn]%I2; [by apply I1|]. right. intros fd Hfd. rewrite <- E1. by apply Hn.
Qed.
Lemma calm_mod p g t :
  p_ofile (g (t_proc t p)) = p_ofile (t_proc t p) ->
  (idle (p_state (g (t_proc t p))) -> idle (p_state (t_proc t p)) \/ no_files (t_proc t p)) -> calm t (mod_tab p g t).
Proof.
  intros E I q Hq. destruct (decide (q = p)) as [->|Hne]; [by rewrite mod_tab_eq|]. rewrite mod_tab_ne by done. auto.
Qed.
Lemma calm_fold (f : Z -> ptab -> ptab) l t : (forall p t, calm t (f p t)) -> calm t (fold_left (fun t p => f p t) l t).
Proof. intros Hf. revert t. induction l as [|p l IH]; intros t; cbn; [done|]. etrans; [apply Hf|apply IH]. Qed.
Lemma calm_wakeup me ch t : calm t (wakeup me ch t).
Proof.
  apply calm_fold. clear t. intros p t. unfold wake_one. case_bool_decide; [done|]. destruct (_ && _); [|done].
  apply calm_mod; [done|]. intros [|]; discriminate.
Qed.
Lemma calm_reparent p t : calm t (reparent p t).
Proof.
  apply calm_fold. clear t. intros q t. case_bool_decide; [|done]. etrans; [|apply calm_wakeup].
  apply calm_mod; [done|]. intros Hi. by left.
Qed.
Lemma calm_files t t' q : calm t t' -> inproc q -> no_files (t_proc t q) -> no_files (t_proc t' q).
Proof. intros Hc Hq Hn fd Hfd. destruct (Hc q Hq) as [-> _]. by apply Hn. Qed.
Lemma calm_zombie p status t t1 : inproc p -> no_files (t_proc t p) -> calm t t1 ->
  calm t (mod_tab p (fun e => set_pstate ZOMBIE (set_pxstate status e)) t1).
Proof.
  intros Hp Hn H1. etrans; [exact H1|]. apply calm_mod; [done|]. intros _. right. by eapply calm_files.
Qed.
Lemma calm_exit p status t : inproc p -> no_files (t_proc t p) -> calm t (exit_tab p status t).
Proof.
  intros Hp Hn. unfold exit_tab. cbv zeta. apply calm_zombie; [exact Hp|exact Hn|].
  transitivity (reparent p t); [apply calm_reparent|apply calm_wakeup].
Qed.
Lemma calm_cpu c p t : calm t (set_cpu c p t).
Proof. intros q _. auto. Qed.
Lemma calm_sched h n i c p t t' : sched h n i c p t = Ret t' -> calm t t'.
Proof. unfold sched. repeat case_match; try discriminate. intros [= <-]. apply calm_cpu. Qed.
Lemma calm_sleep n c p ch t t' : sleep n c p ch t = Ret t' -> calm t t'.
Proof. intros E%calm_sched. etrans; [|exact E]. apply calm_mod; [done|]. intros [|]; discriminate. Qed.
Lemma calm_yield n c p t t' : yield n c p t = Ret t' -> calm t t'.
Proof. intros E%calm_sched. etrans; [|exact E]. apply calm_mod; [done|]. intros [|]; discriminate. Qed.
Lemma calm_kill pid t r t' : kill pid t = (r, t') -> calm t t'.
Proof.
  intros [(_ & -> & _)|(q & _ & _ & _ & _ & _ & E)]%kill_scan_cases; [done|]. intros p Hp. rewrite E.
  destruct (decide (p = q)) as [->|Hne]; [rewrite upd_eq|rewrite upd_ne by done; auto].
  case_bool_decide; cbn; [split; [done|]; intros [|]; discriminate|auto].
Qed.

(** * Partial correctness *)
(** If [m] returns from a state with [P], then with [Q]. *)
Definition part {S A} (P : S -> Prop) (m : M S A) (Q : A -> S -> Prop) : Prop :=
  forall s a s', P s -> m s = Ret (a, s') -> Q a s'.

Lemma part_ret {S A} (P : S -> Prop) (Q : A -> S -> Prop) a : (forall s, P s -> Q a s) -> part P (mret a) Q.
Proof. intros HQ s a' s' HP [= <- <-]. by apply HQ. Qed.
Lemma part_gets {S A} (P : S -> Prop) (f : S -> A) (Q : A -> S -> Prop) : (forall s, P s -> Q (f s) s) -> part P (gets f) Q.
Proof. intros HQ s a' s' HP [= <- <-]. by apply HQ. Qed.
Lemma part_panic {S A} (P : S -> Prop) (Q : A -> S -> Prop) e : part P (panic e) Q.
Proof. intros s a' s' HP [=]. Qed.
Lemma part_bind {S A B} (P : S -> Prop) (R : A -> S -> Prop) (Q : B -> S -> Prop) (m : M S A) (g : A -> M S B) :
  part P m R -> (forall a, part (R a) (g a) Q) -> part P (m ≫= g) Q.
Proof. intros Hm Hg s b s' HP E. apply bind_Ret_inv in E as (a & s1 & E1 & E2). eapply Hg; [|exact E2]. by eapply Hm. Qed.
Lemma part_pure {S A} (F : Prop) (P : S -> Prop) (m : M S A) (Q : A -> S -> Prop) : (F -> part P m Q) -> part (fun s => F /\ P s) m Q.
Proof. intros Hm s a s' [HF HP] E. by apply (Hm HF s). Qed.
Lemma part_pre {S A} (P P' : S -> Prop) (m : M S A) (Q : A -> S -> Prop) : (forall s, P' s -> P s) -> part P m Q -> part P' m Q.
Proof. intros HP Hm s a s' HP' E. eapply Hm; [|exact E]. by apply HP. Qed.
Lemma part_post {S A} (P : S -> Prop) (m : M S A) (Q Q' : A -> S -> Prop) : (forall a s, Q a s -> Q' a s) -> part P m Q -> part P m Q'.
Proof. intros HQ Hm s a s' HP E. apply HQ. by eapply Hm. Qed.

Section system.
Context {C U : Type} {BC : BufCache C} {UM : UserMem U} {PA : PageAlloc U} {AS : AddrSpace U}.
Implicit Types (s : sys C U).

(** * The balance *)
Record sys_ok s : Prop := SysOk {
  so_refs : forall f, 0 <= f < NFILE -> ff_ref (k_file (y_k s) f) = opens (y_t s) f;
  so_range : forall p fd f, inproc p -> 0 <= fd < NOFILE -> p_ofile (t_proc (y_t s) p) fd = Some f -> 0 <= f < NFILE;
  so_idle : forall p, inproc p -> idle (p_state (t_proc (y_t s) p)) -> no_files (t_proc (y_t s) p) }.
(** The balance, and a fact about the table. *)
Definition ok_with (T : ptab -> Prop) s : Prop := sys_ok s /\ T (y_t s).
Lemma calm_ok k t t' : sys_ok (Sys k t) -> calm t t' -> sys_ok (Sys k t').
Proof using Type.
  intros [S1 S2 S3] Hc. split; cbn in *.
  - intros f Hf. rewrite S1 by done. symmetry. apply sumZ_ext. intros p Hp%in_procs. by destruct (Hc p Hp) as [-> _].
  - intros p fd f Hp Hfd. destruct (Hc p Hp) as [-> _]. by apply S2.
  - intros p Hp Hi. destruct (Hc p Hp) as [_ Hi']. eapply calm_files; [exact Hc|done|]. destruct (Hi' Hi) as [Hi0|]; [|done]. by apply S3.
Qed.
Lemma part_yk {A} T (m : M (kst C U) A) : keeps_refs m -> part (ok_with T) (yk m) (fun _ => ok_with T).
Proof using Type.
  intros Hm s a s' [[S1 S2 S3] HT] E. unfold yk in E. destruct (m (y_k s)) as [[x k]| | |] eqn:Ek; try discriminate.
  injection E as <- <-. split; [|done]. split; cbn; [|done|done]. intros f Hf. rewrite (Hm _ _ _ Ek). by apply S1.
Qed.
Lemma part_yuser {A} T (m : M U A) : part (ok_with T) (yuser m) (fun _ => ok_with T).
Proof using Type. apply part_yk, refs_on_fs. Qed.
Lemma part_ytab T T' g : (forall t, T t -> calm t (g t) /\ T' (g t)) -> part (ok_with T) (ytab g) (fun _ => ok_with T').
Proof using Type.
  intros Hg [k t] a s' [S HT] [= <- <-]. destruct (Hg t HT) as [Hc HT']. split; [|done]. by eapply calm_ok.
Qed.
Lemma part_ysched T T' g : (forall t t', T t -> g t = Ret t' -> calm t t' /\ T' t') -> part (ok_with T) (ysched g) (fun _ => ok_with T').
Proof using Type.
  intros Hg [k t] a s' [S HT] E. unfold ysched in E. cbn in E. destruct (g t) as [t'| | |] eqn:Et; try discriminate.
  injection E as <- <-. destruct (Hg t t' HT Et) as [Hc HT']. split; [|done]. by eapply calm_ok.
Qed.
Lemma part_get T p : part (ok_with T) (get_proc (C := C) (U := U) p) (fun e => ok_with (fun t => T t /\ e = t_proc t p)).
Proof using Type. apply part_gets. intros s [S HT]. by split. Qed.
(** A change of entry [p] that leaves its descriptors. *)
Lemma part_mod T T' p g :
  (forall t, T t -> p_ofile (g (t_proc t p)) = p_ofile (t_proc t p) /\
     (idle (p_state (g (t_proc t p))) -> idle (p_state (t_proc t p)) \/ no_files (t_proc t p)) /\ T' (mod_tab p g t)) ->
  part (ok_with T) (mod_proc (C := C) (U := U) p g) (fun _ => ok_with T').
Proof using Type. intros Hg. apply part_ytab. intros t HT. destruct (Hg t HT) as (E & I & HT'). split; [by apply calm_mod|done]. Qed.

(** * proc.c *)
Lemma ok_weaken T s : ok_with T s -> sys_ok s.
Proof using Type. by intros [S _]. Qed.
Lemma part_if {A} (b : bool) P (m m' : M (sys C U) A) Q : part P m Q -> part P m' Q -> part P (if b then m else m') Q.
Proof using Type. by destruct b. Qed.
Lemma part_skip T (a : unit) : part (ok_with T) (mret (M := M (sys C U)) a) (fun _ => ok_with T).
Proof using Type. apply part_ret. auto. Qed.

Lemma freeproc_ok p : part (ok_with (fun t => no_files (t_proc t p))) (freeproc p) (fun _ => sys_ok).
Proof using Type.
  unfold freeproc. eapply part_bind; [apply part_get|intros e].
  eapply (part_pre (ok_with (fun t => no_files (t_proc t p)))); [intros s [S [HT _]]; by split|].
  eapply part_bind; [apply part_if; [apply part_yuser|apply part_skip]|intros []].
  eapply part_bind.
  { apply (part_mod _ (fun t => no_files (t_proc t p))). intros t HT. split_and!; [done|by left|]. rewrite mod_tab_eq. exact HT. }
  intros []. eapply part_bind; [apply part_if; [apply part_yuser|apply part_skip]|intros []].
  eapply part_post; [intros ? s; apply ok_weaken|]. apply (part_mod _ (fun _ => True)). intros t HT. auto.
Qed.

(** What [fork] knows of the entry it has got. *)
Definition fresh (p np : Z) (t : ptab) : Prop := inproc np /\ np <> p /\ busy np t /\ no_files (t_proc t np).
Lemma fresh_mod p np g t : fresh p np t -> p_ofile (g (t_proc t np)) = p_ofile (t_proc t np) ->
  (idle (p_state (g (t_proc t np))) -> idle (p_state (t_proc t np))) -> fresh p np (mod_tab np g t).
Proof using Type.
  intros (H1 & H2 & H3 & H4) E I. split_and!; [lia..|done| |]; rewrite mod_tab_eq; [naive_solver|].
  intros fd Hfd. rewrite E. by apply H4.
Qed.
Lemma part_fresh p np g :
  (forall e, p_ofile (g e) = p_ofile e /\ (idle (p_state (g e)) -> idle (p_state e))) ->
  part (ok_with (fresh p np)) (mod_proc (C := C) (U := U) np g) (fun _ => ok_with (fresh p np)).
Proof using Type.
  intros Hg. apply part_mod. intros t HT. destruct (Hg (t_proc t np)) as [E I]. split_and!; [done|auto|by apply fresh_mod].
Qed.
Lemma alloc_calm t np t' : alloc_slot t = Some (np, t') -> calm t t'.
Proof using Type.
  intros (_ & Eu & _ & Ep & _)%alloc_slot_some q Hq. rewrite Ep.
  destruct (decide (q = np)) as [->|]; [rewrite upd_eq|rewrite upd_ne by done; auto]. cbn. split; [done|]. intros [|]; discriminate.
Qed.
Lemma alloc_fresh p t np t' : busy p t -> (inproc np -> no_files (t_proc t np)) -> alloc_slot t = Some (np, t') -> fresh p np t'.
Proof using Type.
  intros Hp Hn (Hi & Eu & _ & Ep & _)%alloc_slot_some. split_and!; [lia|lia| | |].
  - intros ->. apply Hp. by left.
  - rewrite Ep, upd_eq. intros [|]; discriminate.
  - rewrite Ep, upd_eq. intros fd Hfd. by apply Hn.
Qed.
Lemma allocproc_ok p : part (ok_with (fun t => busy p t)) allocproc
  (fun r s => match r with Some np => ok_with (fresh p np) s | None => sys_ok s end).
Proof using Type.
  intros [k t] r s' [S Hp] E. unfold allocproc in E. rewrite bind_run in E. cbn [gets y_t] in E.
  destruct (alloc_slot t) as [[np t']|] eqn:Ea; [|by injection E as <- <-].
  apply bind_Ret_inv in E as ([] & s1 & [= <-] & E). cbn [y_k] in E.
  assert (ok_with (fresh p np) (Sys k t')) as H1.
  { split; [eapply calm_ok; [exact S|by eapply alloc_calm]|]. eapply alloc_fresh; [exact Hp| |exact Ea].
    intros Hi. apply (so_idle _ S); [done|]. left. by apply alloc_slot_some in Ea as (_ & Eu & _). }
  assert (forall s, ok_with (fresh p np) s -> ok_with (fun t => no_files (t_proc t np)) s) as Hw.
  { intros s [S0 (_ & _ & _ & Hn)]. by split. }
  revert H1 E. generalize (Sys k t') as s0. intros s0 H1 E. revert E. revert s0 r s' H1.
  change (part (ok_with (fresh p np)) (tf ← yuser page_alloc; _ ← mod_proc np (set_ptrapframe tf);
      if tf =? 0 then _ ← freeproc np; mret None
      else pt ← yuser (as_pagetable tf); _ ← mod_proc np (set_ppagetable pt);
           if pt =? 0 then _ ← freeproc np; mret None else mret (Some np))
    (fun r s => match r with Some np => ok_with (fresh p np) s | None => sys_ok s end)).
  eapply part_bind; [apply part_yuser|intros tf]. eapply part_bind; [apply part_fresh; auto|intros []].
  apply part_if.
  { eapply part_bind; [eapply part_pre, freeproc_ok; exact Hw|]. intros ?. by apply part_ret. }
  eapply part_bind; [apply part_yuser|intros pt]. eapply part_bind; [apply part_fresh; auto|intros []].
  apply part_if; [|by apply part_ret].
  eapply part_bind; [eapply part_pre, freeproc_ok; exact Hw|]. intros ?. by apply part_ret.
Qed.

(** One descriptor of entry [q] changes, and the count of its file with it. *)
Lemma sys_ok_fd k t k' q fd v :
  sys_ok (Sys k t) -> inproc q -> 0 <= fd < NOFILE -> busy q t ->
  (forall f, v = Some f -> 0 <= f < NFILE) ->
  (forall f, 0 <= f < NFILE -> ff_ref (k_file k' f) = ff_ref (k_file k f)
     - (if bool_decide (p_ofile (t_proc t q) fd = Some f) then 1 else 0) + (if bool_decide (v = Some f) then 1 else 0)) ->
  sys_ok (Sys k' (mod_tab q (fun e => set_pofile (upd (p_ofile e) fd v) e) t)).
Proof using Type.
  intros [S1 S2 S3] Hq Hfd Hb Hv Hr. cbn in S1, S2, S3. split; cbn [y_k y_t].
  - intros f Hf. rewrite opens_mod by done. cbn. rewrite fds_upd, Hr, S1 by done. unfold others. lia.
  - intros p fd' f Hp Hfd' E. destruct (decide (p = q)) as [->|Hne].
    + rewrite mod_tab_eq in E. cbn in E. unfold upd in E. destruct (Z.eqb_spec fd' fd); [by apply Hv|]. by apply (S2 q fd').
    + rewrite mod_tab_ne in E by done. by apply (S2 p fd').
  - intros p Hp Hi. destruct (decide (p = q)) as [->|Hne]; [by rewrite mod_tab_eq in Hi|].
    rewrite mod_tab_ne in Hi |- * by done. by apply S3.
Qed.
Lemma part_for {A} (l : list Z) (n : nat) (P : Z -> A -> Prop) (m : Z -> M A unit) :
  (forall i, 0 <= i < Z.of_nat n -> part (P i) (m i) (fun _ => P (i + 1))) ->
  l = seqZ 0 (Z.of_nat n) -> part (P 0) (for_each l m) (fun _ => P (Z.of_nat n)).
Proof using Type.
  intros Hm ->. enough (forall k j, (j + k = n)%nat -> part (P (Z.of_nat j)) (for_each (seqZ (Z.of_nat j) (Z.of_nat k)) m) (fun _ => P (Z.of_nat n))) as HF.
  { apply (HF n O). lia. }
  induction k as [|k IH]; intros j Hj.
  - rewrite seqZ_nil by lia. cbn. apply part_ret. intros s. by replace j with n by lia.
  - rewrite seqZ_cons by lia. cbn [for_each]. eapply part_bind; [apply Hm; lia|intros []].
    replace (Z.of_nat j + 1) with (Z.of_nat (S j)) by lia.
    replace (Z.succ (Z.of_nat j)) with (Z.of_nat (S j)) by lia.
    replace (Z.pred (Z.of_nat (S k))) with (Z.of_nat k) by lia. apply IH. lia.
Qed.

(** The child gets the descriptors from [i] on. *)
Definition copying (p np i : Z) (t : ptab) : Prop :=
  inproc p /\ inproc np /\ np <> p /\ busy np t /\ forall fd, i <= fd < NOFILE -> p_ofile (t_proc t np) fd = None.
Lemma dup_files_ok p np :
  part (ok_with (copying p np 0)) (dup_files p np) (fun _ => ok_with (copying p np NOFILE)).
Proof using Type.
  unfold dup_files. apply (part_for _ (Z.to_nat NOFILE) (fun i => ok_with (copying p np i))); [|done].
  intros i Hi [k t] a s' [S (Hp & Hnp & Hne & Hb & Hn)] E. cbn [y_t] in *.
  rewrite bind_run in E. cbn [get_proc gets y_t] in E. change (Z.of_nat (Z.to_nat NOFILE)) with NOFILE in Hi.
  assert (forall t', p_state (t_proc t' np) = p_state (t_proc t np) ->
    (forall fd, i + 1 <= fd < NOFILE -> p_ofile (t_proc t' np) fd = None) -> copying p np (i + 1) t') as Hcp.
  { intros t' Es Hn'. split_and!; [lia..|done|by rewrite Es|done]. }
  destruct (p_ofile (t_proc t p) i) as [f|] eqn:Ef.
  - apply bind_Ret_inv in E as (f' & s1 & E1 & E). unfold yk in E1. cbn [y_k] in E1.
    destruct (filedup f k) as [[x k']| | |] eqn:Ed; try discriminate. injection E1 as <- <-. injection E as <- <-.
    assert (x = f) as ->. { unfold filedup in Ed. rewrite bind_run in Ed. cbn [get_file gets] in Ed. destruct (_ <? 1); [discriminate|]. by injection Ed as <- _. }
    pose proof (so_range _ S p i f Hp ltac:(lia) Ef) as Hf. split.
    + apply (sys_ok_fd k); [done|done|lia|done|by intros g [= <-]|]. intros g Hg. rewrite (filedup_counts _ _ _ _ Ed).
      rewrite Hn, bool_decide_eq_false_2 by (done || lia).
      destruct (Z.eqb_spec g f) as [->|]; [rewrite bool_decide_eq_true_2 by done|rewrite bool_decide_eq_false_2 by congruence]; lia.
    + apply Hcp; cbn [y_t]; rewrite mod_tab_eq; [done|]. intros fd Hfd. cbn. rewrite upd_ne by lia. apply Hn. lia.
  - injection E as <- <-. split; [done|]. apply Hcp; [done|]. intros fd Hfd. apply Hn. lia.
Qed.

Context (de : Z).
(** The facts a caller of [fork] keeps while the child is built. *)
Lemma fork_ok p : inproc p -> part (ok_with (fun t => busy p t)) (fork p) (fun _ => sys_ok).
Proof using Type.
  intros Hp. unfold fork. eapply part_bind; [apply allocproc_ok|]. intros [np|]; [|by apply part_ret].
  assert (forall s, ok_with (fresh p np) s -> ok_with (fun t => no_files (t_proc t np)) s) as Hw.
  { intros s [S0 (_ & _ & _ & Hn)]. by split. }
  assert (forall T q (B : Type) (m : proc -> M (sys C U) B) Q, (forall e, part (ok_with T) (m e) Q) ->
    part (ok_with T) (e ← get_proc q; m e) Q) as Hget.
  { intros T q B m Q Hm. eapply part_bind; [apply part_get|]. intros e. eapply part_pre, Hm. intros s [S [HT _]]. by split. }
  apply Hget. intros e. apply Hget. intros ne. eapply part_bind; [apply part_yuser|intros r]. apply part_if.
  { eapply part_bind; [eapply part_pre, freeproc_ok; exact Hw|]. intros ?. by apply part_ret. }
  eapply part_bind; [apply part_fresh; auto|intros []].
  eapply part_bind; [apply part_yuser|intros ?]. eapply part_bind; [apply part_yuser|intros ?].
  eapply part_bind.
  { eapply part_pre, dup_files_ok. intros s [S (H1 & H2 & H3 & H4)]. split; [done|]. split_and!; [lia..|done|done|]. intros fd Hfd. by apply H4. }
  intros []. destruct (p_cwd e) as [cwd|]; [|apply part_panic].
  assert (forall T g, (forall e, p_ofile (g e) = p_ofile e /\ (idle (p_state (g e)) -> idle (p_state e))) ->
    part (ok_with T) (mod_proc (C := C) (U := U) np g) (fun _ => ok_with (fun _ => True))) as Hmod.
  { intros T g Hg. apply part_mod. intros t _. destruct (Hg (t_proc t np)) as [E I]. auto. }
  eapply part_bind; [apply part_yk, refs_on_fs|intros ?]. eapply part_bind; [apply Hmod; auto|intros ?].
  eapply part_bind; [apply Hmod; auto|intros ?]. eapply part_bind; [apply Hmod; auto|intros ?].
  eapply part_bind; [apply Hmod; intros; split; [done|intros [|]; discriminate]|intros ?].
  apply part_ret. intros s. apply ok_weaken.
Qed.

(** [exit] closes the descriptors below [i]. *)
Definition closing (p i : Z) (t : ptab) : Prop := inproc p /\ forall fd, 0 <= fd < i -> p_ofile (t_proc t p) fd = None.
Lemma close_files_ok p : part (ok_with (closing p 0)) (close_files p) (fun _ => ok_with (closing p NOFILE)).
Proof using Type.
  unfold close_files. apply (part_for _ (Z.to_nat NOFILE) (fun i => ok_with (closing p i))); [|done].
  intros i Hi [k t] a s' [S (Hp & Hn)] E. cbn [y_t] in *.
  rewrite bind_run in E. cbn [get_proc gets y_t] in E. change (Z.of_nat (Z.to_nat NOFILE)) with NOFILE in Hi.
  destruct (p_ofile (t_proc t p) i) as [f|] eqn:Ef.
  - assert (busy p t) as Hb. { intros Hi0. pose proof (so_idle _ S p Hp Hi0 i Hi) as E0. cbn in E0. congruence. }
    apply bind_Ret_inv in E as (x & s1 & E1 & E). unfold yk in E1. cbn [y_k] in E1.
    destruct (fileclose (p_pid (t_proc t p)) f k) as [[y k']| | |] eqn:Ed; try discriminate. injection E1 as <- <-. injection E as <- <-.
    split.
    + apply (sys_ok_fd k); [done|done|lia|done|done|]. intros g Hg. rewrite (fileclose_counts _ _ _ _ _ Ed), Ef.
      destruct (Z.eqb_spec g f) as [->|]; [rewrite bool_decide_eq_true_2 by done|rewrite bool_decide_eq_false_2 by congruence];
        rewrite bool_decide_eq_false_2 by done; lia.
    + split; [done|]. cbn [y_t]. rewrite mod_tab_eq. intros fd Hfd. cbn. unfold upd. case_bool; [done|]. apply Hn. lia.
  - injection E as <- <-. split; [done|]. split; [done|]. intros fd Hfd.
    destruct (decide (fd = i)) as [->|]; [done|]. apply Hn. lia.
Qed.
Lemma exit_ok c p status : inproc p -> part sys_ok (exit c p status) (fun _ => sys_ok).
Proof using Type.
  intros Hp. unfold exit. eapply part_bind; [apply (part_gets _ _ (fun _ => sys_ok)); auto|intros t].
  apply part_if; [apply part_panic|]. eapply part_bind.
  { eapply part_pre, close_files_ok. intros s S. split; [done|]. split; [done|lia]. }
  intros []. eapply (part_pre (ok_with (fun t => no_files (t_proc t p)))).
  { intros s [S (_ & Hn)]. split; [done|]. intros fd Hfd. by apply Hn. }
  eapply part_bind; [apply part_yk; unfold kbegin_op; keeps_tac|intros ?].
  eapply part_bind; [apply part_get|intros e]. eapply (part_pre (ok_with (fun t => no_files (t_proc t p)))); [intros s [S [HT _]]; by split|].
  destruct (p_cwd e) as [cwd|]; [|apply part_panic].
  eapply part_bind; [apply part_yk, refs_on_fs|intros ?].
  eapply part_bind; [apply part_yk; unfold kend_op; keeps_tac|intros ?].
  eapply part_bind.
  { apply (part_mod _ (fun t => no_files (t_proc t p))). intros t1 HT. split_and!; [done|by left|]. rewrite mod_tab_eq. exact HT. }
  intros ?. eapply part_bind.
  { apply (part_ytab _ (fun _ => True)). intros t1 HT. split; [by apply calm_exit|done]. }
  intros ?. eapply part_post; [intros ? s; apply ok_weaken|]. apply (part_ysched _ (fun _ => True)).
  intros t1 t2 _ E. split; [by eapply calm_sched|done].
Qed.

Lemma wait_ok c p addr : part sys_ok (wait c p addr) (fun _ => sys_ok).
Proof using Type.
  unfold wait. eapply part_bind; [apply (part_gets _ _ (fun t s => sys_ok s /\ y_t s = t)); auto|intros t].
  destruct (wait_find p t) as [pp|hk] eqn:Ew.
  - apply wait_find_inl in Ew as (Hpp & _ & Ez).
    eapply (part_pre (ok_with (fun t => no_files (t_proc t pp)))).
    { intros s [S <-]. split; [done|]. apply (so_idle _ S); [done|]. by right. }
    eapply part_bind; [apply part_get|intros e]. eapply part_bind; [apply part_get|intros pe].
    eapply (part_pre (ok_with (fun t => no_files (t_proc t pp)))); [intros s [S [[HT _] _]]; by split|].
    eapply part_bind; [apply part_if; [apply part_yk, refs_on_fs|apply part_ret; auto]|intros ok].
    apply part_if; [|apply part_ret; intros s; apply ok_weaken].
    eapply part_bind; [apply freeproc_ok|]. intros ?. by apply part_ret.
  - clear Ew. eapply (part_pre (ok_with (fun _ => True))); [intros s [S _]; by split|].
    apply part_if; [apply part_ret; intros s; apply ok_weaken|]. eapply part_bind.
    { apply (part_ysched _ (fun _ => True)). intros t1 t2 _ E. split; [by eapply calm_sleep|done]. }
    intros ?. apply part_ret. intros s. apply ok_weaken.
Qed.
Lemma growproc_ok p n : part sys_ok (growproc p n) (fun _ => sys_ok).
Proof using Type.
  assert (forall s, sys_ok s -> ok_with (fun _ => True) s) as Hin by (by split).
  eapply (part_pre (ok_with (fun _ => True))); [exact Hin|]. unfold growproc.
  eapply part_bind; [apply part_get|intros e]. eapply (part_pre (ok_with (fun _ => True))); [intros s [S _]; by split|].
  assert (forall sz, part (ok_with (fun _ => True)) (_ ← mod_proc (C := C) (U := U) p (set_psz sz); mret 0) (fun _ => sys_ok)) as Hset.
  { intros sz. eapply part_bind; [apply (part_mod _ (fun _ => True)); auto|]. intros ?. apply part_ret. intros s. apply ok_weaken. }
  apply part_if; [|apply part_if; [|apply Hset]]; (eapply part_bind; [apply part_yuser|intros sz]); [|apply Hset].
  apply part_if; [|apply Hset]. apply part_ret. intros s. apply ok_weaken.
Qed.

(** A call of the process [p] that keeps the balance of its descriptors. *)
Lemma on_proc_ok {A} p (m : M (sst C U) A) : inproc p -> keeps m ->
  part (ok_with (fun t => busy p t)) (on_proc p m) (fun _ => sys_ok).
Proof using Type.
  intros Hp Hm [k t] a s' [[S1 S2 S3] Hb] E. cbn [y_k y_t] in *. unfold on_proc in E. cbn [y_k y_t] in E.
  destruct (p_cwd (t_proc t p)) as [cwd|]; [|discriminate].
  destruct (m (Sst k (p_ofile (t_proc t p)) cwd)) as [[x s1]| | |] eqn:Em; try discriminate. injection E as <- <-.
  assert (fd_inv (others t p) (Sst k (p_ofile (t_proc t p)) cwd)) as I0.
  { split; [|by intros; eapply S2]. intros f Hf. unfold refs. cbn. rewrite S1 by done. unfold others. lia. }
  destruct (Hm _ _ _ _ I0 Em) as [J1 J2]. split; cbn [y_k y_t].
  - intros f Hf. rewrite opens_mod by done. by apply J1.
  - intros q fd f Hq Hfd. destruct (decide (q = p)) as [->|Hne].
    + rewrite mod_tab_eq. by apply J2.
    + rewrite mod_tab_ne by done. by apply S2.
  - intros q Hq Hi. destruct (decide (q = p)) as [->|Hne]; [by rewrite mod_tab_eq in Hi|].
    rewrite mod_tab_ne in Hi |- * by done. by apply S3.
Qed.
End system.

(** * exec *)
Section exec.
Context {C U : Type} {BC : BufCache C} {UM : UserMem U} {PA : PageAlloc U} {AS : AddrSpace U}.
Context (pid pt sz tf de elf ph : Z).
Lemma keeps_suser {A} (m : M U A) : keeps (C := C) (suser m).
Proof using Type. apply keeps_sfs. Qed.
Lemma keeps_field a n : keeps (C := C) (U := U) (field a n).
Proof using Type. unfold field. keeps_tac. Qed.
Lemma keeps_read_kernel q ip dst off n : keeps (C := C) (U := U) (read_kernel q ip dst off n).
Proof using Type. unfold read_kernel. apply keeps_bind; [apply keeps_sfs|]. intros. keeps_tac. Qed.
#[local] Hint Resolve keeps_suser keeps_field keeps_read_kernel keeps_sfs keeps_begin keeps_end keeps_argstr : refs.
Lemma keeps_nofuel {A} : keeps (C := C) (U := U) (nofuel (A := A)).
Proof using Type. intros o s a s' _ [=]. Qed.
#[local] Hint Resolve keeps_nofuel : refs.

Lemma keeps_loadseg pagetable va ip offset n : keeps (C := C) (U := U) (loadseg pt pagetable va ip offset n).
Proof using Type.
  unfold loadseg. generalize 0 as i. induction (Z.to_nat (n / PGSIZE + 1)) as [|r IH]; intros i; cbn [loadseg_loop]; [keeps_tac|].
  destruct (i <? n); [|keeps_tac]. apply keeps_bind; [apply keeps_suser|]. intros pa. destruct (pa =? 0); [keeps_tac|].
  apply keeps_bind; [apply keeps_read_kernel|]. intros ok. destruct ok; [apply IH|keeps_tac].
Qed.
#[local] Hint Resolve keeps_loadseg : refs.
Lemma keeps_load_segments k : forall pagetable ip off sz0, keeps (C := C) (U := U) (load_segments pt ph k pagetable ip off sz0).
Proof using Type.
  induction k as [|k IH]; intros pagetable ip off sz0; cbn [load_segments]; keeps_tac; apply IH.
Qed.
Lemma keeps_push_strings pagetable base argv : forall sp us, keeps (C := C) (U := U) (push_strings pagetable base sp argv us).
Proof using Type. induction argv as [|a argv IH]; intros sp us; cbn [push_strings]; keeps_tac; apply IH. Qed.
#[local] Hint Resolve keeps_load_segments keeps_push_strings : refs.
Lemma keeps_bad pagetable sz0 ip : keeps (C := C) (U := U) (bad pid pagetable sz0 ip).
Proof using Type. unfold bad. keeps_tac. Qed.
#[local] Hint Resolve keeps_bad : refs.
Lemma keeps_exec path argv : keeps (C := C) (U := U) (exec pid pt sz tf de elf ph path argv).
Proof using Type. unfold exec, exec_commit, push_args. keeps_tac. Qed.

Lemma keeps_fetch_argv k : forall i uargv pages argv, keeps (C := C) (U := U) (fetch_argv pt sz k i uargv pages argv).
Proof using Type.
  induction k as [|k IH]; intros i uargv pages argv; cbn [fetch_argv]; unfold fetchaddr, fetchstr; keeps_tac; apply IH.
Qed.
Lemma keeps_sys_exec {R} args (err : R) (run : list Z -> list (list Z) -> M (sst C U) R) :
  (forall path argv, keeps (run path argv)) -> keeps (sys_exec pt args sz err run).
Proof using Type.
  intros Hr. unfold sys_exec, free_pages. pose proof keeps_fetch_argv. keeps_tac.
Qed.
End exec.

(** * Traps *)
Section traps.
Context {C U X : Type} {BC : BufCache C} {UM : UserMem U} {PA : PageAlloc U} {AS : AddrSpace U} {DX : Devices X}.
Context (de elf ph : Z) (devsw : Z -> devops (kst C U)) (pad : list Z) (ksatp utrap : Z).
Context (Hdev : devices_keep devsw).
Implicit Types (w : world C U X).

Definition wok w : Prop := sys_ok (w_sys w).
Definition wrun (p : Z) w : Prop := ok_with (fun t => busy p t) (w_sys w).
Lemma wrun_wok p w : wrun p w -> wok w.
Proof using Type. by intros [S _]. Qed.
Lemma part_wy {A} P (m : M (sys C U) A) Q : part P m Q -> part (fun w : world C U X => P (w_sys w)) (wy m) (fun a w => Q a (w_sys w)).
Proof using Type.
  intros Hm w a w' HP E. unfold wy in E. destruct (m (w_sys w)) as [[x s]| | |] eqn:Em; try discriminate.
  injection E as <- <-. by eapply Hm.
Qed.
Lemma part_wif {A} (b : bool) (P : world C U X -> Prop) (m m' : M (world C U X) A) Q : part P m Q -> part P m' Q -> part P (if b then m else m') Q.
Proof using Type. by destruct b. Qed.
(** What neither the table nor the files see. *)
Lemma part_wuser {A} T (m : M U A) : part (fun w => ok_with T (w_sys w)) (wuser m) (fun _ w => ok_with T (w_sys w)).
Proof using Type. apply (part_wy (ok_with T) _ (fun _ => ok_with T)), part_yuser. Qed.
Lemma part_wproc T p : part (fun w => ok_with T (w_sys w)) (wproc p) (fun _ w => ok_with T (w_sys w)).
Proof using Type. apply (part_wy (ok_with T) _ (fun _ => ok_with T)). eapply part_post, part_get. intros e s [S [HT _]]. by split. Qed.
Lemma part_wkilled (P : world C U X -> Prop) p : part P (wkilled p) (fun _ => P).
Proof using Type. apply part_gets. auto. Qed.
Lemma part_put T p off v : part (fun w => ok_with T (w_sys w)) (put_reg p off v) (fun _ w => ok_with T (w_sys w)).
Proof using Type. eapply part_bind; [apply part_wproc|]. intros. apply part_wuser. Qed.
Lemma part_get_reg T p off : part (fun w => ok_with T (w_sys w)) (get_reg p off) (fun _ w => ok_with T (w_sys w)).
Proof using Type. eapply part_bind; [apply part_wproc|]. intros. apply part_wuser. Qed.
Lemma wok_true w : wok w -> ok_with (fun _ => True) (w_sys w).
Proof using Type. by split. Qed.
(** From the whole system's balance to itself. *)
Definition wkeeps {A} (m : M (world C U X) A) : Prop := part wok m (fun _ => wok).
Lemma wkeeps_user {A} (m : M U A) : wkeeps (wuser m).
Proof using Type. eapply (part_pre _ _ _ _ wok_true), part_post, part_wuser. intros ? ? [S _]. exact S. Qed.
Lemma wkeeps_proc p : wkeeps (wproc p).
Proof using Type. eapply (part_pre _ _ _ _ wok_true), part_post, part_wproc. intros ? ? [S _]. exact S. Qed.
Lemma wkeeps_put p off v : wkeeps (put_reg p off v).
Proof using Type. eapply part_bind; [apply wkeeps_proc|]. intros. apply wkeeps_user. Qed.
Lemma wkeeps_get p off : wkeeps (get_reg p off).
Proof using Type. eapply part_bind; [apply wkeeps_proc|]. intros. apply wkeeps_user. Qed.
Lemma wkeeps_tab g : (forall t, calm t (g t)) -> wkeeps (wy (ytab g)).
Proof using Type.
  intros Hg. eapply (part_pre _ _ _ _ wok_true), part_post.
  2: apply (part_wy (ok_with (fun _ => True)) _ (fun _ => ok_with (fun _ => True))), part_ytab; auto. intros ? ? [S _]. exact S.
Qed.
Lemma wkeeps_sched g : (forall t t', g t = Ret t' -> calm t t') -> wkeeps (wy (ysched g)).
Proof using Type.
  intros Hg. eapply (part_pre _ _ _ _ wok_true), part_post.
  2: apply (part_wy (ok_with (fun _ => True)) _ (fun _ => ok_with (fun _ => True))), part_ysched; intros t t' _ E; split; [by apply Hg|done]. intros ? ? [S _]. exact S.
Qed.

Lemma exec_ok p args : inproc p -> part (wrun p) (do_exec de elf ph p args) (fun _ => wok).
Proof using Type.
  intros Hp. unfold do_exec. eapply part_bind; [apply (part_wproc (fun t => busy p t))|intros e].
  eapply part_bind.
  { apply (part_wy _ _ (fun _ => sys_ok)), on_proc_ok; [done|]. apply keeps_sys_exec. intros. apply keeps_exec. }
  intros r.
  apply (part_bind _ (fun _ => wok)); [|intros ?; by apply part_ret]. destruct (r.2) as [im|]; [|by apply part_ret].
  apply (wkeeps_tab (mod_tab p _)). intros t. apply calm_mod; [done|]. by left.
Qed.
Lemma swapstat_ok p rd wr : wkeeps (sys_swapstat p rd wr).
Proof using Type.
  assert (forall pt dst l, wkeeps (ycopyout pt dst l)) as Hc.
  { intros pt dst l. eapply (part_pre _ _ _ _ wok_true), part_post. 2: apply (part_wy (ok_with (fun _ => True)) _ (fun _ => ok_with (fun _ => True))), part_yk, refs_on_fs. intros ? ? [S _]. exact S. }
  unfold sys_swapstat. eapply part_bind; [apply wkeeps_proc|intros e]. eapply part_bind; [apply wkeeps_user|intros n].
  eapply part_bind; [apply Hc|intros ok]. apply part_wif; [by apply part_ret|].
  eapply part_bind; [apply wkeeps_user|intros n2]. eapply part_bind; [apply Hc|intros ok2]. by apply part_ret.
Qed.
Lemma sys_sleep_ok c p n : wkeeps (sys_sleep c p n).
Proof using Type.
  unfold sys_sleep, sleep_round. eapply part_bind; [apply (part_gets _ _ (fun _ => wok)); auto|intros t0]. eapply part_bind; [apply (part_gets _ _ (fun _ => wok)); auto|intros t1].
  apply part_wif; [|by apply part_ret]. eapply part_bind; [apply part_wkilled|intros k]. apply part_wif; [by apply part_ret|].
  eapply part_bind; [apply wkeeps_sched; intros t t'; apply calm_sleep|]. intros ?. by apply part_ret.
Qed.
Lemma kill_ok pid : wkeeps (sys_kill pid).
Proof using Type.
  intros [[k t] n x] a w' S E. unfold sys_kill in E. cbn [w_sys y_t] in E. destruct (kill pid t) as [r t'] eqn:Ek.
  injection E as <- <-. eapply calm_ok; [exact S|]. by eapply calm_kill.
Qed.

Lemma clockintr_ok c p : part (wrun p) (clockintr c) (fun _ => wrun p).
Proof using Type.
  unfold clockintr. apply part_wif; [|by apply part_ret]. intros [[k t] n x] a w' [S Hb] [= <- <-].
  split; [eapply calm_ok; [exact S|apply calm_wakeup]|]. cbn [w_sys y_t] in *. rewrite wakeup_at. case_bool_decide; [|done].
  unfold wake_e. repeat (case_match; try done). cbn. intros [|]; discriminate.
Qed.
Lemma devintr_ok c p scause irq : part (wrun p) (devintr c scause irq) (fun _ => wrun p).
Proof using Type.
  assert (forall m, part (wrun p) (wdev m) (fun _ => wrun p)) as Hd.
  { intros m w a w' HP E. unfold wdev in E. destruct (m (w_dev w)) as [[y x]| | |]; try discriminate. by injection E as <- <-. }
  unfold devintr. apply part_wif.
  - eapply part_bind; [apply part_wif; [apply Hd|apply part_wif; [apply Hd|by apply part_ret]]|]. intros ?. by apply part_ret.
  - apply part_wif; [|by apply part_ret]. eapply part_bind; [apply clockintr_ok|]. intros ?. by apply part_ret.
Qed.
Lemma exit_killed_ok c p : inproc p -> wkeeps (exit_killed c p).
Proof using Type.
  intros Hp. unfold exit_killed. eapply part_bind; [apply (part_wy _ _ (fun _ => sys_ok)), exit_ok, Hp|]. intros ?. by apply part_ret.
Qed.
Lemma usertrapret_ok c p : wkeeps (usertrapret ksatp utrap c p).
Proof using Type.
  unfold usertrapret. eapply part_bind; [apply wkeeps_proc|intros e]. do 4 (eapply part_bind; [apply wkeeps_put|intros ?]).
  eapply part_bind; [apply wkeeps_get|intros ?]. by apply part_ret.
Qed.
Lemma trap_end_ok c p d : inproc p -> wkeeps (trap_end ksatp utrap c p d).
Proof using Type.
  intros Hp. unfold trap_end. eapply part_bind; [apply part_wkilled|intros k]. apply part_wif; [by apply exit_killed_ok|].
  apply part_wif; [|apply usertrapret_ok]. eapply part_bind; [apply wkeeps_sched; intros t t'; apply calm_yield|].
  intros ?. by apply part_ret.
Qed.

(** Every system call. *)
Lemma part_value {A B} P (m : M (world C U X) A) (g : A -> B) : part P m (fun _ => wok) -> part P (r ← m; mret (g r)) (fun _ => wok).
Proof using Type. intros Hm. eapply part_bind; [exact Hm|]. intros ?. by apply part_ret. Qed.
Lemma run_syscall_ok c p num : inproc p -> part (wrun p) (run_syscall de elf ph devsw pad c p num) (fun _ => wok).
Proof using Hdev.
  intros Hp. unfold run_syscall. eapply part_bind; [apply (part_wproc (fun t => busy p t))|intros e].
  eapply part_bind; [apply part_wuser|intros args]. eapply part_bind; [apply part_wkilled|intros k].
  assert (forall fc, part (wrun p) (r ← wy (on_proc p (run_call (p_pid e) (p_pagetable e) de (fun _ => k) args devsw pad fc)); mret (Some (Value r))) (fun _ => wok)) as Hcall.
  { intros fc. apply part_value, (part_wy _ _ (fun _ => sys_ok)), on_proc_ok; [done|]. by apply keeps_call. }
  assert (forall m : M (world C U X) sysend, part (wrun p) m (fun _ => wok) -> part (wrun p) (r ← m; mret (Some r)) (fun _ => wok)) as Hk.
  { intros m Hm. by apply part_value. }
  assert (forall m : M (world C U X) sysend, wkeeps m -> part (wrun p) m (fun _ => wok)) as Hw.
  { intros m Hm. eapply part_pre, Hm. apply wrun_wok. }
  assert (part (wrun p) (mret (M := M (world C U X)) None) (fun (_ : option sysend) => wok)) as Hnone
    by (apply part_ret; apply wrun_wok).
  repeat match goal with |- part _ (match ?x with _ => _ end) _ => destruct x end; try exact Hnone.
  all: cbv zeta.
  all: first [ exact (Hcall Dup) | exact (Hcall Read) | exact (Hcall Write) | exact (Hcall Close) | exact (Hcall Fstat)
             | exact (Hcall Link) | exact (Hcall Unlink) | exact (Hcall Open) | exact (Hcall Mkdir) | exact (Hcall Mknod)
             | exact (Hcall Chdir) | exact (Hcall MkPipe) | apply Hk ].
  all: first [ by apply exec_ok | apply Hw, kill_ok | apply Hw, sys_sleep_ok | apply Hw, swapstat_ok
             | apply Hw, part_value, wkeeps_user | apply Hw, part_value, wkeeps_proc
             | apply part_value, (part_wy _ _ (fun _ => sys_ok)), fork_ok, Hp
             | apply Hw, part_value, (part_wy _ _ (fun _ => sys_ok)), exit_ok, Hp
             | apply Hw, part_value, (part_wy _ _ (fun _ => sys_ok)), wait_ok
             | apply Hw, part_value, part_gets; auto | idtac ].
  apply Hw. unfold sys_sbrk. eapply part_bind; [apply wkeeps_proc|intros e1].
  apply part_value, (part_wy _ _ (fun _ => sys_ok)), growproc_ok.
Qed.
Lemma syscall_ok c p : inproc p -> part (wrun p) (syscall de elf ph devsw pad c p) (fun _ => wok).
Proof using Hdev.
  intros Hp. unfold syscall. eapply part_bind; [apply (part_get_reg (fun t => busy p t))|intros a7].
  eapply part_bind; [by apply run_syscall_ok|]. intros [[v|t]|]; [|by apply part_ret|];
    (eapply part_bind; [apply wkeeps_put|]; intros ?; by apply part_ret).
Qed.

Lemma usertrap_ok c p spp scause stval sepc irq : inproc p ->
  part (fun w => myproc c (y_t (w_sys w)) = Some p /\ wrun p w)
    (usertrap de elf ph devsw pad ksatp utrap c spp scause stval sepc irq) (fun _ => wok).
Proof using Hdev.
  intros Hp. unfold usertrap. apply part_wif; [apply part_panic|].
  eapply part_bind; [apply (part_gets _ _ (fun o w => o = Some p /\ wrun p w)); auto|]. intros o. apply part_pure. intros ->.
  eapply part_bind; [apply (part_put (fun t => busy p t))|intros ?]. apply part_wif.
  - eapply part_bind; [apply part_wkilled|intros k]. apply part_wif; [eapply part_pre, exit_killed_ok, Hp; apply wrun_wok|].
    eapply part_bind; [apply (part_get_reg (fun t => busy p t))|intros epc]. eapply part_bind; [apply (part_put (fun t => busy p t))|intros ?].
    eapply part_bind; [by apply syscall_ok|]. intros [t|]; [by apply part_ret|by apply trap_end_ok].
  - eapply part_bind; [apply devintr_ok|intros d]. eapply (part_pre wok); [apply wrun_wok|].
    assert (wkeeps (wsetkilled p)) as Hs. { apply wkeeps_tab. intros t. apply calm_mod; [done|]. by left. }
    apply part_wif; [by apply trap_end_ok|]. eapply part_bind; [|intros ?; by apply trap_end_ok].
    apply part_wif; [|exact Hs]. apply part_wif; [exact Hs|]. eapply part_bind; [apply wkeeps_proc|intros e].
    eapply part_bind; [apply wkeeps_user|intros r]. apply part_wif; [exact Hs|by apply part_ret].
Qed.
(** C13. Whatever a process does, the reference counts of the open files stay
    those of the descriptors.  Take any trap from user space (a system call with any
    number and arguments, a device interrupt, a page fault or another exception) that
    does not end in a panic: if before it the count of every open file is the
    number of descriptors, over all processes, that name it, every descriptor names
    an entry of the file table, and unused and zombie processes have no descriptor,
    then all this holds after it.  So no open file is freed while somebody can use
    it, and none is kept that nobody can. *)
Theorem usertrap_refs c p spp scause stval sepc irq (w : world C U X) r w' :
  myproc c (y_t (w_sys w)) = Some p -> inproc p -> p_state (t_proc (y_t (w_sys w)) p) = RUNNING ->
  sys_ok (w_sys w) ->
  usertrap de elf ph devsw pad ksatp utrap c spp scause stval sepc irq w = Ret (r, w') ->
  sys_ok (w_sys w').
Proof using Hdev.
  intros Ec Hp Er S. apply (usertrap_ok c p spp scause stval sepc irq Hp w r w'). split; [done|].
  split; [done|]. rewrite Er. intros [|]; discriminate.
Qed.

(** ** The way back to user space *)
Definition wmem w : U := f_user (k_fs (y_k (w_sys w))).
Definition wentry w p : proc := t_proc (y_t (w_sys w)) p.
Definition set_wmem (u : U) w : world C U X :=
  World (Sys (Kst (set_user u (k_fs (y_k (w_sys w)))) (k_file (y_k (w_sys w))) (k_pipe (y_k (w_sys w)))) (y_t (w_sys w))) (w_ticks w) (w_dev w).
Lemma put_reg_run p off v w : put_reg p off v w = Ret (tt, set_wmem (tf_put (p_trapframe (wentry w p)) off v (wmem w)) w).
Proof using Type. done. Qed.
Lemma get_reg_run p off w : get_reg p off w = Ret (tf_get (p_trapframe (wentry w p)) off (wmem w), w).
Proof using Type. by destruct w as [[[[ls sb ino u] fl pp] t] n x]. Qed.



End traps.
