(* ===== verification/SysExample.v ===== *)
(** A kernel with one running process that traps: the hypotheses of the theorems of
    SysSpec.v and Exec.v hold of it.  The process has descriptor 4 open and calls
    dup(4). *)
From S2P Require Import Prelude Riscv Memory Locks Blocks Log UserMem Pipe Uart Console Fs File Sysfile Proc Exec Virtio Trap.
From S2P Require Import Bio Stack FsExample FdSpec ProcSpec SysSpec.

#[local] Existing Instance flat_mem.
#[local] Instance flat_pages : PageAlloc flat := {| page_alloc := mret 0; page_free := fun _ => mret tt |}.
(** No memory for another process. *)
#[local] Instance flat_space : AddrSpace flat := {|
  as_pagetable _ := mret 0; as_freepagetable _ _ := mret tt; as_first _ _ := mret tt; as_alloc _ _ _ _ := mret 0;
  as_dealloc _ _ n := mret n; as_copy _ _ _ := mret (-1); as_clear _ _ := mret tt; as_walkaddr _ _ := mret 0;
  as_swapin _ _ := mret (-1); as_swapread _ _ := mret tt; as_swapwrite _ _ := mret tt; as_counts _ := (0, 0) |}.
#[local] Instance no_devices : Devices unit := {| dev_uart := mret tt; dev_disk := mret tt |}.
#[local] Instance bio1 : BufCache bcache := bio_cache 1.

(** The trapframe is at kernel address 4096: a7 is 10, a0 is 4. *)
Definition tf_mem : flat := Flat 16384 (fun a =>
  if a =? 2 ^ 32 + 4096 + TF_A 7 then 10 else if a =? 2 ^ 32 + 4096 + TF_A 0 then 4 else 0).
Definition idle_proc : proc := Proc UNUSED None 0 0 0 None 0 0 0 0 (fun _ => None) None [].
Definition run_proc : proc := Proc RUNNING None 0 0 7 None (KSTACK 1) 8192 8192 4096 ofile0 (Some 1) [].
Definition idle_tab : ptab := PTab (fun _ => idle_proc) 8 (Some 0) (fun c => if c =? 0 then Some 1 else None).
Definition tab0 : ptab := mod_tab 1 (fun _ => run_proc) idle_tab.
Definition kst1 : kst bcache flat :=
  Kst (Fs (LState (bss_bcache disk0) log0) sb0 itable0 tf_mem) ftable0 (fun _ => Pipe (fun _ => 0) 0 0 false false).
Definition world0 : world bcache flat unit := World (Sys kst1 tab0) 0 tt.

Lemma fds_none f : fds (fun _ => None) f = 0.
Proof. unfold fds. generalize 0 at 1 as fd. induction (Z.to_nat NOFILE) as [|k IH]; intros fd; cbn; [done|]. by rewrite IH. Qed.
Lemma opens_idle f : opens idle_tab f = 0.
Proof.
  unfold opens, idle_tab. cbn [t_proc idle_proc p_ofile]. induction procs as [|x l IH]; cbn [sumZ]; [done|]. by rewrite IH, fds_none.
Qed.
Lemma refs_ok0 : sys_ok (w_sys world0).
Proof.
  pose proof (fd_inv0 (bss_bcache disk0)) as [I1 I2]. split; cbn [world0 w_sys y_k y_t].
  - intros f Hf. unfold tab0. rewrite opens_mod by (unfold NPROC; lia). unfold others. rewrite opens_idle. cbn [idle_tab t_proc idle_proc p_ofile].
    rewrite fds_none. exact (I1 f Hf).
  - intros p fd f _ Hfd. unfold tab0. destruct (decide (p = 1)) as [->|Hne].
    + rewrite mod_tab_eq. exact (I2 fd f Hfd).
    + by rewrite mod_tab_ne.
  - intros p _ Hi. unfold tab0 in *. destruct (decide (p = 1)) as [->|Hne].
    + rewrite mod_tab_eq in Hi. by destruct Hi.
    + rewrite mod_tab_ne by done. by intros fd _.
Qed.
Abbreviation trap0 := (usertrap 0 64 128 (fun _ => DevOps None None) [] 77 88 0 false 8 0 1000 0 world0).
Lemma usertrap_refs_witness : exists r w', trap0 = Ret (r, w') /\ sys_ok (w_sys w').
Proof.
  destruct trap0 as [[r w']| | |] eqn:E; [|exfalso; revert E; vm_compute; discriminate..].
  exists r, w'. split; [done|].
  assert (devices_keep (C := bcache) (U := flat) (fun _ => DevOps None None)) as D by (intros m u a n; by split).
  apply (usertrap_refs 0 64 128 _ [] 77 88 D 0 1 false 8 0 1000 0 world0 r w').
  - reflexivity.
  - unfold NPROC. lia.
  - reflexivity.
  - apply refs_ok0.
  - exact E.
Defined.

(** The stack for the arguments "ls" and "-l". *)
Definition argv0 : list (list Z) := [[108; 115]; [45; 108]].
Definition sst1 : sst bcache flat := Sst kst1 ofile0 1.
Lemma exec_stack_witness : exists sp s', push_args 0 12288 argv0 sst1 = Ret (Some (2, sp), s') /\
  exists ptrs, Forall2 (fun p a => ucopyin (umem s') 0 p (length a + 1) = Some (a ++ [0])) ptrs argv0.
Proof.
  destruct (push_args 0 12288 argv0 sst1) as [[r s']| | |] eqn:E; [|exfalso; revert E; vm_compute; discriminate..].
  assert (match push_args 0 12288 argv0 sst1 with Ret (r, _) => Some r | _ => None end = Some r) as E' by (by rewrite E).
  assert (r = Some (2, 12224)) as -> by (revert E'; vm_compute; by intros [= <-]).
  exists 12224, s'. split; [done|]. apply (exec_stack 0 12288 argv0) in E.
  - destruct E as (_ & _ & _ & ptrs & _ & HF). exists ptrs. eapply Forall2_impl; [exact HF|]. cbn. tauto.
  - exact I.
  - vm_compute. intuition discriminate.
  - repeat (constructor; [split; [repeat (constructor; [vm_compute; intuition discriminate|]); constructor|by vm_compute]|]). constructor.
Defined.
