(* ===== verification/Grep.v ===== *)
(** The user program grep (user/grep.c): the matcher of regular expressions with
    ^ . * $ against the language of the expression, and the loop that finds the
    lines of its input in a buffer.  C strings are the lists of their bytes
    before the NUL. *)
From S2P Require Import Prelude.

Definition CARET : Z := 94.
Definition DOT : Z := 46.
Definition STAR : Z := 42.
Definition DOLLAR : Z := 36.
Definition NEWLINE : Z := 10.
Definition BUFSZ : nat := Z.to_nat 1024.     (* sizeof(buf) *)

(** [matchstar(c, re, text)] for the matcher [mh] of [re]. *)
Fixpoint matchstar (mh : list Z -> bool) (c : Z) (text : list Z) : bool :=
  if mh text then true
  else match text with
       | [] => false
       | t :: text => if (t =? c) || (c =? DOT) then matchstar mh c text else false
       end.

Fixpoint matchhere (re text : list Z) : bool :=
  match re with
  | [] => true
  | c :: re1 =>
      let no_star :=
        if (c =? DOLLAR) && match re1 with [] => true | _ => false end
        then match text with [] => true | _ => false end
        else match text with
             | t :: text1 => if (c =? DOT) || (c =? t) then matchhere re1 text1 else false
             | [] => false
             end in
      match re1 with
      | s :: re2 => if s =? STAR then matchstar (matchhere re2) c text else no_star
      | [] => no_star
      end
  end.

(** The loop of [match] over the suffixes of the text, the empty one included. *)
Fixpoint match_from (re text : list Z) : bool :=
  if matchhere re text then true
  else match text with [] => false | _ :: text => match_from re text end.
Definition match_ (re text : list Z) : bool :=
  match re with
  | c :: re1 => if c =? CARET then matchhere re1 text else match_from re text
  | [] => match_from re text
  end.

(** * The language of an expression *)
Inductive item := One (c : Z) | Many (c : Z).
(** The items of the expression, and whether it ends in $. *)
Fixpoint items (re : list Z) : list item * bool :=
  match re with
  | [] => ([], false)
  | c :: re1 =>
      let single := if (c =? DOLLAR) && match re1 with [] => true | _ => false end then ([], true)
                    else let '(l, d) := items re1 in (One c :: l, d) in
      match re1 with
      | s :: re2 => if s =? STAR then let '(l, d) := items re2 in (Many c :: l, d) else single
      | [] => single
      end
  end.
(** The pattern character [c] stands for [x]. *)
Definition stands (c x : Z) : Prop := c = DOT \/ c = x.
Inductive denotes : list item -> list Z -> Prop :=
| d_nil : denotes [] []
| d_one c x l w : stands c x -> denotes l w -> denotes (One c :: l) (x :: w)
| d_many c v l w : Forall (stands c) v -> denotes l w -> denotes (Many c :: l) (v ++ w).

Definition matches_here (re text : list Z) : Prop :=
  exists w rest, text = w ++ rest /\ denotes (items re).1 w /\ ((items re).2 = true -> rest = []).

Lemma stands_spec c x : (c =? DOT) || (c =? x) = true <-> stands c x.
Proof. unfold stands. rewrite orb_true_iff, !Z.eqb_eq. done. Qed.

Lemma matchstar_spec mh c text :
  matchstar mh c text = true <-> exists v rest, text = v ++ rest /\ Forall (stands c) v /\ mh rest = true.
Proof.
  induction text as [|t text IH]; cbn [matchstar].
  - destruct (mh []) eqn:E.
    + split; [|done]. intros _. by exists [], [].
    + split; [done|]. intros (v & rest & Ev & _ & Hr). symmetry in Ev. apply app_nil in Ev as [-> ->]. congruence.
  - destruct (mh (t :: text)) eqn:E; [split; [|done]; intros _; by exists [], (t :: text)|].
    assert ((t =? c) || (c =? DOT) = (c =? DOT) || (c =? t)) as -> by (rewrite orb_comm, (Z.eqb_sym t c); done).
    destruct ((c =? DOT) || (c =? t)) eqn:Es.
    + apply stands_spec in Es. rewrite IH. split.
      * intros (v & rest & -> & Hv & Hr). exists (t :: v), rest. split; [done|]. split; [by constructor|done].
      * intros (v & rest & Ev & Hv & Hr). destruct v as [|x v]; cbn in Ev; [subst rest; congruence|].
        injection Ev as <- ->. apply Forall_cons in Hv as [_ Hv]. by exists v, rest.
    + split; [done|]. intros (v & rest & Ev & Hv & Hr). destruct v as [|x v]; cbn in Ev; [subst rest; congruence|].
      injection Ev as <- ->. apply Forall_cons in Hv as [Hx _]. apply stands_spec in Hx. congruence.
Qed.

Lemma here_nil text : matches_here [] text.
Proof. exists [], text. split; [done|]. split; [constructor|done]. Qed.
Lemma here_one c l d text : (exists w rest, text = w ++ rest /\ denotes (One c :: l) w /\ (d = true -> rest = [])) <->
  exists t text1, text = t :: text1 /\ stands c t /\ exists w rest, text1 = w ++ rest /\ denotes l w /\ (d = true -> rest = []).
Proof.
  split.
  - intros (w & rest & -> & Hd & Hr). inversion Hd; subst. exists x, (w0 ++ rest). eauto 8.
  - intros (t & text1 & -> & Hs & w & rest & -> & Hd & Hr). exists (t :: w), rest. split; [done|]. split; [by constructor|done].
Qed.
Lemma here_many c l d text : (exists w rest, text = w ++ rest /\ denotes (Many c :: l) w /\ (d = true -> rest = [])) <->
  exists v text1, text = v ++ text1 /\ Forall (stands c) v /\ exists w rest, text1 = w ++ rest /\ denotes l w /\ (d = true -> rest = []).
Proof.
  split.
  - intros (w & rest & -> & Hd & Hr). inversion Hd; subst. exists v, (w0 ++ rest). rewrite app_assoc. eauto 8.
  - intros (v & text1 & -> & Hs & w & rest & -> & Hd & Hr). exists (v ++ w), rest. rewrite app_assoc.
    split; [done|]. split; [by constructor|done].
Qed.

Lemma matchhere_one c re1 text : (forall text, matchhere re1 text = true <-> matches_here re1 text) ->
  match text with t :: text1 => if (c =? DOT) || (c =? t) then matchhere re1 text1 else false | [] => false end = true <->
  exists w rest, text = w ++ rest /\ denotes (One c :: (items re1).1) w /\ ((items re1).2 = true -> rest = []).
Proof.
  intros IH. rewrite here_one. destruct text as [|t text1]; [split; [done|by intros (? & ? & ? & _)]|].
  destruct ((c =? DOT) || (c =? t)) eqn:Es.
  - apply stands_spec in Es. rewrite IH. unfold matches_here. split; [by eauto 8|].
    intros (t' & text' & [= <- <-] & _ & Hw). done.
  - split; [done|]. intros (t' & text' & [= <- <-] & Hs%stands_spec & _). congruence.
Qed.
Lemma matchhere_ok n : forall re text, (length re <= n)%nat -> matchhere re text = true <-> matches_here re text.
Proof.
  induction n as [|n IH]; intros re text Hn.
  { destruct re; [|cbn in Hn; lia]. split; [by intros; apply here_nil|done]. }
  destruct re as [|c re1]; [split; [by intros; apply here_nil|done]|]. cbn in Hn.
  unfold matches_here. cbn [matchhere items].
  set (single := if (c =? DOLLAR) && _ then _ else _ : list item * bool).
  set (no_star := if (c =? DOLLAR) && _ then _ else _ : bool).
  assert (no_star = true <-> exists w rest, text = w ++ rest /\ denotes single.1 w /\ (single.2 = true -> rest = [])) as Hs.
  { unfold no_star, single. destruct ((c =? DOLLAR) && _) eqn:Ed.
    - destruct text as [|t text]; split; try done.
      + intros _. exists [], []. split; [done|]. split; [constructor|done].
      + intros (w & rest & Ew & Hd & Hr). inversion Hd; subst. rewrite Hr in Ew by done. done.
    - rewrite matchhere_one by (intros; apply IH; lia). by destruct (items re1). }
  destruct re1 as [|s re2]; [exact Hs|]. destruct (s =? STAR); [|exact Hs].
  rewrite matchstar_spec. destruct (items re2) as [l d] eqn:Ei. cbn [fst snd]. rewrite here_many.
  cbn in Hn. assert (forall t, matchhere re2 t = true <-> exists w rest, t = w ++ rest /\ denotes l w /\ (d = true -> rest = [])) as Hr.
  { intros t. rewrite IH by lia. unfold matches_here. by rewrite Ei. }
  split; intros (v & rest & -> & Hv & Hm); exists v, rest; (split; [done|]; split; [done|]); by apply Hr.
Qed.
Lemma matchhere_spec re text : matchhere re text = true <-> matches_here re text.
Proof. apply (matchhere_ok (length re)). lia. Qed.
Lemma match_from_spec re text : match_from re text = true <-> exists pre suf, text = pre ++ suf /\ matches_here re suf.
Proof.
  induction text as [|t text IH]; cbn [match_from].
  - destruct (matchhere re []) eqn:E.
    + split; [|done]. intros _. exists [], []. split; [done|]. by apply matchhere_spec.
    + split; [done|]. intros (pre & suf & Ep & Hm). symmetry in Ep. apply app_nil in Ep as [-> ->].
      apply matchhere_spec in Hm. congruence.
  - destruct (matchhere re (t :: text)) eqn:E.
    + split; [|done]. intros _. exists [], (t :: text). split; [done|]. by apply matchhere_spec.
    + rewrite IH. split.
      * intros (pre & suf & -> & Hm). by exists (t :: pre), suf.
      * intros (pre & suf & Ep & Hm). destruct pre as [|x pre]; cbn in Ep.
        { subst suf. apply matchhere_spec in Hm. congruence. }
        injection Ep as <- ->. by exists pre, suf.
Qed.

(** C23. The matcher of grep decides the language of the expression: [match]
    answers yes exactly when some part of the text is a word of the language of
    the items of the expression, at the beginning of the text if the
    expression starts with ^ and reaching its end if it ends in $. *)
Theorem match_correct re text :
  match_ re text = true <->
  let anchored := match re with c :: _ => c =? CARET | [] => false end in
  let body := if anchored : bool then tail re else re in
  exists pre w rest, text = pre ++ w ++ rest /\ denotes (items body).1 w /\
    (anchored = true -> pre = []) /\ ((items body).2 = true -> rest = []).
Proof.
  assert (match_from re text = true <-> exists pre w rest, text = pre ++ w ++ rest /\ denotes (items re).1 w /\
    (false = true -> pre = []) /\ ((items re).2 = true -> rest = [])) as Hf.
  { rewrite match_from_spec. unfold matches_here. split.
    - intros (pre & suf & -> & w & rest & -> & Hd & Hr). by exists pre, w, rest.
    - intros (pre & w & rest & -> & Hd & _ & Hr). exists pre, (w ++ rest). split; [done|]. by exists w, rest. }
  destruct re as [|c re1]; cbn zeta; [exact Hf|]. cbn [match_]. destruct (c =? CARET); [|exact Hf].
  rewrite matchhere_spec. unfold matches_here. cbn [tail]. split.
  - intros (w & rest & -> & Hd & Hr). by exists [], w, rest.
  - intros (pre & w & rest & -> & Hd & Hp & Hr). rewrite (Hp eq_refl). by exists w, rest.
Qed.

(** * The lines of the input *)
(** [strchr(p, NEWLINE)]: the text before the first newline and after it, unless a NUL comes
    first. *)
Fixpoint find_nl (p : list Z) : option (list Z * list Z) :=
  match p with
  | [] => None
  | c :: p => if c =? 0 then None
              else if c =? NEWLINE then Some ([], p)
              else '(l, r) ← find_nl p; Some (c :: l, r)
  end.

(** The inner loop over the filled part of the buffer: what is written, and what
    is left. *)
Fixpoint scan_lines (fuel : nat) (pattern p : list Z) : list Z * list Z :=
  match fuel with
  | O => ([], p)
  | S fuel =>
      match find_nl p with
      | None => ([], p)
      | Some (l, p) =>
          let '(out, rest) := scan_lines fuel pattern p in
          (if match_ pattern l then l ++ [NEWLINE] ++ out else out, rest)
      end
  end.

(** [grep]: [read] returns some of the input, at least a byte if there is one and
    room for it; how much is up to [sched].  [buf] is what is kept in the buffer. *)
Definition take_input (k size : nat) (inp : list Z) : list Z * list Z :=
  let n := Nat.min (Nat.max 1 k) size in (take n inp, drop n inp).
Fixpoint grep (fuel : nat) (sched : nat -> nat) (pattern buf inp : list Z) : outcome (list Z) :=
  match fuel with
  | O => NoFuel
  | S fuel =>
      let '(chunk, inp) := take_input (sched fuel) (BUFSZ - length buf - 1) inp in
      match chunk with
      | [] => Ret []
      | _ =>
          let data := buf ++ chunk in
          let '(out, buf) := scan_lines (length data) pattern data in
          r ← grep fuel sched pattern buf inp;
          Ret (out ++ r)
      end
  end.

(** The complete lines of a text, and what follows the last of them. *)
Fixpoint split_lines (t : list Z) : list (list Z) * list Z :=
  match t with
  | [] => ([], [])
  | c :: t => let '(ls, r) := split_lines t in
              if c =? NEWLINE then ([] :: ls, r)
              else match ls with [] => ([], c :: r) | l :: ls => ((c :: l) :: ls, r) end
  end.
Definition selected (pattern : list Z) (ls : list (list Z)) : list Z :=
  concat ((fun l => l ++ [NEWLINE]) <$> filter (fun l => match_ pattern l = true) ls).

Lemma find_nl_spec p : Forall (fun c => c <> 0) p ->
  match find_nl p with
  | None => split_lines p = ([], p)
  | Some (l, q) => split_lines p = (l :: (split_lines q).1, (split_lines q).2) /\ Forall (fun c => c <> 0) q /\ (length q < length p)%nat
  end.
Proof.
  induction 1 as [|c p Hc Hp IH]; cbn [find_nl split_lines]; [done|]. rewrite (proj2 (Z.eqb_neq _ _) Hc).
  destruct (split_lines p) as [ls r] eqn:Es. destruct (c =? NEWLINE); [rewrite Es; split; [done|]; split; [done|cbn; lia]|].
  destruct (find_nl p) as [[l q]|]; cbn [mbind option_bind].
  - destruct IH as (IH & Hq & Hl). injection IH as -> ->. split; [done|]. split; [done|cbn; lia].
  - injection IH as -> ->. done.
Qed.
Lemma scan_lines_spec pattern fuel : forall p, Forall (fun c => c <> 0) p -> (length p <= fuel)%nat ->
  scan_lines fuel pattern p = (selected pattern (split_lines p).1, (split_lines p).2).
Proof.
  induction fuel as [|fuel IH]; intros p Hp Hl.
  { destruct p; [done|cbn in Hl; lia]. }
  cbn [scan_lines]. pose proof (find_nl_spec p Hp) as Hf. destruct (find_nl p) as [[l q]|]; [|by rewrite Hf].
  destruct Hf as (-> & Hq & Hlq). rewrite IH by (done || lia). cbn [fst snd]. f_equal.
  unfold selected. rewrite filter_cons. destruct (match_ pattern l) eqn:E.
  - rewrite decide_True by done. cbn. by rewrite <- app_assoc.
  - by rewrite decide_False.
Qed.

Lemma split_lines_app t1 t2 : split_lines (t1 ++ t2) =
  ((split_lines t1).1 ++ (split_lines ((split_lines t1).2 ++ t2)).1, (split_lines ((split_lines t1).2 ++ t2)).2).
Proof.
  induction t1 as [|c t1 IH]; [cbn; by destruct (split_lines t2)|]. cbn [app split_lines].
  destruct (split_lines t1) as [ls r]. cbn [fst snd] in IH. rewrite IH. destruct (c =? NEWLINE) eqn:Ec; [done|].
  destruct ls as [|l ls]; cbn [app fst snd]; [|done]. cbn [split_lines].
  destruct (split_lines (r ++ t2)) as [ls' r']. cbn [fst snd]. rewrite Ec. by destruct ls'.
Qed.
Lemma split_lines_rest t : split_lines (split_lines t).2 = ([], (split_lines t).2).
Proof.
  induction t as [|c t IH]; cbn [split_lines]; [done|]. destruct (split_lines t) as [ls r]. cbn [snd] in IH.
  destruct (c =? NEWLINE) eqn:Ec; [done|]. destruct ls; [|done]. cbn [split_lines snd]. by rewrite IH, Ec.
Qed.
Lemma selected_app pattern l1 l2 : selected pattern (l1 ++ l2) = selected pattern l1 ++ selected pattern l2.
Proof. unfold selected. by rewrite filter_app, fmap_app, concat_app. Qed.

(** All lines and the rest fit into the buffer. *)
Definition short_lines (t : list Z) : Prop :=
  Forall (fun l => S (S (length l)) <= BUFSZ)%nat (split_lines t).1 /\ (S (S (length (split_lines t).2)) <= BUFSZ)%nat.

Lemma short_first buf inp : split_lines buf = ([], buf) -> short_lines (buf ++ inp) -> (S (S (length buf)) <= BUFSZ)%nat.
Proof.
  intros Hb [Hs Hr].
  assert (forall x, match split_lines (x ++ inp) with
                    | ([], r) => length x <= length r
                    | (l :: _, _) => split_lines x = ([], x) -> length x <= length l end)%nat as Hlen.
  { induction x as [|c x IH]; cbn [app split_lines].
    - destruct (split_lines inp) as [[|l ls] r]; cbn; intros; lia.
    - destruct (split_lines (x ++ inp)) as [ls r]. destruct (split_lines x) as [lx rx].
      destruct (c =? NEWLINE) eqn:Ec.
      + done.
      + destruct ls as [|l ls]; cbn [length]; [lia|]. intros Hx. destruct lx; [|done]. injection Hx as Hx. subst rx.
        specialize (IH eq_refl). lia. }
  specialize (Hlen buf). destruct (split_lines (buf ++ inp)) as [[|l ls] r]; cbn [fst snd] in *; [lia|].
  apply Forall_cons in Hs as [Hs _]. specialize (Hlen Hb). lia.
Qed.
Lemma short_step buf inp : short_lines (buf ++ inp) -> short_lines ((split_lines buf).2 ++ inp).
Proof. intros [Hs Hr]. rewrite split_lines_app in Hs, Hr. cbn [fst snd] in *. apply Forall_app in Hs as [_ Hs]. by split. Qed.

Lemma grep_ok sched pattern fuel : forall buf inp,
  Forall (fun c => c <> 0) (buf ++ inp) -> split_lines buf = ([], buf) -> short_lines (buf ++ inp) -> (length inp < fuel)%nat ->
  grep fuel sched pattern buf inp = Ret (selected pattern (split_lines (buf ++ inp)).1).
Proof.
  induction fuel as [|fuel IH]; intros buf inp H0 Hb Hs Hf; [lia|]. cbn [grep]. unfold take_input.
  pose proof (short_first buf inp Hb Hs) as Hroom.
  set (n := Nat.min (Nat.max 1 (sched fuel)) (BUFSZ - length buf - 1)). assert (1 <= n)%nat as Hn by lia.
  destruct inp as [|c inp].
  { rewrite take_nil, app_nil_r, Hb. done. }
  destruct (take n (c :: inp)) as [|x chunk] eqn:Et; [destruct n; [lia|done]|]. rewrite <- Et. clear x chunk Et.
  set (inp0 := c :: inp) in *. rewrite <- (take_drop n inp0) in H0, Hs. rewrite app_assoc in H0, Hs.
  rewrite scan_lines_spec; [|by apply Forall_app in H0 as [? _]|done].
  set (data := buf ++ take n inp0) in *.
  assert (Forall (fun c => c <> 0) ((split_lines data).2 ++ drop n inp0)) as H0'.
  { apply Forall_app in H0 as [Hd Hi]. apply Forall_app. split; [|done]. clear -Hd.
    induction Hd as [|x p Hx _ IHd]; cbn [split_lines]; [done|]. destruct (split_lines p) as [ls r].
    destruct (x =? NEWLINE); [done|]. destruct ls; [by constructor|done]. }
  rewrite (IH (split_lines data).2 (drop n inp0) H0').
  - cbn [mbind outcome_bind]. f_equal. rewrite <- selected_app. f_equal.
    replace (buf ++ inp0) with (data ++ drop n inp0) by (unfold data; by rewrite <- app_assoc, take_drop).
    by rewrite (split_lines_app data).
  - apply split_lines_rest.
  - by apply short_step.
  - rewrite length_drop. subst inp0. cbn in *. lia.
Qed.

(** grep writes the lines that match.  For an input without NUL bytes whose
    lines have at most 1022 characters, however much each read returns, the loop
    ends and the output is the complete lines of the input that the pattern
    matches, in order. *)
Theorem grep_selects sched pattern inp :
  Forall (fun c => c <> 0) inp -> short_lines inp ->
  grep (S (length inp)) sched pattern [] inp = Ret (selected pattern (split_lines inp).1).
Proof. intros H0 Hs. apply (grep_ok sched pattern _ [] inp); [done|done|done|lia]. Qed.

Lemma grep_selects_witness :
  grep 8 (fun n => n) [CARET; 97; DOLLAR] [] [97; 10; 98; 97; 10; 97; 10] = Ret [97; 10; 97; 10].
Proof.
  refine (grep_selects (fun n => n) [CARET; 97; DOLLAR] [97; 10; 98; 97; 10; 97; 10] _ _).
  - repeat (apply Forall_cons; split; [discriminate|]). apply Forall_nil_2.
  - split; [|vm_compute; lia]. repeat (apply Forall_cons; split; [vm_compute; lia|]). apply Forall_nil_2.
Defined.
