(* ===== verification/Umalloc.v ===== *)
(** The user-level allocator (user/umalloc.c), by Kernighan and Ritchie: a circular
    list of free blocks in address order.  Memory is the two header fields of
    every address; a block of [size] units starts with its header.  The theorems:
    [free] and [malloc] keep the list sorted and coalesced, terminate, and move
    exactly the block in question between the free memory and its user. *)
From Stdlib Require Import Sorted.
From S2P Require Import Prelude.

Definition HEADER : Z := 16.      (* sizeof(Header) *)

Record heap := Heap {
  hptr : Z -> Z;       (* s.ptr *)
  hsize : Z -> Z;      (* s.size, a uint *)
  freep : Z;           (* 0 before the first call *)
  brk : Z }.           (* the end of the process's memory *)

Definition set_hptr (p v : Z) (h : heap) : heap := Heap (upd (hptr h) p v) (hsize h) (freep h) (brk h).
Definition set_hsize (p v : Z) (h : heap) : heap := Heap (hptr h) (upd (hsize h) p (u32 v)) (freep h) (brk h).
Definition set_freep (p : Z) (h : heap) : heap := Heap (hptr h) (hsize h) p (brk h).
(** The address [n] headers after [p]. *)
Definition plus (p n : Z) : Z := p + HEADER * n.

(** The loop of [free]: the block after which [bp] belongs. *)
Fixpoint free_scan (fuel : nat) (bp p : Z) (h : heap) : outcome Z :=
  match fuel with
  | O => NoFuel
  | S fuel =>
      let q := hptr h p in
      if (p <? bp) && (bp <? q) then Ret p
      else if (q <=? p) && ((p <? bp) || (bp <? q)) then Ret p
      else free_scan fuel bp q h
  end.
Definition link (bp p : Z) (h : heap) : heap :=
  let h := if plus bp (hsize h bp) =? hptr h p then
             let h1 := set_hsize bp (hsize h bp + hsize h (hptr h p)) h in
             set_hptr bp (hptr h1 (hptr h1 p)) h1
           else set_hptr bp (hptr h p) h in
  let h := if plus p (hsize h p) =? bp then
             let h1 := set_hsize p (hsize h p + hsize h bp) h in
             set_hptr p (hptr h1 bp) h1
           else set_hptr p bp h in
  set_freep p h.
Definition free (fuel : nat) (ap : Z) : M heap unit := fun h =>
  let bp := ap - HEADER in
  p ← free_scan fuel bp (freep h) h;
  Ret (tt, link bp p h).

Section malloc.
(** The address of the static [base], and whether the kernel grants [sbrk(n)]. *)
Context (base : Z) (grants : Z -> Z -> bool).



End malloc.

(** * The free list *)
(** A block: its address and its size in units. *)
Abbreviation block := (Z * Z)%type.
Abbreviation addrs l := (l.*1).
Definition hd_addr (z : Z) (l : list block) : Z := match l with [] => z | b :: _ => b.1 end.

(** The blocks are linked in order, the last one to [z]. *)
Fixpoint seg (h : heap) (l : list block) (z : Z) : Prop :=
  match l with
  | [] => True
  | b :: l => hsize h b.1 = b.2 /\ hptr h b.1 = hd_addr z l /\ seg h l z
  end.
Lemma seg_app h l1 l2 z : seg h (l1 ++ l2) z <-> seg h l1 (hd_addr z l2) /\ seg h l2 z.
Proof.
  induction l1 as [|b l1 IH]; cbn [app seg]; [tauto|]. rewrite IH.
  assert (hd_addr z (l1 ++ l2) = hd_addr (hd_addr z l2) l1) as -> by by destruct l1. tauto.
Qed.
Lemma seg_ptr h l z p v : p ∉ addrs l -> seg (set_hptr p v h) l z <-> seg h l z.
Proof.
  induction l as [|b l IH]; intros Hp; [done|]. rewrite fmap_cons, not_elem_of_cons in Hp. destruct Hp as [Hne Hp].
  cbn [seg set_hptr hsize hptr]. rewrite IH by done. by rewrite upd_ne.
Qed.
Lemma seg_size h l z p v : p ∉ addrs l -> seg (set_hsize p v h) l z <-> seg h l z.
Proof.
  induction l as [|b l IH]; intros Hp; [done|]. rewrite fmap_cons, not_elem_of_cons in Hp. destruct Hp as [Hne Hp].
  cbn [seg set_hsize hsize hptr]. rewrite IH by done. by rewrite upd_ne.
Qed.

(** Address order without adjacent blocks. *)
Definition before (b c : block) : Prop := plus b.1 b.2 < c.1.
Definition sorted (l : list block) : Prop := StronglySorted before l.

Lemma sorted_app l1 l2 : sorted (l1 ++ l2) <-> sorted l1 /\ sorted l2 /\ (forall b c, b ∈ l1 -> c ∈ l2 -> before b c).
Proof.
  unfold sorted. induction l1 as [|b l1 IH]; cbn [app].
  - split; [|by intros (_ & ? & _)]. intros Hs. split; [constructor|]. split; [done|]. set_solver.
  - split.
    + intros Hs. apply StronglySorted_inv in Hs as [Hs Hb]. apply IH in Hs as (H1 & H2 & H3). apply Forall_app in Hb as [Hb1 Hb2].
      rewrite Forall_forall in Hb2. split; [by constructor|]. split; [done|].
      intros x c [->|Hx]%elem_of_cons Hc; [by apply Hb2|by apply H3].
    + intros (H1 & H2 & H3). apply StronglySorted_inv in H1 as [H1 Hb]. constructor.
      * apply IH. split_and!; try done. intros x c Hx Hc. apply H3; [by right|done].
      * apply Forall_app. split; [done|]. apply Forall_forall. intros c Hc. apply H3; [by left|done].
Qed.
Lemma sorted_cons b l : sorted (b :: l) <-> sorted l /\ (forall c, c ∈ l -> before b c).
Proof.
  rewrite (sorted_app [b] l). split; [intros (_ & ? & H); split; [done|]; intros c; apply H; by left|].
  intros [? H]. split; [repeat constructor|]. split; [done|]. intros x c ->%list_elem_of_singleton. apply H.
Qed.

(** The free memory. *)
Definition covers (l : list block) (x : Z) : Prop := exists b, b ∈ l /\ b.1 <= x < plus b.1 b.2.
Lemma covers_app l1 l2 x : covers (l1 ++ l2) x <-> covers l1 x \/ covers l2 x.
Proof. unfold covers. setoid_rewrite elem_of_app. naive_solver. Qed.
Lemma covers_cons b l x : covers (b :: l) x <-> b.1 <= x < plus b.1 b.2 \/ covers l x.
Proof. unfold covers. setoid_rewrite elem_of_cons. naive_solver. Qed.
Lemma covers_nil x : ~ covers [] x.
Proof. unfold covers. set_solver. Qed.

Section inv.
Context (base : Z).

Record heap_ok (h : heap) (l : list block) : Prop := {
  ho_base : exists bl, l = (base, 0) :: bl /\ forall b, b ∈ bl -> 0 < b.2;
  ho_seg : seg h l base;
  ho_sorted : sorted l;
  ho_freep : freep h ∈ addrs l;
  ho_top b : b ∈ l -> plus b.1 b.2 <= brk h;
  ho_range : 0 < base < brk h /\ brk h - base < HEADER * 2 ^ 32 }.

Lemma ho_nonneg h l b : heap_ok h l -> b ∈ l -> 0 <= b.2.
Proof.
  intros O Hb. destruct (ho_base _ _ O) as (bl & -> & Hp). apply elem_of_cons in Hb as [->|Hb]; [done|].
  specialize (Hp b Hb). lia.
Qed.
Lemma sorted_fresh l1 b l2 : sorted (l1 ++ b :: l2) -> (forall c, c ∈ l1 ++ b :: l2 -> 0 <= c.2) ->
  (b.1 ∉ addrs l1) /\ (b.1 ∉ addrs l2).
Proof.
  intros Hs Hn. apply sorted_app in Hs as (_ & [_ Hs2]%sorted_cons & H3). unfold before, plus, HEADER in *. split.
  - intros (c & Ec & Hc)%list_elem_of_fmap. specialize (H3 c b Hc ltac:(set_solver)). specialize (Hn c ltac:(set_solver)).
    rewrite Ec in H3. lia.
  - intros (c & Ec & Hc)%list_elem_of_fmap. specialize (Hs2 c Hc). specialize (Hn b ltac:(set_solver)). rewrite Ec in Hs2. lia.
Qed.

(** A block that can be freed: it lies in the heap and overlaps no free block. *)
Record apart (h : heap) (l : list block) (bp n : Z) : Prop := {
  ap_pos : 0 < n;
  ap_base : base < bp;
  ap_top : plus bp n <= brk h;
  ap_disj b : b ∈ l -> plus b.1 b.2 <= bp \/ plus bp n <= b.1 }.

(** Its place in the list. *)
Lemma place_in bp n bl : forall b, sorted (b :: bl) -> (forall c, c ∈ bl -> 0 <= c.2) -> plus b.1 b.2 <= bp ->
  (forall c, c ∈ bl -> plus c.1 c.2 <= bp \/ plus bp n <= c.1) ->
  exists l1 p l2, b :: bl = l1 ++ p :: l2 /\ plus p.1 p.2 <= bp /\ (forall c, c ∈ l2 -> plus bp n <= c.1).
Proof.
  induction bl as [|c bl IH]; intros b Hs Hn Hb Hd; [exists [], b, []; set_solver|].
  apply sorted_cons in Hs as [Hs Hbc]. destruct (Hd c ltac:(by left)) as [Hc|Hc].
  - destruct (IH c Hs) as (l1 & p & l2 & E & Hp & H2); [set_solver..|done| |]; [set_solver|].
    exists (b :: l1), p, l2. rewrite E. done.
  - exists [], b, (c :: bl). split; [done|]. split; [done|]. intros d [->|Hd']%elem_of_cons; [done|].
    apply sorted_cons in Hs as [_ Hcd]. specialize (Hcd d Hd'). specialize (Hn c ltac:(by left)).
    unfold before, plus, HEADER in *. lia.
Qed.
Lemma apart_place h l bp n : heap_ok h l -> apart h l bp n ->
  exists l1 p l2, l = l1 ++ p :: l2 /\ plus p.1 p.2 <= bp /\ (forall c, c ∈ l2 -> plus bp n <= c.1).
Proof.
  intros O [Hn Hb Ht Hd]. pose proof (ho_nonneg h l) as Hnn. destruct (ho_base _ _ O) as (bl & E & Hp).
  pose proof (ho_sorted _ _ O) as Hs. subst l. apply place_in; try done.
  - intros c Hc. apply Hnn; [done|by right].
  - unfold plus. cbn. lia.
  - intros c Hc. apply Hd. by right.
Qed.

(** The search of [free] ends at that place from anywhere in the list. *)
Lemma scan_up h bp mid p l2 z k : seg h (mid ++ p :: l2) z -> sorted (mid ++ p :: l2) ->
  (forall c, c ∈ mid ++ p :: l2 -> 0 <= c.2) -> p.1 < bp -> (forall c, c ∈ l2 -> bp < c.1) -> (l2 = [] -> z <= p.1) ->
  (length mid < k)%nat -> free_scan k bp (hd_addr z (mid ++ [p])) h = Ret p.1.
Proof.
  revert k. induction mid as [|b mid IH]; intros k Hs Hso Hn Hp H2 Hz Hk; (destruct k as [|k]; [lia|]); cbn [app hd_addr free_scan].
  - cbn [app] in *. destruct Hs as (_ & Ep & _). rewrite Ep. rewrite (proj2 (Z.ltb_lt _ _) Hp). cbn [andb orb].
    destruct l2 as [|c l2]; cbn [hd_addr].
    + rewrite (proj2 (Z.leb_le _ _) (Hz eq_refl)). cbn [andb]. by destruct (bp <? z).
    + by rewrite (proj2 (Z.ltb_lt _ _)) by (apply H2; by left).
  - cbn [app] in Hs, Hso. destruct Hs as (_ & Eb & Hs). apply sorted_cons in Hso as [Hso Hb].
    assert (hd_addr z (mid ++ p :: l2) = hd_addr z (mid ++ [p])) as Eh by by destruct mid. rewrite Eb, Eh.
    assert (b.1 < hd_addr z (mid ++ [p]) <= p.1) as Hbn.
    { specialize (Hn b ltac:(by left)) as Hnb. destruct mid as [|c mid]; cbn [app hd_addr].
      - specialize (Hb p ltac:(by left)). unfold before, plus, HEADER in Hb. lia.
      - specialize (Hb c ltac:(by left)). apply sorted_cons in Hso as [_ Hc]. specialize (Hc p ltac:(set_solver)).
        specialize (Hn c ltac:(set_solver)). unfold before, plus, HEADER in *. lia. }
    rewrite (proj2 (Z.ltb_ge bp _)), andb_false_r, (proj2 (Z.leb_gt _ _)) by lia. cbn [andb].
    apply IH; try done; [set_solver|cbn in Hk; lia].
Qed.
Lemma scan_wrap h bp mid k : seg h mid base -> sorted mid -> (forall c, c ∈ mid -> 0 <= c.2) ->
  (forall c, c ∈ mid -> bp < c.1) -> base < bp -> mid <> [] ->
  free_scan (length mid + k) bp (hd_addr base mid) h = free_scan k bp base h.
Proof.
  induction mid as [|b mid IH]; intros Hs Hso Hn Hg Hb Hne; [done|]. cbn [length Nat.add free_scan hd_addr].
  destruct Hs as (_ & Eb & Hs). rewrite Eb. specialize (Hg b ltac:(by left)) as Hgb.
  rewrite (proj2 (Z.ltb_ge b.1 bp)) by lia. cbn [andb orb].
  destruct mid as [|c mid].
  - cbn [hd_addr]. rewrite (proj2 (Z.leb_le _ _)), (proj2 (Z.ltb_ge bp base)) by lia. done.
  - cbn [hd_addr]. apply sorted_cons in Hso as [Hso Hbc]. specialize (Hbc c ltac:(by left)).
    specialize (Hn b ltac:(by left)) as Hnb. unfold before, plus, HEADER in Hbc.
    rewrite (proj2 (Z.leb_gt _ _)) by lia. cbn [andb]. apply IH; try done; set_solver.
Qed.
Lemma free_scan_ok h l l1 p l2 bp n : heap_ok h l -> apart h l bp n -> l = l1 ++ p :: l2 -> plus p.1 p.2 <= bp ->
  (forall c, c ∈ l2 -> plus bp n <= c.1) -> free_scan (length l) bp (freep h) h = Ret p.1.
Proof.
  intros O A E Hp H2. pose proof (ho_nonneg h l) as Hnn. destruct (ho_base _ _ O) as (bl & E0 & _).
  assert (p.1 < bp) as Hpb.
  { destruct A as [Hn Hb Ht Hd]. destruct (Z.lt_ge_cases p.1 bp) as [|Hge]; [done|].
    specialize (Hnn p O ltac:(set_solver)). unfold plus, HEADER in *. assert (p.2 = 0) as Ep by lia.
    destruct l1 as [|b l1]; cbn in E; [rewrite E in E0; injection E0 as -> _; cbn in Hge; lia|].
    assert (0 < p.2); [|lia]. destruct (ho_base _ _ O) as (bl' & E' & Hpos). apply Hpos.
    rewrite E in E'. injection E' as _ <-. set_solver. }
  assert (forall c, c ∈ l2 -> bp < c.1) as H2'.
  { intros c Hc. specialize (H2 c Hc). destruct A. unfold plus, HEADER in *. lia. }
  assert (hd_addr base (l1 ++ [p]) = base) as Ehd.
  { rewrite E in E0. destruct l1; cbn in E0 |- *; by injection E0 as -> _. }
  assert (l2 = [] -> base <= p.1) as Hz.
  { intros _. rewrite E in E0. destruct l1 as [|b l1]; cbn in E0; [injection E0 as -> _; done|]. injection E0 as -> <-.
    pose proof (ho_sorted _ _ O) as Hs. rewrite E in Hs. cbn in Hs. apply sorted_cons in Hs as [_ Hs].
    specialize (Hs p ltac:(set_solver)). unfold before, plus in Hs. cbn in Hs. lia. }
  pose proof (ho_seg _ _ O) as Hs. pose proof (ho_sorted _ _ O) as Hso.
  assert (forall k, (length l1 < k)%nat -> free_scan k bp base h = Ret p.1) as Hup.
  { intros k Hk. rewrite <- Ehd. rewrite E in Hs, Hso. apply (scan_up h bp l1 p l2); try done.
    intros c Hc. apply Hnn; [done|]. by rewrite E. }
  pose proof (ho_freep _ _ O) as Hf. apply list_elem_of_fmap in Hf as (f & Ef & Hf). rewrite Ef.
  rewrite E in Hf. apply elem_of_app in Hf as [Hf|[Hf|Hf]%elem_of_cons].
  - apply list_elem_of_split in Hf as (m1 & m2 & ->). subst l. rewrite <- app_assoc in *. cbn [app] in *.
    apply seg_app in Hs as [_ Hs]. apply sorted_app in Hso as (_ & Hso & _).
    change (f :: m2 ++ p :: l2) with ((f :: m2) ++ p :: l2) in *.
    change f.1 with (hd_addr base ((f :: m2) ++ [p])). apply (scan_up h bp (f :: m2) p l2); try done.
    + intros c Hc. apply Hnn; [done|]. set_solver.
    + rewrite length_app. cbn. rewrite !length_app. cbn. lia.
  - subst f l. apply seg_app in Hs as [_ Hs]. apply sorted_app in Hso as (_ & Hso & _).
    change p.1 with (hd_addr base ([] ++ [p])) at 1. apply (scan_up h bp [] p l2); try done.
    + intros c Hc. apply Hnn; [done|]. set_solver.
    + rewrite length_app. cbn. lia.
  - apply list_elem_of_split in Hf as (m1 & m2 & ->). subst l.
    replace (length (l1 ++ p :: m1 ++ f :: m2)) with (length (f :: m2) + (length l1 + S (length m1)))%nat
      by (rewrite length_app; cbn; rewrite length_app; cbn; lia).
    change f.1 with (hd_addr base (f :: m2)).
    replace (l1 ++ p :: m1 ++ f :: m2) with ((l1 ++ p :: m1) ++ f :: m2) in * by (by rewrite <- app_assoc).
    apply seg_app in Hs as [_ Hs]. apply sorted_app in Hso as (_ & Hso & _).
    rewrite scan_wrap; [apply Hup; lia|done|done| | |apply A|done].
    + intros c Hc. apply Hnn; [done|]. set_solver.
    + intros c Hc. apply H2'. set_solver.
Qed.

(** * Linking a block *)
Lemma seg_same h h' l z : (forall x, x ∈ addrs l -> hptr h' x = hptr h x /\ hsize h' x = hsize h x) -> seg h l z -> seg h' l z.
Proof.
  induction l as [|b l IH]; intros Hx; [done|]. rewrite fmap_cons in Hx. cbn [seg]. intros (H1 & H2 & H3).
  destruct (Hx b.1 ltac:(by left)) as [-> ->]. split; [done|]. split; [done|]. apply IH; [set_solver|done].
Qed.
(** The headers of the two heaps differ at most at [p]. *)
Definition but (p : Z) (h h' : heap) : Prop :=
  (forall x, x <> p -> hptr h' x = hptr h x /\ hsize h' x = hsize h x) /\ brk h' = brk h.

(** What holds of the part [l2] of the list that starts at the block [bp]. *)
Record tail_ok (h : heap) (l2 : list block) : Prop := {
  to_seg : seg h l2 base;
  to_sorted : sorted l2;
  to_pos b : b ∈ l2 -> 0 < b.2 /\ base < b.1 /\ plus b.1 b.2 <= brk h }.

Lemma link_up h p l2 bp n : tail_ok h l2 -> hsize h bp = n -> 0 < n -> base < bp -> plus bp n <= brk h ->
  brk h - base < HEADER * 2 ^ 32 -> p <> bp -> hptr h p = hd_addr base l2 -> (forall c, c ∈ l2 -> plus bp n <= c.1) ->
  exists n' l2' h1,
    h1 = (if plus bp (hsize h bp) =? hptr h p then
             let h1 := set_hsize bp (hsize h bp + hsize h (hptr h p)) h in
             set_hptr bp (hptr h1 (hptr h1 p)) h1
           else set_hptr bp (hptr h p) h) /\
    tail_ok h1 ((bp, n') :: l2') /\ hsize h1 bp = n' /\ hptr h1 bp = hd_addr base l2' /\ but bp h h1 /\ n <= n' /\ (length l2' <= length l2)%nat /\
    (forall x, covers ((bp, n') :: l2') x <-> bp <= x < plus bp n \/ covers l2 x).
Proof.
  intros [Hs Hso Hp] Hn Hpos Hb Htop Hr Hne Ep H2. rewrite Ep, Hn.
  assert (forall c, c ∈ l2 -> c.1 <> bp) as Hf by (intros c Hc; specialize (H2 c Hc); unfold plus, HEADER in H2; lia).
  destruct l2 as [|[c t] l3]; cbn [hd_addr fst] in *.
  - rewrite (proj2 (Z.eqb_neq _ _)) by (unfold plus, HEADER in *; lia).
    eexists n, [], _. split; [done|]. cbn [hd_addr]. split_and!; try done.
    + split; cbn; [by rewrite upd_eq|apply sorted_cons; split; [constructor|set_solver]|].
      intros b ->%list_elem_of_singleton. done.
    + cbn. by rewrite upd_eq.
    + split; [|done]. intros x Hx. cbn. by rewrite upd_ne.
    + intros x. rewrite covers_cons. cbn. pose proof (covers_nil x). tauto.
  - destruct Hs as (Es & Eq & Hs). cbn [fst snd] in Es, Eq. destruct (Hp (c, t) ltac:(by left)) as (Ht & Hbc & Htc).
    cbn [fst snd] in Ht, Hbc, Htc. apply sorted_cons in Hso as [Hso Hc].
    assert (bp ∉ addrs l3) as Hf3.
    { intros (d & Ed & Hd)%list_elem_of_fmap. by apply (Hf d); [right|]. }
    destruct (Z.eqb_spec (plus bp n) c) as [Ec|Ec].
    + assert (u32 (n + t) = n + t) as Eu by (apply u32_small; unfold plus, HEADER in *; lia).
      eexists (n + t), l3, _. split; [done|]. rewrite Es. cbn zeta. cbn [set_hsize hptr]. rewrite Ep, Eq. split_and!; try lia; try (cbn; lia).
      * split; cbn [seg].
        -- cbn. rewrite !upd_eq. split; [done|]. split; [done|]. apply seg_ptr; [done|]. by apply seg_size.
        -- apply sorted_cons. split; [done|]. intros d Hd. specialize (Hc d Hd). unfold before, plus, HEADER in *. cbn in *. lia.
        -- intros b [->|Hb']%elem_of_cons; [cbn; unfold plus, HEADER in *; lia|]. apply Hp. by right.
      * cbn. by rewrite upd_eq.
      * cbn. by rewrite upd_eq.
      * split; [|done]. intros x Hx. cbn. by rewrite !upd_ne.
      * intros x. rewrite !covers_cons. cbn [fst snd]. unfold plus, HEADER in *. intuition lia.
    + eexists n, ((c, t) :: l3), _. split; [done|]. split_and!; try done.
      * split; cbn [seg].
        -- cbn. rewrite !upd_eq, upd_ne by (by apply (Hf (c, t)); left). split_and!; try done. by apply seg_ptr.
        -- apply sorted_cons. split; [by apply sorted_cons|].
           intros d [->|Hd]%elem_of_cons.
           ++ specialize (H2 (c, t) ltac:(by left)). unfold before, plus in *. cbn in *. lia.
           ++ specialize (Hc d Hd). specialize (H2 (c, t) ltac:(by left)). unfold before, plus, HEADER in *. cbn in *. lia.
        -- intros b [->|Hb']%elem_of_cons; [done|]. by apply Hp.
      * cbn. by rewrite upd_eq.
      * split; [|done]. intros x Hx. cbn. by rewrite upd_ne.
      * intros x. rewrite !covers_cons. cbn [fst snd]. tauto.
Qed.

(** Joining the two parts of the list gives a list of the heap again. *)
Lemma heap_ok_join h l1 p l2 : seg h l1 p.1 -> hsize h p.1 = p.2 -> hptr h p.1 = hd_addr base l2 -> tail_ok h l2 ->
  sorted (l1 ++ [p]) -> (forall c, c ∈ l2 -> before p c) -> (forall b, b ∈ l1 ++ [p] -> 0 <= b.2 /\ plus b.1 b.2 <= brk h) ->
  (exists bl, l1 ++ [p] = (base, 0) :: bl /\ forall b, b ∈ bl -> 0 < b.2) ->
  freep h ∈ addrs (l1 ++ p :: l2) -> 0 < base < brk h /\ brk h - base < HEADER * 2 ^ 32 -> heap_ok h (l1 ++ p :: l2).
Proof.
  intros Hs1 Hsz Hpt [Hs2 Hso2 Hp2] Hso1 Hbef Hb1 (bl & Ebl & Hbl) Hf Hr.
  assert (l1 ++ p :: l2 = (l1 ++ [p]) ++ l2) as E by by rewrite <- app_assoc. split.
  - exists (bl ++ l2). rewrite E, Ebl. split; [done|]. intros b [Hb|Hb]%elem_of_app; [by apply Hbl|by apply Hp2].
  - apply seg_app. by split.
  - rewrite E. apply sorted_app. split; [done|]. split; [done|]. intros b c Hb Hc. apply elem_of_app in Hb as [Hb| ->%list_elem_of_singleton]; [|by apply Hbef].
    apply sorted_app in Hso1 as (_ & _ & H3). specialize (H3 b p Hb ltac:(by left)). specialize (Hbef c Hc).
    destruct (Hb1 p ltac:(set_solver)) as [Hnp _]. unfold before, plus, HEADER in *. lia.
  - done.
  - intros b Hb. rewrite E in Hb. apply elem_of_app in Hb as [Hb|Hb]; [by apply Hb1|by apply Hp2].
  - done.
Qed.

Lemma heap_tail h l1 p l2 : heap_ok h (l1 ++ p :: l2) -> tail_ok h l2 /\ seg h l1 p.1 /\ hsize h p.1 = p.2 /\
  hptr h p.1 = hd_addr base l2 /\ sorted (l1 ++ [p]) /\ (forall c, c ∈ l2 -> before p c) /\
  (forall b, b ∈ l1 ++ [p] -> 0 <= b.2 /\ plus b.1 b.2 <= brk h) /\
  (exists bl, l1 ++ [p] = (base, 0) :: bl /\ forall b, b ∈ bl -> 0 < b.2).
Proof.
  intros O. pose proof (ho_nonneg _ _ _ O : p ∈ l1 ++ p :: l2 -> _) as Hnp.
  destruct (proj1 (seg_app _ _ _ _) (ho_seg _ _ O)) as [Hs1 (Hsz & Hpt & Hs2)].
  assert (l1 ++ p :: l2 = (l1 ++ [p]) ++ l2) as E by by rewrite <- app_assoc.
  pose proof (ho_sorted _ _ O) as Hso. rewrite E in Hso. apply sorted_app in Hso as (Hso1 & Hso2 & Hb).
  destruct (ho_base _ _ O) as (bl & Ebl & Hbl).
  assert (exists bl1, l1 ++ [p] = (base, 0) :: bl1 /\ bl = bl1 ++ l2) as (bl1 & E1 & Ebl1).
  { rewrite E in Ebl. destruct (l1 ++ [p]) as [|x bl1] eqn:El; [by destruct l1|]. injection Ebl as -> <-. eauto. }
  split; [split; [done|done|]|].
  - intros b Hbl2. split; [apply Hbl; rewrite Ebl1; set_solver|]. split.
    + specialize (Hb (base, 0) b ltac:(rewrite E1; by left) Hbl2). unfold before, plus in Hb. cbn in Hb. lia.
    + apply (ho_top _ _ O). set_solver.
  - split_and!; try done.
    + intros c Hc. apply Hb; [set_solver|done].
    + intros b Hb1. split; [apply (ho_nonneg _ _ _ O)|apply (ho_top _ _ O)]; rewrite E; set_solver.
    + exists bl1. split; [done|]. intros b Hb1. apply Hbl. rewrite Ebl1. set_solver.
Qed.

(** The first part of the list, up to the block [p]. *)
Record front_ok (h : heap) (l1 : list block) (p : block) : Prop := {
  fo_seg : seg h l1 p.1;
  fo_size : hsize h p.1 = p.2;
  fo_sorted : sorted (l1 ++ [p]);
  fo_blocks b : b ∈ l1 ++ [p] -> 0 <= b.2 /\ plus b.1 b.2 <= brk h;
  fo_base : exists bl, l1 ++ [p] = (base, 0) :: bl /\ forall b, b ∈ bl -> 0 < b.2;
  fo_range : 0 < base < brk h /\ brk h - base < HEADER * 2 ^ 32 }.
Lemma front_fresh h l1 p : front_ok h l1 p -> p.1 ∉ addrs l1.
Proof.
  intros F. destruct (sorted_fresh l1 p []) as [? _]; [apply F| |done]. intros c Hc. by apply F.
Qed.
Lemma front_above h l1 p b : front_ok h l1 p -> b ∈ l1 ++ [p] -> base <= b.1.
Proof.
  intros F Hb. destruct (fo_base _ _ _ F) as (bl & E & _). pose proof (fo_sorted _ _ _ F) as Hs. rewrite E in Hb, Hs.
  apply elem_of_cons in Hb as [->|Hb]; [done|]. apply sorted_cons in Hs as [_ Hs]. specialize (Hs b Hb).
  unfold before, plus in Hs. cbn in Hs. lia.
Qed.
Lemma front_below h l1 p x : front_ok h l1 p -> p.1 < x -> x ∉ addrs (l1 ++ [p]).
Proof.
  intros F Hx (b & -> & Hb)%list_elem_of_fmap. apply elem_of_app in Hb as [Hb| ->%list_elem_of_singleton]; [|lia].
  destruct (proj1 (sorted_app _ _) (fo_sorted _ _ _ F)) as (_ & _ & H3). specialize (H3 b p Hb ltac:(by left)).
  destruct (fo_blocks _ _ _ F b ltac:(set_solver)). unfold before, plus, HEADER in *. lia.
Qed.
Lemma seg_off h h' l z p : but p h h' -> p ∉ addrs l -> seg h l z -> seg h' l z.
Proof. intros [Hb _] Hp. apply seg_same. intros x Hx. apply Hb. by intros ->. Qed.

Lemma link_down h l1 p bp n l2 : front_ok h l1 p -> tail_ok h ((bp, n) :: l2) -> hsize h bp = n -> hptr h bp = hd_addr base l2 ->
  p.1 < bp -> plus p.1 p.2 <= bp ->
  let h2 := if plus p.1 (hsize h p.1) =? bp then
             let h1 := set_hsize p.1 (hsize h p.1 + hsize h bp) h in
             set_hptr p.1 (hptr h1 bp) h1
           else set_hptr p.1 bp h in
  exists l', heap_ok (set_freep p.1 h2) l' /\ but p.1 h (set_freep p.1 h2) /\ (length l' <= S (S (length l1 + length l2)))%nat /\
    (exists b, b ∈ l' /\ n <= b.2) /\ (forall x, covers l' x <-> covers (l1 ++ [p]) x \/ covers ((bp, n) :: l2) x).
Proof.
  intros F [Hs2 Hso2 Hp2] Hn Hpt Hlt Hle. cbn zeta. rewrite (fo_size _ _ _ F), Hn. cbn [set_hsize hptr]. rewrite Hpt.
  pose proof (front_fresh _ _ _ F) as Hpf. destruct F as [Fs Fz Fso Fb Fbase Fr].
  destruct (Hp2 (bp, n) ltac:(by left)) as (Hnpos & Hbp & Htop). cbn [fst snd] in *.
  apply sorted_cons in Hso2 as [Hso2 Hbef]. destruct (proj2 Hs2) as [_ Hs2'].
  assert (p.1 ∉ addrs ((bp, n) :: l2)) as Hp2f.
  { rewrite fmap_cons, not_elem_of_cons. cbn. split; [lia|]. intros (c & Ec & Hc)%list_elem_of_fmap. specialize (Hbef c Hc).
    unfold before, plus, HEADER in Hbef. cbn in Hbef. lia. }
  destruct (Fb p ltac:(set_solver)) as [Hnp Hpt0].
  destruct (Z.eqb_spec (plus p.1 p.2) bp) as [Em|Em].
  - assert (u32 (p.2 + n) = p.2 + n) as Eu.
    { apply u32_small. assert (base <= p.1) by (eapply front_above; [by split|set_solver]). unfold plus, HEADER in *. lia. }
    exists (l1 ++ (p.1, p.2 + n) :: l2). set (h' := set_freep p.1 _).
    assert (but p.1 h h') as Hbut by (split; [|done]; intros x Hx; cbn; by rewrite !upd_ne).
    split; [|split; [done|]; split; [rewrite length_app; cbn; lia|]; split].
    + apply heap_ok_join; cbn [fst snd].
      * by apply (seg_off h h' _ _ p.1).
      * cbn. by rewrite upd_eq.
      * cbn. by rewrite upd_eq.
      * split; [|done|intros b Hb; by apply Hp2; right]. apply (seg_off h h' _ _ p.1); [done| |done]. set_solver.
      * apply sorted_app. apply sorted_app in Fso as (H1 & _ & H3). split; [done|]. split; [apply sorted_cons; split; [constructor|set_solver]|].
        intros b c Hb ->%list_elem_of_singleton. specialize (H3 b p Hb ltac:(by left)). exact H3.
      * intros c Hc. specialize (Hbef c Hc). unfold before, plus, HEADER in *. cbn in *. lia.
      * intros b [Hb| ->%list_elem_of_singleton]%elem_of_app; [apply Fb; set_solver|]. cbn. unfold plus, HEADER in *. lia.
      * destruct Fbase as (bl & Ebl & Hbl). destruct l1 as [|b l1]; cbn in Ebl; injection Ebl as E1 E2.
        { subst p. unfold plus in Em. cbn in Em. lia. }
        subst b. exists (l1 ++ [(p.1, p.2 + n)]). split; [done|]. intros b [Hb| ->%list_elem_of_singleton]%elem_of_app; [|cbn; lia].
        apply Hbl. rewrite <- E2. set_solver.
      * cbn. rewrite fmap_app, fmap_cons. set_solver.
      * done.
    + exists (p.1, p.2 + n). split; [set_solver|cbn; lia].
    + intros x. rewrite !covers_app, !covers_cons. cbn [fst snd]. pose proof (covers_nil x). unfold plus, HEADER in *. intuition lia.
  - exists (l1 ++ p :: (bp, n) :: l2). set (h' := set_freep p.1 _).
    assert (but p.1 h h') as Hbut by (split; [|done]; intros x Hx; cbn; by rewrite !upd_ne).
    split; [|split; [done|]; split; [rewrite length_app; cbn; lia|]; split].
    + apply heap_ok_join.
      * by apply (seg_off h h' _ _ p.1).
      * done.
      * cbn. by rewrite upd_eq.
      * split; [by apply (seg_off h h' _ _ p.1)|by apply sorted_cons|done].
      * done.
      * intros c [->|Hc]%elem_of_cons; [unfold before; cbn; lia|]. specialize (Hbef c Hc). unfold before, plus, HEADER in *. cbn in *. lia.
      * done.
      * done.
      * cbn. rewrite fmap_app, fmap_cons. set_solver.
      * done.
    + exists (bp, n). split; [set_solver|done].
    + intros x. rewrite !covers_app, !covers_cons. pose proof (covers_nil x). tauto.
Qed.

Lemma link_split h bp p : exists h1, h1 = (if plus bp (hsize h bp) =? hptr h p then
             let h1 := set_hsize bp (hsize h bp + hsize h (hptr h p)) h in
             set_hptr bp (hptr h1 (hptr h1 p)) h1
           else set_hptr bp (hptr h p) h) /\
  link bp p h = set_freep p (if plus p (hsize h1 p) =? bp then
             let h2 := set_hsize p (hsize h1 p + hsize h1 bp) h1 in
             set_hptr p (hptr h2 bp) h2
           else set_hptr p bp h1).
Proof. eexists. split; reflexivity. Qed.

(** The headers outside the free memory and the block are as before. *)
Definition kept (l : list block) (bp n : Z) (h h' : heap) : Prop :=
  forall x, x <> base -> ~ covers l x -> ~ (bp <= x < plus bp n) -> hptr h' x = hptr h x /\ hsize h' x = hsize h x.

Lemma link_ok h l1 p l2 bp : let l := l1 ++ p :: l2 in let n := hsize h bp in
  heap_ok h l -> apart h l bp n -> plus p.1 p.2 <= bp -> (forall c, c ∈ l2 -> plus bp n <= c.1) ->
  exists l', heap_ok (link bp p.1 h) l' /\ (forall x, covers l' x <-> bp <= x < plus bp n \/ covers l x) /\
    (length l' <= S (length l))%nat /\ (exists b, b ∈ l' /\ n <= b.2) /\ kept l bp n h (link bp p.1 h) /\
    brk (link bp p.1 h) = brk h.
Proof.
  intros l n O [Hn Hb Htop Hd] Hp H2. destruct (heap_tail _ _ _ _ O) as (Ht & Hs1 & Hsz & Hpt & Hso1 & Hbef & Hb1 & Hbase).
  assert (p.1 < bp) as Hlt.
  { destruct (Hb1 p ltac:(set_solver)) as [Hnp _]. destruct (Z.lt_ge_cases p.1 bp) as [|Hge]; [done|].
    unfold plus, HEADER in Hp. assert (p.2 = 0) as E0 by lia. destruct Hbase as (bl & Ebl & Hbl).
    destruct l1; cbn in Ebl; injection Ebl as E1 E2; [subst p; cbn in *; lia|].
    specialize (Hbl p ltac:(rewrite <- E2; set_solver)). lia. }
  assert (front_ok h l1 p) as F by (split; try done; apply O).
  destruct (link_up h p.1 l2 bp n Ht eq_refl Hn Hb Htop (proj2 (ho_range _ _ O)) ltac:(lia) Hpt H2)
    as (n' & l2' & h1 & Eh1 & Ht1 & Hn1 & Hp1 & Hbut & Hnn' & Hll & Hcov).
  destruct (link_split h bp p.1) as (h1' & Eh1' & El). rewrite <- Eh1 in Eh1'. subst h1'. rewrite El.
  assert (front_ok h1 l1 p) as F1.
  { pose proof (front_below _ _ _ _ F Hlt) as Hf. rewrite fmap_app, not_elem_of_app in Hf. destruct Hf as [Hf1 _].
    destruct F as [Fs Fz Fso Fb Fbase Fr]. destruct Hbut as [Hbx Ebrk]. split; try done.
    - by apply (seg_off h h1 _ _ bp).
    - by destruct (Hbx p.1 ltac:(lia)) as [_ ->].
    - intros b. rewrite Ebrk. apply Fb.
    - by rewrite Ebrk. }
  destruct (link_down h1 l1 p bp n' l2' F1 Ht1 Hn1 Hp1 Hlt Hp) as (l' & O' & Hbut2 & Hlen & (b & Hbl' & Hbn) & Hcov').
  exists l'. split; [exact O'|]. split_and!.
  - intros x. rewrite Hcov', Hcov. unfold l. rewrite !covers_app, !covers_cons. pose proof (covers_nil x). tauto.
  - unfold l. rewrite length_app. cbn [length]. lia.
  - exists b. split; [done|lia].
  - intros x Hx Hnc Hnb. destruct Hbut2 as [Hb2 _], Hbut as [Hb1' _].
    destruct (Hb2 x) as [-> ->].
    + intros ->. destruct (decide (p.2 = 0)) as [E0|].
      { destruct (fo_base _ _ _ F) as (bl & Ebl & Hbl). destruct l1; cbn in Ebl; injection Ebl as E1 E2; [by subst p|].
        specialize (Hbl p ltac:(rewrite <- E2; set_solver)). lia. }
      apply Hnc. exists p. split; [set_solver|]. destruct (Hb1 p ltac:(set_solver)). unfold plus, HEADER. lia.
    + apply Hb1'. intros ->. apply Hnb. unfold plus, HEADER. lia.
  - destruct Hbut2 as [_ ->], Hbut as [_ ->]. done.
Qed.

Lemma free_scan_mono bp h k k' : forall p q, free_scan k bp p h = Ret q -> (k <= k')%nat -> free_scan k' bp p h = Ret q.
Proof.
  revert k'. induction k as [|k IH]; intros k' p q E Hk; [done|]. destruct k' as [|k']; [lia|]. cbn [free_scan] in *.
  case_match; [done|]. case_match; [done|]. apply IH; [done|lia].
Qed.
Lemma free_run h l fuel ap : let bp := ap - HEADER in let n := hsize h bp in
  heap_ok h l -> apart h l bp n -> (length l <= fuel)%nat ->
  exists h' l', free fuel ap h = Ret (tt, h') /\ heap_ok h' l' /\
    (forall x, covers l' x <-> bp <= x < plus bp n \/ covers l x) /\ kept l bp n h h' /\ brk h' = brk h /\
    (length l' <= S (length l))%nat /\ (exists b, b ∈ l' /\ n <= b.2).
Proof.
  intros bp n O A Hf. destruct (apart_place h l bp n O A) as (l1 & p & l2 & E & Hp & H2).
  unfold free. fold bp. rewrite (free_scan_mono _ _ _ fuel _ _ (free_scan_ok h l l1 p l2 bp n O A E Hp H2) Hf).
  cbn [mbind outcome_bind]. subst l.
  destruct (link_ok h l1 p l2 bp O A Hp H2) as (l' & O' & Hc & Hlen & Hbig & Hk & Hbrk). by exists (link bp p.1 h), l'.
Qed.

(** [free] returns the block to the free memory and nothing else.  For a
    block of the heap that overlaps no free block, the search ends within one
    round of the list; the list stays linked, sorted by address and without
    adjacent blocks; the free memory is what it was and the block; and no
    header outside of them changes. *)
Theorem free_ok h l ap : let bp := ap - HEADER in let n := hsize h bp in
  heap_ok h l -> apart h l bp n ->
  exists h' l', free (length l) ap h = Ret (tt, h') /\ heap_ok h' l' /\
    (forall x, covers l' x <-> bp <= x < plus bp n \/ covers l x) /\ kept l bp n h h' /\ brk h' = brk h.
Proof.
  intros bp n O A. destruct (free_run h l (length l) ap O A) as (h' & l' & E & O' & Hc & Hk & Hb & _); [done|]. by exists h', l'.
Qed.






(** * The search of [malloc] *)
Section search.
Context (grants : Z -> Z -> bool) (fuel : nat).







End search.


End inv.


Definition heap1 : heap := Heap (fun x => 64) (fun x => if x =? 1024 then 8 else 0) 64 8192.
Lemma free_ok_witness :
  exists h' l', free 1 1040 heap1 = Ret (tt, h') /\ heap_ok 64 h' l' /\ (covers l' 1030 <-> 1024 <= 1030 < plus 1024 8 \/ covers [(64, 0)] 1030).
Proof.
  destruct (free_ok 64 heap1 [(64, 0)] 1040) as (h' & l' & E & O & Hc & _).
  - split.
    + exists []. split; [reflexivity|]. intros b Hb. inversion Hb.
    + split; [reflexivity|]. split; reflexivity.
    + apply sorted_cons. split; [constructor|]. intros c Hc. inversion Hc.
    + apply list_elem_of_here.
    + intros b Hb. apply list_elem_of_singleton in Hb as ->. discriminate.
    + split; [split; reflexivity|reflexivity].
  - split; [reflexivity|reflexivity|discriminate|]. intros b Hb. apply list_elem_of_singleton in Hb as ->. left. discriminate.
  - exists h', l'. split; [exact E|]. split; [exact O|exact (Hc 1030)].
Defined.
