(* ===== verification/Printf.v ===== *)
(** Formatted output: kernel/printf.c and user/printf.c.

    The output is the list of characters given to [consputc] or [putc].  The
    buffer of [printint] has 16 bytes; a run that stores beyond it is [None].  The
    arguments are the machine words [ap 0], [ap 1], ... in the order [va_arg] takes
    them, and [str a] are the bytes of the string at address [a] before its NUL. *)
From S2P Require Import Prelude.

(** The characters of the formats. *)
Definition CPERCENT : Z := 37.
Definition CMINUS : Z := 45.
Definition C0 : Z := 48.
Definition Cd : Z := 100.
Definition Cl : Z := 108.
Definition Cp : Z := 112.
Definition Cs : Z := 115.
Definition Cu : Z := 117.
Definition Cx : Z := 120.
Definition null_text : list Z := [40; 110; 117; 108; 108; 41].

(** [digits]: ["0123456789abcdef"] in the kernel, capitals in the user library. *)
Definition kdigit (v : Z) : Z := if v <? 10 then 48 + v else 87 + v.
Definition udigit (v : Z) : Z := if v <? 10 then 48 + v else 55 + v.

Definition BUFSZ : nat := 16.
(** [buf[i++] = c] *)
Definition store (c : Z) (buf : list Z) : option (list Z) :=
  if bool_decide (length buf < BUFSZ)%nat then Some (buf ++ [c]) else None.
(** The [do ... while] loop; a 64-bit number has at most 64 digits. *)
Fixpoint digit_loop (fuel : nat) (digit : Z -> Z) (base x : Z) (buf : list Z) : option (list Z) :=
  match fuel with
  | O => None
  | S fuel =>
      buf ← store (digit (x mod base)) buf;
      if x / base =? 0 then Some buf else digit_loop fuel digit base (x / base) buf
  end.
Definition DIGITS : nat := 64.

(** ** kernel/printf.c *)
Definition printint (xx base : Z) (sign : bool) : option (list Z) :=
  let neg := sign && (xx <? 0) in
  let x := if neg then u64 (- xx) else u64 xx in
  buf ← digit_loop DIGITS kdigit base x [];
  buf ← (if neg then store CMINUS buf else Some buf);
  Some (reverse buf).

Fixpoint ptr_loop (digit : Z -> Z) (k : nat) (x : Z) : list Z :=
  match k with
  | O => []
  | S k => digit (Z.shiftr x 60) :: ptr_loop digit k (u64 (Z.shiftl x 4))
  end.
Definition printptr (x : Z) : list Z := C0 :: Cx :: ptr_loop kdigit 16 x.

Section args.
Context (ap : nat -> Z) (str : Z -> list Z).
Definition va_int (k : nat) : Z := s32 (ap k).
Definition va_u64 (k : nat) : Z := u64 (ap k).
Definition va_str (k : nat) : list Z := if ap k =? 0 then null_text else str (ap k).
(** A [uint64] passed as a [long long]. *)
Definition s64 (x : Z) : Z := (x + 2 ^ 63) mod 2 ^ 64 - 2 ^ 63.

(** [a] before what comes after it. *)
Definition out (a rest : option (list Z)) : option (list Z) := x ← a; y ← rest; Some (x ++ y).

(** [fmt] is what is left of the format, [k] the number of arguments taken. *)
Fixpoint printf_loop (fmt : list Z) (k : nat) : option (list Z) :=
  match fmt with
  | [] => Some []
  | cx :: rest =>
      if negb (cx =? CPERCENT) then out (Some [cx]) (printf_loop rest k)
      else match rest with
      | [] => Some []
      | c0 :: r0 =>
          if c0 =? Cd then out (printint (va_int k) 10 true) (printf_loop r0 (S k))
          else if c0 =? Cu then out (printint (va_int k) 10 false) (printf_loop r0 (S k))
          else if c0 =? Cx then out (printint (va_int k) 16 false) (printf_loop r0 (S k))
          else if c0 =? Cp then out (Some (printptr (va_u64 k))) (printf_loop r0 (S k))
          else if c0 =? Cs then out (Some (va_str k)) (printf_loop r0 (S k))
          else if c0 =? CPERCENT then out (Some [CPERCENT]) (printf_loop r0 k)
          else
            let unknown := out (Some [CPERCENT; c0]) (printf_loop r0 k) in
            if negb (c0 =? Cl) then unknown
            else match r0 with
            | c1 :: r1 =>
                if c1 =? Cd then out (printint (s64 (va_u64 k)) 10 true) (printf_loop r1 (S k))
                else if c1 =? Cu then out (printint (s64 (va_u64 k)) 10 false) (printf_loop r1 (S k))
                else if c1 =? Cx then out (printint (s64 (va_u64 k)) 16 false) (printf_loop r1 (S k))
                else if negb (c1 =? Cl) then unknown
                else match r1 with
                | c2 :: r2 =>
                    if c2 =? Cd then out (printint (s64 (va_u64 k)) 10 true) (printf_loop r2 (S k))
                    else if c2 =? Cu then out (printint (s64 (va_u64 k)) 10 false) (printf_loop r2 (S k))
                    else if c2 =? Cx then out (printint (s64 (va_u64 k)) 16 false) (printf_loop r2 (S k))
                    else unknown
                | [] => unknown
                end
            | [] => unknown
            end
      end
  end.
Definition printf (fmt : list Z) : option (list Z) := printf_loop fmt 0.

(** ** user/printf.c *)
Definition uprintint (xx base : Z) (sgn : bool) : option (list Z) :=
  let neg := sgn && (xx <? 0) in
  let x := if neg then u32 (- xx) else u32 xx in
  buf ← digit_loop DIGITS udigit base x [];
  buf ← (if neg then store CMINUS buf else Some buf);
  Some (reverse buf).
Definition uprintptr (x : Z) : list Z := C0 :: Cx :: ptr_loop udigit 16 x.

(** The state after a ['%']; an argument read as [uint64] is passed as an [int]. *)
Fixpoint vprintf_loop (fmt : list Z) (state : bool) (k : nat) : option (list Z) :=
  match fmt with
  | [] => Some []
  | c0 :: r0 =>
      if negb state then
        if c0 =? CPERCENT then vprintf_loop r0 true k else out (Some [c0]) (vprintf_loop r0 false k)
      else if c0 =? Cd then out (uprintint (va_int k) 10 true) (vprintf_loop r0 false (S k))
      else if c0 =? Cu then out (uprintint (va_int k) 10 false) (vprintf_loop r0 false (S k))
      else if c0 =? Cx then out (uprintint (va_int k) 16 false) (vprintf_loop r0 false (S k))
      else if c0 =? Cp then out (Some (uprintptr (va_u64 k))) (vprintf_loop r0 false (S k))
      else if c0 =? Cs then out (Some (va_str k)) (vprintf_loop r0 false (S k))
      else if c0 =? CPERCENT then out (Some [CPERCENT]) (vprintf_loop r0 false k)
      else
        let unknown := out (Some [CPERCENT; c0]) (vprintf_loop r0 false k) in
        if negb (c0 =? Cl) then unknown
        else match r0 with
        | c1 :: r1 =>
            if c1 =? Cd then out (uprintint (s32 (va_u64 k)) 10 true) (vprintf_loop r1 false (S k))
            else if c1 =? Cu then out (uprintint (s32 (va_u64 k)) 10 false) (vprintf_loop r1 false (S k))
            else if c1 =? Cx then out (uprintint (s32 (va_u64 k)) 16 false) (vprintf_loop r1 false (S k))
            else if negb (c1 =? Cl) then unknown
            else match r1 with
            | c2 :: r2 =>
                if c2 =? Cd then out (uprintint (s32 (va_u64 k)) 10 true) (vprintf_loop r2 false (S k))
                else if c2 =? Cu then out (uprintint (s32 (va_u64 k)) 10 false) (vprintf_loop r2 false (S k))
                else if c2 =? Cx then out (uprintint (s32 (va_u64 k)) 16 false) (vprintf_loop r2 false (S k))
                else unknown
            | [] => unknown
            end
        | [] => unknown
        end
  end.
Definition vprintf (fmt : list Z) : option (list Z) := vprintf_loop fmt false 0.
End args.

(** * The digit loop *)
(** The number with the digits [l], least significant first. *)
Fixpoint number (base : Z) (l : list Z) : Z := match l with [] => 0 | d :: l => d + base * number base l end.

Lemma number_app base l k : number base (l ++ k) = number base l + base ^ lenZ l * number base k.
Proof.
  induction l as [|d l IH]; cbn [app number length]; [rewrite Z.pow_0_r; lia|].
  rewrite IH, Nat2Z.inj_succ, Z.pow_succ_r by lia. lia.
Qed.

(** Numerals: digits in range, and no zero in front of the most significant one. *)
Record numeral (base x : Z) (ds : list Z) : Prop := Numeral {
  nu_range : Forall (fun d => 0 <= d < base) ds;
  nu_value : number base ds = x;
  nu_lead : ds = [0] \/ (exists ds' d, ds = ds' ++ [d] /\ d <> 0) }.

Lemma store_ok c buf : (length buf < BUFSZ)%nat -> store c buf = Some (buf ++ [c]).
Proof. intros H. unfold store. by rewrite bool_decide_eq_true_2. Qed.
Lemma store_full c buf : (BUFSZ <= length buf)%nat -> store c buf = None.
Proof. intros H. unfold store. rewrite bool_decide_eq_false_2; [done|lia]. Qed.

Section digits.
Context (digit : Z -> Z) (base : Z) (Hbase : 2 <= base).

(** A number of at most [r] digits, where [r] digits fit. *)
Lemma digit_loop_fits fuel (r : nat) x buf :
  0 <= x < base ^ Z.of_nat r -> (0 < r)%nat -> (length buf + r <= BUFSZ)%nat -> (r <= fuel)%nat ->
  exists ds, digit_loop fuel digit base x buf = Some (buf ++ (digit <$> ds)) /\ numeral base x ds /\ (length ds <= r)%nat.
Proof using Hbase.
  revert fuel x buf. induction r as [|r IH]; intros fuel x buf Hx Hr Hb Hf; [lia|].
  destruct fuel as [|fuel]; [lia|]. cbn [digit_loop]. rewrite store_ok by lia. cbn [mbind option_bind].
  pose proof (Z.mod_pos_bound x base ltac:(lia)) as Hm. pose proof (Z.div_mod x base ltac:(lia)) as Hd.
  destruct (Z.eqb_spec (x / base) 0) as [E|E].
  - exists [x mod base]. split; [done|]. split; [|cbn; lia]. split; cbn.
    + by constructor.
    + lia.
    + destruct (Z.eq_dec (x mod base) 0) as [->|]; [by left|]. right. by exists [], (x mod base).
  - assert (Hq : 0 <= x / base) by (apply Z.div_pos; lia).
    rewrite Nat2Z.inj_succ, Z.pow_succ_r in Hx by lia.
    assert (x / base < base ^ Z.of_nat r) by (apply Z.div_lt_upper_bound; lia).
    destruct r as [|r]; [cbn in *; lia|].
    destruct (IH fuel (x / base) (buf ++ [digit (x mod base)])) as (ds & -> & [N1 N2 N3] & Hl); [lia|lia| |lia|].
    { rewrite length_app. cbn. lia. }
    exists (x mod base :: ds). split; [by rewrite <-app_assoc|]. split; [|cbn; lia]. split.
    + by constructor.
    + cbn. rewrite N2. lia.
    + right. destruct N3 as [->|(ds' & d & -> & Hne)]; [cbn in N2; lia|]. by exists (x mod base :: ds'), d.
Qed.
Lemma digit_loop_overrun fuel (r : nat) x buf :
  base ^ Z.of_nat r <= x -> (BUFSZ <= length buf + r)%nat -> digit_loop fuel digit base x buf = None.
Proof using Hbase.
  revert fuel x buf. induction r as [|r IH]; intros fuel x buf Hx Hb; (destruct fuel as [|fuel]; [done|]); cbn [digit_loop].
  - by rewrite store_full by lia.
  - destruct (decide (length buf < BUFSZ)%nat); [|by rewrite store_full by lia]. rewrite store_ok by done. cbn [mbind option_bind].
    rewrite Nat2Z.inj_succ, Z.pow_succ_r in Hx by lia.
    assert (base ^ Z.of_nat r <= x / base) by (apply Z.div_le_lower_bound; lia).
    pose proof (Z.pow_pos_nonneg base (Z.of_nat r)). destruct (Z.eqb_spec (x / base) 0); [lia|].
    apply IH; [done|]. rewrite length_app. cbn. lia.
Qed.
End digits.

Lemma number_bound base ds : 2 <= base -> Forall (fun d => 0 <= d < base) ds -> 0 <= number base ds < base ^ lenZ ds.
Proof.
  intros Hb. induction 1 as [|d ds Hd _ IH]; cbn [number length]; [lia|].
  rewrite Nat2Z.inj_succ, Z.pow_succ_r by lia. nia.
Qed.

(** The text of a number with [room] bytes for the digits and a minus sign. *)
Definition int_text (digit : Z -> Z) (base x : Z) (neg : bool) (r : option (list Z)) : Prop :=
  if x <? base ^ (if neg then 15 else 16)
  then exists ds, r = Some ((if neg then [CMINUS] else []) ++ (digit <$> reverse ds)) /\ numeral base x ds
  else r = None.
Lemma int_text_ok digit base x (neg : bool) :
  2 <= base -> 0 <= x ->
  int_text digit base x neg (buf ← digit_loop DIGITS digit base x [];
    buf ← (if neg then store CMINUS buf else Some buf); Some (reverse buf)).
Proof.
  intros Hb Hx. unfold int_text.
  destruct neg.
  - destruct (Z.ltb_spec x (base ^ 15)) as [Hlt|Hge].
    + destruct (digit_loop_fits digit base Hb DIGITS 15 x []) as (ds & -> & N & Hl); [done|lia|cbn; unfold BUFSZ; lia|unfold DIGITS; lia|].
      cbn [mbind option_bind app]. rewrite store_ok by (rewrite length_fmap; unfold BUFSZ; lia). cbn [mbind option_bind].
      exists ds. split; [|done]. by rewrite reverse_app, fmap_reverse.
    + destruct (Z.le_gt_cases (base ^ 16) x) as [H16|H16].
      { by rewrite (digit_loop_overrun digit base Hb DIGITS 16) by (first [done|cbn; unfold BUFSZ; lia]). }
      destruct (digit_loop_fits digit base Hb DIGITS 16 x []) as (ds & -> & N & Hl); [done|lia|cbn; unfold BUFSZ; lia|unfold DIGITS; lia|].
      cbn [mbind option_bind app]. rewrite store_full; [done|]. rewrite length_fmap. unfold BUFSZ.
      destruct (decide (length ds <= 15)%nat) as [Hs|]; [|lia]. exfalso.
      pose proof (number_bound base ds Hb (nu_range _ _ _ N)) as HB. rewrite (nu_value _ _ _ N) in HB.
      pose proof (Z.pow_le_mono_r base (lenZ ds) 15). lia.
  - destruct (Z.ltb_spec x (base ^ 16)) as [Hlt|Hge].
    + destruct (digit_loop_fits digit base Hb DIGITS 16 x []) as (ds & -> & N & Hl); [done|lia|cbn; unfold BUFSZ; lia|unfold DIGITS; lia|].
      cbn [mbind option_bind app]. exists ds. split; [|done]. by rewrite fmap_reverse.
    + by rewrite (digit_loop_overrun digit base Hb DIGITS 16) by (first [done|cbn; unfold BUFSZ; lia]).
Qed.

(** C31. The kernel's printint, on any 64-bit argument: its 16-byte buffer
    is large enough exactly when the number has at most 16 digits, 15 if it is
    printed with a minus sign, and then the output is the sign and the numeral of
    the number's magnitude without leading zeros.  So hexadecimal output and every
    number of type int with its sign is safe, while a 64-bit decimal, or a negative
    int given to an unsigned conversion, stores past the buffer. *)
Theorem printint_text (xx base : Z) (sign : bool) :
  2 <= base -> - 2 ^ 63 <= xx < 2 ^ 64 ->
  let neg := sign && (xx <? 0) in
  int_text kdigit base (if neg then - xx else u64 xx) neg (printint xx base sign).
Proof.
  intros Hb Hx neg. unfold printint. fold neg.
  replace (if neg then - xx else u64 xx) with (if neg then u64 (- xx) else u64 xx).
  - apply int_text_ok; [done|]. destruct neg; apply u64_range.
  - subst neg. destruct (sign && (xx <? 0)) eqn:E; [|done]. apply u64_small.
    apply andb_true_iff in E as [_ E]. lia.
Qed.
Lemma printint_text_witness :
  (exists ds, printint (-42) 10 true = Some (CMINUS :: (kdigit <$> reverse ds)) /\ numeral 10 42 ds) /\
  printint (-1) 10 false = None.
Proof.
  split.
  - apply (printint_text (-42) 10 true); lia.
  - apply (printint_text (-1) 10 false); lia.
Defined.

(** * The two libraries agree *)
Definition lower (c : Z) : Z := if (65 <=? c) && (c <=? 90) then c + 32 else c.
Definition lowers (l : list Z) : list Z := lower <$> l.
Definition same_text (a b : option (list Z)) : Prop := lowers <$> a = lowers <$> b.
#[export] Instance same_text_equiv : Equivalence same_text.
Proof. unfold same_text. split; [done|by intros x y|]. intros x y z -> ->. done. Qed.
#[export] Instance out_same : Proper (same_text ==> same_text ==> same_text) out.
Proof.
  unfold same_text, out. intros [a|] [a'|] Ea [b|] [b'|] Eb; cbn in *; try done.
  injection Ea as Ea. injection Eb as Eb. f_equal. unfold lowers in *. rewrite !fmap_app. by f_equal.
Qed.

Lemma digit_case d : 0 <= d < 16 -> lower (kdigit d) = lower (udigit d).
Proof.
  intros Hd. assert (HF : Forall (fun d => lower (kdigit d) = lower (udigit d)) (seqZ 0 16)).
  { change (seqZ 0 16) with [0; 1; 2; 3; 4; 5; 6; 7; 8; 9; 10; 11; 12; 13; 14; 15]. repeat constructor. }
  rewrite Forall_forall in HF. apply HF, elem_of_seqZ. lia.
Qed.
Lemma store_same c c' buf buf' :
  lower c = lower c' -> lowers buf = lowers buf' -> same_text (store c buf) (store c' buf').
Proof.
  intros Ec Eb. assert (El : length buf = length buf') by (by rewrite <-(length_fmap lower buf), <-(length_fmap lower buf'); f_equal).
  unfold store, same_text. rewrite El. case_bool_decide; [|done]. cbn. unfold lowers in *. by rewrite !fmap_app, Eb, !fmap_cons, Ec.
Qed.
Lemma digit_loop_same fuel base x buf buf' :
  2 <= base <= 16 -> lowers buf = lowers buf' ->
  same_text (digit_loop fuel kdigit base x buf) (digit_loop fuel udigit base x buf').
Proof.
  intros Hb. revert x buf buf'. induction fuel as [|fuel IH]; intros x buf buf' E; cbn [digit_loop]; [done|].
  assert (Hd : lower (kdigit (x mod base)) = lower (udigit (x mod base))).
  { apply digit_case. pose proof (Z.mod_pos_bound x base). lia. }
  pose proof (store_same _ _ _ _ Hd E) as HS. unfold same_text in HS.
  destruct (store (kdigit (x mod base)) buf) as [b|], (store (udigit (x mod base)) buf') as [b'|]; cbn in HS |- *; try done.
  injection HS as HS. destruct (x / base =? 0); [unfold same_text; cbn; by rewrite HS|by apply IH].
Qed.
Lemma printint_same x base sign :
  2 <= base <= 16 -> 0 <= x < 2 ^ 31 -> same_text (printint x base sign) (uprintint x base sign).
Proof.
  intros Hb Hx. unfold printint, uprintint. replace (x <? 0) with false by (symmetry; apply Z.ltb_ge; lia).
  rewrite andb_false_r, u64_small, u32_small by lia.
  pose proof (digit_loop_same DIGITS base x [] [] Hb eq_refl) as HS. unfold same_text in *.
  destruct (digit_loop DIGITS kdigit base x []) as [b|], (digit_loop DIGITS udigit base x []) as [b'|]; cbn in HS |- *; try done.
  injection HS as HS. unfold lowers in *. by rewrite !fmap_reverse, HS.
Qed.
Lemma ptr_loop_same k x : 0 <= x < 2 ^ 64 -> lowers (ptr_loop kdigit k x) = lowers (ptr_loop udigit k x).
Proof.
  unfold lowers. revert x. induction k as [|k IH]; intros x Hx; cbn [ptr_loop]; [done|].
  rewrite !fmap_cons, IH by apply u64_range. f_equal. apply digit_case. rewrite Z.shiftr_div_pow2 by lia.
  split; [apply Z.div_pos; lia|apply Z.div_lt_upper_bound; lia].
Qed.
Lemma printptr_same x : 0 <= x < 2 ^ 64 -> same_text (Some (printptr x)) (Some (uprintptr x)).
Proof.
  intros Hx. unfold same_text, printptr, uprintptr. pose proof (ptr_loop_same 16 x Hx) as E. revert E.
  generalize (ptr_loop kdigit 16 x), (ptr_loop udigit 16 x). intros l l' E. cbn [fmap option_fmap option_map]. unfold lowers in *. by rewrite !fmap_cons, E.
Qed.

(** The kernel's printf, which walks the format by index, and the user
    library's vprintf, which walks it with a state, print the same text, up to the
    case of hexadecimal digits, for every format and all arguments below 2^31.
    (They differ on other arguments: the user
    library cuts a long argument to an int.) *)
Theorem printf_agree (ap : nat -> Z) (str : Z -> list Z) (fmt : list Z) :
  (forall k, 0 <= ap k < 2 ^ 31) -> same_text (printf ap str fmt) (vprintf ap str fmt).
Proof.
  intros Hap. unfold printf, vprintf. generalize O as k. induction fmt as [fmt IH] using (induction_ltof1 _ (@length Z)).
  intros k. destruct (Hap k) as [Hk0 Hk]. unfold ltof in IH.
  assert (Ei : va_int ap k = ap k) by (apply s32_small; lia).
  assert (Eu : va_u64 ap k = ap k) by (apply u64_small; lia).
  assert (E6 : s64 (ap k) = ap k) by (unfold s64; rewrite Z.mod_small; lia).
  assert (E3 : s32 (ap k) = ap k) by (apply s32_small; lia).
  pose proof (fun b s Hb => printint_same (ap k) b s Hb (conj Hk0 Hk)) as PI.
  destruct fmt as [|cx rest]; [done|]. cbn [printf_loop vprintf_loop negb].
  destruct (cx =? CPERCENT); cbn [negb]; [|apply out_same; [done|apply IH; cbn; lia]].
  destruct rest as [|c0 r0]; [done|]. cbn [vprintf_loop negb]. rewrite !Ei, !Eu, !E6, !E3.
  assert (I0 : forall k, same_text (printf_loop ap str r0 k) (vprintf_loop ap str r0 false k)) by (intros; apply IH; cbn; lia).
  assert (U : same_text (out (Some [CPERCENT; c0]) (printf_loop ap str r0 k)) (out (Some [CPERCENT; c0]) (vprintf_loop ap str r0 false k)))
    by (by apply out_same).
  repeat first
    [ exact U
    | match goal with
      | |- same_text (out (printint _ _ _) _) _ => apply out_same; [apply PI; lia|]
      | |- same_text (out (Some (printptr _)) _) _ => apply out_same; [apply printptr_same; lia|]
      | |- same_text (out (Some ?x) _) (out (Some ?x) _) => apply out_same; [exact (reflexivity (Some x))|]
      | |- same_text (printf_loop _ _ r0 _) _ => apply I0
      | |- same_text (printf_loop _ _ _ _) _ => apply IH; cbn; lia
      end
    | case_match ].
Qed.
Lemma printf_agree_witness :
  same_text (printf (fun _ => 10) (fun _ => [104; 105]) [CPERCENT; Cx; 32; CPERCENT; Cs])
            (vprintf (fun _ => 10) (fun _ => [104; 105]) [CPERCENT; Cx; 32; CPERCENT; Cs]).
Proof. apply printf_agree. intros k. lia. Defined.
