(* ===== verification/User.v ===== *)
(** User programs.

    A program is a computation that makes system calls and ends with a call of
    exit, or with an exec that succeeds.  The kernel is the interface [Os]: one
    operation that answers a call.  A process is a run of its program; after
    fork the child is the run in which fork returned 0.  Strings are the lists of
    their bytes before the NUL. *)
From S2P Require Import Prelude Printf.

(** user/user.h: the system calls. *)
Inductive call :=
| CFork
| CWait
| CPipe
| CRead (fd n : Z)
| CWrite (fd : Z) (l : list Z)
| COpen (path : list Z) (mode : Z)
| CClose (fd : Z)
| CFstat (fd : Z)
| CDup (fd : Z)
| CChdir (path : list Z)
| CUnlink (path : list Z)
| CLink (old new : list Z)
| CMkdir (path : list Z)
| CMknod (path : list Z) (major minor : Z)
| CKill (pid : Z)
| CExec (path : list Z) (argv : list (list Z))
| CSleep (n : Z).
(** The answers: the result; for read also the bytes stored in the buffer, for
    pipe the two descriptors and for fstat type, inode number and size.  An exec
    that succeeds does not return. *)
Inductive reply :=
| RVal (r : Z)
| RData (r : Z) (l : list Z)
| RPipe (r p0 p1 : Z)
| RStat (r type ino size : Z)
| RGone.

(** How a program ends. *)
Inductive fin := Exited (status : Z) | Execed (argv : list (list Z)).

Class Os (S : Type) := os_call : call -> M S reply.

Definition prog (S A : Type) : Type := M S (A + fin).
#[export] Instance prog_ret S : MRet (prog S) := fun A a s => Ret (inl a, s).
#[export] Instance prog_bind S : MBind (prog S) := fun A B f m s =>
  match m s with
  | Ret (inl a, s') => f a s'
  | Ret (inr e, s') => Ret (inr e, s')
  | Panic e => Panic e
  | Blocked => Blocked
  | NoFuel => NoFuel
  end.
Definition exit {S A} (status : Z) : prog S A := fun s => Ret (inr (Exited status), s).
Definition out_of_fuel {S A} : prog S A := fun _ => NoFuel.
Fixpoint each {S A} (l : list A) (f : A -> prog S unit) : prog S unit :=
  match l with
  | [] => mret tt
  | x :: l => _ ← f x; each l f
  end.

(** * System calls *)
Section calls.
Context {S : Type} `{Os S}.
Definition sys (c : call) : prog S reply := fun s =>
  match os_call c s with
  | Ret (r, s') => Ret (inl r, s')
  | Panic e => Panic e
  | Blocked => Blocked
  | NoFuel => NoFuel
  end.
Definition rval (r : reply) : Z :=
  match r with RVal r => r | RData r _ => r | RPipe r _ _ => r | RStat r _ _ _ => r | RGone => 0 end.
Definition scall (c : call) : prog S Z := r ← sys c; mret (rval r).

Definition fork : prog S Z := scall CFork.
Definition wait : prog S Z := scall CWait.
Definition write (fd : Z) (l : list Z) : prog S Z := scall (CWrite fd l).
Definition read (fd n : Z) : prog S (Z * list Z) :=
  r ← sys (CRead fd n);
  mret (match r with RData r l => (r, l) | _ => (rval r, []) end).
Definition open (path : list Z) (mode : Z) : prog S Z := scall (COpen path mode).
Definition close (fd : Z) : prog S Z := scall (CClose fd).
Definition dup (fd : Z) : prog S Z := scall (CDup fd).
Definition pipe : prog S (Z * Z * Z) :=
  r ← sys CPipe;
  mret (match r with RPipe r p0 p1 => (r, p0, p1) | _ => (rval r, 0, 0) end).
(** fstat: the result and the type, inode number and size in [*st]. *)
Definition fstat (fd : Z) : prog S (Z * (Z * Z * Z)) :=
  r ← sys (CFstat fd);
  mret (match r with RStat r ty ino size => (r, (ty, ino, size)) | _ => (rval r, (0, 0, 0)) end).
Definition exec (path : list Z) (argv : list (list Z)) : prog S Z := fun s =>
  match os_call (CExec path argv) s with
  | Ret (RGone, s') => Ret (inr (Execed argv), s')
  | Ret (r, s') => Ret (inl (rval r), s')
  | Panic e => Panic e
  | Blocked => Blocked
  | NoFuel => NoFuel
  end.

(** [fprintf]: [putc] writes one byte at a time and ignores the result.  A text
    that does not fit the buffer of [printint] is undefined behaviour. *)
Definition fprintf (fd : Z) (fmt : list Z) (ap : nat -> Z) (str : Z -> list Z) : prog S unit :=
  match vprintf ap str fmt with
  | Some text => each text (fun c => _ ← write fd [c]; mret tt)
  | None => fun _ => Panic "buffer overrun"
  end.
End calls.

Lemma prog_run {S A B} (m : prog S A) (f : A -> prog S B) s :
  (m ≫= f) s = match m s with
               | Ret (inl a, s') => f a s'
               | Ret (inr e, s') => Ret (inr e, s')
               | Panic e => Panic e
               | Blocked => Blocked
               | NoFuel => NoFuel
               end.
Proof. done. Qed.

(** * Any kernel: a list of answers *)
(** What a kernel answers to the calls of one process, and the calls that the
    process has made. *)
Record io := Io { replies : list reply; calls : list call }.
#[export] Instance script_os : Os io := fun c s =>
  match replies s with
  | r :: rs => Ret (r, Io rs (calls s ++ [c]))
  | [] => Blocked
  end.

(** The run makes the calls [cs], answered [rs], and then gives [r]. *)
Definition does {A} (m : prog io A) (cs : list call) (rs : list reply) (r : A + fin) : Prop :=
  length cs = length rs /\ forall rest tr, m (Io (rs ++ rest) tr) = Ret (r, Io rest (tr ++ cs)).

Lemma does_ret {A} (a : A) : does (mret a) [] [] (inl a).
Proof. split; [done|]. intros rest tr. by rewrite app_nil_r. Qed.
Lemma does_exit {A} n : does (exit n : prog io A) [] [] (inr (Exited n)).
Proof. split; [done|]. intros rest tr. unfold exit. by rewrite app_nil_r. Qed.
Lemma does_bind {A B} (m : prog io A) (f : A -> prog io B) cs rs a cs' rs' r :
  does m cs rs (inl a) -> does (f a) cs' rs' r -> does (m ≫= f) (cs ++ cs') (rs ++ rs') r.
Proof.
  intros [L1 H1] [L2 H2]. split; [by rewrite !length_app, L1, L2|]. intros rest tr.
  rewrite prog_run, <- app_assoc, H1, H2. by rewrite app_assoc.
Qed.
Lemma does_end {A B} (m : prog io A) (f : A -> prog io B) cs rs e : does m cs rs (inr e) -> does (m ≫= f) cs rs (inr e).
Proof. intros [L1 H1]. split; [done|]. intros rest tr. by rewrite prog_run, H1. Qed.
Lemma does_sys c r : does (sys c) [c] [r] (inl r).
Proof. done. Qed.
Lemma does_scall c r : does (scall c) [c] [r] (inl (rval r)).
Proof. done. Qed.
Lemma does_read fd n r l : does (read fd n) [CRead fd n] [RData r l] (inl (r, l)).
Proof. done. Qed.
(** Calls that are made and answered one after the other. *)
Lemma does_each {A} (l : list A) (f : A -> prog io unit) (cs : A -> list call) (rs : A -> list reply) :
  (forall x, x ∈ l -> does (f x) (cs x) (rs x) (inl tt)) -> does (each l f) (l ≫= cs) (l ≫= rs) (inl tt).
Proof.
  induction l as [|x l IH]; intros Hf; cbn [each mbind list_bind]; [apply does_ret|].
  eapply does_bind; [apply Hf; set_solver|]. apply IH. set_solver.
Qed.

(** The bytes written to a descriptor. *)
Definition written (fd : Z) (cs : list call) : list Z :=
  concat ((fun c => match c with CWrite f l => if f =? fd then l else [] | _ => [] end) <$> cs).
Lemma written_app fd cs cs' : written fd (cs ++ cs') = written fd cs ++ written fd cs'.
Proof. unfold written. by rewrite fmap_app, concat_app. Qed.

(** [fprintf] writes its text, whatever the kernel answers. *)
Lemma does_fprintf fd fmt ap str text (rs : list reply) :
  vprintf ap str fmt = Some text -> length rs = length text ->
  does (fprintf fd fmt ap str) ((fun c => CWrite fd [c]) <$> text) rs (inl tt).
Proof.
  intros E Hl. unfold fprintf. rewrite E. clear E. revert rs Hl.
  induction text as [|c text IH]; intros [|r rs] Hl; try done; [apply does_ret|].
  injection Hl as Hl. apply (does_bind _ _ [CWrite fd [c]] [r] tt); [|by apply IH].
  apply (does_bind _ _ [CWrite fd [c]] [r] (rval r) [] []); [apply does_scall|apply does_ret].
Qed.
Lemma written_text fd (text : list Z) : written fd ((fun c => CWrite fd [c]) <$> text) = text.
Proof.
  induction text as [|c text IH]; [done|]. cbn [fmap list_fmap]. unfold written in *. cbn [fmap list_fmap concat].
  rewrite Z.eqb_refl. cbn [app]. f_equal. exact IH.
Qed.
