(* ===== verification/Ulib.v ===== *)
(** The user library (user/ulib.c).  The routines on memory are their byte loops;
    [strchr], [atoi] and [gets] work on strings as lists of bytes. *)
From S2P Require Import Prelude Riscv Memory Printf User.

(** [while(( *s++ = *t++) != 0);]  The fuel bounds the bytes looked at. *)
Fixpoint ustrcpy (fuel : nat) (m : mem) (s t : Z) : outcome mem :=
  match fuel with
  | O => NoFuel
  | S fuel =>
      let c := ld8 m t in
      let m := st8 m s c in
      if c =? 0 then Ret m else ustrcpy fuel m (s + 1) (t + 1)
  end.
Fixpoint ustrcmp (fuel : nat) (m : mem) (p q : Z) : outcome Z :=
  match fuel with
  | O => NoFuel
  | S fuel => if nz (ld8 m p) && (ld8 m p =? ld8 m q) then ustrcmp fuel m (p + 1) (q + 1)
              else Ret (ld8 m p - ld8 m q)
  end.
Fixpoint ustrlen_loop (fuel : nat) (m : mem) (s n : Z) : outcome Z :=
  match fuel with
  | O => NoFuel
  | S fuel => if ld8 m (s + n) =? 0 then Ret n else ustrlen_loop fuel m s (n + 1)
  end.
Definition ustrlen (fuel : nat) (m : mem) (s : Z) : outcome Z := ustrlen_loop fuel m s 0.
Definition umemset (m : mem) (dst c n : Z) : mem := memset_loop (Z.to_nat n) m dst c.
Definition umemmove (m : mem) (dst src n : Z) : mem :=
  if src >? dst then memmove_fwd (Z.to_nat n) m dst src
  else memmove_bwd (Z.to_nat n) m (dst + n) (src + n).
Definition umemcmp (m : mem) (s1 s2 n : Z) : Z := memcmp_loop (Z.to_nat n) m s1 s2.
Definition umemcpy (m : mem) (dst src n : Z) : mem := umemmove m dst src n.

(** The rest of the string from the first [c] on; NULL is [None]. *)
Fixpoint strchr (s : list Z) (c : Z) : option (list Z) :=
  match s with
  | [] => None
  | x :: s' => if x =? c then Some s else strchr s' c
  end.

Fixpoint atoi_loop (n : Z) (s : list Z) : Z :=
  match s with
  | c :: s => if (48 <=? c) && (c <=? 57) then atoi_loop (s32 (n * 10 + c - 48)) s else n
  | [] => n
  end.
Definition atoi (s : list Z) : Z := atoi_loop 0 s.

Section sys.
Context {K : Type} `{Os K}.
(** [start]: the wrapper around main. *)
Definition ustart (main : prog K unit) : prog K unit := _ ← main; exit 0.
Definition O_RDONLY : Z := 0.
(** The bytes stored in [buf] before the NUL that [gets] writes; a round per byte. *)
Fixpoint gets_loop (rounds : nat) (buf : list Z) (max : Z) : prog K (list Z) :=
  if lenZ buf + 1 <? max then
    match rounds with
    | O => out_of_fuel
    | S rounds =>
        r ← read 0 1;
        let '(cc, l) := r in
        if cc <? 1 then mret buf
        else
          let c := hd 0 l in
          let buf := buf ++ [c] in
          if (c =? 10) || (c =? 13) then mret buf else gets_loop rounds buf max
    end
  else mret buf.
Definition gets (max : Z) : prog K (list Z) := gets_loop (Z.to_nat max) [] max.

Definition stat (n : list Z) : prog K (Z * (Z * Z * Z)) :=
  fd ← open n O_RDONLY;
  if fd <? 0 then mret (-1, (0, 0, 0))
  else
    r ← fstat fd;
    _ ← close fd;
    mret r.
End sys.

(** * Correctness *)
(** The string at [t] has [k] bytes before its NUL. *)
Definition string_at (m : mem) (t : Z) (k : Z) : Prop :=
  0 <= k /\ (forall i, 0 <= i < k -> ld8 m (t + i) <> 0) /\ ld8 m (t + k) = 0.
Lemma string_at_next m t k : string_at m t k -> ld8 m t <> 0 -> string_at m (t + 1) (k - 1).
Proof.
  intros (Hk & Hn & H0) Ht. assert (k <> 0) by (intros ->; rewrite Z.add_0_r in H0; done).
  split; [lia|]. split; [intros i Hi|]; rewrite <- Z.add_assoc.
  - apply Hn. lia.
  - by replace (1 + (k - 1)) with k by lia.
Qed.
Lemma string_at_end m t k : string_at m t k -> ld8 m t = 0 -> k = 0.
Proof.
  intros (Hk & Hn & H0) Ht. destruct (decide (k = 0)); [done|]. destruct (Hn 0); [lia|]. by rewrite Z.add_0_r.
Qed.

(** [strcpy] copies a string with its NUL into a buffer that does not overlap it,
    and nothing else; it needs a round per byte. *)
Lemma ustrcpy_copies fuel : forall m s t k,
  string_at m t k -> s + k < t \/ t + k < s -> k < Z.of_nat fuel ->
  exists m', ustrcpy fuel m s t = Ret m' /\ m' ≈m mcopy m s t (k + 1).
Proof.
  induction fuel as [|fuel IH]; intros m s t k Hs Hd Hf; [destruct Hs; lia|]. cbn [ustrcpy].
  pose proof (proj1 Hs) as Hk. destruct (Z.eqb_spec (ld8 m t) 0) as [E|E].
  - rewrite (string_at_end _ _ _ Hs E). eexists. split; [done|]. intros a. rewrite ld8_st8, ld8_mcopy.
    destruct (Z.eqb_spec a s) as [->|Hne].
    + rewrite Z.sub_diag, Z.add_0_r. bools. apply u8_small, ld8_range.
    + by bools.
  - destruct (IH (st8 m s (ld8 m t)) (s + 1) (t + 1) (k - 1)) as (m' & -> & Hm).
    + destruct (string_at_next _ _ _ Hs E) as (H1 & H2 & H3). split; [done|].
      split; [intros i Hi|]; rewrite ld8_st8_other by lia; [by apply H2|done].
    + lia.
    + lia.
    + eexists. split; [done|]. intros a. rewrite Hm, !ld8_mcopy, !ld8_st8.
      destruct (Z.eqb_spec a s) as [->|Hne].
      * bools. rewrite Z.sub_diag, Z.add_0_r. apply u8_small, ld8_range.
      * bools; try done. f_equal. lia.
Qed.

(** The two copies of memmove, in the kernel and in the user library, test the
    overlap differently and have the same effect. *)
Theorem memmove_agree m dst src n : 0 <= n -> umemmove m dst src n ≈m memmove m dst src n.
Proof.
  intros Hn. rewrite memmove_mcopy by done. intros a. unfold umemmove. rewrite ld8_mcopy, Z.gtb_ltb.
  destruct (Z.ltb_spec dst src).
  - rewrite ld8_memmove_fwd, Z2Nat.id by lia. done.
  - rewrite ld8_memmove_bwd, Z2Nat.id by lia. bools; try done. f_equal. lia.
Qed.

Lemma strchr_spec s c :
  match strchr s c with
  | Some r => exists pre rest, s = pre ++ r /\ r = c :: rest /\ c ∉ pre
  | None => c ∉ s
  end.
Proof.
  induction s as [|x s IH]; cbn [strchr]; [set_solver|]. destruct (Z.eqb_spec x c) as [->|Hne].
  - exists [], s. split; [done|]. split; [done|set_solver].
  - destruct (strchr s c) as [r|]; [|set_solver]. destruct IH as (pre & rest & -> & -> & Hn).
    exists (x :: pre), rest. split; [done|]. split; [done|set_solver].
Qed.

(** ** Numbers *)
Lemma atoi_digits ds : forall n rest,
  Forall (fun d => 0 <= d < 10) ds -> 0 <= n -> n * 10 ^ lenZ ds + number 10 (reverse ds) < 2 ^ 31 ->
  match rest with [] => True | c :: _ => ~ 48 <= c <= 57 end ->
  atoi_loop n ((udigit <$> ds) ++ rest) = n * 10 ^ lenZ ds + number 10 (reverse ds).
Proof.
  induction ds as [|d ds IH]; intros n rest Hd Hn Hlt Hr.
  - cbn [fmap list_fmap app reverse number length]. rewrite Z.pow_0_r, Z.mul_1_r. change (reverse []) with (@nil Z). cbn [number].
    rewrite Z.add_0_r. destruct rest as [|c rest]; [done|]. cbn [atoi_loop].
    destruct (Z.leb_spec 48 c), (Z.leb_spec c 57); cbn [andb]; (done || lia).
  - apply Forall_cons in Hd as [Hd Hds]. cbn [fmap list_fmap app atoi_loop length] in *.
    assert (udigit d = 48 + d) as -> by (unfold udigit; by rewrite (proj2 (Z.ltb_lt _ _)) by lia).
    rewrite (proj2 (Z.leb_le 48 _)), (proj2 (Z.leb_le _ 57)) by lia. cbn [andb].
    rewrite reverse_cons, number_app in Hlt |- *. cbn [number] in Hlt |- *. rewrite length_reverse in Hlt |- *.
    rewrite Nat2Z.inj_succ, Z.pow_succ_r in Hlt |- * by lia.
    assert (0 < 10 ^ lenZ ds) as Hp by (apply Z.pow_pos_nonneg; lia).
    pose proof (number_bound 10 (reverse ds) ltac:(lia) ltac:(by apply Forall_reverse)) as Hb.
    replace (n * 10 + (48 + d) - 48) with (n * 10 + d) by lia.
    assert (n * 10 + d < 2 ^ 31) as Hs by nia.
    rewrite s32_small by lia. rewrite IH by (try done; nia). nia.
Qed.

(** The text is a decimal number, and [x] is its value. *)
Definition decimal (t : list Z) (x : Z) : Prop :=
  t <> [] /\ Forall (fun c => 48 <= c <= 57) t /\ forall rest, match rest with [] => True | c :: _ => ~ 48 <= c <= 57 end -> atoi (t ++ rest) = x.

(** What [printf("%d")] of the user library prints for a number that is not
    negative is a decimal number, and [atoi] reads it back, whatever follows that
    is not a digit. *)
Theorem atoi_printint x : 0 <= x < 2 ^ 31 -> exists t, uprintint x 10 true = Some t /\ decimal t x.
Proof.
  intros Hx. unfold uprintint. rewrite (proj2 (Z.ltb_ge x 0)) by lia. cbn [andb]. rewrite u32_small by lia.
  pose proof (int_text_ok udigit 10 x false ltac:(lia) ltac:(lia)) as HT. unfold int_text in HT.
  rewrite (proj2 (Z.ltb_lt _ _)) in HT by lia. destruct HT as (ds & -> & [Hrg Hv Hnz]). eexists. split; [done|].
  cbn [app]. split; [|split].
  - destruct Hnz as [->|(ds' & d & -> & _)]; [done|]. by rewrite reverse_app.
  - apply Forall_fmap, Forall_reverse. eapply Forall_impl; [exact Hrg|]. intros d Hd. cbn beta in Hd. unfold compose, udigit.
    rewrite (proj2 (Z.ltb_lt _ _)) by lia. lia.
  - intros rest Hr. unfold atoi. rewrite (atoi_digits (reverse ds)); rewrite ?reverse_involutive, ?Hv; try done; try lia.
    by apply Forall_reverse.
Qed.

(** ** Lines *)
(** The line that [gets] returns from the bytes [l] that are to be read: up to a
    newline or return, at most [n] bytes. *)
Fixpoint line (n : nat) (l : list Z) : list Z :=
  match n, l with
  | S n, c :: l => if (c =? 10) || (c =? 13) then [c] else c :: line n l
  | _, _ => []
  end.
(** The calls and answers for that line: a byte per call, then end of file. *)
Fixpoint line_replies (n : nat) (l : list Z) : list reply :=
  match n, l with
  | S n, c :: l => RData 1 [c] :: if (c =? 10) || (c =? 13) then [] else line_replies n l
  | S n, [] => [RData 0 []]
  | O, _ => []
  end.
Lemma gets_loop_does rounds : forall max buf l,
  (Z.to_nat (max - 1) - length buf <= rounds)%nat ->
  let k := (Z.to_nat (max - 1) - length buf)%nat in
  let rs := line_replies k l in
  does (gets_loop rounds buf max) (replicate (length rs) (CRead 0 1)) rs (inl (buf ++ line k l)).
Proof.
  induction rounds as [|rounds IH]; intros max buf l Hk k rs; unfold rs, k in *; clear rs k; cbn [gets_loop];
    destruct (Z.ltb_spec (lenZ buf + 1) max) as [Hlt|Hge].
  - lia.
  - replace (Z.to_nat (max - 1) - length buf)%nat with 0%nat by lia. cbn. rewrite app_nil_r. apply does_ret.
  - replace (Z.to_nat (max - 1) - length buf)%nat with (S (Z.to_nat (max - 1) - S (length buf))) by lia.
    cbn [line line_replies]. destruct l as [|c l].
    + cbn [length replicate]. rewrite app_nil_r. apply (does_bind _ _ [CRead 0 1] [_] (0, []) [] []); [apply does_read|apply does_ret].
    + cbn [length replicate]. destruct ((c =? 10) || (c =? 13)) eqn:E.
      { apply (does_bind _ _ [CRead 0 1] [RData 1 [c]] (1, [c]) [] []); [apply does_read|].
        change (1 <? 1) with false. cbn [hd]. cbv zeta iota. rewrite E. apply does_ret. }
      apply (does_bind _ _ [CRead 0 1] [RData 1 [c]] (1, [c])); [apply does_read|].
      change (1 <? 1) with false. cbn [hd]. cbv zeta iota. rewrite E.
      specialize (IH max (buf ++ [c]) l). rewrite length_app in IH. cbn [length] in IH.
      replace (Z.to_nat (max - 1) - (length buf + 1))%nat with (Z.to_nat (max - 1) - S (length buf))%nat in IH by lia.
      rewrite <- app_assoc in IH. apply IH. lia.
  - replace (Z.to_nat (max - 1) - length buf)%nat with 0%nat by lia. cbn. rewrite app_nil_r. apply does_ret.
Qed.
(** [gets] reads a byte at a time and returns the first line of the input, cut to
    the buffer; it reads nothing beyond the line. *)
Lemma gets_does max l :
  let k := Z.to_nat (max - 1) in
  does (gets max) (replicate (length (line_replies k l)) (CRead 0 1)) (line_replies k l) (inl (line k l)).
Proof.
  intros k. pose proof (gets_loop_does (Z.to_nat max) max [] l) as HG. cbn [length app] in HG. rewrite Nat.sub_0_r in HG.
  apply HG. lia.
Qed.
