(* ===== verification/Utils.v ===== *)
(** The small user programs (user/cat.c, wc.c, echo.c, ls.c, kill.c, ln.c,
    mkdir.c, rm.c, init.c, zombie.c and the main of grep.c).

    [argv] is the whole argument vector, the name of the program included.  A
    loop around read has a number of rounds; [exit] ends the run. *)
From S2P Require Import Prelude Riscv Printf Fs Grep User Ulib.

(** The bytes of a text of the source. *)
Definition txt (s : string) : list Z := (fun a => Z.of_N (Ascii.N_of_ascii a)) <$> String.list_ascii_of_string s.
Definition nl : list Z := [10].

(** Arguments of a format: an [int], or a string, whose address is not 0. *)
Inductive arg := AInt (x : Z) | AStr (t : list Z).
Definition ap_of (l : list arg) (k : nat) : Z :=
  match l !! k with Some (AInt x) => x | Some (AStr _) => Z.of_nat k + 1 | None => 0 end.
Definition str_of (l : list arg) (a : Z) : list Z :=
  match l !! Z.to_nat (a - 1) with Some (AStr t) => t | _ => [] end.

Section programs.
Context {K : Type} `{Os K}.
Definition uprintf (fd : Z) (fmt : list Z) (l : list arg) : prog K unit := fprintf fd fmt (ap_of l) (str_of l).

(** ** cat.c *)
Fixpoint cat_loop (rounds : nat) (fd : Z) : prog K Z :=
  match rounds with
  | O => out_of_fuel
  | S rounds =>
      r ← read fd 512;
      let '(n, l) := r in
      if n >? 0 then
        w ← write 1 l;
        if negb (w =? n) then _ ← uprintf 2 (txt "cat: write error" ++ nl) []; exit 1
        else cat_loop rounds fd
      else mret n
  end.
Definition cat (rounds : nat) (fd : Z) : prog K unit :=
  n ← cat_loop rounds fd;
  if n <? 0 then _ ← uprintf 2 (txt "cat: read error" ++ nl) []; exit 1 else mret tt.
Definition cat_main (rounds : nat) (argv : list (list Z)) : prog K unit :=
  if lenZ argv <=? 1 then _ ← cat rounds 0; exit 0
  else
    _ ← each (tail argv) (fun name =>
          fd ← open name O_RDONLY;
          if fd <? 0 then _ ← uprintf 2 (txt "cat: cannot open %s" ++ nl) [AStr name]; exit 1
          else _ ← cat rounds fd; _ ← close fd; mret tt);
    exit 0.

(** ** wc.c *)
Record counts := Counts { c_l : Z; c_w : Z; c_c : Z; c_inword : bool }.
Definition blanks : list Z := [32; 13; 9; 10; 11].
Definition wc_byte (k : counts) (b : Z) : counts :=
  let c := s32 (c_c k + 1) in
  let l := if b =? 10 then s32 (c_l k + 1) else c_l k in
  match strchr blanks b with
  | Some _ => Counts l (c_w k) c false
  | None => if negb (c_inword k) then Counts l (s32 (c_w k + 1)) c true else Counts l (c_w k) c true
  end.
Fixpoint wc_loop (rounds : nat) (fd : Z) (k : counts) : prog K (Z * counts) :=
  match rounds with
  | O => out_of_fuel
  | S rounds =>
      r ← read fd 512;
      let '(n, l) := r in
      if n >? 0 then wc_loop rounds fd (foldl wc_byte k l) else mret (n, k)
  end.
Definition wc (rounds : nat) (fd : Z) (name : list Z) : prog K unit :=
  r ← wc_loop rounds fd (Counts 0 0 0 false);
  let '(n, k) := r in
  if n <? 0 then _ ← uprintf 1 (txt "wc: read error" ++ nl) []; exit 1
  else uprintf 1 (txt "%d %d %d %s" ++ nl) [AInt (c_l k); AInt (c_w k); AInt (c_c k); AStr name].
Definition wc_main (rounds : nat) (argv : list (list Z)) : prog K unit :=
  if lenZ argv <=? 1 then _ ← wc rounds 0 []; exit 0
  else
    _ ← each (tail argv) (fun name =>
          fd ← open name O_RDONLY;
          if fd <? 0 then _ ← uprintf 1 (txt "wc: cannot open %s" ++ nl) [AStr name]; exit 1
          else _ ← wc rounds fd name; _ ← close fd; mret tt);
    exit 0.

(** ** echo.c *)
Fixpoint echo_loop (args : list (list Z)) : prog K unit :=
  match args with
  | [] => mret tt
  | a :: rest =>
      _ ← write 1 a;
      _ ← write 1 (match rest with [] => nl | _ => [32] end);
      echo_loop rest
  end.
Definition echo_main (argv : list (list Z)) : prog K unit := _ ← echo_loop (tail argv); exit 0.

(** ** ls.c *)
(** [for(p=path+strlen(path); p >= path && *p != '/'; p--)] and [p++]: an offset. *)
Fixpoint last_name (k : nat) (path : list Z) : nat :=
  if nth k path 0 =? SLASH then S k else match k with O => O | S k => last_name k path end.
Definition fmtname (path : list Z) : list Z :=
  let p := drop (last_name (length path) path) path in
  if lenZ p >=? DIRSIZ then p else p ++ replicate (Z.to_nat (DIRSIZ - lenZ p)) 32.

(** The string in a field: up to the first NUL. *)
Fixpoint field (l : list Z) : list Z :=
  match l with
  | [] => []
  | c :: l => if c =? 0 then [] else c :: field l
  end.
Definition ls_line (path : list Z) (st : Z * Z * Z) : prog K unit :=
  let '(type, ino, size) := st in
  uprintf 1 (txt "%s %d %d %d" ++ nl) [AStr (fmtname path); AInt type; AInt ino; AInt (s32 size)].
Fixpoint ls_entries (rounds : nat) (fd : Z) (path : list Z) : prog K unit :=
  match rounds with
  | O => out_of_fuel
  | S rounds =>
      r ← read fd DIRENT;
      let '(n, de) := r in
      if n =? DIRENT then
        if nth 0 de 0 + 2 ^ 8 * nth 1 de 0 =? 0 then ls_entries rounds fd path
        else
          let buf := path ++ [SLASH] ++ field (take (Z.to_nat DIRSIZ) (drop 2 de)) in
          r ← stat buf;
          let '(e, st) := r in
          _ ← (if e <? 0 then uprintf 1 (txt "ls: cannot stat %s" ++ nl) [AStr buf] else ls_line buf st);
          ls_entries rounds fd path
      else mret tt
  end.
Definition ls (rounds : nat) (path : list Z) : prog K unit :=
  fd ← open path O_RDONLY;
  if fd <? 0 then uprintf 2 (txt "ls: cannot open %s" ++ nl) [AStr path]
  else
    r ← fstat fd;
    let '(e, st) := r in
    if e <? 0 then _ ← uprintf 2 (txt "ls: cannot stat %s" ++ nl) [AStr path]; _ ← close fd; mret tt
    else
      let type := fst (fst st) in
      _ ← (if (type =? T_DEVICE) || (type =? T_FILE) then ls_line path st
           else if type =? T_DIR then
             if lenZ path + 1 + DIRSIZ + 1 >? 512 then uprintf 1 (txt "ls: path too long" ++ nl) []
             else ls_entries rounds fd path
           else mret tt);
      _ ← close fd;
      mret tt.
Definition ls_main (rounds : nat) (argv : list (list Z)) : prog K unit :=
  if lenZ argv <? 2 then _ ← ls rounds (txt "."); exit 0
  else _ ← each (tail argv) (ls rounds); exit 0.

(** ** kill.c, ln.c, mkdir.c, rm.c *)
Definition kill_main (argv : list (list Z)) : prog K unit :=
  if lenZ argv <? 2 then _ ← uprintf 2 (txt "usage: kill pid..." ++ nl) []; exit 1
  else _ ← each (tail argv) (fun a => _ ← scall (CKill (atoi a)); mret tt); exit 0.
Definition ln_main (argv : list (list Z)) : prog K unit :=
  if negb (lenZ argv =? 3) then _ ← uprintf 2 (txt "Usage: ln old new" ++ nl) []; exit 1
  else
    let old := nth 1 argv [] in
    let new := nth 2 argv [] in
    r ← scall (CLink old new);
    _ ← (if r <? 0 then uprintf 2 (txt "link %s %s: failed" ++ nl) [AStr old; AStr new] else mret tt);
    exit 0.
(** The loops that stop at the first failure. *)
Fixpoint each_until (c : list Z -> call) (fmt : list Z) (args : list (list Z)) : prog K unit :=
  match args with
  | [] => mret tt
  | a :: args =>
      r ← scall (c a);
      if r <? 0 then uprintf 2 fmt [AStr a] else each_until c fmt args
  end.
Definition mkdir_main (argv : list (list Z)) : prog K unit :=
  if lenZ argv <? 2 then _ ← uprintf 2 (txt "Usage: mkdir files..." ++ nl) []; exit 1
  else _ ← each_until CMkdir (txt "mkdir: %s failed to create" ++ nl) (tail argv); exit 0.
Definition rm_main (argv : list (list Z)) : prog K unit :=
  if lenZ argv <? 2 then _ ← uprintf 2 (txt "Usage: rm files..." ++ nl) []; exit 1
  else _ ← each_until CUnlink (txt "rm: %s failed to delete" ++ nl) (tail argv); exit 0.

(** ** zombie.c and init.c *)
Definition zombie_main : prog K unit :=
  pid ← fork;
  _ ← (if pid >? 0 then _ ← scall (CSleep 5); mret tt else mret tt);
  exit 0.
(** Waiting for the shell with the number [pid]; orphans are passed over. *)
Fixpoint init_wait (rounds : nat) (pid : Z) : prog K unit :=
  match rounds with
  | O => out_of_fuel
  | S rounds =>
      wpid ← wait;
      if wpid =? pid then mret tt
      else if wpid <? 0 then _ ← uprintf 1 (txt "init: wait returned an error" ++ nl) []; exit 1
      else init_wait rounds pid
  end.
Fixpoint init_loop (rounds : nat) : prog K unit :=
  match rounds with
  | O => out_of_fuel
  | S rounds =>
      _ ← uprintf 1 (txt "init: starting sh" ++ nl) [];
      pid ← fork;
      if pid <? 0 then _ ← uprintf 1 (txt "init: fork failed" ++ nl) []; exit 1
      else if pid =? 0 then
        _ ← exec (txt "sh") [txt "sh"];
        _ ← uprintf 1 (txt "init: exec sh failed" ++ nl) [];
        exit 1
      else
        _ ← init_wait rounds pid;
        init_loop rounds
  end.
Definition O_RDWR : Z := 2.
Definition CONSOLE : Z := 1.
Definition init_main (rounds : nat) : prog K unit :=
  fd ← open (txt "console") O_RDWR;
  _ ← (if fd <? 0 then _ ← scall (CMknod (txt "console") CONSOLE 0); _ ← open (txt "console") O_RDWR; mret tt else mret tt);
  _ ← dup 0;
  _ ← dup 0;
  init_loop rounds.

(** ** grep.c *)
(** The lines that the inner loop writes, and the rest of the buffer. *)
Fixpoint grep_lines (fuel : nat) (pattern p : list Z) : list (list Z) * list Z :=
  match fuel with
  | O => ([], p)
  | S fuel =>
      match find_nl p with
      | None => ([], p)
      | Some (l, p) =>
          let '(out, rest) := grep_lines fuel pattern p in
          (if match_ pattern l then (l ++ [NEWLINE]) :: out else out, rest)
      end
  end.
Fixpoint grep_fd (rounds : nat) (pattern : list Z) (fd : Z) (buf : list Z) : prog K unit :=
  match rounds with
  | O => out_of_fuel
  | S rounds =>
      r ← read fd (1024 - lenZ buf - 1);
      let '(n, l) := r in
      if n >? 0 then
        let data := buf ++ l in
        let '(lines, buf) := grep_lines (length data) pattern data in
        _ ← each lines (fun l => _ ← write 1 l; mret tt);
        grep_fd rounds pattern fd buf
      else mret tt
  end.
Definition grep_main (rounds : nat) (argv : list (list Z)) : prog K unit :=
  if lenZ argv <=? 1 then _ ← uprintf 2 (txt "usage: grep pattern [file ...]" ++ nl) []; exit 1
  else
    let pattern := nth 1 argv [] in
    if lenZ argv <=? 2 then _ ← grep_fd rounds pattern 0 []; exit 0
    else
      _ ← each (drop 2 argv) (fun name =>
            fd ← open name O_RDONLY;
            if fd <? 0 then _ ← uprintf 1 (txt "grep: cannot open %s" ++ nl) [AStr name]; exit 1
            else _ ← grep_fd rounds pattern fd []; _ ← close fd; mret tt);
      exit 0.
End programs.

(** * Correctness *)
(** A file is read in chunks, as the kernel likes, up to an answer 0. *)
Definition got (c : list Z) : reply := RData (lenZ c) c.
Definition acks (l : list Z) : list reply := replicate (length l) (RVal 1).
Definition writes (fd : Z) (text : list Z) : list call := (fun c => CWrite fd [c]) <$> text.

Lemma does_uprintf fd fmt l text : vprintf (ap_of l) (str_of l) fmt = Some text ->
  does (uprintf fd fmt l) (writes fd text) (acks text) (inl tt).
Proof. intros E. apply does_fprintf; [done|]. unfold acks. by rewrite length_replicate. Qed.
Lemma written_writes fd fd' text : written fd (writes fd' text) = if fd' =? fd then text else [].
Proof.
  destruct (Z.eqb_spec fd' fd) as [->|Hne]; [apply written_text|]. unfold written, writes. rewrite <- list_fmap_compose.
  induction text as [|c text IH]; [done|]. cbn [fmap list_fmap concat compose]. by rewrite (proj2 (Z.eqb_neq _ _)).
Qed.
Lemma each_fmap {K A B} (g : A -> B) (l : list A) (f : B -> prog K unit) : each (g <$> l) f = each l (fun x => f (g x)).
Proof. induction l as [|x l IH]; [done|]. cbn [each fmap list_fmap]. by rewrite IH. Qed.
Lemma each_app {K A} (l1 l2 : list A) (f : A -> prog K unit) s : each (l1 ++ l2) f s = (each l1 f ≫= (fun _ => each l2 f)) s.
Proof.
  revert s. induction l1 as [|x l1 IH]; intros s; [done|]. cbn [each app]. rewrite !prog_run.
  by destruct (f x s) as [[[[]|e] s']| | |].
Qed.
Lemma does_ext {A} (m m' : prog io A) cs rs r : (forall s, m s = m' s) -> does m' cs rs r -> does m cs rs r.
Proof. intros E [L H]. split; [done|]. intros. by rewrite E. Qed.
Lemma does_eq {A} (m : prog io A) cs rs cs' rs' r : does m cs rs r -> cs = cs' -> rs = rs' -> does m cs' rs' r.
Proof. by intros H -> ->. Qed.
Lemma does_call {A} c r (f : Z -> prog io A) cs rs e : does (f (rval r)) cs rs e -> does (scall c ≫= f) (c :: cs) (r :: rs) e.
Proof. intros H. apply (does_bind _ _ [c] [r] (rval r)); [apply does_scall|done]. Qed.
Lemma does_data {A} fd n c (f : Z * list Z -> prog io A) cs rs e :
  does (f (lenZ c, c)) cs rs e -> does (read fd n ≫= f) (CRead fd n :: cs) (got c :: rs) e.
Proof. intros H. apply (does_bind _ _ [CRead fd n] [got c] (lenZ c, c)); [apply does_read|done]. Qed.

(** ** cat *)
Definition cat_calls (fd : Z) (chunks : list (list Z)) : list call := chunks ≫= (fun c => [CRead fd 512; CWrite 1 c]).
Definition cat_answers (chunks : list (list Z)) : list reply := chunks ≫= (fun c => [got c; RVal (lenZ c)]).
Definition nonempty (chunks : list (list Z)) : Prop := Forall (fun c => c <> []) chunks.
Lemma lenZ_pos {A} (c : list A) : c <> [] -> (lenZ c >? 0) = true.
Proof. destruct c; [done|]. intros _. apply Z.gtb_lt. cbn [length]. lia. Qed.

(** What cat does with the chunks, and what comes after them. *)
Lemma cat_loop_chunks chunks : forall rounds fd cs rs e,
  nonempty chunks -> does (cat_loop rounds fd) cs rs e ->
  does (cat_loop (length chunks + rounds) fd) (cat_calls fd chunks ++ cs) (cat_answers chunks ++ rs) e.
Proof.
  induction chunks as [|c chunks IH]; intros rounds fd cs rs e Hc Ht; [done|].
  apply Forall_cons in Hc as [Hc Hcs]. cbn [length Nat.add cat_loop cat_calls cat_answers mbind list_bind app].
  apply does_data. cbv beta iota. rewrite (lenZ_pos c Hc). apply does_call. cbn [rval]. rewrite Z.eqb_refl. cbn [negb].
  by apply IH.
Qed.
Lemma written_cat fd chunks : written 1 (cat_calls fd chunks) = concat chunks.
Proof.
  induction chunks as [|c chunks IH]; [done|]. transitivity (c ++ written 1 (cat_calls fd chunks)); [done|]. by rewrite IH.
Qed.
Lemma written_cat_err fd chunks : written 2 (cat_calls fd chunks) = [].
Proof. by induction chunks. Qed.

(** An argument: the file, its descriptor, and the chunks in which it is read. *)
Record input := Input { i_name : list Z; i_fd : Z; i_chunks : list (list Z) }.
Definition readable (rounds : nat) (i : input) : Prop :=
  0 <= i_fd i /\ nonempty (i_chunks i) /\ (length (i_chunks i) < rounds)%nat.
Definition contents (i : input) : list Z := concat (i_chunks i).
Definition copy_calls (i : input) : list call :=
  COpen (i_name i) O_RDONLY :: cat_calls (i_fd i) (i_chunks i) ++ [CRead (i_fd i) 512; CClose (i_fd i)].
Definition copy_answers (i : input) : list reply :=
  RVal (i_fd i) :: cat_answers (i_chunks i) ++ [got []; RVal 0].
Definition cat_file (rounds : nat) (name : list Z) : prog io unit :=
  fd ← open name O_RDONLY;
  if fd <? 0 then _ ← uprintf 2 (txt "cat: cannot open %s" ++ nl) [AStr name]; exit 1
  else _ ← cat rounds fd; _ ← close fd; mret tt.

Lemma cat_file_copies rounds i : readable rounds i -> does (cat_file rounds (i_name i)) (copy_calls i) (copy_answers i) (inl tt).
Proof.
  intros (Hfd & Hc & Hr). unfold cat_file, copy_calls, copy_answers. apply does_call. cbn [rval].
  rewrite (proj2 (Z.ltb_ge _ _)) by lia.
  change [CRead (i_fd i) 512; CClose (i_fd i)] with ([CRead (i_fd i) 512] ++ [CClose (i_fd i)]).
  change [got []; RVal 0] with ([got []] ++ [RVal 0]). rewrite !app_assoc.
  apply (does_bind _ _ _ _ tt); [|apply does_call, does_ret]. unfold cat.
  eapply does_eq; [|apply app_nil_r..]. apply (does_bind _ _ _ _ 0); [|apply does_ret].
  replace rounds with (length (i_chunks i) + S (rounds - length (i_chunks i) - 1))%nat by lia.
  apply cat_loop_chunks; [done|]. cbn [cat_loop]. apply (does_data _ _ []), does_ret.
Qed.
Lemma cat_files_copy rounds ins : Forall (readable rounds) ins ->
  does (each (i_name <$> ins) (cat_file rounds)) (ins ≫= copy_calls) (ins ≫= copy_answers) (inl tt).
Proof.
  intros Hi. rewrite each_fmap. apply does_each. intros i Hin. apply cat_file_copies.
  by eapply Forall_forall in Hi.
Qed.
Lemma written_copies fd ins : written fd (ins ≫= copy_calls) = ins ≫= (fun i => written fd (copy_calls i)).
Proof. induction ins as [|i ins IH]; [done|]. cbn [mbind list_bind]. by rewrite written_app, <- IH. Qed.
Lemma written_open fd name mode l : written fd (COpen name mode :: l) = written fd l.
Proof. done. Qed.
Lemma copied_out ins : written 1 (ins ≫= copy_calls) = ins ≫= contents.
Proof.
  rewrite written_copies. induction ins as [|i ins IH]; [done|]. cbn [mbind list_bind]. rewrite IH. f_equal.
  unfold copy_calls. rewrite written_open, written_app, written_cat. apply app_nil_r.
Qed.
Lemma copied_err ins : written 2 (ins ≫= copy_calls) = [].
Proof.
  rewrite written_copies. induction ins as [|i ins IH]; [done|]. cbn [mbind list_bind]. rewrite IH, app_nil_r.
  unfold copy_calls. by rewrite written_open, written_app, written_cat_err.
Qed.

(** cat copies its files.  For any files that can be opened and read, in whatever
    chunks the kernel returns them, cat writes the contents of the files in order,
    nothing to the standard error, and exits with 0. *)
Theorem cat_copies rounds me ins :
  ins <> [] -> Forall (readable rounds) ins ->
  exists cs, does (cat_main rounds (me :: (i_name <$> ins))) cs (ins ≫= copy_answers) (inr (Exited 0)) /\
    written 1 cs = ins ≫= contents /\ written 2 cs = [].
Proof.
  intros Hne Hi. exists (ins ≫= copy_calls). split; [|split].
  - unfold cat_main. destruct ins as [|i ins]; [done|]. cbn [fmap list_fmap length tail].
    rewrite (proj2 (Z.leb_gt _ _)) by lia. eapply does_eq; [|apply app_nil_r..].
    apply (does_bind _ _ _ _ tt); [exact (cat_files_copy rounds (i :: ins) Hi)|apply does_exit].
  - apply copied_out.
  - apply copied_err.
Qed.

(** What goes wrong with a file: it cannot be opened, a read fails after some
    chunks, or a write takes not all of a chunk. *)
Inductive fault :=
| NoOpen (name : list Z) (r : Z)
| BadRead (i : input) (r : Z)
| BadWrite (i : input) (c : list Z) (w : Z).
Definition f_name (f : fault) : list Z :=
  match f with NoOpen name _ => name | BadRead i _ => i_name i | BadWrite i _ _ => i_name i end.
Definition faulty (rounds : nat) (f : fault) : Prop :=
  match f with
  | NoOpen _ r => r < 0
  | BadRead i r => readable rounds i /\ r < 0
  | BadWrite i c w => readable rounds i /\ c <> [] /\ w <> lenZ c
  end.
Definition f_message (f : fault) : list Z :=
  match f with
  | NoOpen name _ => txt "cat: cannot open " ++ name ++ nl
  | BadRead _ _ => txt "cat: read error" ++ nl
  | BadWrite _ _ _ => txt "cat: write error" ++ nl
  end.
(** What was given to write before. *)
Definition f_out (f : fault) : list Z :=
  match f with NoOpen _ _ => [] | BadRead i _ => contents i | BadWrite i c _ => contents i ++ c end.
Definition f_answers (f : fault) : list reply :=
  match f with
  | NoOpen _ r => [RVal r]
  | BadRead i r => RVal (i_fd i) :: cat_answers (i_chunks i) ++ [RVal r]
  | BadWrite i c w => RVal (i_fd i) :: cat_answers (i_chunks i) ++ [got c; RVal w]
  end ++ acks (f_message f).
Definition f_calls (f : fault) : list call :=
  match f with
  | NoOpen name _ => [COpen name O_RDONLY]
  | BadRead i _ => COpen (i_name i) O_RDONLY :: cat_calls (i_fd i) (i_chunks i) ++ [CRead (i_fd i) 512]
  | BadWrite i c _ => COpen (i_name i) O_RDONLY :: cat_calls (i_fd i) (i_chunks i) ++ [CRead (i_fd i) 512; CWrite 1 c]
  end ++ writes 2 (f_message f).

(** A message and exit. *)
Lemma does_fail {A} fd fmt l text status : vprintf (ap_of l) (str_of l) fmt = Some text ->
  does (uprintf fd fmt l ≫= (fun _ => exit status : prog io A)) (writes fd text) (acks text) (inr (Exited status)).
Proof.
  intros E. eapply does_eq; [|apply app_nil_r..]. apply (does_bind _ _ _ _ tt); [by apply does_uprintf|apply does_exit].
Qed.
Lemma cat_file_faulty rounds f : faulty rounds f -> does (cat_file rounds (f_name f)) (f_calls f) (f_answers f) (inr (Exited 1)).
Proof.
  destruct f as [name r|i r|i c w]; cbn [faulty f_name]; unfold cat_file, f_calls, f_answers; cbn [app]; intros Hf;
    apply does_call; cbn [rval].
  - rewrite (proj2 (Z.ltb_lt _ _)) by lia. by apply does_fail.
  - destruct Hf as [(Hfd & Hc & Hr) Hn]. rewrite (proj2 (Z.ltb_ge _ _)) by lia. apply does_end.
    apply (does_bind _ _ _ _ r); [|rewrite (proj2 (Z.ltb_lt _ _)) by lia; by apply does_fail].
    replace rounds with (length (i_chunks i) + S (rounds - length (i_chunks i) - 1))%nat by lia.
    apply cat_loop_chunks; [done|]. cbn [cat_loop].
    apply (does_bind _ _ [_] [_] (r, []) [] []); [done|]. rewrite Z.gtb_ltb, (proj2 (Z.ltb_ge _ _)) by lia. apply does_ret.
  - destruct Hf as ((Hfd & Hc & Hr) & Hne & Hw). rewrite (proj2 (Z.ltb_ge _ _)) by lia. apply does_end, does_end.
    rewrite <- !app_assoc. replace rounds with (length (i_chunks i) + S (rounds - length (i_chunks i) - 1))%nat by lia.
    apply cat_loop_chunks; [done|]. cbn [cat_loop app]. apply does_data. cbv beta iota. rewrite (lenZ_pos c Hne).
    apply does_call. cbn [rval]. rewrite (proj2 (Z.eqb_neq _ _)) by done. cbn [negb]. by apply does_fail.
Qed.

Lemma fault_out f : written 1 (f_calls f) = f_out f.
Proof.
  unfold f_calls. rewrite written_app, written_writes, app_nil_r.
  destruct f as [name r|i r|i c w]; [done|..]; rewrite written_open, written_app, written_cat; [apply app_nil_r|].
  cbn [f_out]. f_equal. apply app_nil_r.
Qed.
Lemma fault_err f : written 2 (f_calls f) = f_message f.
Proof.
  unfold f_calls. rewrite written_app, written_writes.
  destruct f as [name r|i r|i c w]; [done|..]; by rewrite written_open, written_app, written_cat_err.
Qed.

(** C26. cat stops at the first thing that goes wrong.  After files that were copied,
    when one cannot be opened, a read fails or a write is short, cat has written what
    it read until then, writes the message for that error, and nothing else, to the
    standard error, exits with 1 and does not touch the remaining files. *)
Theorem cat_stops rounds me ins f rest :
  Forall (readable rounds) ins -> faulty rounds f ->
  exists cs, does (cat_main rounds (me :: (i_name <$> ins) ++ f_name f :: rest)) cs ((ins ≫= copy_answers) ++ f_answers f) (inr (Exited 1)) /\
    written 1 cs = (ins ≫= contents) ++ f_out f /\ written 2 cs = f_message f.
Proof.
  intros Hi Hf. exists ((ins ≫= copy_calls) ++ f_calls f). split; [|split].
  - unfold cat_main. cbn [tail]. rewrite (proj2 (Z.leb_gt _ _)) by (cbn [length]; rewrite length_app; cbn [length]; lia).
    apply does_end. eapply does_ext; [intros; apply each_app|]. apply (does_bind _ _ _ _ tt); [by apply cat_files_copy|].
    cbn [each]. by apply does_end, cat_file_faulty.
  - by rewrite written_app, copied_out, fault_out.
  - by rewrite written_app, copied_err, fault_err.
Qed.

(** ** wc *)
Definition blank (c : Z) : bool := bool_decide (c ∈ blanks).
(** The pieces of a text between its blanks; words are those that are not empty. *)
Fixpoint pieces (l : list Z) : list (list Z) :=
  match l with
  | [] => [[]]
  | c :: l => if blank c then [] :: pieces l
              else match pieces l with [] => [[c]] | p :: ps => (c :: p) :: ps end
  end.
Definition words (l : list Z) : Z := lenZ (filter (fun p => p <> []) (pieces l)).
Definition newlines (l : list Z) : Z := lenZ (filter (fun c => c = 10) l).

Lemma strchr_blank c : match strchr blanks c with Some _ => blank c = true | None => blank c = false end.
Proof.
  pose proof (strchr_spec blanks c) as Hs. unfold blank. destruct (strchr blanks c).
  - destruct Hs as (pre & rest & -> & -> & _). apply bool_decide_eq_true. set_solver.
  - by apply bool_decide_eq_false.
Qed.
(** A text starts with a part of a word. *)
Definition starts (l : list Z) : bool := match l with [] => false | c :: _ => negb (blank c) end.
Lemma words_blank c l : blank c = true -> words (c :: l) = words l.
Proof. intros E. unfold words. cbn [pieces]. rewrite E. done. Qed.
Lemma words_start c l : blank c = false -> words (c :: l) + (if starts l then 1 else 0) = words l + 1.
Proof.
  intros E. unfold words. cbn [pieces]. rewrite E. destruct l as [|d l]; [done|]. cbn [pieces starts].
  destruct (blank d); cbn [negb].
  - rewrite !filter_cons_True by done. rewrite (filter_cons_False _ []) by (intros Hf; by apply Hf). cbn [length]. lia.
  - destruct (pieces l); rewrite !filter_cons_True by done; cbn [length]; lia.
Qed.
Lemma newlines_cons c l : newlines (c :: l) = (if c =? 10 then 1 else 0) + newlines l.
Proof.
  unfold newlines. rewrite filter_cons. destruct (Z.eqb_spec c 10), (decide (c = 10)); try done. cbn [length]. lia.
Qed.
Lemma wc_bounds l : 0 <= words l <= lenZ l /\ 0 <= newlines l <= lenZ l.
Proof.
  induction l as [|c l IH]; [done|]. rewrite newlines_cons. cbn [length].
  split; [|destruct (c =? 10); lia]. destruct (blank c) eqn:E.
  - rewrite words_blank by done. lia.
  - pose proof (words_start c l E). destruct (starts l) eqn:Es; [|lia]. split; [|lia]. unfold words. lia.
Qed.
(** The loop over the bytes: in the middle of a word the first piece is not a new word. *)
Lemma wc_bytes s : forall l w c inw,
  0 <= l <= c -> 0 <= w <= c -> c + lenZ s < 2 ^ 31 ->
  exists inw', foldl wc_byte (Counts l w c inw) s =
    Counts (l + newlines s) (w + words s - (if inw && starts s then 1 else 0)) (c + lenZ s) inw'.
Proof.
  induction s as [|b s IH]; intros l w c inw Hl Hw Hc; cbn [foldl length] in *.
  { exists inw. rewrite andb_false_r. change (newlines []) with 0. change (words []) with 0. f_equal; lia. }
  rewrite newlines_cons. unfold wc_byte at 2. cbn [c_l c_w c_c c_inword].
  assert (s32 (c + 1) = c + 1) as -> by (apply s32_small; lia).
  assert (s32 (l + 1) = l + 1) as -> by (apply s32_small; lia).
  assert (s32 (w + 1) = w + 1) as -> by (apply s32_small; lia).
  pose proof (strchr_blank b) as Hb. cbn [starts].
  destruct (strchr blanks b); rewrite Hb; cbn [negb].
  - edestruct (IH (if b =? 10 then l + 1 else l) w (c + 1) false) as (inw' & ->); [destruct (b =? 10); lia|lia|lia|].
    exists inw'. rewrite andb_false_r, words_blank by done. cbn [andb]. f_equal; destruct (b =? 10); lia.
  - pose proof (words_start b s Hb) as Hws. rewrite andb_true_r. destruct inw; cbn [negb].
    + edestruct (IH (if b =? 10 then l + 1 else l) w (c + 1) true) as (inw' & ->); [destruct (b =? 10); lia|lia|lia|].
      exists inw'. f_equal; destruct (b =? 10), (starts s); cbn [andb]; lia.
    + edestruct (IH (if b =? 10 then l + 1 else l) (w + 1) (c + 1) true) as (inw' & ->); [destruct (b =? 10); lia|lia|lia|].
      exists inw'. f_equal; destruct (b =? 10), (starts s); cbn [andb]; lia.
Qed.
Lemma wc_loop_counts chunks : forall rounds fd k,
  nonempty chunks -> (length chunks < rounds)%nat ->
  does (wc_loop rounds fd k) (replicate (S (length chunks)) (CRead fd 512)) ((got <$> chunks) ++ [got []]) (inl (0, foldl wc_byte k (concat chunks))).
Proof.
  induction chunks as [|c chunks IH]; intros [|rounds] fd k Hc Hr; cbn [length] in Hr; try lia; cbn [length replicate fmap list_fmap app concat wc_loop].
  - apply (does_data _ _ []), does_ret.
  - apply Forall_cons in Hc as [Hc Hcs]. apply does_data. cbv beta iota. rewrite (lenZ_pos c Hc), foldl_app. apply IH; [done|lia].
Qed.

(** C25. wc counts.  For a file of less than 2^31 bytes, in whatever chunks it is
    read, wc prints, as decimal numbers with a blank after each, the number of
    newlines, of words and of bytes, and then the name; words are the pieces between
    blanks that are not empty, and a word split between two reads counts once. *)
Theorem wc_counts rounds fd name chunks :
  nonempty chunks -> (length chunks < rounds)%nat -> lenZ (concat chunks) < 2 ^ 31 ->
  exists tl tw tc, decimal tl (newlines (concat chunks)) /\ decimal tw (words (concat chunks)) /\ decimal tc (lenZ (concat chunks)) /\
    let text := tl ++ [32] ++ tw ++ [32] ++ tc ++ [32] ++ name ++ nl in
    does (wc rounds fd name) (replicate (S (length chunks)) (CRead fd 512) ++ writes 1 text) ((got <$> chunks) ++ [got []] ++ acks text) (inl tt).
Proof.
  intros Hc Hr Hlen. destruct (wc_bounds (concat chunks)) as [Hw Hn].
  destruct (wc_bytes (concat chunks) 0 0 0 false) as (inw & Hk); [lia..|]. cbn [andb] in Hk.
  rewrite !Z.add_0_l, Z.sub_0_r in Hk.
  destruct (atoi_printint (newlines (concat chunks))) as (tl & El & Dl); [lia|].
  destruct (atoi_printint (words (concat chunks))) as (tw & Ew & Dw); [lia|].
  destruct (atoi_printint (lenZ (concat chunks))) as (tc & Ec & Dc); [lia|].
  exists tl, tw, tc. split; [done|]. split; [done|]. split; [done|]. intros text.
  rewrite app_assoc. unfold wc. apply (does_bind _ _ _ _ (0, Counts (newlines (concat chunks)) (words (concat chunks)) (lenZ (concat chunks)) inw)).
  { rewrite <- Hk. by apply wc_loop_counts. }
  cbv beta iota. change (0 <? 0) with false. cbv iota. cbn [c_l c_w c_c]. apply does_uprintf.
  change (vprintf (ap_of [AInt (newlines (concat chunks)); AInt (words (concat chunks)); AInt (lenZ (concat chunks)); AStr name])
    (str_of [AInt (newlines (concat chunks)); AInt (words (concat chunks)); AInt (lenZ (concat chunks)); AStr name]) (txt "%d %d %d %s" ++ nl))
  with (out (uprintint (s32 (newlines (concat chunks))) 10 true) (out (Some [32]) (out (uprintint (s32 (words (concat chunks))) 10 true) (out (Some [32])
    (out (uprintint (s32 (lenZ (concat chunks))) 10 true) (out (Some [32]) (out (Some name) (out (Some nl) (Some []))))))))).
  rewrite !s32_small by lia. by rewrite El, Ew, Ec.
Qed.

(** ** echo *)
Fixpoint joined (args : list (list Z)) : list Z :=
  match args with
  | [] => []
  | [a] => a ++ nl
  | a :: args => a ++ [32] ++ joined args
  end.
(** echo writes its arguments with a blank between them and a newline at the end,
    nothing without arguments, and exits with 0, whatever the writes return. *)
Theorem echo_joins me args rs : length rs = (2 * length args)%nat ->
  exists cs, does (echo_main (me :: args)) cs rs (inr (Exited 0)) /\ written 1 cs = joined args.
Proof.
  intros Hl. cut (exists cs, does (echo_loop args) cs rs (inl tt) /\ written 1 cs = joined args).
  { intros (cs & Hd & Hw). exists cs. split; [|done]. unfold echo_main. eapply does_eq; [|apply app_nil_r..].
    apply (does_bind _ _ _ _ tt); [exact Hd|apply does_exit]. }
  revert rs Hl. induction args as [|a args IH]; intros rs Hl.
  - destruct rs; [|done]. exists []. split; [apply does_ret|done].
  - destruct rs as [|r1 [|r2 rs]]; cbn [length] in Hl; [lia..|]. destruct (IH rs) as (cs & Hd & Hw); [lia|].
    eexists (CWrite 1 a :: CWrite 1 _ :: cs). split; [apply does_call, does_call, Hd|].
    change (written 1 (CWrite 1 a :: CWrite 1 ?x :: cs)) with (a ++ x ++ written 1 cs). rewrite Hw. by destruct args.
Qed.

(** ** ls *)
Definition padded (name : list Z) : list Z := name ++ replicate (Z.to_nat DIRSIZ - length name) 32.
Lemma last_name_from path k : Forall (fun c => c <> SLASH) path -> (k <= length path)%nat -> last_name k path = O.
Proof.
  intros Hp. induction k as [|k IH]; intros Hk; cbn [last_name].
  - destruct path as [|c path]; [done|]. apply Forall_cons in Hp as [Hc _]. cbn [nth]. by rewrite (proj2 (Z.eqb_neq _ _)).
  - rewrite IH by lia. rewrite (proj2 (Z.eqb_neq _ _)); [done|].
    destruct (decide (S k < length path)%nat) as [Hlt|]; [|by rewrite nth_overflow by lia].
    eapply Forall_forall in Hp; [exact Hp|]. apply list_elem_of_In, nth_In. lia.
Qed.
Lemma last_name_slash dir name k : Forall (fun c => c <> SLASH) name -> (length dir <= k <= length dir + S (length name))%nat ->
  last_name k (dir ++ SLASH :: name) = S (length dir).
Proof.
  intros Hn. induction k as [|k IH]; intros Hk; cbn [last_name].
  - destruct dir; [done|cbn [length] in Hk; lia].
  - destruct (decide (S k = length dir)) as [E|].
    { rewrite E, nth_middle, Z.eqb_refl. done. }
    rewrite IH by lia. rewrite (proj2 (Z.eqb_neq _ _)); [done|].
    rewrite app_nth2 by lia. replace (S k - length dir)%nat with (S (k - length dir)) by lia. cbn [nth].
    destruct (decide (k - length dir < length name)%nat); [|by rewrite nth_overflow by lia].
    eapply Forall_forall in Hn; [exact Hn|]. apply list_elem_of_In, nth_In. lia.
Qed.
(** fmtname gives the part of the path after the last slash, filled up with blanks
    to 14 characters. *)
Lemma fmtname_padded dir name : Forall (fun c => c <> SLASH) name ->
  fmtname (dir ++ SLASH :: name) = padded name /\ fmtname name = padded name.
Proof.
  intros Hn. unfold fmtname. rewrite last_name_slash, (last_name_from name) by (done || rewrite ?length_app; cbn [length]; lia).
  replace (drop (S (length dir)) (dir ++ SLASH :: name)) with name by (rewrite drop_app_ge by lia; by replace (S (length dir) - length dir)%nat with 1%nat by lia).
  cbn [drop]. assert ((if lenZ name >=? DIRSIZ then name else name ++ replicate (Z.to_nat (DIRSIZ - lenZ name)) 32) = padded name) as E; [|done].
  unfold padded. rewrite Z.geb_leb. destruct (Z.leb_spec DIRSIZ (lenZ name)).
  - replace (Z.to_nat DIRSIZ - length name)%nat with O by lia. by rewrite app_nil_r.
  - do 2 f_equal. lia.
Qed.

(** A number of type int as printf prints it. *)
Definition shown (x : Z) : list Z := default [] (uprintint (s32 x) 10 true).
Lemma uprintint_shown x : uprintint (s32 x) 10 true = Some (shown x).
Proof.
  unfold shown. pose proof (s32_range x) as Hr. revert Hr. generalize (s32 x). intros y Hr.
  assert (is_Some (uprintint y 10 true)) as [t ->]; [|done]. unfold uprintint. cbn [andb].
  assert (0 <= (if y <? 0 then u32 (- y) else u32 y) < 2 ^ 32) as Hu by (destruct (y <? 0); apply u32_range).
  pose proof (int_text_ok udigit 10 _ (y <? 0) ltac:(lia) (proj1 Hu)) as HT. unfold int_text in HT.
  rewrite (proj2 (Z.ltb_lt _ _)) in HT by (destruct (y <? 0); lia). destruct HT as (ds & -> & _). by eexists.
Qed.

(** An entry of the directory: its slot, and the descriptor and the answer of fstat
    for its file, if it can be opened. *)
Record dentry := Dentry { d_inum : Z; d_name : list Z; d_stat : option (Z * (Z * Z * Z)) }.
Definition slot (e : dentry) : list Z :=
  [d_inum e mod 2 ^ 8; d_inum e / 2 ^ 8] ++ d_name e ++ replicate (Z.to_nat DIRSIZ - length (d_name e)) 0.
Definition d_ok (e : dentry) : Prop :=
  0 <= d_inum e < 2 ^ 16 /\ (length (d_name e) <= Z.to_nat DIRSIZ)%nat /\
  Forall (fun c => c <> 0 /\ c <> SLASH) (d_name e) /\ match d_stat e with Some (fd, _) => 0 <= fd | None => True end.
Definition d_line (path : list Z) (e : dentry) : list Z :=
  match d_stat e with
  | Some (_, (type, ino, size)) =>
      padded (d_name e) ++ [32] ++ shown type ++ [32] ++ shown ino ++ [32] ++ shown size ++ nl
  | None => txt "ls: cannot stat " ++ (path ++ [SLASH] ++ d_name e) ++ nl
  end.
Definition d_listing (path : list Z) (e : dentry) : list Z := if d_inum e =? 0 then [] else d_line path e.
Definition d_answers (path : list Z) (e : dentry) : list reply :=
  got (slot e) ::
  (if d_inum e =? 0 then []
   else match d_stat e with
        | Some (fd, (type, ino, size)) => [RVal fd; RStat 0 type ino size; RVal 0]
        | None => [RVal (-1)]
        end ++ acks (d_line path e)).
Definition d_calls (path : list Z) (fd : Z) (e : dentry) : list call :=
  CRead fd DIRENT ::
  (if d_inum e =? 0 then []
   else match d_stat e with
        | Some (fd, _) => [COpen (path ++ [SLASH] ++ d_name e) O_RDONLY; CFstat fd; CClose fd]
        | None => [COpen (path ++ [SLASH] ++ d_name e) O_RDONLY]
        end ++ writes 1 (d_line path e)).

Lemma field_name name n : Forall (fun c => c <> 0 /\ c <> SLASH) name -> field (name ++ replicate n 0) = name.
Proof.
  induction 1 as [|c name [Hc _] _ IH]; cbn [app field]; [by destruct n|]. by rewrite (proj2 (Z.eqb_neq _ _) Hc), IH.
Qed.
Lemma slot_length e : (length (d_name e) <= Z.to_nat DIRSIZ)%nat -> lenZ (slot e) = DIRENT.
Proof.
  intros Hl. unfold slot. rewrite !length_app, length_replicate. cbn [length]. change DIRENT with 16.
  change (Z.to_nat DIRSIZ) with 14%nat in *. lia.
Qed.
Lemma slot_field e : d_ok e -> field (take (Z.to_nat DIRSIZ) (drop 2 (slot e))) = d_name e.
Proof.
  intros (_ & Hl & Hn & _). unfold slot. cbn [app drop]. rewrite drop_0, take_ge; [by apply field_name|].
  rewrite length_app, length_replicate. lia.
Qed.
Lemma slot_inum e : d_ok e -> nth 0 (slot e) 0 + 2 ^ 8 * nth 1 (slot e) 0 = d_inum e.
Proof. intros _. unfold slot. cbn [app nth]. pose proof (Z.div_mod (d_inum e) (2 ^ 8)). lia. Qed.
Lemma ls_line_does dir name type ino size : Forall (fun c => c <> 0 /\ c <> SLASH) name ->
  let text := padded name ++ [32] ++ shown type ++ [32] ++ shown ino ++ [32] ++ shown size ++ nl in
  does (ls_line (dir ++ [SLASH] ++ name) (type, ino, size)) (writes 1 text) (acks text) (inl tt).
Proof.
  intros Hn text. unfold ls_line. apply does_uprintf. cbn [app].
  assert (Forall (fun c => c <> SLASH) name) as Hs by (eapply Forall_impl; [exact Hn|]; by intros ? []).
  rewrite (proj1 (fmtname_padded dir name Hs)).
  change (vprintf (ap_of [AStr (padded name); AInt type; AInt ino; AInt (s32 size)]) (str_of [AStr (padded name); AInt type; AInt ino; AInt (s32 size)])
    (txt "%s %d %d %d" ++ nl))
  with (out (Some (padded name)) (out (Some [32]) (out (uprintint (s32 type) 10 true) (out (Some [32]) (out (uprintint (s32 ino) 10 true) (out (Some [32])
    (out (uprintint (s32 (s32 size)) 10 true) (out (Some nl) (Some []))))))))).
  rewrite (s32_small (s32 size)) by apply s32_range. by rewrite !uprintint_shown.
Qed.
Lemma ls_entry_does rounds path fd e cs rs r : d_ok e -> does (ls_entries rounds fd path) cs rs r ->
  does (ls_entries (S rounds) fd path) (d_calls path fd e ++ cs) (d_answers path e ++ rs) r.
Proof.
  intros He Hrest. pose proof He as (Hi & Hl & Hn & Hs). unfold d_calls, d_answers. cbn [ls_entries app].
  apply does_data. cbv beta iota. rewrite (slot_length e Hl), Z.eqb_refl, (slot_inum e He), (slot_field e He).
  destruct (d_inum e =? 0); [exact Hrest|]. cbv zeta. rewrite <- !app_assoc. unfold d_line.
  destruct (d_stat e) as [[sfd [[type ino] size]]|].
  - eapply (does_bind _ _ [_; _; _] [_; _; _] (0, (type, ino, size))).
    { unfold stat. apply does_call. cbn [rval]. rewrite (proj2 (Z.ltb_ge _ _)) by lia.
      apply (does_bind _ _ [CFstat sfd] [_] (0, (type, ino, size))); [done|]. apply does_call, does_ret. }
    cbv beta iota. change (0 <? 0) with false. apply (does_bind _ _ _ _ tt); [|exact Hrest]. by apply ls_line_does.
  - eapply (does_bind _ _ [_] [_] (-1, (0, 0, 0))); [unfold stat; apply does_call, does_ret|].
    cbv beta iota. change (-1 <? 0) with true. apply (does_bind _ _ _ _ tt); [|exact Hrest]. by apply does_uprintf.
Qed.
Lemma ls_entries_does path fd es : forall rounds, Forall d_ok es -> (length es < rounds)%nat ->
  does (ls_entries rounds fd path) ((es ≫= d_calls path fd) ++ [CRead fd DIRENT]) ((es ≫= d_answers path) ++ [got []]) (inl tt).
Proof.
  induction es as [|e es IH]; intros [|rounds] He Hr; cbn [length] in Hr; try lia.
  - apply (does_data _ _ []), does_ret.
  - apply Forall_cons in He as [He Hes]. cbn [mbind list_bind]. rewrite <- !app_assoc. apply ls_entry_does; [done|]. apply IH; [done|lia].
Qed.
Lemma listed fd path es o : written o (es ≫= d_calls path fd) = if o =? 1 then es ≫= d_listing path else [].
Proof.
  induction es as [|e es IH]; [by destruct (o =? 1)|]. cbn [mbind list_bind]. rewrite written_app, IH. unfold d_calls, d_listing.
  change (written o (CRead fd DIRENT :: ?l)) with (written o l). destruct (d_inum e =? 0); [by destruct (o =? 1)|].
  rewrite written_app, written_writes, (Z.eqb_sym 1 o). destruct (d_stat e) as [[sfd st]|]; by destruct (o =? 1).
Qed.

(** ls lists a directory.  For a directory with any entries, ls prints one line for
    each slot that is in use, in the order of the slots, and nothing for free slots:
    the name filled up to 14 characters, type, inode number and size that stat
    reported for path/name, or the message that stat failed; then it closes the
    directory. *)
Theorem ls_lists rounds path fd ino size es :
  0 <= fd -> lenZ path + 1 + DIRSIZ + 1 <= 512 -> Forall d_ok es -> (length es < rounds)%nat ->
  exists cs, does (ls rounds path) cs (RVal fd :: RStat 0 T_DIR ino size :: (es ≫= d_answers path) ++ [got []; RVal 0]) (inl tt) /\
    written 1 cs = es ≫= d_listing path /\ written 2 cs = [].
Proof.
  intros Hfd Hp He Hr. exists (COpen path O_RDONLY :: CFstat fd :: ((es ≫= d_calls path fd) ++ [CRead fd DIRENT]) ++ [CClose fd]). split.
  - unfold ls. apply does_call. cbn [rval]. rewrite (proj2 (Z.ltb_ge _ _)) by lia.
    apply (does_bind _ _ [CFstat fd] [_] (0, (T_DIR, ino, size))); [done|]. cbv beta iota. change (0 <? 0) with false. cbv iota zeta.
    cbn [fst]. change ((T_DIR =? T_DEVICE) || (T_DIR =? T_FILE)) with false. change (T_DIR =? T_DIR) with true. cbv iota.
    rewrite Z.gtb_ltb, (proj2 (Z.ltb_ge _ _)) by lia.
    change [got []; RVal 0] with ([got []] ++ [RVal 0]). rewrite (app_assoc (es ≫= d_answers path)).
    apply (does_bind _ _ _ _ tt); [by apply ls_entries_does|]. apply does_call, does_ret.
  - assert (forall o, written o (COpen path O_RDONLY :: CFstat fd :: ((es ≫= d_calls path fd) ++ [CRead fd DIRENT]) ++ [CClose fd]) =
      written o (es ≫= d_calls path fd)) as Hw.
    { intros o. change (written o (COpen path O_RDONLY :: CFstat fd :: ?l)) with (written o l). rewrite !written_app.
      change (written o [CRead fd DIRENT]) with (@nil Z). change (written o [CClose fd]) with (@nil Z). by rewrite !app_nil_r. }
    by rewrite !Hw, !listed.
Qed.

(** ** grep *)
Lemma grep_lines_scan pattern fuel : forall p,
  scan_lines fuel pattern p = (concat (grep_lines fuel pattern p).1, (grep_lines fuel pattern p).2).
Proof.
  induction fuel as [|fuel IH]; intros p; [done|]. cbn [scan_lines grep_lines].
  destruct (find_nl p) as [[l q]|]; [|done]. rewrite IH. destruct (grep_lines fuel pattern q) as [out rest]. cbn [fst snd].
  destruct (match_ pattern l); [|done]. cbn [concat]. by rewrite <- app_assoc.
Qed.
(** The answers to grep when a read returns what [sched] says, and writes are complete. *)
Fixpoint grep_answers (fuel : nat) (sched : nat -> nat) (pattern buf inp : list Z) : list reply :=
  match fuel with
  | O => []
  | S fuel =>
      let '(chunk, inp) := take_input (sched fuel) (Grep.BUFSZ - length buf - 1) inp in
      got chunk ::
      match chunk with
      | [] => []
      | _ => let data := buf ++ chunk in
             let '(lines, buf) := grep_lines (length data) pattern data in
             ((fun l => RVal (lenZ l)) <$> lines) ++ grep_answers fuel sched pattern buf inp
      end
  end.
Lemma does_lines lines : does (each lines (fun l => _ ← write 1 l; mret tt)) (CWrite 1 <$> lines) ((fun l => RVal (lenZ l)) <$> lines) (inl tt).
Proof.
  induction lines as [|l lines IH]; [apply does_ret|]. cbn [each fmap list_fmap].
  apply (does_bind _ _ [CWrite 1 l] [RVal (lenZ l)] tt); [|exact IH]. apply does_call, does_ret.
Qed.
Lemma written_lines lines o : written o (CWrite 1 <$> lines) = if o =? 1 then concat lines else [].
Proof.
  induction lines as [|l lines IH]; [by destruct (o =? 1)|]. cbn [fmap list_fmap].
  change (written o (CWrite 1 l :: ?k)) with ((if 1 =? o then l else []) ++ written o k). rewrite IH, (Z.eqb_sym 1 o).
  by destruct (o =? 1).
Qed.
Lemma grep_fd_does sched pattern fd fuel : forall buf inp out, grep fuel sched pattern buf inp = Ret out ->
  exists cs, does (grep_fd fuel pattern fd buf) cs (grep_answers fuel sched pattern buf inp) (inl tt) /\
    written 1 cs = out /\ written 2 cs = [].
Proof.
  induction fuel as [|fuel IH]; intros buf inp out Hg; [done|]. cbn [grep grep_fd grep_answers] in *.
  destruct (take_input (sched fuel) (Grep.BUFSZ - length buf - 1) inp) as [chunk inp'].
  destruct chunk as [|c chunk].
  { injection Hg as <-. exists [CRead fd (1024 - lenZ buf - 1)]. split; [|done]. apply (does_data _ _ []), does_ret. }
  set (ch := c :: chunk) in *. rewrite grep_lines_scan in Hg.
  destruct (grep_lines (length (buf ++ ch)) pattern (buf ++ ch)) as [lines buf'] eqn:El. cbn [fst snd] in Hg.
  destruct (grep fuel sched pattern buf' inp') as [r| | |] eqn:Er; try done. injection Hg as <-.
  destruct (IH _ _ _ Er) as (cs & Hd & H1 & H2). exists (CRead fd (1024 - lenZ buf - 1) :: (CWrite 1 <$> lines) ++ cs). split; [|split].
  - apply does_data. cbv beta iota zeta. rewrite (lenZ_pos ch) by done. rewrite El.
    apply (does_bind _ _ _ _ tt); [apply does_lines|exact Hd].
  - change (written 1 (CRead fd ?n :: ?k)) with (written 1 k). by rewrite written_app, written_lines, H1.
  - change (written 2 (CRead fd ?n :: ?k)) with (written 2 k). by rewrite written_app, written_lines, H2.
Qed.

(** A file for grep: name, descriptor, bytes, and how they are read. *)
Record source := Source { s_name : list Z; s_fd : Z; s_bytes : list Z; s_sched : nat -> nat }.
Definition lined (rounds : nat) (i : source) : Prop :=
  0 <= s_fd i /\ Forall (fun c => c <> 0) (s_bytes i) /\ short_lines (s_bytes i) /\ (length (s_bytes i) < rounds)%nat.
Definition grep_file_answers (rounds : nat) (pattern : list Z) (i : source) : list reply :=
  RVal (s_fd i) :: grep_answers rounds (s_sched i) pattern [] (s_bytes i) ++ [RVal 0].

(** C24. grep over its files.  For files without NUL bytes whose lines have at most 1022
    characters, however they are read, grep writes the complete lines that the pattern
    matches, of each file in order, nothing to the standard error, and exits with 0. *)
Theorem grep_main_selects rounds me pattern files :
  files <> [] -> Forall (lined rounds) files ->
  exists cs, does (grep_main rounds (me :: pattern :: (s_name <$> files))) cs (files ≫= grep_file_answers rounds pattern) (inr (Exited 0)) /\
    written 1 cs = files ≫= (fun i => selected pattern (split_lines (s_bytes i)).1) /\ written 2 cs = [].
Proof.
  intros Hne Hf. unfold grep_main. rewrite !(proj2 (Z.leb_gt _ _)) by (destruct files; [done|]; cbn [fmap list_fmap length]; lia).
  cbn [drop nth]. clear Hne. set (f := fun name : list Z => _).
  cut (exists cs, does (each (s_name <$> files) f) cs (files ≫= grep_file_answers rounds pattern) (inl tt) /\
    written 1 cs = files ≫= (fun i => selected pattern (split_lines (s_bytes i)).1) /\ written 2 cs = []).
  { intros (cs & Hd & Hw). exists cs. split; [|done]. eapply does_eq; [|apply app_nil_r..].
    apply (does_bind _ _ _ _ tt); [exact Hd|apply does_exit]. }
  induction Hf as [|i files (Hfd & H0 & Hs & Hr) _ IH]; [exists []; split; [apply does_ret|done]|].
  destruct IH as (cs & Hd & H1 & H2).
  destruct (grep_fd_does (s_sched i) pattern (s_fd i) rounds [] (s_bytes i) _ (grep_ok (s_sched i) pattern rounds [] (s_bytes i) H0 eq_refl Hs Hr))
    as (cs' & Hd' & H1' & H2').
  exists ((COpen (s_name i) O_RDONLY :: cs' ++ [CClose (s_fd i)]) ++ cs). split; [|split].
  - cbn [fmap list_fmap each mbind list_bind]. apply (does_bind _ _ _ _ tt); [|exact Hd]. unfold f. apply does_call. cbn [rval].
    rewrite (proj2 (Z.ltb_ge _ _)) by lia. apply (does_bind _ _ _ _ tt); [exact Hd'|apply does_call, does_ret].
  - rewrite written_app, written_open, written_app, H1', H1. cbn [mbind list_bind app]. by rewrite app_nil_r.
  - by rewrite written_app, written_open, written_app, H2', H2.
Qed.

(** ** Examples *)
Lemma cat_copies_witness :
  exists cs, does (cat_main 3 [txt "cat"; txt "a"; txt "b"]) cs
    [RVal 3; RData 2 [7; 8]; RVal 2; RData 1 [9]; RVal 1; RData 0 []; RVal 0; RVal 3; RData 0 []; RVal 0] (inr (Exited 0)) /\
    written 1 cs = [7; 8; 9] /\ written 2 cs = [].
Proof.
  apply (cat_copies 3 (txt "cat") [Input (txt "a") 3 [[7; 8]; [9]]; Input (txt "b") 3 []]); [done|].
  repeat (apply Forall_cons; split); try apply Forall_nil_2; unfold readable, nonempty; cbn [i_fd i_chunks length];
    split_and!; try lia; repeat (apply Forall_cons; split; [discriminate|]); apply Forall_nil_2.
Defined.
Lemma cat_stops_witness :
  exists cs, does (cat_main 2 [txt "cat"; txt "a"; txt "b"; txt "c"]) cs
    ([RVal 3; RData 2 [7; 8]; RVal 2; RData 0 []; RVal 0; RVal (-1)] ++ acks (txt "cat: cannot open b" ++ nl)) (inr (Exited 1)) /\
    written 1 cs = [7; 8] /\ written 2 cs = txt "cat: cannot open b" ++ nl.
Proof.
  apply (cat_stops 2 (txt "cat") [Input (txt "a") 3 [[7; 8]]] (NoOpen (txt "b") (-1)) [txt "c"]); [|cbn; lia].
  repeat (apply Forall_cons; split); try apply Forall_nil_2. unfold readable, nonempty; cbn [i_fd i_chunks length].
  split_and!; try lia. repeat (apply Forall_cons; split; [discriminate|]); apply Forall_nil_2.
Defined.
Lemma wc_counts_witness : exists tl tw tc, decimal tl 1 /\ decimal tw 2 /\ decimal tc 6 /\
  let text := tl ++ [32] ++ tw ++ [32] ++ tc ++ [32] ++ txt "f" ++ nl in
  does (wc 3 3 (txt "f")) (replicate 3 (CRead 3 512) ++ writes 1 text) ([RData 2 (txt "ab"); RData 4 (txt "c d" ++ nl); RData 0 []] ++ acks text) (inl tt).
Proof.
  refine (wc_counts 3 3 (txt "f") [txt "ab"; txt "c d" ++ nl] _ _ _); [|cbn; lia|vm_compute; reflexivity].
  repeat (apply Forall_cons; split; [discriminate|]). apply Forall_nil_2.
Defined.
Lemma echo_joins_witness : exists cs, does (echo_main [txt "echo"; txt "a"; txt "b"]) cs [RVal 1; RVal 1; RVal 1; RVal 1] (inr (Exited 0)) /\
  written 1 cs = txt "a b" ++ nl.
Proof. refine (echo_joins (txt "echo") [txt "a"; txt "b"] _ _). reflexivity. Defined.
Definition ls_example : list dentry :=
  [Dentry 1 (txt ".") (Some (4, (1, 1, 48))); Dentry 0 (txt "x") None; Dentry 7 (txt "cat") (Some (4, (2, 7, 900)))].
Lemma ls_lists_witness : exists cs,
  does (ls 4 (txt "/d")) cs (RVal 3 :: RStat 0 1 5 48 :: (ls_example ≫= d_answers (txt "/d")) ++ [RData 0 []; RVal 0]) (inl tt) /\
  written 1 cs = (txt ".              1 1 48" ++ nl) ++ (txt "cat            2 7 900" ++ nl) /\ written 2 cs = [].
Proof.
  apply (ls_lists 4 (txt "/d") 3 5 48 ls_example); [lia|vm_compute; discriminate| |cbn; lia].
  repeat (apply Forall_cons; split); try apply Forall_nil_2; unfold d_ok; cbn [d_inum d_name d_stat];
    (split_and!; [lia..|vm_compute; lia|repeat (apply Forall_cons; split; [split; discriminate|]); apply Forall_nil_2|try exact I; lia]).
Defined.
Lemma grep_main_selects_witness : exists cs,
  does (grep_main 12 [txt "grep"; txt "b"; txt "f"]) cs
    (grep_file_answers 12 (txt "b") (Source (txt "f") 3 (txt "abc" ++ nl ++ txt "acc" ++ nl) (fun _ => 3%nat))) (inr (Exited 0)) /\
  written 1 cs = txt "abc" ++ nl /\ written 2 cs = [].
Proof.
  pose (f := Source (txt "f") 3 (txt "abc" ++ nl ++ txt "acc" ++ nl) (fun _ => 3%nat)).
  destruct (grep_main_selects 12 (txt "grep") (txt "b") [f]) as (cs & Hd & H1 & H2); [done| |].
  - apply Forall_cons. split; [|apply Forall_nil_2]. unfold lined. cbn [s_fd s_bytes f]. split_and!; [lia| | |vm_compute; lia].
    + repeat (apply Forall_cons; split; [discriminate|]). apply Forall_nil_2.
    + split; [|vm_compute; lia]. repeat (apply Forall_cons; split; [vm_compute; lia|]). apply Forall_nil_2.
  - exists cs. cbn [mbind list_bind] in Hd. rewrite app_nil_r in Hd. split; [exact Hd|]. split; [exact H1|exact H2].
Defined.
