(* ===== verification/Procdump.v ===== *)
(** What the kernel prints itself: procdump (kernel/proc.c) and panic
    (kernel/printf.c), as the text given to the console. *)
From S2P Require Import Prelude Riscv Printf User Ulib Utils Proc.

(** The kernel's printf of a text with these arguments. *)
Definition kprintf (fmt : list Z) (l : list arg) : option (list Z) := printf (ap_of l) (str_of l) fmt.

(** [states] *)
Definition state_text (st : procstate) : list Z :=
  match st with
  | UNUSED => txt "unused"
  | USED => txt "used"
  | SLEEPING => txt "sleep "
  | RUNNABLE => txt "runble"
  | RUNNING => txt "run   "
  | ZOMBIE => txt "zombie"
  end.
Fixpoint dump_from (ps : list proc) : option (list Z) :=
  match ps with
  | [] => Some []
  | p :: ps =>
      if bool_decide (p_state p = UNUSED) then dump_from ps
      else
        a ← kprintf (txt "%d %s %s") [AInt (p_pid p); AStr (state_text (p_state p)); AStr (field (p_name p))];
        b ← kprintf nl [];
        rest ← dump_from ps;
        Some (a ++ b ++ rest)
  end.
Definition procdump (t : ptab) : option (list Z) :=
  a ← kprintf nl [];
  rest ← dump_from (t_proc t <$> seqZ 0 NPROC);
  Some (a ++ rest).

(** [panic]: what is printed before the CPU loops, and the flag that freezes the output
    of the other CPUs. *)
Record pr_state := PrState { pr_locking : bool; panicked : bool; pr_out : list Z }.
Definition printfinit (s : pr_state) : pr_state := PrState true (panicked s) (pr_out s).
Definition kpanic (msg : list Z) (s : pr_state) : option pr_state :=
  a ← kprintf (txt "panic: ") [];
  b ← kprintf (txt "%s" ++ nl) [AStr msg];
  Some (PrState false true (pr_out s ++ a ++ b)).

(** * Correctness *)
(** A number of type int as the kernel prints it. *)
Definition kshown (x : Z) : list Z := default [] (printint (s32 x) 10 true).
Lemma printint_kshown x : printint (s32 x) 10 true = Some (kshown x).
Proof.
  unfold kshown. pose proof (s32_range x) as Hr. revert Hr. generalize (s32 x). intros y Hr.
  assert (is_Some (printint y 10 true)) as [t ->]; [|done].
  pose proof (int_text_ok kdigit 10 (if y <? 0 then u64 (- y) else u64 y) (y <? 0) ltac:(lia)) as HT. unfold int_text in HT.
  assert (0 <= (if y <? 0 then u64 (- y) else u64 y) <= 2 ^ 31) as Hu by (destruct (Z.ltb_spec y 0); rewrite u64_small; lia).
  specialize (HT (proj1 Hu)). rewrite (proj2 (Z.ltb_lt _ _)) in HT by (destruct (y <? 0); lia).
  destruct HT as (ds & E & _). unfold printint. cbn [andb]. rewrite E. by eexists.
Qed.
Lemma kprintf_nl : kprintf nl [] = Some nl.
Proof. reflexivity. Qed.
Lemma kprintf_entry x st name : kprintf (txt "%d %s %s") [AInt x; AStr st; AStr name] = Some (kshown x ++ [32] ++ st ++ [32] ++ name).
Proof.
  transitivity (out (printint (s32 x) 10 true) (out (Some [32]) (out (Some st) (out (Some [32]) (out (Some name) (Some [])))))); [reflexivity|].
  rewrite printint_kshown. unfold out. cbn [mbind option_bind]. by rewrite app_nil_r.
Qed.
Definition dump_line (p : proc) : list Z :=
  kshown (p_pid p) ++ [32] ++ state_text (p_state p) ++ [32] ++ field (p_name p) ++ nl.
Lemma dump_from_lists ps : dump_from ps = Some (filter (fun p => p_state p <> UNUSED) ps ≫= dump_line).
Proof.
  induction ps as [|p ps IH]; [done|]. cbn [dump_from]. rewrite filter_cons. destruct (decide (p_state p <> UNUSED)) as [Hu|Hu].
  - rewrite bool_decide_eq_false_2 by done. rewrite kprintf_entry, kprintf_nl, IH.
    transitivity (Some ((kshown (p_pid p) ++ [32] ++ state_text (p_state p) ++ [32] ++ field (p_name p)) ++ nl ++
      (filter (fun p => p_state p <> UNUSED) ps ≫= dump_line))); [done|].
    f_equal. cbn [mbind list_bind]. unfold dump_line. by rewrite <- !app_assoc.
  - rewrite bool_decide_eq_true_2 by (destruct (decide (p_state p = UNUSED)); done). exact IH.
Qed.
(** procdump prints an empty line and then, for every process in use and in the order
    of the table, its number, its state and its name; no number overruns the buffer. *)
Theorem procdump_lists t :
  procdump t = Some (nl ++ (filter (fun p => p_state p <> UNUSED) (t_proc t <$> seqZ 0 NPROC) ≫= dump_line)).
Proof. unfold procdump. by rewrite kprintf_nl, dump_from_lists. Qed.
