(* ===== verification/Shell.v ===== *)
(** The shell's command parser (user/sh.c).

    A pointer into the command line is its offset in [buf], whose end [es] is the
    length; beyond it the line reads as NUL.  The words of a parsed command are
    pairs of offsets until [nulterminate] has written NULs behind them.  An
    [execcmd] node is filled after redirections have been wrapped around it, so
    the parser carries its arguments and the redirections and builds the tree at
    the end.  [panic] exits the child that parses: [PErr]. *)
From S2P Require Import Prelude.

Inductive rmode := RIn | ROut | RAppend.
(** [mode] and [fd] of a [redircmd]. *)
Definition rmode_flags (m : rmode) : Z := match m with RIn => 0 | ROut => Z.lor 1 (Z.lor 0x200 0x400) | RAppend => Z.lor 1 0x200 end.
Definition rmode_fd (m : rmode) : Z := match m with RIn => 0 | _ => 1 end.

Inductive cmd (W : Type) :=
| Exec (argv : list W)
| Redir (c : cmd W) (file : W) (m : rmode)
| Pipe (left right : cmd W)
| List (left right : cmd W)
| Back (c : cmd W).
Arguments Exec {W} argv.
Arguments Redir {W} c file m.
Arguments Pipe {W} left right.
Arguments List {W} left right.
Arguments Back {W} c.

Definition MAXARGS : nat := 10.
(** whitespace and symbols *)
Definition is_ws (c : Z) : bool := bool_decide (c ∈ [32; 9; 13; 10; 11]).
Definition LT : Z := 60.
Definition GT : Z := 62.
Definition BAR : Z := 124.
Definition AMP : Z := 38.
Definition SEMI : Z := 59.
Definition LPAR : Z := 40.
Definition RPAR : Z := 41.
Definition is_sym (c : Z) : bool := bool_decide (c ∈ [LT; BAR; GT; AMP; SEMI; LPAR; RPAR]).
Definition wordc (c : Z) : bool := negb (is_ws c) && negb (is_sym c).

Inductive tok := TEnd | TSym (c : Z) | TAppend | TWord.
#[export] Instance tok_eq : EqDecision tok.
Proof. solve_decision. Defined.

Inductive pres (A : Type) := POk (a : A) (s : nat) | PErr (msg : string) | PFuel.
Arguments POk {A} a s.
Arguments PErr {A} msg.
Arguments PFuel {A}.
Definition pbind {A B} (m : pres A) (f : A -> nat -> pres B) : pres B :=
  match m with POk a s => f a s | PErr e => PErr e | PFuel => PFuel end.
Notation "'plet' ( a , s ) := m 'in' k" := (pbind m (fun a s => k))
  (at level 10, a name, s name, m at level 100, k at level 200).

(** The length of the longest prefix of characters that satisfy [f]. *)
Fixpoint span (f : Z -> bool) (l : list Z) : nat :=
  match l with [] => O | c :: l => if f c then S (span f l) else O end.

Definition word : Type := nat * nat.
Definition redir : Type := word * rmode.
Definition wrap {W} (c : cmd W) (rs : list (W * rmode)) : cmd W := fold_left (fun c r => Redir c r.1 r.2) rs c.

Section parser.
Context (buf : list Z).
Definition es : nat := length buf.
Definition char_at (s : nat) : Z := nth s buf 0.
Definition skip_ws (s : nat) : nat := s + span is_ws (drop s buf).

(** The token, where it begins and ends, and where the next one begins. *)
Definition gettoken (s : nat) : tok * word * nat :=
  let q := skip_ws s in
  let c := char_at q in
  let '(ret, eq) :=
    if c =? 0 then (TEnd, q)
    else if bool_decide (c ∈ [BAR; LPAR; RPAR; SEMI; AMP; LT]) then (TSym c, S q)
    else if c =? GT then if char_at (S q) =? GT then (TAppend, S (S q)) else (TSym GT, S q)
    else (TWord, (q + span wordc (drop q buf))%nat) in
  (ret, (q, eq), skip_ws eq).
Definition peek (s : nat) (toks : list Z) : bool * nat :=
  let s := skip_ws s in (negb (char_at s =? 0) && bool_decide (char_at s ∈ toks), s).

Fixpoint parseredirs (fuel : nat) (s : nat) (rs : list redir) : pres (list redir) :=
  match fuel with
  | O => PFuel
  | S fuel =>
      let '(b, s) := peek s [LT; GT] in
      if negb b then POk rs s
      else
        let '(tok, _, s) := gettoken s in
        let '(tok', w, s) := gettoken s in
        if bool_decide (tok' <> TWord) then PErr "missing file for redirection"
        else
          let rs := match tok with
                    | TSym c => if c =? LT then rs ++ [(w, RIn)] else if c =? GT then rs ++ [(w, ROut)] else rs
                    | TAppend => rs ++ [(w, RAppend)]
                    | _ => rs
                    end in
          parseredirs fuel s rs
  end.
Definition loop_fuel (s : nat) : nat := S (es - s).

(** The loop of [parseexec]. *)
Fixpoint parseargs (fuel : nat) (s : nat) (argv : list word) (rs : list redir) : pres (list word * list redir) :=
  match fuel with
  | O => PFuel
  | S fuel =>
      let '(b, s) := peek s [BAR; RPAR; AMP; SEMI] in
      if b then POk (argv, rs) s
      else
        let '(tok, w, s) := gettoken s in
        match tok with
        | TEnd => POk (argv, rs) s
        | TWord =>
            if bool_decide (MAXARGS <= S (length argv))%nat then PErr "too many args"
            else plet (rs, s) := parseredirs (loop_fuel s) s rs in parseargs fuel s (argv ++ [w]) rs
        | _ => PErr "syntax"
        end
  end.
(** [while(peek(ps, es, "&"))] of [parseline]. *)
Fixpoint parsebacks (fuel : nat) (s : nat) (c : cmd word) : pres (cmd word) :=
  match fuel with
  | O => PFuel
  | S fuel =>
      let '(b, s) := peek s [AMP] in
      if b then let '(_, _, s) := gettoken s in parsebacks fuel s (Back c) else POk c s
  end.

Fixpoint parseline (fuel : nat) (s : nat) : pres (cmd word) :=
  match fuel with
  | O => PFuel
  | S fuel =>
      plet (c, s) := parsepipe fuel s in
      plet (c, s) := parsebacks (loop_fuel s) s c in
      let '(b, s) := peek s [SEMI] in
      if b then
        let '(_, _, s) := gettoken s in
        plet (r, s) := parseline fuel s in POk (List c r) s
      else POk c s
  end
with parsepipe (fuel : nat) (s : nat) : pres (cmd word) :=
  match fuel with
  | O => PFuel
  | S fuel =>
      plet (c, s) := parseexec fuel s in
      let '(b, s) := peek s [BAR] in
      if b then
        let '(_, _, s) := gettoken s in
        plet (r, s) := parsepipe fuel s in POk (Pipe c r) s
      else POk c s
  end
with parseexec (fuel : nat) (s : nat) : pres (cmd word) :=
  match fuel with
  | O => PFuel
  | S fuel =>
      let '(b, s) := peek s [LPAR] in
      if b then
        (* parseblock *)
        let '(_, _, s) := gettoken s in
        plet (c, s) := parseline fuel s in
        let '(b, s) := peek s [RPAR] in
        if negb b then PErr "syntax - missing )"
        else
          let '(_, _, s) := gettoken s in
          plet (rs, s) := parseredirs (loop_fuel s) s [] in POk (wrap c rs) s
      else
        plet (rs, s) := parseredirs (loop_fuel s) s [] in
        plet (p, s) := parseargs (loop_fuel s) s [] rs in POk (wrap (Exec p.1) p.2) s
  end.

(** A call of the parser either consumes a character or is one of three nested
    calls at the same place. *)
Definition parse_fuel (s : nat) : nat := 3 * (es - s) + 3.
Definition parse_all : pres (cmd word) :=
  plet (c, s) := parseline (parse_fuel 0) 0 in
  let '(_, s) := peek s [] in
  if bool_decide (s <> es) then PErr "syntax" else POk c s.
End parser.

(** [*eargv[i] = 0] for all words; at [es] the NUL of the line is written again. *)
Fixpoint nulterminate (c : cmd word) (buf : list Z) : list Z :=
  match c with
  | Exec argv => fold_left (fun buf w => <[w.2 := 0]> buf) argv buf
  | Redir c w _ => let buf := nulterminate c buf in <[w.2 := 0]> buf
  | Pipe l r | List l r => nulterminate r (nulterminate l buf)
  | Back c => nulterminate c buf
  end.
(** The tree and the line it points into. *)
Definition parsecmd (buf : list Z) : pres (cmd word * list Z) :=
  plet (c, s) := parse_all buf in POk (c, nulterminate c buf) s.

(** * Positions *)
Section positions.
Context (buf : list Z).

Lemma span_le f l : (span f l <= length l)%nat.
Proof. induction l as [|c l IH]; cbn; [done|]. destruct (f c); lia. Qed.
Lemma skip_ws_ge s : (s <= skip_ws buf s)%nat.
Proof. unfold skip_ws. lia. Qed.
Lemma skip_ws_le s : (s <= es buf)%nat -> (skip_ws buf s <= es buf)%nat.
Proof. intros Hs. unfold skip_ws, es in *. pose proof (span_le is_ws (drop s buf)) as Hl. rewrite length_drop in Hl. lia. Qed.
Lemma char_at_end s : char_at buf s <> 0 -> (s < es buf)%nat.
Proof. unfold char_at, es. intros Hc. destruct (decide (s < length buf)%nat); [done|]. rewrite nth_overflow in Hc by lia. done. Qed.

Lemma drop_char s : (s < es buf)%nat -> drop s buf = char_at buf s :: drop (S s) buf.
Proof.
  unfold es, char_at. intros Hs. destruct (lookup_lt_is_Some_2 buf s Hs) as [c Hc].
  rewrite (drop_S _ _ _ Hc). f_equal. symmetry. by apply nth_lookup_Some.
Qed.
Lemma span_stop f l : nth (span f l) l 0 = 0 \/ f (nth (span f l) l 0) = false.
Proof. induction l as [|c l IH]; cbn; [by left|]. destruct (f c) eqn:E; [done|by right]. Qed.
Lemma char_at_drop s n : char_at buf (s + n) = nth n (drop s buf) 0.
Proof. unfold char_at. rewrite !nth_lookup, lookup_drop. done. Qed.
Lemma skip_ws_stop s : is_ws (char_at buf (skip_ws buf s)) = false.
Proof.
  unfold skip_ws. rewrite char_at_drop. destruct (span_stop is_ws (drop s buf)) as [->|]; done.
Qed.
Lemma wordc_split c : is_ws c = false -> c ∉ [BAR; LPAR; RPAR; SEMI; AMP; LT] -> c <> GT -> wordc c = true.
Proof. unfold wordc, is_sym. intros -> H1 H2. rewrite bool_decide_eq_false_2; [done|]. set_solver. Qed.

(** [gettoken] moves forward, and past at least one character unless it is at the end. *)
Lemma gettoken_moves s t w s' :
  (s <= es buf)%nat -> gettoken buf s = (t, w, s') ->
  (s <= s' <= es buf)%nat /\ (t <> TEnd -> s < s')%nat /\ (char_at buf (skip_ws buf s) <> 0 -> t <> TEnd).
Proof.
  intros Hs. unfold gettoken. set (q := skip_ws buf s). pose proof (skip_ws_ge s). pose proof (skip_ws_le s Hs). fold q in H, H0.
  assert (HE : forall e, (q <= e <= es buf)%nat -> (s <= skip_ws buf e <= es buf)%nat /\ (e <= skip_ws buf e)%nat).
  { intros e He. pose proof (skip_ws_ge e). pose proof (skip_ws_le e). lia. }
  destruct (Z.eqb_spec (char_at buf q) 0) as [E|E].
  { intros [= <- <- <-]. destruct (HE q); [lia|]. done. }
  pose proof (char_at_end q E) as Hq.
  case_bool_decide.
  { intros [= <- <- <-]. destruct (HE (S q)); [lia|]. split_and!; [lia..|intros; lia|done]. }
  destruct (Z.eqb_spec (char_at buf q) GT) as [EG|EG].
  - destruct (Z.eqb_spec (char_at buf (S q)) GT) as [EG'|EG']; intros [= <- <- <-].
    + assert (S q < es buf)%nat by (apply char_at_end; rewrite EG'; done). destruct (HE (S (S q))); [lia|]. split_and!; [lia..|intros; lia|done].
    + destruct (HE (S q)); [lia|]. split_and!; [lia..|intros; lia|done].
  - intros [= <- <- <-]. set (n := span wordc (drop q buf)).
    assert (Hn : (n <= es buf - q)%nat) by (unfold n; pose proof (span_le wordc (drop q buf)) as HL; rewrite length_drop in HL; unfold es; lia).
    destruct (HE (q + n)%nat); [lia|]. split_and!; [lia..| |done]. intros _.
    assert (W : wordc (char_at buf q) = true) by (apply wordc_split; [apply skip_ws_stop|done|done]).
    unfold n in *. rewrite (drop_char q Hq) in *. cbn [span] in *. rewrite W in *. lia.
Qed.

(** * Termination *)
(** The run ends, at or after [s]. *)
Definition ends {A} (s : nat) (r : pres A) : Prop :=
  match r with POk _ s' => (s <= s' <= es buf)%nat | PErr _ => True | PFuel => False end.
Lemma ends_bind {A B} s (m : pres A) (f : A -> nat -> pres B) :
  ends s m -> (forall a s', (s <= s' <= es buf)%nat -> ends s (f a s')) -> ends s (pbind m f).
Proof. destruct m; cbn; auto. Qed.
Lemma ends_mono {A} s s' (r : pres A) : (s <= s')%nat -> ends s' r -> ends s r.
Proof. destruct r; cbn; [lia|done|done]. Qed.

Lemma skip_ws_id s : is_ws (char_at buf s) = false -> skip_ws buf s = s.
Proof.
  intros E. unfold skip_ws. destruct (decide (s < es buf)%nat) as [Hs|Hs].
  - rewrite drop_char by done. cbn. rewrite E. lia.
  - unfold es in Hs. rewrite drop_ge by lia. cbn. lia.
Qed.
Lemma peek_moves s toks b s' :
  (s <= es buf)%nat -> peek buf s toks = (b, s') ->
  (s <= s' <= es buf)%nat /\ skip_ws buf s' = s' /\ (b = true -> char_at buf s' <> 0 /\ char_at buf s' ∈ toks).
Proof.
  intros Hs [= <- <-]. pose proof (skip_ws_ge s). pose proof (skip_ws_le s Hs). split; [lia|].
  split; [apply skip_ws_id, skip_ws_stop|]. intros [E1 E2]%andb_true_iff. apply bool_decide_eq_true in E2.
  split; [|done]. by apply negb_true_iff, Z.eqb_neq in E1.
Qed.
(** A token that [peek] has announced is there. *)
Lemma peek_gettoken s toks s' t w s'' :
  (s <= es buf)%nat -> peek buf s toks = (true, s') -> gettoken buf s' = (t, w, s'') -> (s < s'' <= es buf)%nat.
Proof.
  intros Hs HP HG. destruct (peek_moves _ _ _ _ Hs HP) as (H1 & H2 & H3). destruct (H3 eq_refl) as [H4 _].
  destruct (gettoken_moves s' t w s'') as (H5 & H6 & H7); [lia|done|]. rewrite H2 in H7. specialize (H6 (H7 H4)). lia.
Qed.

Lemma parseredirs_ends fuel s rs : (s <= es buf)%nat -> (es buf - s < fuel)%nat -> ends s (parseredirs buf fuel s rs).
Proof.
  revert s rs. induction fuel as [|fuel IH]; intros s rs Hs Hf; [lia|]. cbn [parseredirs].
  destruct (peek buf s [LT; GT]) as [b s1] eqn:EP. destruct b; cbn [negb]; [|destruct (peek_moves _ _ _ _ Hs EP); cbn; lia].
  destruct (gettoken buf s1) as [[t w] s2] eqn:EG. pose proof (peek_gettoken _ _ _ _ _ _ Hs EP EG).
  destruct (gettoken buf s2) as [[t' w'] s3] eqn:EG'. destruct (gettoken_moves s2 t' w' s3) as (H5 & _ & _); [lia|done|].
  case_bool_decide; [done|]. apply (ends_mono s s3); [lia|]. apply IH; lia.
Qed.
Lemma parseargs_ends fuel s argv rs : (s <= es buf)%nat -> (es buf - s < fuel)%nat -> ends s (parseargs buf fuel s argv rs).
Proof.
  revert s argv rs. induction fuel as [|fuel IH]; intros s argv rs Hs Hf; [lia|]. cbn [parseargs].
  destruct (peek buf s _) as [b s1] eqn:EP. destruct (peek_moves _ _ _ _ Hs EP) as (H1 & _). destruct b; [done|].
  destruct (gettoken buf s1) as [[t w] s2] eqn:EG. destruct (gettoken_moves s1 t w s2) as (H2 & H3 & _); [lia|done|].
  destruct t; try done; [cbn; lia|]. case_bool_decide; [done|]. specialize (H3 ltac:(done)).
  apply (ends_mono s s2); [lia|]. apply ends_bind; [apply parseredirs_ends; unfold loop_fuel; lia|].
  intros rs' s3 H4. apply (ends_mono s2 s3); [lia|]. apply IH; lia.
Qed.
Lemma parsebacks_ends fuel s c : (s <= es buf)%nat -> (es buf - s < fuel)%nat -> ends s (parsebacks buf fuel s c).
Proof.
  revert s c. induction fuel as [|fuel IH]; intros s c Hs Hf; [lia|]. cbn [parsebacks].
  destruct (peek buf s [AMP]) as [b s1] eqn:EP. destruct b; [|destruct (peek_moves _ _ _ _ Hs EP); cbn; lia].
  destruct (gettoken buf s1) as [[t w] s2] eqn:EG. pose proof (peek_gettoken _ _ _ _ _ _ Hs EP EG).
  apply (ends_mono s s2); [lia|]. apply IH; lia.
Qed.
(** Three nested calls, or one character. *)
Lemma parse_ends fuel s :
  (s <= es buf)%nat ->
  ((3 * (es buf - s) + 3 <= fuel)%nat -> ends s (parseline buf fuel s)) /\
  ((3 * (es buf - s) + 2 <= fuel)%nat -> ends s (parsepipe buf fuel s)) /\
  ((3 * (es buf - s) + 1 <= fuel)%nat -> ends s (parseexec buf fuel s)).
Proof.
  revert s. induction fuel as [|fuel IH]; intros s Hs; [split_and!; lia|].
  split_and!; intros Hf; cbn [parseline parsepipe parseexec].
  - apply ends_bind; [apply IH; lia|]. intros c s1 H1. apply (ends_mono s s1); [lia|].
    apply ends_bind; [apply parsebacks_ends; unfold loop_fuel; lia|]. intros c' s2 H2.
    destruct (peek buf s2 [SEMI]) as [b s3] eqn:EP. destruct b; [|destruct (peek_moves s2 _ _ _ ltac:(lia) EP); cbn; lia].
    destruct (gettoken buf s3) as [[t w] s4] eqn:EG. pose proof (peek_gettoken s2 _ _ _ _ _ ltac:(lia) EP EG).
    apply (ends_mono s1 s4); [lia|]. apply ends_bind; [apply IH; lia|]. cbn. lia.
  - apply ends_bind; [apply IH; lia|]. intros c s1 H1.
    destruct (peek buf s1 [BAR]) as [b s3] eqn:EP. destruct b; [|destruct (peek_moves s1 _ _ _ ltac:(lia) EP); cbn; lia].
    destruct (gettoken buf s3) as [[t w] s4] eqn:EG. pose proof (peek_gettoken s1 _ _ _ _ _ ltac:(lia) EP EG).
    apply (ends_mono s s4); [lia|]. apply ends_bind; [apply IH; lia|]. cbn. lia.
  - destruct (peek buf s [LPAR]) as [b s1] eqn:EP. destruct (peek_moves _ _ _ _ Hs EP) as (H1 & _). destruct b.
    + destruct (gettoken buf s1) as [[t w] s2] eqn:EG. pose proof (peek_gettoken s _ _ _ _ _ Hs EP EG).
      apply (ends_mono s s2); [lia|]. apply ends_bind; [apply IH; lia|]. intros c s3 H3.
      destruct (peek buf s3 [RPAR]) as [b s4] eqn:EP'. destruct b; cbn [negb]; [|done].
      destruct (gettoken buf s4) as [[t' w'] s5] eqn:EG'. pose proof (peek_gettoken s3 _ _ _ _ _ ltac:(lia) EP' EG').
      apply (ends_mono s2 s5); [lia|]. apply ends_bind; [apply parseredirs_ends; unfold loop_fuel; lia|]. cbn. lia.
    + apply (ends_mono s s1); [lia|]. apply ends_bind; [apply parseredirs_ends; unfold loop_fuel; lia|]. intros rs s2 H2.
      apply (ends_mono s1 s2); [lia|]. apply ends_bind; [apply parseargs_ends; unfold loop_fuel; lia|]. cbn. lia.
Qed.
Lemma parse_all_ends : parse_all buf <> PFuel.
Proof.
  unfold parse_all. destruct (parse_ends (parse_fuel buf 0) 0) as (H & _); [lia|]. specialize (H ltac:(unfold parse_fuel; lia)).
  destruct (parseline buf (parse_fuel buf 0) 0); cbn in *; [|done|done]. by case_bool_decide.
Qed.
End positions.

(** C30. The parser of the shell terminates on every line: the recursion of
    its mutually recursive procedures is at most three calls deep per character
    left, and every loop consumes input. *)
Theorem parsecmd_terminates (buf : list Z) : parsecmd buf <> PFuel.
Proof. unfold parsecmd. pose proof (parse_all_ends buf). by destruct (parse_all buf). Qed.

(** * Printing a command and parsing it back *)
Inductive level := LExec | LPipe | LBack | LLine.
Definition rsym (m : rmode) : list Z := match m with RIn => [LT] | ROut => [GT] | RAppend => [GT; GT] end.
Definition word_text (w : list Z) : list Z := w ++ [32].
Definition redir_text (r : list Z * rmode) : list Z := rsym r.2 ++ word_text r.1.
Definition paren (b : bool) (l : list Z) : list Z := if b then [LPAR] ++ l ++ [RPAR] else l.
(** The text of a command where [lvl] is the loosest construct that needs no parentheses. *)
Fixpoint pr (c : cmd (list Z)) (lvl : level) : list Z :=
  match c with
  | Exec argv => concat (word_text <$> argv)
  | Redir c w m => pr c LExec ++ redir_text (w, m)
  | Pipe l r => paren (match lvl with LExec => true | _ => false end) (pr l LExec ++ [BAR] ++ pr r LPipe)
  | Back c => paren (match lvl with LExec | LPipe => true | _ => false end) (pr c LBack ++ [AMP])
  | List l r => paren (match lvl with LLine => false | _ => true end) (pr l LBack ++ [SEMI] ++ pr r LLine)
  end.

(** Words: not empty, without white space, symbols and NUL; fewer than [MAXARGS] arguments. *)
Definition good_char (c : Z) : Prop := wordc c = true /\ c <> 0.
Definition good_word (w : list Z) : Prop := w <> [] /\ Forall good_char w.
Fixpoint good (c : cmd (list Z)) : Prop :=
  match c with
  | Exec argv => Forall good_word argv /\ (length argv < MAXARGS)%nat
  | Redir c w _ => good c /\ good_word w
  | Pipe l r | List l r => good l /\ good r
  | Back c => good c
  end.

Definition strip (l : list Z) : list Z := drop (span is_ws l) l.
Lemma strip_cons c l : is_ws c = false -> strip (c :: l) = c :: l.
Proof. unfold strip. cbn. by intros ->. Qed.
Lemma strip_ws c l : is_ws c = true -> strip (c :: l) = strip l.
Proof. unfold strip. cbn. by intros ->. Qed.
Lemma strip_strip l : strip (strip l) = strip l.
Proof.
  induction l as [|c l IH]; [done|]. destruct (is_ws c) eqn:E; [by rewrite strip_ws|by rewrite !strip_cons].
Qed.
Lemma strip_app_word w l : good_word w -> strip (w ++ l) = w ++ l.
Proof.
  intros [Hne HF]. destruct HF as [|c w [Hc _] _]; [done|]. apply strip_cons. unfold wordc in Hc.
  by apply andb_true_iff in Hc as [Hc%negb_true_iff _].
Qed.

Section roundtrip.
Context (buf : list Z).
Abbreviation tl s := (drop s buf).

Lemma tl_skip s : tl (skip_ws buf s) = strip (tl s).
Proof. unfold skip_ws, strip. by rewrite drop_drop. Qed.
Lemma char_tl s : char_at buf s = nth 0 (tl s) 0.
Proof. rewrite <-char_at_drop. f_equal. lia. Qed.
Lemma char_tl_S s : char_at buf (S s) = nth 1 (tl s) 0.
Proof. rewrite <-char_at_drop. f_equal. lia. Qed.
Lemma tl_S s c l : tl s = c :: l -> tl (S s) = l.
Proof. intros E. replace (S s) with (s + 1)%nat by lia. rewrite <-drop_drop, E. done. Qed.

(** Head of the rest of the line. *)
Definition heads (l : list Z) (toks : list Z) : bool :=
  match l with c :: _ => negb (c =? 0) && bool_decide (c ∈ toks) | [] => false end.
Lemma peek_at s toks : exists s', peek buf s toks = (heads (strip (tl s)) toks, s') /\ tl s' = strip (tl s).
Proof.
  exists (skip_ws buf s). split; [|apply tl_skip]. unfold peek. rewrite char_tl, tl_skip. by destruct (strip (tl s)).
Qed.

(** A slice of the line that is the word [t]: no word character comes after it. *)
Record denotes (w : word) (t : list Z) : Prop := Denotes {
  de_text : exists r, tl w.1 = t ++ r /\ w.2 = (w.1 + length t)%nat;
  de_good : good_word t;
  de_end : wordc (char_at buf w.2) = false \/ char_at buf w.2 = 0 }.

Lemma span_word w r : Forall good_char w -> (match r with c :: _ => wordc c = false | [] => True end) -> span wordc (w ++ r) = length w.
Proof.
  intros HF Hr. induction HF as [|c w [Hc _] _ IH]; cbn.
  - destruct r; cbn; [done|]. by rewrite Hr.
  - by rewrite Hc, IH.
Qed.
Lemma good_char_not c : good_char c -> is_ws c = false /\ c <> 0 /\ (c =? 0) = false /\ (c =? GT) = false /\ c ∉ [BAR; LPAR; RPAR; SEMI; AMP; LT].
Proof.
  intros [Hc H0]. unfold wordc, is_sym in Hc. apply andb_true_iff in Hc as [H1%negb_true_iff H2%negb_true_iff].
  apply bool_decide_eq_false in H2. split_and!; [done|done|by apply Z.eqb_neq| |set_solver].
  apply Z.eqb_neq. intros ->. apply H2. set_solver.
Qed.
Lemma gettoken_word s w r :
  strip (tl s) = w ++ r -> good_word w -> (match r with c :: _ => wordc c = false | [] => True end) ->
  exists x s', gettoken buf s = (TWord, x, s') /\ denotes x w /\ tl s' = strip r.
Proof.
  intros E G Hr. pose proof G as [Hne HF]. unfold gettoken. set (q := skip_ws buf s).
  assert (Eq : tl q = w ++ r) by (by rewrite <-E, <-tl_skip).
  assert (Ec : good_char (char_at buf q)).
  { rewrite char_tl, Eq. destruct HF; [done|]. done. }
  destruct (good_char_not _ Ec) as (_ & _ & -> & -> & Hs). rewrite bool_decide_eq_false_2 by done.
  rewrite Eq, span_word by done.
  assert (Er : tl (q + length w) = r) by (by rewrite <-drop_drop, Eq, drop_app_length).
  eexists _, _. split; [reflexivity|]. split; [|by rewrite tl_skip, Er]. split; cbn.
  - by exists r.
  - done.
  - rewrite char_tl, Er. destruct r; cbn; auto.
Qed.
Lemma gettoken_sym s c r :
  strip (tl s) = c :: r -> c ∈ [BAR; LPAR; RPAR; SEMI; AMP; LT] ->
  exists x s', gettoken buf s = (TSym c, x, s') /\ tl s' = strip r.
Proof.
  intros E Hc. unfold gettoken. set (q := skip_ws buf s).
  assert (Eq : tl q = c :: r) by (by rewrite <-E, <-tl_skip). rewrite char_tl, Eq. cbn [nth].
  rewrite (proj2 (Z.eqb_neq c 0)), bool_decide_eq_true_2; [|done|intros ->; revert Hc; unfold BAR, LPAR, RPAR, SEMI, AMP, LT; set_solver].
  eexists _, _. split; [reflexivity|]. by rewrite tl_skip, (tl_S q c r).
Qed.
Lemma gettoken_redir s m r :
  strip (tl s) = rsym m ++ r -> (match r with c :: _ => c <> GT | [] => True end) ->
  exists t x s', gettoken buf s = (t, x, s') /\ tl s' = strip r /\
    t = match m with RIn => TSym LT | ROut => TSym GT | RAppend => TAppend end.
Proof.
  destruct m; cbn [rsym app]; intros E Hr.
  - destruct (gettoken_sym s LT r E) as (x & s' & EG & Et); [set_solver|]. eauto 6.
  - unfold gettoken. set (q := skip_ws buf s). assert (Eq : tl q = GT :: r) by (by rewrite <-E, <-tl_skip).
    rewrite char_tl, Eq. cbn [nth]. change (GT =? 0) with false. change (GT =? GT) with true.
    rewrite bool_decide_eq_false_2 by (unfold GT, BAR, LPAR, RPAR, SEMI, AMP, LT; set_solver).
    rewrite char_tl_S, Eq. cbn [nth]. rewrite (proj2 (Z.eqb_neq _ _)) by (destruct r; done).
    eexists _, _, _. split; [reflexivity|]. split; [|done]. by rewrite tl_skip, (tl_S q GT r).
  - unfold gettoken. set (q := skip_ws buf s). assert (Eq : tl q = GT :: GT :: r) by (by rewrite <-E, <-tl_skip).
    rewrite char_tl, Eq. cbn [nth]. change (GT =? 0) with false. change (GT =? GT) with true.
    rewrite bool_decide_eq_false_2 by (unfold GT, BAR, LPAR, RPAR, SEMI, AMP, LT; set_solver).
    rewrite char_tl_S, Eq. cbn [nth]. change (GT =? GT) with true.
    eexists _, _, _. split; [reflexivity|]. split; [|done]. by rewrite tl_skip, (tl_S (S q) GT r) by (by apply tl_S in Eq).
Qed.
Lemma gettoken_end s : strip (tl s) = [] -> exists x s', gettoken buf s = (TEnd, x, s') /\ tl s' = [].
Proof.
  intros E. unfold gettoken. set (q := skip_ws buf s). assert (Eq : tl q = []) by (by rewrite <-E, <-tl_skip).
  rewrite char_tl, Eq. cbn. eexists _, _. split; [reflexivity|]. by rewrite tl_skip, Eq.
Qed.

(** If the run does not use up its fuel, it succeeds with [Q]. *)
Definition yields {A} (p : pres A) (Q : A -> nat -> Prop) : Prop :=
  match p with POk a s => Q a s | PErr _ => False | PFuel => True end.
Lemma yields_bind {A B} (m : pres A) (f : A -> nat -> pres B) Q :
  yields m (fun a s => yields (f a s) Q) -> yields (pbind m f) Q.
Proof. by destruct m. Qed.
Lemma yields_mono {A} (m : pres A) (Q Q' : A -> nat -> Prop) :
  yields m Q -> (forall a s, Q a s -> Q' a s) -> yields m Q'.
Proof. destruct m; cbn; auto. Qed.

Definition redir_rel (r : redir) (t : list Z * rmode) : Prop := denotes r.1 t.1 /\ r.2 = t.2.
Fixpoint cmd_rel (c : cmd word) (t : cmd (list Z)) : Prop :=
  match c, t with
  | Exec ws, Exec ts => Forall2 denotes ws ts
  | Redir c w m, Redir t v n => cmd_rel c t /\ denotes w v /\ m = n
  | Pipe c d, Pipe t u | List c d, List t u => cmd_rel c t /\ cmd_rel d u
  | Back c, Back t => cmd_rel c t
  | _, _ => False
  end.
Lemma wrap_rel c t rs ts : cmd_rel c t -> Forall2 redir_rel rs ts -> cmd_rel (wrap c rs) (wrap t ts).
Proof.
  intros HC HF. revert c t HC. induction HF as [|r t' rs ts [H1 H2] HF IH]; intros c t HC; cbn; [done|]. by apply IH.
Qed.

(** What may follow a command. *)
Definition stops (toks : list Z) (r : list Z) : Prop := match r with c :: _ => c ∈ toks | [] => True end.
Lemma stops_heads toks toks' r : stops toks r -> (forall c, c ∈ toks -> c ∉ toks') -> heads r toks' = false.
Proof.
  destruct r as [|c r]; cbn; [done|]. intros Hc HD. rewrite bool_decide_eq_false_2 by auto. by rewrite andb_false_r.
Qed.

Lemma parseredirs_yields fuel s acc rs r :
  strip (tl s) = strip (concat (redir_text <$> rs) ++ r) -> Forall (fun t => good_word t.1) rs ->
  heads (strip r) [LT; GT] = false ->
  yields (parseredirs buf fuel s acc) (fun rs' s' => exists ws, rs' = acc ++ ws /\ Forall2 redir_rel ws rs /\ tl s' = strip r).
Proof.
  revert s acc rs. induction fuel as [|fuel IH]; intros s acc rs E HG Hr; cbn [parseredirs]; [done|].
  destruct (peek_at s [LT; GT]) as (s1 & -> & E1). rewrite E in E1 |- *. destruct HG as [|[w m] rs Gw HG].
  - cbn [fmap list_fmap concat app] in *. rewrite Hr. cbn. exists []. by rewrite app_nil_r.
  - cbn [fmap list_fmap concat] in *. unfold redir_text in E1. cbn [fst snd] in *. cbn in Gw.
    set (r' := concat (redir_text <$> rs) ++ r) in *.
    assert (E2 : strip (tl s1) = rsym m ++ w ++ [32] ++ r').
    { rewrite E1, strip_strip. unfold word_text. rewrite <-!app_assoc. by destruct m. }
    assert (HH : heads (strip ((redir_text (w, m) ++ concat (redir_text <$> rs)) ++ r)) [LT; GT] = true) by by destruct m.
    rewrite HH. cbn [negb].
    destruct (gettoken_redir s1 m _ E2) as (t & x & s2 & -> & E3 & Et).
    { destruct Gw as [_ HF]. destruct HF as [|c w Hc _]; [done|]. cbn. destruct (good_char_not _ Hc) as (_ & _ & _ & H & _). by apply Z.eqb_neq. }
    rewrite strip_app_word in E3 by done.
    destruct (gettoken_word s2 w ([32] ++ r')) as (x' & s3 & -> & D & E4); [by rewrite E3, strip_app_word|done|done|].
    rewrite bool_decide_eq_false_2 by (by intros []). cbn [app] in E4. rewrite strip_ws in E4 by done.
    eapply yields_mono; [apply (IH s3 _ rs); [by rewrite E4, strip_strip|done|done]|].
    intros rs' s' (ws & -> & HF & E5). exists ((x', m) :: ws). split; [|split; [|done]].
    + rewrite Et. by destruct m; cbn; rewrite <-app_assoc.
    + by constructor.
Qed.
Lemma parseargs_end fuel s argv rs r :
  strip (tl s) = strip r -> stops [BAR; RPAR; AMP; SEMI] (strip r) ->
  yields (parseargs buf fuel s argv rs) (fun p s' => p = (argv, rs) /\ tl s' = strip r).
Proof.
  intros E Hr. destruct fuel as [|fuel]; cbn [parseargs]; [done|].
  destruct (peek_at s [BAR; RPAR; AMP; SEMI]) as (s1 & -> & E1). rewrite E in E1 |- *. destruct (strip r) as [|c r'] eqn:Er.
  - cbn [heads]. destruct (gettoken_end s1) as (x & s2 & -> & E2); [by rewrite E1|]. done.
  - cbn in Hr. cbn [heads]. rewrite bool_decide_eq_true_2 by done.
    rewrite (proj2 (Z.eqb_neq c 0)); [done|]. intros ->. revert Hr. unfold BAR, RPAR, AMP, SEMI. set_solver.
Qed.
Lemma parseargs_yields fuel s argv0 argv rs r :
  strip (tl s) = strip (concat (word_text <$> argv) ++ concat (redir_text <$> rs) ++ r) -> argv <> [] ->
  Forall good_word argv -> Forall (fun t => good_word t.1) rs -> (length argv0 + length argv < MAXARGS)%nat ->
  stops [BAR; RPAR; AMP; SEMI] (strip r) ->
  yields (parseargs buf fuel s argv0 []) (fun p s' => exists ws rs',
    p = (argv0 ++ ws, rs') /\ Forall2 denotes ws argv /\ Forall2 redir_rel rs' rs /\ tl s' = strip r).
Proof.
  revert s argv0 argv. induction fuel as [|fuel IH]; intros s argv0 argv E Hne HG HR HL Hr; cbn [parseargs]; [done|].
  destruct HG as [|w argv Gw HG]; [done|]. cbn [fmap list_fmap concat] in E.
  set (r1 := concat (word_text <$> argv) ++ concat (redir_text <$> rs) ++ r) in *.
  assert (E0 : strip (tl s) = w ++ [32] ++ r1).
  { rewrite E. unfold word_text. rewrite <-!app_assoc. by apply strip_app_word. }
  destruct (peek_at s [BAR; RPAR; AMP; SEMI]) as (s1 & -> & E1). rewrite E0 in E1 |- *.
  assert (HH : heads (w ++ [32] ++ r1) [BAR; RPAR; AMP; SEMI] = false).
  { destruct Gw as [Hw HF]. destruct HF as [|c w Hc _]; [done|]. cbn. rewrite bool_decide_eq_false_2; [by rewrite andb_false_r|].
    destruct (good_char_not _ Hc) as (_ & _ & _ & _ & H). set_solver. }
  rewrite HH. destruct (gettoken_word s1 w ([32] ++ r1)) as (x & s2 & -> & D & E2); [by rewrite E1, strip_app_word|done|done|].
  cbn [app] in E2. rewrite strip_ws in E2 by done.
  rewrite bool_decide_eq_false_2 by (cbn in HL; lia). apply yields_bind. destruct argv as [|w' argv].
  - eapply yields_mono; [apply (parseredirs_yields _ s2 [] rs r); [by rewrite E2, strip_strip|done|]|].
    { apply (stops_heads _ _ _ Hr). unfold BAR, RPAR, AMP, SEMI, LT, GT. set_solver. }
    intros rs' s3 (ws & -> & HF & E3). eapply yields_mono; [apply (parseargs_end _ s3 _ _ (strip r)); [by rewrite E3|by rewrite strip_strip]|].
    cbn. intros p s4 (-> & E4). exists [x], ws. rewrite strip_strip in E4. split_and!; [done|constructor; [exact D|constructor]|done|done].
  - eapply yields_mono; [apply (parseredirs_yields _ s2 [] [] (strip r1)); [cbn [fmap list_fmap concat app]; by rewrite E2|done|]|].
    { rewrite strip_strip. subst r1. cbn [fmap list_fmap concat]. unfold word_text at 1. rewrite <-!app_assoc.
      inversion HG as [|? ? Gw' _]; subst. rewrite strip_app_word by done. destruct Gw' as [Hw' HF']. destruct HF' as [|c w'' Hc _]; [done|].
      cbn. rewrite bool_decide_eq_false_2; [by rewrite andb_false_r|]. destruct (good_char_not _ Hc) as (_ & _ & _ & HG' & HN).
      apply Z.eqb_neq in HG'. set_solver. }
    intros rs' s3 (ws & -> & HF & E3). inversion HF; subst. cbn [app].
    eapply yields_mono; [apply (IH s3 (argv0 ++ [x]) (w' :: argv))|]; try done.
    + by rewrite E3, !strip_strip.
    + rewrite length_app. cbn in HL |- *. lia.
    + intros p s4 (ws & rs' & -> & H1 & H2 & H3). exists (x :: ws), rs'. rewrite <-app_assoc. split_and!; [done|by constructor|done|done].
Qed.

(** ** The levels of the grammar *)
Definition stop_set (lvl : level) : list Z :=
  match lvl with LExec => [BAR; RPAR; AMP; SEMI] | LPipe => [RPAR; AMP; SEMI] | LBack => [RPAR; SEMI] | LLine => [RPAR] end.
Definition run_level (lvl : level) (fuel s : nat) : pres (cmd word) :=
  match lvl with
  | LExec => parseexec buf fuel s
  | LPipe => parsepipe buf fuel s
  | LBack => plet (c, s) := parsepipe buf fuel s in parsebacks buf (loop_fuel buf s) s c
  | LLine => parseline buf fuel s
  end.
(** At [lvl] the text [txt] is parsed as [t], whatever may follow it. *)
Definition parses (lvl : level) (txt : list Z) (t : cmd (list Z)) : Prop :=
  forall fuel s r, strip (tl s) = strip (txt ++ r) -> stops (stop_set lvl) (strip r) ->
    yields (run_level lvl fuel s) (fun c s' => cmd_rel c t /\ tl s' = strip r).
Fixpoint backs {W} (n : nat) (c : cmd W) : cmd W := match n with O => c | S n => backs n (Back c) end.
Definition parses_backs (txt : list Z) (t : cmd (list Z)) : Prop :=
  forall n, parses LBack (txt ++ replicate n AMP) (backs n t).

Ltac syms := unfold stop_set, BAR, RPAR, AMP, SEMI, LT, GT, LPAR in *; set_solver.
Lemma stops_mono a b r : stops a r -> (forall c, c ∈ a -> c ∈ b) -> stops b r.
Proof. destruct r; cbn; auto. Qed.
Lemma stops_sym c toks r : c ∈ toks -> is_ws c = false -> stops toks (strip (c :: r)).
Proof. intros Hc Hw. by rewrite strip_cons. Qed.
Lemma heads_sym c toks r : is_ws c = false -> c <> 0 -> c ∈ toks -> heads (strip (c :: r)) toks = true.
Proof. intros Hw H0 Hc. rewrite strip_cons by done. cbn. rewrite (proj2 (Z.eqb_neq _ _)), bool_decide_eq_true_2 by done. done. Qed.

(** [peek] and [gettoken] of one symbol. *)
Lemma peek_sym s c toks r :
  strip (tl s) = c :: r -> c ∈ [BAR; LPAR; RPAR; SEMI; AMP; LT] -> c ∈ toks ->
  exists s1 x s2, peek buf s toks = (true, s1) /\ gettoken buf s1 = (TSym c, x, s2) /\ tl s2 = strip r.
Proof.
  intros E Hc Ht. destruct (peek_at s toks) as (s1 & EP & E1). rewrite E in EP, E1. cbn in EP.
  rewrite bool_decide_eq_true_2, (proj2 (Z.eqb_neq c 0)) in EP; [|intros ->; revert Hc; syms|done].
  assert (is_ws c = false) as Hw by (unfold is_ws; apply bool_decide_eq_false_2; revert Hc; syms).
  destruct (gettoken_sym s1 c r) as (x & s2 & EG & E2); [by rewrite E1, strip_cons|done|]. eauto 7.
Qed.

Lemma parses_pipe_of_exec txt t : parses LExec txt t -> parses LPipe txt t.
Proof.
  intros P fuel s r E Hr. destruct fuel as [|fuel]; cbn [run_level parsepipe]; [done|]. apply yields_bind.
  eapply yields_mono; [apply (P fuel s r E), (stops_mono _ _ _ Hr); syms|]. cbv beta. intros c s1 [HC E1].
  destruct (peek_at s1 [BAR]) as (s2 & -> & E2). rewrite E1, strip_strip in E2 |- *.
  rewrite (stops_heads _ [BAR] _ Hr) by syms. done.
Qed.
Lemma parsebacks_yields fuel s c t n r :
  strip (tl s) = strip (replicate n AMP ++ r) -> stops [RPAR; SEMI] (strip r) -> cmd_rel c t ->
  yields (parsebacks buf fuel s c) (fun c s' => cmd_rel c (backs n t) /\ tl s' = strip r).
Proof.
  revert s c t n. induction fuel as [|fuel IH]; intros s c t n E Hr HC; cbn [parsebacks]; [done|]. destruct n as [|n]; cbn [replicate app backs] in *.
  - destruct (peek_at s [AMP]) as (s1 & -> & E1). rewrite E in E1 |- *. rewrite (stops_heads _ [AMP] _ Hr) by syms. done.
  - rewrite strip_cons in E by done. destruct (peek_sym s AMP [AMP] _ E) as (s1 & x & s2 & -> & -> & E2); [syms|syms|].
    apply IH; [by rewrite E2, strip_strip|done|done].
Qed.
Lemma parses_backs_of_pipe txt t : parses LPipe txt t -> parses_backs txt t.
Proof.
  intros P n fuel s r E Hr. cbn [run_level stop_set] in *. apply yields_bind. rewrite <-app_assoc in E.
  eapply yields_mono; [apply (P fuel s _ E)|].
  { destruct n; cbn [replicate app]; [apply (stops_mono _ _ _ Hr); syms|]. by apply stops_sym; [syms|]. }
  cbv beta. intros c s1 [HC E1]. apply parsebacks_yields; [by rewrite E1, strip_strip|done|done].
Qed.
Lemma parses_line_of_backs txt t : parses_backs txt t -> parses LLine txt t.
Proof.
  intros P fuel s r E Hr. destruct fuel as [|fuel]; cbn [run_level parseline]; [done|].
  specialize (P O fuel s r). cbn [replicate backs run_level] in P. rewrite app_nil_r in P.
  specialize (P E (stops_mono _ (stop_set LBack) _ Hr ltac:(clear; syms))).
  destruct (parsepipe buf fuel s) as [c s1| |]; cbn [pbind yields] in P |- *; [|done|done].
  apply yields_bind. eapply yields_mono; [exact P|]. cbv beta. intros c' s2 [HC E1].
  destruct (peek_at s2 [SEMI]) as (s3 & -> & E2). rewrite E1, strip_strip in E2 |- *.
  rewrite (stops_heads _ [SEMI] _ Hr) by syms. done.
Qed.
Lemma parses_pipe tx ty l r : parses LExec tx l -> parses LPipe ty r -> parses LPipe (tx ++ [BAR] ++ ty) (Pipe l r).
Proof.
  intros PL PR fuel s r' E Hr. destruct fuel as [|fuel]; cbn [run_level parsepipe]; [done|]. apply yields_bind.
  rewrite <-!app_assoc in E. eapply yields_mono; [apply (PL fuel s _ E), stops_sym; [syms|done]|]. cbv beta. intros c s1 [HC E1].
  cbn [app] in E1. rewrite strip_cons in E1 by done. destruct (peek_sym s1 BAR [BAR] (ty ++ r')) as (s2 & x & s3 & -> & -> & E2); [by rewrite E1, strip_cons|syms|syms|].
  apply yields_bind. eapply yields_mono; [apply (PR fuel s3 r'); [by rewrite E2, strip_strip|done]|]. cbn. intuition.
Qed.
Lemma parses_list tx ty l r : parses_backs tx l -> parses LLine ty r -> parses LLine (tx ++ [SEMI] ++ ty) (List l r).
Proof.
  intros PL PR fuel s r' E Hr. destruct fuel as [|fuel]; cbn [run_level parseline]; [done|]. rewrite <-!app_assoc in E.
  specialize (PL O fuel s ([SEMI] ++ ty ++ r')). cbn [replicate backs run_level] in PL. rewrite app_nil_r in PL.
  specialize (PL E (stops_sym SEMI (stop_set LBack) _ ltac:(clear; syms) eq_refl)).
  destruct (parsepipe buf fuel s) as [c s1| |]; cbn [pbind yields] in PL |- *; [|done|done].
  apply yields_bind. eapply yields_mono; [exact PL|]. cbn [app]; cbv beta. intros c' s2 [HC E1]. cbn [app] in E1. rewrite strip_cons in E1 by done.
  destruct (peek_sym s2 SEMI [SEMI] (ty ++ r')) as (s3 & x & s4 & -> & -> & E2); [by rewrite E1, strip_cons|syms|syms|].
  apply yields_bind. eapply yields_mono; [apply (PR fuel s4 r'); [by rewrite E2, strip_strip|done]|]. cbn. intuition.
Qed.
Lemma parses_block txt t rs :
  parses LLine txt t -> Forall (fun r => good_word r.1) rs ->
  parses LExec (paren true txt ++ concat (redir_text <$> rs)) (wrap t rs).
Proof.
  intros P HG fuel s r E Hr. destruct fuel as [|fuel]; cbn [run_level parseexec]; [done|]. unfold paren in E.
  rewrite <-!app_assoc in E. cbn [app] in E. rewrite strip_cons in E by done.
  destruct (peek_sym s LPAR [LPAR] _ E) as (s1 & x & s2 & -> & -> & E2); [syms|syms|]. apply yields_bind.
  eapply yields_mono; [apply (P fuel s2); [rewrite E2; apply strip_strip|apply stops_sym; [syms|done]]|]. cbn [app]; cbv beta. intros c s3 [HC E3].
  cbn [app] in E3. rewrite strip_cons in E3 by done. destruct (peek_sym s3 RPAR [RPAR] (concat (redir_text <$> rs) ++ r)) as (s4 & x' & s5 & -> & -> & E4);
    [by rewrite E3, strip_cons|syms|syms|]. cbn [negb]. apply yields_bind.
  eapply yields_mono; [apply (parseredirs_yields _ s5 [] rs r); [by rewrite E4, strip_strip|done|apply (stops_heads _ _ _ Hr); syms]|].
  cbv beta. intros rs' s6 (ws & -> & HF & E5). split; [by apply wrap_rel|done].
Qed.
Lemma heads_word w r toks :
  good_word w -> (forall c, c ∈ toks -> c ∈ [BAR; LPAR; RPAR; SEMI; AMP; LT; GT]) -> heads (w ++ r) toks = false.
Proof.
  intros [Hw HF] Ht. destruct HF as [|c w Hc _]; [done|]. cbn. rewrite bool_decide_eq_false_2; [by rewrite andb_false_r|].
  destruct (good_char_not _ Hc) as (_ & _ & _ & HG & HN). apply Z.eqb_neq in HG. intros HI%Ht. set_solver.
Qed.
Lemma parses_words argv rs :
  Forall good_word argv -> (length argv < MAXARGS)%nat -> Forall (fun r => good_word r.1) rs ->
  parses LExec (concat (word_text <$> argv) ++ concat (redir_text <$> rs)) (wrap (Exec argv) rs).
Proof.
  intros HA HL HR fuel s r E Hr. destruct fuel as [|fuel]; cbn [run_level parseexec]; [done|]. rewrite <-app_assoc in E.
  destruct (peek_at s [LPAR]) as (s1 & -> & E1). rewrite E in E1 |- *. destruct argv as [|w argv].
  - cbn [fmap list_fmap concat app] in *.
    assert (HH : heads (strip (concat (redir_text <$> rs) ++ r)) [LPAR] = false).
    { destruct rs as [|[w m] rs]; [cbn; apply (stops_heads _ _ _ Hr); syms|]. by destruct m. }
    rewrite HH. apply yields_bind.
    eapply yields_mono; [apply (parseredirs_yields _ s1 [] rs r); [by rewrite E1, strip_strip|done|apply (stops_heads _ _ _ Hr); syms]|].
    cbv beta. intros rs' s2 (ws & -> & HF & E2). apply yields_bind.
    eapply yields_mono; [apply (parseargs_end _ s2 [] ws (strip r)); [by rewrite E2|by rewrite strip_strip]|].
    cbv beta. intros p s3 (-> & E3). rewrite strip_strip in E3. split; [|done]. apply wrap_rel; [constructor|done].
  - set (rest := concat (word_text <$> w :: argv) ++ concat (redir_text <$> rs) ++ r) in *.
    assert (ER : exists r', strip rest = w ++ r').
    { unfold rest. cbn [fmap list_fmap concat]. unfold word_text at 1. rewrite <-!app_assoc. eexists. apply strip_app_word. by inversion HA. }
    destruct ER as [r' ER]. assert (Gw : good_word w) by (by inversion HA).
    rewrite ER, heads_word by (done || syms). apply yields_bind.
    eapply yields_mono; [apply (parseredirs_yields _ s1 [] [] rest); [by rewrite E1, strip_strip|done|rewrite ER; apply heads_word; [done|syms]]|].
    cbn [app]; cbv beta. intros rs' s2 (ws & -> & HF & E2). inversion HF; subst. apply yields_bind.
    eapply yields_mono; [apply (parseargs_yields _ s2 [] (w :: argv) rs r); [by rewrite E2, strip_strip|done..]|].
    cbv beta. intros p s3 (ws & rs' & -> & H1 & H2 & H3). split; [|done]. by apply wrap_rel.
Qed.

(** ** Every command *)
Fixpoint csize {W} (c : cmd W) : nat :=
  match c with Exec _ => 1 | Redir c _ _ | Back c => S (csize c) | Pipe l r | List l r => S (csize l + csize r) end.
Definition is_redir {W} (c : cmd W) : bool := match c with Redir _ _ _ => true | _ => false end.
(** The redirections around a command. *)
Lemma unwrap (t : cmd (list Z)) : good t -> exists b rs, t = wrap b rs /\ is_redir b = false /\ good b /\ (csize b <= csize t)%nat /\
  Forall (fun r => good_word r.1) rs /\ pr t LExec = pr b LExec ++ concat (redir_text <$> rs) /\ (is_redir t = true -> csize b < csize t)%nat.
Proof.
  induction t as [argv|t IH w m|l _ r _|l _ r _|t _]; intros G.
  2: { destruct G as [G Gw]. destruct (IH G) as (b & rs & -> & Hb & Gb & Hs & HF & E & _). exists b, (rs ++ [(w, m)]).
       split_and!; [unfold wrap; by rewrite fold_left_app|done|done|cbn; lia|by apply Forall_app; split; [|by constructor]| |cbn; lia].
       cbn [pr]. rewrite E, fmap_app, concat_app. cbn. by rewrite app_nil_r, <-app_assoc. }
  all: eexists _, []; split_and!; [done|done|done|done|done|by rewrite app_nil_r|done].
Qed.
Definition parses_all (t : cmd (list Z)) : Prop :=
  parses LExec (pr t LExec) t /\ parses LPipe (pr t LPipe) t /\ parses_backs (pr t LBack) t /\ parses LLine (pr t LLine) t.
Lemma parses_all_exec t :
  parses LExec (pr t LExec) t -> pr t LPipe = pr t LExec -> pr t LBack = pr t LExec -> pr t LLine = pr t LExec -> parses_all t.
Proof.
  intros P E1 E2 E3. unfold parses_all. rewrite E1, E2, E3.
  pose proof (parses_pipe_of_exec _ _ P). pose proof (parses_backs_of_pipe _ _ H). pose proof (parses_line_of_backs _ _ H0). done.
Qed.
Lemma parses_paren t txt : parses LLine txt t -> parses LExec (paren true txt) t.
Proof. intros P. pose proof (parses_block _ _ [] P (Forall_nil_2 _)) as PB. cbn [fmap list_fmap concat] in PB. by rewrite app_nil_r in PB. Qed.
Lemma parses_backs_back txt t : parses_backs txt t -> parses_backs (txt ++ [AMP]) (Back t).
Proof. intros P n. specialize (P (S n)). by rewrite <-app_assoc. Qed.
Lemma parses_every n t : (csize t <= n)%nat -> good t -> parses_all t.
Proof.
  revert t. induction n as [|n IH]; intros t Hn G; [destruct t; cbn in Hn; lia|].
  destruct t as [argv|t w m|l r|l r|t].
  - destruct G as [HA HL]. apply parses_all_exec; [|done..]. cbn [pr]. pose proof (parses_words argv [] HA HL (Forall_nil_2 _)) as P.
    cbn [fmap list_fmap concat] in P. by rewrite app_nil_r in P.
  - destruct (unwrap _ G) as (b & rs & E & Hb & Gb & _ & HF & EP & Hs). specialize (Hs eq_refl).
    apply parses_all_exec; [|done..]. rewrite EP, E. destruct b as [argv|b w' m'|l r|l r|b]; [|done|..].
    + destruct Gb as [HA HL]. by apply parses_words.
    + apply parses_block; [|done]. destruct (IH (Pipe l r)) as (_ & _ & _ & P); [lia|done|]. exact P.
    + apply parses_block; [|done]. destruct (IH (List l r)) as (_ & _ & _ & P); [lia|done|]. exact P.
    + apply parses_block; [|done]. destruct (IH (Back b)) as (_ & _ & _ & P); [lia|done|]. exact P.
  - cbn in Hn. destruct G as [GL GR]. destruct (IH l) as (PL & _); [lia|done|]. destruct (IH r) as (_ & PR & _); [lia|done|].
    assert (P := parses_pipe _ _ _ _ PL PR). assert (PB := parses_backs_of_pipe _ _ P). assert (PI := parses_line_of_backs _ _ PB).
    split; [by apply parses_paren|]. done.
  - cbn in Hn. destruct G as [GL GR]. destruct (IH l) as (_ & _ & PL & _); [lia|done|]. destruct (IH r) as (_ & _ & _ & PR); [lia|done|].
    assert (P := parses_list _ _ _ _ PL PR). assert (PE := parses_paren _ _ P). assert (PP := parses_pipe_of_exec _ _ PE).
    assert (PB := parses_backs_of_pipe _ _ PP). done.
  - cbn in Hn. destruct (IH t) as (_ & _ & PB & _); [lia|done|]. apply parses_backs_back in PB.
    assert (PI := parses_line_of_backs _ _ PB). assert (PE := parses_paren _ _ PI). assert (PP := parses_pipe_of_exec _ _ PE). done.
Qed.

(** ** The NULs behind the words *)
Fixpoint ends_of (c : cmd word) : list nat :=
  match c with
  | Exec argv => snd <$> argv
  | Redir c w _ => ends_of c ++ [w.2]
  | Pipe l r | List l r => ends_of l ++ ends_of r
  | Back c => ends_of c
  end.
Lemma char_at_insert b e i : char_at (<[e := 0]> b) i = if bool_decide (i = e) then 0 else char_at b i.
Proof.
  unfold char_at. rewrite !nth_lookup. case_bool_decide as E.
  - subst. destruct (decide (e < length b)%nat); [by rewrite list_lookup_insert_eq|].
    by rewrite list_insert_ge, lookup_ge_None_2 by lia.
  - by rewrite list_lookup_insert_ne.
Qed.
Definition zeroed (es : list nat) (b b' : list Z) : Prop :=
  forall i, char_at b' i = if bool_decide (i ∈ es) then 0 else char_at b i.
Lemma zeroed_app es es' b b' b'' : zeroed es b b' -> zeroed es' b' b'' -> zeroed (es ++ es') b b''.
Proof.
  intros Z1 Z2 i. rewrite Z2, Z1. repeat case_bool_decide; try done; set_solver.
Qed.
Lemma zeroed_one e b : zeroed [e] b (<[e := 0]> b).
Proof. intros i. rewrite char_at_insert. repeat case_bool_decide; try done; set_solver. Qed.
Lemma nul_zeroed c b : zeroed (ends_of c) b (nulterminate c b).
Proof.
  revert b. induction c as [argv|c IH w m|l IHl r IHr|l IHl r IHr|c IH]; intros b; cbn.
  - revert b. induction argv as [|w argv IH]; intros b; cbn; [by intros i|].
    apply (zeroed_app [w.2] (snd <$> argv) b (<[w.2:=0]> b)); [apply zeroed_one|apply IH].
  - eapply zeroed_app; [apply IH|apply zeroed_one].
  - eapply zeroed_app; [apply IHl|apply IHr].
  - eapply zeroed_app; [apply IHl|apply IHr].
  - apply IH.
Qed.
(** The string at a pointer. *)
Definition cstring (l : list Z) : list Z := take (span (fun c => negb (c =? 0)) l) l.
Lemma cstring_app w r : Forall (fun c => c <> 0) w -> nth 0 r 0 = 0 -> cstring (w ++ r) = w.
Proof.
  intros HF Hr. unfold cstring. enough (span (fun c => negb (c =? 0)) (w ++ r) = length w) as -> by by rewrite take_app_length.
  induction HF as [|c w Hc _ IH]; cbn.
  - destruct r as [|c r]; [done|]. cbn in *. by rewrite Hr.
  - rewrite (proj2 (Z.eqb_neq _ _)) by done. cbn. by rewrite IH.
Qed.
End roundtrip.

Lemma list_split_at (b : list Z) q w :
  (forall i, (i < length w)%nat -> nth i w 0 <> 0) -> (forall i, (i < length w)%nat -> char_at b (q + i) = nth i w 0) ->
  exists r, drop q b = w ++ r /\ nth 0 r 0 = char_at b (q + length w).
Proof.
  revert q. induction w as [|c w IH]; intros q Hne Hc.
  - exists (drop q b). split; [done|]. cbn. by rewrite char_at_drop.
  - assert (Hq : char_at b q = c) by (rewrite <-(Nat.add_0_r q); apply (Hc O); cbn; lia).
    assert (q < es b)%nat by (apply char_at_end; rewrite Hq; apply (Hne O); cbn; lia).
    destruct (IH (S q)) as (r & Er & Hr).
    + intros i Hi. apply (Hne (S i)). cbn. lia.
    + intros i Hi. change (nth i w 0) with (nth (S i) (c :: w) 0). rewrite <-Hc by (cbn; lia). f_equal. lia.
    + exists r. rewrite drop_char, Hq, Er by done. split; [done|]. rewrite Hr. f_equal. cbn. lia.
Qed.
Lemma denotes_nul b b' (ends : list nat) x w :
  denotes b x w -> x.2 ∈ ends -> (forall e, e ∈ ends -> wordc (char_at b e) = false \/ char_at b e = 0) ->
  zeroed ends b b' -> cstring (drop x.1 b') = w.
Proof.
  intros [(r & Er & E2) [Hne HF] _] Hx HE HZ.
  assert (HG : forall i, (i < length w)%nat -> good_char (nth i w 0) /\ char_at b (x.1 + i) = nth i w 0).
  { intros i Hi. split; [rewrite Forall_lookup in HF; destruct (lookup_lt_is_Some_2 w i Hi) as [c Hc]; rewrite (nth_lookup_Some _ _ _ _ Hc); by eapply HF|].
    rewrite char_at_drop, Er. by rewrite app_nth1. }
  destruct (list_split_at b' x.1 w) as (r' & -> & Hr').
  - intros i Hi. apply HG, Hi.
  - intros i Hi. rewrite HZ. destruct (HG i Hi) as [[G1 G2] G3]. rewrite bool_decide_eq_false_2; [done|].
    intros He. rewrite <-G3 in *. destruct (HE _ He); congruence.
  - apply cstring_app; [eapply Forall_impl; [exact HF|by intros c []]|]. rewrite Hr', HZ, <-E2. by rewrite bool_decide_eq_true_2.
Qed.

(** The command with the strings its pointers point to. *)
Fixpoint strings (b : list Z) (c : cmd word) : cmd (list Z) :=
  match c with
  | Exec argv => Exec ((fun w => cstring (drop w.1 b)) <$> argv)
  | Redir c w m => Redir (strings b c) (cstring (drop w.1 b)) m
  | Pipe l r => Pipe (strings b l) (strings b r)
  | List l r => List (strings b l) (strings b r)
  | Back c => Back (strings b c)
  end.
Lemma cmd_rel_ends b c t e : cmd_rel b c t -> e ∈ ends_of c -> wordc (char_at b e) = false \/ char_at b e = 0.
Proof.
  revert t. induction c as [argv|c IH w m|l IHl r IHr|l IHl r IHr|c IH]; intros [argv'|t w' m'|l' r'|l' r'|t]; cbn; try done.
  - intros HF. rewrite list_elem_of_fmap. intros (x & -> & Hx). apply list_elem_of_lookup in Hx as [i Hi].
    destruct (Forall2_lookup_l _ _ _ _ _ HF Hi) as (w & _ & D). apply D.
  - intros (H1 & H2 & _) [He|He]%elem_of_app; [by eapply IH|]. apply list_elem_of_singleton in He as ->. apply H2.
  - intros (H1 & H2) [He|He]%elem_of_app; [by eapply IHl|by eapply IHr].
  - intros (H1 & H2) [He|He]%elem_of_app; [by eapply IHl|by eapply IHr].
  - apply IH.
Qed.
Lemma strings_rel b b' ends c t :
  cmd_rel b c t -> (forall e, e ∈ ends_of c -> e ∈ ends) -> (forall e, e ∈ ends -> wordc (char_at b e) = false \/ char_at b e = 0) ->
  zeroed ends b b' -> strings b' c = t.
Proof.
  intros HC Hin HE HZ. revert t HC Hin.
  induction c as [argv|c IH w m|l IHl r IHr|l IHl r IHr|c IH]; intros [argv'|t w' m'|l' r'|l' r'|t]; cbn; try done.
  - intros HF Hin. f_equal. induction HF as [|x w argv argv' D HF IH]; cbn; [done|]. f_equal.
    + by eapply denotes_nul; [exact D|apply Hin; set_solver|exact HE|].
    + apply IH. intros e He. apply Hin. set_solver.
  - intros (H1 & H2 & ->) Hin. f_equal; [apply IH; [done|set_solver]|].
    by eapply denotes_nul; [exact H2|apply Hin; set_solver|exact HE|].
  - intros (H1 & H2) Hin. f_equal; [apply IHl|apply IHr]; (done || set_solver).
  - intros (H1 & H2) Hin. f_equal; [apply IHl|apply IHr]; (done || set_solver).
  - intros H1 Hin. f_equal. by apply IH.
Qed.

Lemma strip_all ws : Forall (fun c => is_ws c = true) ws -> strip ws = [].
Proof. induction 1 as [|c ws Hc _ IH]; [done|]. by rewrite strip_ws. Qed.
Lemma parsecmd_line (t : cmd (list Z)) ws : good t -> Forall (fun c => is_ws c = true) ws ->
  exists c b s, parsecmd (pr t LLine ++ ws) = POk (c, b) s /\ strings b c = t.
Proof.
  intros G Hw. set (buf := pr t LLine ++ ws). destruct (parses_every buf _ t (le_n _) G) as (_ & _ & _ & P).
  destruct (parse_ends buf (parse_fuel buf 0) 0) as (HT & _); [lia|]. specialize (HT ltac:(unfold parse_fuel; lia)).
  unfold parsecmd, parse_all.
  specialize (P (parse_fuel buf 0) O ws eq_refl). rewrite strip_all in P by done. specialize (P I). cbn [run_level] in P.
  destruct (parseline buf (parse_fuel buf 0) 0) as [c s| |]; cbn [pbind yields ends] in *; [|done|done]. destruct P as [HC E].
  destruct (peek_at buf s []) as (s' & EP & E'). rewrite EP. rewrite E in E'. cbn in E'.
  destruct (peek_moves buf s [] _ s' ltac:(lia) EP) as ((_ & Hs) & _).
  assert (s' = es buf) as ->.
  { apply (f_equal length) in E'. rewrite length_drop in E'. cbn in E'. unfold es in *. lia. }
  rewrite bool_decide_eq_false_2 by (by intros []). cbn [pbind]. eexists _, _, _. split; [reflexivity|].
  eapply strings_rel; [exact HC|by intros e He|intros e He; by eapply cmd_rel_ends|apply nul_zeroed].
Qed.
(** C27. The parser of the shell inverts printing: for every command tree whose
    words are not empty and free of white space and symbols, with fewer than ten
    arguments per command, parsing its text (with the parentheses that precedence
    asks for) succeeds and gives back the tree, the words being the strings that
    the pointers of the parsed tree point to once nulterminate has cut them. *)
Theorem parsecmd_roundtrip (t : cmd (list Z)) :
  good t -> exists c b s, parsecmd (pr t LLine) = POk (c, b) s /\ strings b c = t.
Proof. intros G. rewrite <- (app_nil_r (pr t LLine)). by apply parsecmd_line. Qed.
Definition sh_example : cmd (list Z) :=
  List (Pipe (Exec [[108; 115]; [45; 108]]) (Redir (Back (Exec [[119; 99]])) [102] ROut)) (Exec [[97]]).
Lemma parsecmd_roundtrip_witness : exists c b s, parsecmd (pr sh_example LLine) = POk (c, b) s /\ strings b c = sh_example.
Proof.
  apply (parsecmd_roundtrip sh_example). assert (W : forall w, forallb (fun c => wordc c && negb (c =? 0)) w = true -> w <> [] -> good_word w).
  { intros w Hw Hne. split; [done|]. apply Forall_forall. intros c Hc. rewrite forallb_forall in Hw.
    specialize (Hw c). rewrite <-list_elem_of_In in Hw. specialize (Hw Hc). apply andb_true_iff in Hw as [H1 H2].
    split; [done|]. by apply negb_true_iff, Z.eqb_neq in H2. }
  cbn. unfold MAXARGS. split_and!; try lia; repeat first [apply Forall_nil_2 | apply W; [reflexivity|done] | apply Forall_cons; split].
Defined.
