(* ===== verification/ShellTree.v ===== *)
(** What the shell's parser returns for an arbitrary line: whatever is typed, a
    command tree that parses is well formed. *)
From S2P Require Import Prelude Shell.

(** The parser's result, if there is one, satisfies [Q]. *)
Definition holds {A} (Q : A -> Prop) (r : pres A) : Prop := match r with POk a _ => Q a | _ => True end.
Lemma holds_bind {A B} (P : A -> Prop) (Q : B -> Prop) (m : pres A) (f : A -> nat -> pres B) :
  holds P m -> (forall a s, P a -> holds Q (f a s)) -> holds Q (pbind m f).
Proof. destruct m; cbn; auto. Qed.

Lemma span_all f l : Forall (fun c => f c = true) (take (span f l) l).
Proof. induction l as [|c l IH]; cbn [span]; [constructor|]. destruct (f c) eqn:E; cbn [take]; [by constructor|constructor]. Qed.
Lemma span_after f l : match drop (span f l) l with c :: _ => f c = false | [] => True end.
Proof. induction l as [|c l IH]; cbn [span]; [done|]. destruct (f c) eqn:E; cbn [drop]; [exact IH|exact E]. Qed.

Section tree.
Context (buf : list Z) (no_nul : Forall (fun c => c <> 0) buf).

(** The slice of the line, and the tree of slices. *)
Definition text (w : word) : list Z := take (w.2 - w.1) (drop w.1 buf).
Definition wf_word (w : word) : Prop := denotes buf w (text w).
Fixpoint texts (c : cmd word) : cmd (list Z) :=
  match c with
  | Exec argv => Exec (text <$> argv)
  | Redir c w m => Redir (texts c) (text w) m
  | Pipe l r => Pipe (texts l) (texts r)
  | List l r => List (texts l) (texts r)
  | Back c => Back (texts c)
  end.
Fixpoint wf_cmd (c : cmd word) : Prop :=
  match c with
  | Exec argv => Forall wf_word argv /\ (length argv < MAXARGS)%nat
  | Redir c w _ => wf_cmd c /\ wf_word w
  | Pipe l r | List l r => wf_cmd l /\ wf_cmd r
  | Back c => wf_cmd c
  end.

Lemma gettoken_wf s w s' : gettoken buf s = (TWord, w, s') -> wf_word w.
Proof.
  intros EG. set (l := strip (drop s buf)). set (v := take (span wordc l) l). set (r := drop (span wordc l) l).
  assert (Ev : strip (drop s buf) = v ++ r) by (unfold v, r; by rewrite take_drop).
  assert (G : good_word v).
  { split.
    - intros E0. assert (El : l = r) by (unfold l; by rewrite Ev, E0).
      pose proof (span_after wordc l) as Ha. fold r in Ha. revert EG. unfold gettoken. rewrite !char_tl, !tl_skip. fold l.
      rewrite <- El in Ha. destruct l as [|c l'] eqn:E; cbn [nth]; [done|].
      destruct (c =? 0); [done|]. case_bool_decide as Hc; [done|]. destruct (Z.eqb_spec c GT); [by destruct (_ =? GT)|].
      rewrite (wordc_split c) in Ha; [done| |done|done].
      pose proof (skip_ws_stop buf s) as Hw. rewrite char_tl, tl_skip in Hw. fold l in Hw. by rewrite E in Hw.
    - pose proof (span_all wordc l) as H1. fold v in H1.
      assert (Forall (fun c => c <> 0) v) as H2.
      { unfold v. apply Forall_take. unfold l, strip. by apply Forall_drop, Forall_drop. }
      apply Forall_forall. intros c Hc. rewrite Forall_forall in H1, H2. split; auto. }
  destruct (gettoken_word buf s v r Ev G) as (x & s'' & EG' & D & _); [exact (span_after wordc l)|].
  rewrite EG in EG'. injection EG' as <- _. unfold wf_word.
  replace (text w) with v; [done|]. destruct D as [(r' & Er & E2) _ _]. unfold text. rewrite Er, E2.
  replace (w.1 + length v - w.1)%nat with (length v) by lia. by rewrite take_app_length.
Qed.

Definition wf_redirs (rs : list redir) : Prop := Forall (fun r => wf_word r.1) rs.
Lemma wf_wrap c rs : wf_cmd c -> wf_redirs rs -> wf_cmd (wrap c rs).
Proof. intros HC HF. revert c HC. induction HF as [|r rs Hr _ IH]; intros c HC; [done|]. cbn. apply IH. done. Qed.
Lemma wf_nil : wf_redirs [].
Proof. constructor. Qed.
Lemma parseredirs_wf fuel : forall s rs, wf_redirs rs -> holds wf_redirs (parseredirs buf fuel s rs).
Proof.
  induction fuel as [|fuel IH]; intros s rs Hrs; [done|]. cbn [parseredirs].
  destruct (peek buf s [LT; GT]) as [[] s1]; cbn [negb]; [|done].
  destruct (gettoken buf s1) as [[t w] s2]. destruct (gettoken buf s2) as [[t' w'] s3] eqn:EG.
  case_bool_decide as Ht; [done|]. destruct (decide (t' = TWord)) as [->|]; [|by destruct Ht]. apply gettoken_wf in EG.
  assert (forall m, wf_redirs (rs ++ [(w', m)])) as Ha by (intros m; apply Forall_app; split; [done|by constructor]).
  apply IH. destruct t; try done. by destruct (c =? LT), (c =? GT).
Qed.
Lemma parseargs_wf fuel : forall s argv rs, Forall wf_word argv -> (length argv < MAXARGS)%nat -> wf_redirs rs ->
  holds (fun p => Forall wf_word p.1 /\ (length p.1 < MAXARGS)%nat /\ wf_redirs p.2) (parseargs buf fuel s argv rs).
Proof.
  induction fuel as [|fuel IH]; intros s argv rs Ha Hl Hr; [done|]. cbn [parseargs].
  destruct (peek buf s [BAR; RPAR; AMP; SEMI]) as [[] s1]; [done|]. destruct (gettoken buf s1) as [[t w] s2] eqn:EG.
  destruct t; try done. apply gettoken_wf in EG. case_bool_decide as Hn; [done|].
  eapply holds_bind; [by apply parseredirs_wf|]. intros rs' s3 Hr'. apply IH; [|rewrite length_app; cbn [length]; lia|done].
  apply Forall_app. split; [done|by constructor].
Qed.
Lemma parsebacks_wf fuel : forall s c, wf_cmd c -> holds wf_cmd (parsebacks buf fuel s c).
Proof.
  induction fuel as [|fuel IH]; intros s c Hc; [done|]. cbn [parsebacks]. destruct (peek buf s [AMP]) as [[] s1]; [|done].
  destruct (gettoken buf s1) as [[t w] s2]. by apply IH.
Qed.
Lemma parse_wf fuel : forall s, holds wf_cmd (parseline buf fuel s) /\ holds wf_cmd (parsepipe buf fuel s) /\ holds wf_cmd (parseexec buf fuel s).
Proof.
  induction fuel as [|fuel IH]; intros s; [done|]. cbn [parseline parsepipe parseexec]. split_and!.
  - eapply holds_bind; [apply IH|]. intros c s1 Hc. eapply holds_bind; [by apply parsebacks_wf|]. intros c' s2 Hc'.
    destruct (peek buf s2 [SEMI]) as [[] s3]; [|done]. destruct (gettoken buf s3) as [[t w] s4].
    eapply holds_bind; [apply IH|]. intros r s5 Hr. done.
  - eapply holds_bind; [apply IH|]. intros c s1 Hc. destruct (peek buf s1 [BAR]) as [[] s3]; [|done].
    destruct (gettoken buf s3) as [[t w] s4]. eapply holds_bind; [apply IH|]. intros r s5 Hr. done.
  - destruct (peek buf s [LPAR]) as [[] s1].
    + destruct (gettoken buf s1) as [[t w] s2]. eapply holds_bind; [apply IH|]. intros c s3 Hc.
      destruct (peek buf s3 [RPAR]) as [[] s4]; cbn [negb]; [|done]. destruct (gettoken buf s4) as [[t' w'] s5].
      eapply holds_bind; [apply parseredirs_wf, wf_nil|]. intros rs s6 Hrs. by apply wf_wrap.
    + eapply holds_bind; [apply parseredirs_wf, wf_nil|]. intros rs s2 Hrs.
      eapply holds_bind; [apply parseargs_wf; [constructor|unfold MAXARGS; cbn [length]; lia|done]|].
      intros p s3 (Ha & Hl & Hr). by apply wf_wrap.
Qed.

Lemma wf_rel c : wf_cmd c -> cmd_rel buf c (texts c) /\ good (texts c).
Proof.
  induction c as [argv|c IH w m|l IHl r IHr|l IHl r IHr|c IH]; cbn [wf_cmd texts cmd_rel good].
  - intros [Ha Hl]. rewrite length_fmap. split; [|split; [|done]].
    + induction Ha as [|w argv Hw _ IH]; [constructor|]. cbn [length] in Hl. constructor; [done|]. apply IH. lia.
    + apply Forall_fmap. eapply Forall_impl; [exact Ha|]. intros w Hw. apply Hw.
  - intros [Hc Hw]. destruct (IH Hc). split; [done|]. split; [done|]. apply Hw.
  - intros [Hl Hr]. destruct (IHl Hl), (IHr Hr). done.
  - intros [Hl Hr]. destruct (IHl Hl), (IHr Hr). done.
  - exact IH.
Qed.
Lemma parsecmd_wf c b s : parsecmd buf = POk (c, b) s -> wf_cmd c /\ strings b c = texts c.
Proof.
  unfold parsecmd, parse_all. destruct (parse_wf (parse_fuel buf 0) 0) as [HW _]. destruct (parseline buf (parse_fuel buf 0) 0) as [c' s1| |]; cbn [pbind]; [|done|done].
  destruct (peek buf s1 []) as [b1 s2]. case_bool_decide; [done|]. cbn [pbind]. intros [= <- <- <-]. split; [exact HW|].
  destruct (wf_rel c' HW) as [HC _]. eapply strings_rel; [exact HC|by intros e He|intros e He; by eapply cmd_rel_ends|apply nul_zeroed].
Qed.
End tree.

(** C28. The parser returns well-formed trees.  For every line, if it is accepted, every
    command of the tree has fewer than ten arguments, so that they and the null
    pointer behind them fit argv, and every word, after nulterminate has cut the
    line, is the slice of the line that was scanned: not empty, inside the line,
    and without white space, symbols or NUL. *)
Theorem parsecmd_typed line c b s :
  Forall (fun x => x <> 0) line -> parsecmd line = POk (c, b) s ->
  good (strings b c) /\ strings b c = texts line c /\ Forall (fun e => (e <= length line)%nat) (ends_of c).
Proof.
  intros H0 HP. destruct (parsecmd_wf line H0 c b s HP) as [HW ->]. destruct (wf_rel line c HW) as [HC HG].
  split; [done|]. split; [done|]. clear -HW.
  assert (forall w, wf_word line w -> (w.2 <= length line)%nat) as Hw.
  { intros w [(r & Er & E2) [Hne _] _]. apply (f_equal length) in Er. rewrite length_drop, length_app in Er.
    destruct (text line w); [done|]. cbn [length] in *. lia. }
  induction c as [argv|c IH w m|l IHl r IHr|l IHl r IHr|c IH]; cbn [wf_cmd ends_of] in *.
  - destruct HW as [Ha _]. apply Forall_fmap. eapply Forall_impl; [exact Ha|exact Hw].
  - destruct HW. apply Forall_app. split; [auto|]. constructor; [auto|constructor].
  - destruct HW. apply Forall_app. auto.
  - destruct HW. apply Forall_app. auto.
  - auto.
Qed.
Lemma parsecmd_typed_witness : exists c b s,
  parsecmd [101; 99; 104; 111; 32; 97; 62; 102; 10] = POk (c, b) s /\ good (strings b c).
Proof.
  eexists _, _, _. split; [vm_compute; reflexivity|].
  eapply (parsecmd_typed [101; 99; 104; 111; 32; 97; 62; 102; 10]); [|vm_compute; reflexivity].
  repeat (apply Forall_cons; split; [discriminate|]). apply Forall_nil_2.
Defined.
