(* ===== verification/ShellRun.v ===== *)
(** The shell runs commands (user/sh.c: runcmd, getcmd, main, panic, fork1).

    The programs are written over the interface [Os].  Their theorems are about a
    kernel that keeps what matters here: the descriptors of the process, where
    open, dup and pipe take the lowest free ones, and which side of each fork the
    run follows.  Together the runs of one command, one for each list of answers to
    fork, are the processes that the command starts. *)
From S2P Require Import Prelude Riscv Printf User Ulib Utils Shell.

Create HintDb never.
Section shell.
Context {K : Type} `{Os K}.
Definition sh_panic {A} (s : list Z) : prog K A := _ ← uprintf 2 (txt "%s" ++ nl) [AStr s]; exit 1.
Definition fork1 : prog K Z :=
  pid ← fork;
  if pid =? -1 then sh_panic (txt "fork") else mret pid.

Fixpoint runcmd (c : cmd (list Z)) : prog K unit :=
  match c with
  | Exec argv =>
      match argv with
      | [] => exit 1
      | a :: _ =>
          _ ← exec a argv;
          _ ← uprintf 2 (txt "exec %s failed" ++ nl) [AStr a];
          exit 0
      end
  | Redir c file m =>
      _ ← close (rmode_fd m);
      fd ← open file (rmode_flags m);
      if fd <? 0 then _ ← uprintf 2 (txt "open %s failed" ++ nl) [AStr file]; exit 1
      else
        _ ← runcmd c;
        exit 0
  | List l r =>
      pid ← fork1;
      _ ← (if pid =? 0 then runcmd l else mret tt);
      _ ← wait;
      _ ← runcmd r;
      exit 0
  | Pipe l r =>
      p ← pipe;
      let '(e, p0, p1) := p in
      if e <? 0 then sh_panic (txt "pipe")
      else
        pid ← fork1;
        _ ← (if pid =? 0 then
               _ ← close 1;
               _ ← dup p1;
               _ ← close p0;
               _ ← close p1;
               runcmd l
             else mret tt);
        pid ← fork1;
        _ ← (if pid =? 0 then
               _ ← close 0;
               _ ← dup p0;
               _ ← close p0;
               _ ← close p1;
               runcmd r
             else mret tt);
        _ ← close p0;
        _ ← close p1;
        _ ← wait;
        _ ← wait;
        exit 0
  | Back c =>
      pid ← fork1;
      _ ← (if pid =? 0 then runcmd c else mret tt);
      exit 0
  end.

(** The result, and the bytes in the buffer before the NUL of gets. *)
Definition getcmd (nbuf : Z) : prog K (Z * list Z) :=
  _ ← write 2 (txt "$ ");
  buf ← gets nbuf;
  mret (if nth 0 buf 0 =? 0 then -1 else 0, buf).

(** The first loop of main. *)
Fixpoint open_three (rounds : nat) : prog K unit :=
  match rounds with
  | O => out_of_fuel
  | S rounds =>
      fd ← open (txt "console") O_RDWR;
      if fd >=? 0 then
        if fd >=? 3 then _ ← close fd; mret tt else open_three rounds
      else mret tt
  end.
(** What parsecmd says about a line with something after the command. *)
Definition leftovers (line : list Z) : option (list Z) :=
  match parseline line (parse_fuel line 0) 0 with
  | POk _ s => let '(_, s) := peek line s [] in if bool_decide (s <> es line) then Some (drop s line) else None
  | _ => None
  end.
(** [runcmd(parsecmd(buf))] *)
Definition run_line (line : list Z) : prog K unit :=
  match parsecmd line with
  | POk (c, b) _ => runcmd (strings b c)
  | PErr msg =>
      _ ← match leftovers line with
          | Some rest => uprintf 2 (txt "leftovers: %s" ++ nl) [AStr rest]
          | None => mret tt
          end;
      sh_panic (txt msg)
  | PFuel => out_of_fuel
  end.
Definition is_cd (buf : list Z) : bool := (nth 0 buf 0 =? 99) && (nth 1 buf 0 =? 100) && (nth 2 buf 0 =? 32).
Fixpoint sh_loop (rounds : nat) : prog K unit :=
  match rounds with
  | O => out_of_fuel
  | S rounds =>
      r ← getcmd 100;
      let '(e, buf) := r in
      if e >=? 0 then
        let line := cstring buf in
        if is_cd buf then
          let dir := drop 3 (take (length line - 1) line) in
          r ← scall (CChdir dir);
          _ ← (if r <? 0 then uprintf 2 (txt "cannot cd %s" ++ nl) [AStr dir] else mret tt);
          sh_loop rounds
        else
          pid ← fork1;
          _ ← (if pid =? 0 then run_line line else mret tt);
          _ ← wait;
          sh_loop rounds
      else exit 0
  end.
Definition sh_main (rounds : nat) : prog K unit := _ ← open_three rounds; sh_loop rounds.

(** runcmd never returns, whatever the kernel does. *)
Definition never (m : prog K unit) : Prop := forall s a s', m s <> Ret (inl a, s').
Lemma never_exit n : never (exit n).
Proof. done. Qed.
Lemma never_bind {A} (m : prog K A) f : (forall a, never (f a)) -> never (m ≫= f).
Proof. intros Hf s a s'. rewrite prog_run. destruct (m s) as [[[x|e] s1]| | |]; try done. apply Hf. Qed.
Lemma never_panic t : never (sh_panic t).
Proof. apply never_bind. intros _. apply never_exit. Qed.
#[local] Hint Resolve never_exit never_panic : never.
Ltac never := repeat first [progress eauto with never | apply never_bind; intros | case_match].
Lemma runcmd_never c : never (runcmd c).
Proof. induction c; cbn [runcmd]; never. Qed.
Lemma never_seq (m : prog K unit) (f : unit -> prog K unit) s : never m -> (m ≫= f) s = m s.
Proof. intros Hm. rewrite prog_run. destruct (m s) as [[[x|e] s1]| | |] eqn:E; try done. by apply Hm in E. Qed.
End shell.

(** * The kernel of one process *)
(** The events of a process: the forks, on which side, and the pipes it made.  A
    pipe is named by the events before it. *)
Inductive event := Forked (child : bool) | Piped.
Inductive target := Opened (path : list Z) (mode : Z) | PipeEnd (id : list event) (w : bool).
Record pstate := PState { fds : gmap Z target; hist : list event; forks : list Z; typed : list Z }.
Definition lowest (ft : gmap Z target) : option Z := head (filter (fun fd => ft !! fd = None) (seqZ 0 16)).

(** The text of a command is one line. *)
Definition plain (line : list Z) : Prop := Forall (fun c => c ∉ [0; 10; 13]) line.
Lemma plain_word w : good_word w -> plain (word_text w).
Proof.
  intros [_ Hw]. apply Forall_app. split; [|constructor; [set_solver|constructor]]. eapply Forall_impl; [exact Hw|].
  intros c [Hc H0] Hin. unfold wordc in Hc. apply andb_true_iff in Hc as [Hc _]. apply negb_true_iff in Hc.
  apply bool_decide_eq_false in Hc. set_solver.
Qed.
Lemma plain_paren b l : plain l -> plain (paren b l).
Proof.
  intros Hl. destruct b; [|done]. cbn [paren app]. constructor; [unfold LPAR; set_solver|]. apply Forall_app. split; [done|].
  constructor; [unfold RPAR; set_solver|constructor].
Qed.
Lemma plain_pr t : forall lvl, good t -> plain (pr t lvl).
Proof.
  induction t as [argv|c IH w m|l IHl r IHr|l IHl r IHr|c IH]; intros lvl; cbn [good pr].
  - intros [Ha _]. induction Ha as [|w argv Hw _ IH]; [constructor|]. cbn [fmap list_fmap concat]. apply Forall_app. split; [by apply plain_word|done].
  - intros [Hc Hw]. apply Forall_app. split; [by apply IH|]. apply Forall_app. split; [|by apply plain_word].
    destruct m; repeat constructor; unfold LT, GT; set_solver.
  - intros [Hl Hr]. apply plain_paren, Forall_app. split; [by apply IHl|]. constructor; [unfold BAR; set_solver|by apply IHr].
  - intros [Hl Hr]. apply plain_paren, Forall_app. split; [by apply IHl|]. constructor; [unfold SEMI; set_solver|by apply IHr].
  - intros Hc. apply plain_paren, Forall_app. split; [by apply IH|]. constructor; [unfold AMP; set_solver|constructor].
Qed.

Section kernel.
Context (can_open : list Z -> Z -> bool) (can_exec : list Z -> bool).
#[local] Instance p_os : Os pstate := fun c s =>
  let '(PState ft h fk inp) := s in
  match c with
  | CFork => match fk with
             | [] => Blocked
             | p :: fk => if p <? 0 then Ret (RVal (-1), PState ft h fk inp)
                          else Ret (RVal p, PState ft (h ++ [Forked (p =? 0)]) fk inp)
             end
  | CPipe => match lowest ft with
             | None => Ret (RVal (-1), s)
             | Some a => let ft' := <[a := PipeEnd h false]> ft in
                         match lowest ft' with
                         | None => Ret (RVal (-1), s)
                         | Some b => Ret (RPipe 0 a b, PState (<[b := PipeEnd h true]> ft') (h ++ [Piped]) fk inp)
                         end
             end
  | CRead fd n => match ft !! fd with
                  | None => Ret (RVal (-1), s)
                  | Some _ => let l := take (Z.to_nat n) inp in Ret (RData (lenZ l) l, PState ft h fk (drop (Z.to_nat n) inp))
                  end
  | CWrite fd l => Ret (RVal (match ft !! fd with None => -1 | Some _ => lenZ l end), s)
  | COpen path mode => if can_open path mode then
                         match lowest ft with
                         | None => Ret (RVal (-1), s)
                         | Some fd => Ret (RVal fd, PState (<[fd := Opened path mode]> ft) h fk inp)
                         end
                       else Ret (RVal (-1), s)
  | CClose fd => match ft !! fd with
                 | None => Ret (RVal (-1), s)
                 | Some _ => Ret (RVal 0, PState (delete fd ft) h fk inp)
                 end
  | CDup fd => match ft !! fd, lowest ft with
               | Some t, Some fd' => Ret (RVal fd', PState (<[fd' := t]> ft) h fk inp)
               | _, _ => Ret (RVal (-1), s)
               end
  | CExec path _ => Ret (if can_exec path then RGone else RVal (-1), s)
  | _ => Ret (RVal 0, s)
  end.

(** ** What a command means *)
(** The programs that are started, each with its arguments and descriptors. *)
Fixpoint procs (c : cmd (list Z)) (ft : gmap Z target) (h : list event) : list (list (list Z) * gmap Z target) :=
  match c with
  | Exec argv => match argv with [] => [] | a :: _ => if can_exec a then [(argv, ft)] else [] end
  | Redir c file m => if can_open file (rmode_flags m) then procs c (<[rmode_fd m := Opened file (rmode_flags m)]> ft) h else []
  | List l r => procs l ft (h ++ [Forked true]) ++ procs r ft (h ++ [Forked false])
  | Pipe l r => procs l (<[1 := PipeEnd h true]> ft) (h ++ [Piped; Forked true]) ++
                procs r (<[0 := PipeEnd h false]> ft) (h ++ [Piped; Forked false; Forked true])
  | Back c => procs c ft (h ++ [Forked true])
  end.

(** Exactly the three standard descriptors are open. *)
Definition three (ft : gmap Z target) : Prop := forall fd, is_Some (ft !! fd) <-> 0 <= fd < 3.

Lemma lowest_is ft fd : 0 <= fd < 16 -> (forall i, 0 <= i < fd -> is_Some (ft !! i)) -> ft !! fd = None -> lowest ft = Some fd.
Proof.
  intros Hr Hlo Hn. unfold lowest. replace 16 with (fd + (16 - fd)) by lia. rewrite seqZ_app, filter_app by lia.
  assert (filter (fun i => ft !! i = None) (seqZ 0 fd) = []) as ->.
  { apply elem_of_nil_inv. intros i [Hf Hi%elem_of_seqZ]%list_elem_of_filter. destruct (Hlo i) as [t Ht]; [lia|]. congruence. }
  rewrite Z.add_0_l, (seqZ_cons fd) by lia. by rewrite filter_cons_True.
Qed.
Lemma three_insert ft fd t : three ft -> 0 <= fd < 3 -> three (<[fd := t]> ft).
Proof.
  intros Ht Hfd i. destruct (decide (i = fd)) as [->|Hne]; [|rewrite lookup_insert_ne by done; apply Ht].
  rewrite lookup_insert_eq. split; [lia|by eexists].
Qed.
Lemma three_none ft fd : three ft -> ~ 0 <= fd < 3 -> ft !! fd = None.
Proof. intros Ht Hn. apply eq_None_not_Some. intros Hs. by apply Hn, Ht. Qed.

(** ** One call *)
Section steps.
Context {A : Type} (ft : gmap Z target) (h : list event) (fk inp : list Z).
Implicit Types f : Z -> prog pstate A.
Lemma do_close fd f : is_Some (ft !! fd) -> (close fd ≫= f) (PState ft h fk inp) = f 0 (PState (delete fd ft) h fk inp).
Proof. intros [t E]. unfold close, scall, sys, mbind, prog_bind, os_call, p_os. by rewrite E. Qed.
Lemma do_open path mode f fd : lowest ft = Some fd ->
  (open path mode ≫= f) (PState ft h fk inp) =
  if can_open path mode then f fd (PState (<[fd := Opened path mode]> ft) h fk inp) else f (-1) (PState ft h fk inp).
Proof. intros E. unfold open, scall, sys, mbind, prog_bind, os_call, p_os. rewrite E. by destruct (can_open path mode). Qed.
Lemma do_dup fd f t fd' : ft !! fd = Some t -> lowest ft = Some fd' ->
  (dup fd ≫= f) (PState ft h fk inp) = f fd' (PState (<[fd' := t]> ft) h fk inp).
Proof. intros E E'. unfold dup, scall, sys, mbind, prog_bind, os_call, p_os. by rewrite E, E'. Qed.
Lemma do_wait f : (wait ≫= f) (PState ft h fk inp) = f 0 (PState ft h fk inp).
Proof. done. Qed.
Lemma do_write fd l f : is_Some (ft !! fd) -> (write fd l ≫= f) (PState ft h fk inp) = f (lenZ l) (PState ft h fk inp).
Proof. intros [t E]. unfold write, scall, sys, mbind, prog_bind, os_call, p_os. by rewrite E. Qed.
End steps.
Lemma do_fork {A} (f : Z -> prog pstate A) ft h p fk inp :
  (fork ≫= f) (PState ft h (p :: fk) inp) =
  if p <? 0 then f (-1) (PState ft h fk inp) else f p (PState ft (h ++ [Forked (p =? 0)]) fk inp).
Proof. unfold fork, scall, sys, mbind, prog_bind, os_call, p_os. by destruct (p <? 0). Qed.
Lemma do_exec {A} path argv (f : Z -> prog pstate A) s : can_exec path = true -> (exec path argv ≫= f) s = Ret (inr (Execed argv), s).
Proof. intros E. destruct s. unfold exec, mbind, prog_bind, os_call, p_os. by rewrite E. Qed.
Lemma do_each {A} (text : list A) (g : A -> prog pstate unit) s : (forall x, x ∈ text -> g x s = Ret (inl tt, s)) -> each text g s = Ret (inl tt, s).
Proof.
  induction text as [|x text IH]; intros Hg; [done|]. cbn [each]. rewrite prog_run, Hg by set_solver. apply IH. set_solver.
Qed.
Lemma do_uprintf {A} fd fmt l text (f : unit -> prog pstate A) s : vprintf (ap_of l) (str_of l) fmt = Some text ->
  (uprintf fd fmt l ≫= f) s = f tt s.
Proof.
  intros E. rewrite prog_run. unfold uprintf, fprintf. rewrite E, do_each; [done|]. intros c _. destruct s as [ft h fk inp]. done.
Qed.
Lemma do_panic {A} t s : (sh_panic t : prog pstate A) s = Ret (inr (Exited 1), s).
Proof. unfold sh_panic. by erewrite do_uprintf. Qed.
Lemma do_fork1 {A} (f : Z -> prog pstate A) ft h p fk inp :
  (fork1 ≫= f) (PState ft h (p :: fk) inp) =
  if p <? 0 then Ret (inr (Exited 1), PState ft h fk inp) else f p (PState ft (h ++ [Forked (p =? 0)]) fk inp).
Proof.
  rewrite prog_run. unfold fork1. rewrite do_fork. destruct (Z.ltb_spec p 0) as [Hp|Hp]; [cbn; by rewrite do_panic|].
  by rewrite (proj2 (Z.eqb_neq _ _)) by lia.
Qed.
Lemma do_fork1_end {A} (f : Z -> prog pstate A) ft h inp : (fork1 ≫= f) (PState ft h [] inp) = Blocked.
Proof. done. Qed.

(** ** One command *)
(** The run of [m] from [s] ends in exec, with these arguments and descriptors. *)
Definition reaches (m : prog pstate unit) (s : pstate) (argv : list (list Z)) (ft : gmap Z target) : Prop :=
  exists s', m s = Ret (inr (Execed argv), s') /\ fds s' = ft.
Lemma reaches_eq m m' s s' argv ft : m s = m' s' -> reaches m s argv ft <-> reaches m' s' argv ft.
Proof. intros E. unfold reaches. by rewrite E. Qed.
Lemma reaches_exit n s argv ft : reaches (exit n) s argv ft <-> False.
Proof. split; [|done]. by intros (s' & [=] & _). Qed.

Lemma run_exec a l ft h fk inp argv ft' :
  reaches (runcmd (Exec (a :: l))) (PState ft h fk inp) argv ft' <-> (argv, ft') ∈ procs (Exec (a :: l)) ft h.
Proof.
  cbn [procs]. unfold reaches. cbn [runcmd]. rewrite prog_run. unfold exec, os_call, p_os. destruct (can_exec a) eqn:E.
  - rewrite list_elem_of_singleton. split; [by intros (s' & [= <- <-] & <-)|]. intros [= -> ->]. by eexists.
  - erewrite do_uprintf by reflexivity. split; [by intros (s' & [=] & _)|set_solver].
Qed.
Lemma lowest_std ft fd : three ft -> 0 <= fd < 3 -> lowest (delete fd ft) = Some fd.
Proof.
  intros Ht Hfd. apply lowest_is; [lia| |apply lookup_delete_eq]. intros i Hi. rewrite lookup_delete_ne by lia. apply Ht. lia.
Qed.
Lemma run_redir c file m ft h fk inp argv ft' : three ft ->
  reaches (runcmd (Redir c file m)) (PState ft h fk inp) argv ft' <->
  can_open file (rmode_flags m) = true /\ reaches (runcmd c) (PState (<[rmode_fd m := Opened file (rmode_flags m)]> ft) h fk inp) argv ft'.
Proof.
  intros Ht. assert (0 <= rmode_fd m < 3) as Hm by (destruct m; cbn; lia). cbn [runcmd]. unfold reaches.
  rewrite do_close by (by apply Ht). rewrite (do_open _ _ _ _ _ _ _ (rmode_fd m)) by by apply lowest_std.
  destruct (can_open file (rmode_flags m)).
  - rewrite (proj2 (Z.ltb_ge _ _)) by lia. rewrite never_seq by apply runcmd_never. rewrite insert_delete_eq. naive_solver.
  - change (-1 <? 0) with true. cbv iota. erewrite do_uprintf by reflexivity. split; [by intros (s' & [=] & _)|by intros [[=] _]].
Qed.
(** After a fork that succeeds the run goes on as the child or as the parent. *)
Lemma run_fork1 (f : Z -> prog pstate unit) (mc mp : list Z -> Prop) ft h inp argv ft' :
  (forall fk, reaches (f 0) (PState ft (h ++ [Forked true]) fk inp) argv ft' <-> mc fk) ->
  (forall p fk, 0 < p -> reaches (f p) (PState ft (h ++ [Forked false]) fk inp) argv ft' <-> mp fk) ->
  (exists fk, reaches (fork1 ≫= f) (PState ft h fk inp) argv ft') <-> (exists fk, mc fk) \/ (exists fk, mp fk).
Proof.
  intros Hc Hp. split.
  - intros ([|p fk] & s' & E & Hs); [by rewrite do_fork1_end in E|]. rewrite do_fork1 in E.
    destruct (Z.ltb_spec p 0); [done|]. destruct (Z.eqb_spec p 0) as [->|].
    + left. exists fk. apply Hc. by exists s'.
    + right. exists fk. apply (Hp p); [lia|]. by exists s'.
  - intros [[fk Hm]|[fk Hm]].
    + exists (0 :: fk). apply Hc in Hm. destruct Hm as (s' & E & Hs). exists s'. rewrite do_fork1. by split.
    + exists (1 :: fk). apply (Hp 1) in Hm; [|lia]. destruct Hm as (s' & E & Hs). exists s'. rewrite do_fork1. by split.
Qed.
Lemma run_list l r ft h inp argv ft' :
  (exists fk, reaches (runcmd (List l r)) (PState ft h fk inp) argv ft') <->
  (exists fk, reaches (runcmd l) (PState ft (h ++ [Forked true]) fk inp) argv ft') \/
  (exists fk, reaches (runcmd r) (PState ft (h ++ [Forked false]) fk inp) argv ft').
Proof.
  cbn [runcmd]. apply run_fork1.
  - intros fk. apply reaches_eq. cbn [Z.eqb]. apply never_seq, runcmd_never.
  - intros p fk Hp. apply reaches_eq. rewrite (proj2 (Z.eqb_neq _ _)) by lia. rewrite prog_run. cbn [mret prog_ret]. rewrite do_wait.
    apply never_seq, runcmd_never.
Qed.
Lemma run_back c ft h inp argv ft' :
  (exists fk, reaches (runcmd (Back c)) (PState ft h fk inp) argv ft') <->
  (exists fk, reaches (runcmd c) (PState ft (h ++ [Forked true]) fk inp) argv ft').
Proof.
  cbn [runcmd]. rewrite (run_fork1 _ (fun fk => reaches (runcmd c) (PState ft (h ++ [Forked true]) fk inp) argv ft') (fun _ => False)).
  - split; [intros [?|[? []]]; done|by left].
  - intros fk. apply reaches_eq. apply never_seq, runcmd_never.
  - intros p fk Hp. rewrite (proj2 (Z.eqb_neq _ _)) by lia. apply reaches_exit.
Qed.

(** The two descriptors of a new pipe. *)
Definition with_pipe (h : list event) (ft : gmap Z target) : gmap Z target := <[4 := PipeEnd h true]> (<[3 := PipeEnd h false]> ft).
Lemma do_pipe {A} (f : Z * Z * Z -> prog pstate A) ft h fk inp : three ft ->
  (pipe ≫= f) (PState ft h fk inp) = f (0, 3, 4) (PState (with_pipe h ft) (h ++ [Piped]) fk inp).
Proof.
  intros Ht. assert (lowest ft = Some 3) as E3.
  { apply lowest_is; [lia|intros; by apply Ht|apply (three_none ft 3 Ht); lia]. }
  assert (lowest (<[3 := PipeEnd h false]> ft) = Some 4) as E4.
  { apply lowest_is; [lia| |rewrite lookup_insert_ne by done; apply (three_none ft 4 Ht); lia].
    intros i Hi. destruct (decide (i = 3)) as [->|]; [by rewrite lookup_insert_eq|]. rewrite lookup_insert_ne by done. apply Ht. lia. }
  unfold pipe, sys, mbind, prog_bind, os_call, p_os. rewrite E3. cbv zeta. by rewrite E4.
Qed.
Lemma with_pipe_std h ft fd : 0 <= fd < 3 -> with_pipe h ft !! fd = ft !! fd.
Proof. intros Hfd. unfold with_pipe. by rewrite !lookup_insert_ne by lia. Qed.
(** [close(fd); dup(p); close(p[0]); close(p[1])] puts an end of the pipe at [fd]. *)
Lemma pipe_end {A} (m : prog pstate A) h ft fd p (w : bool) h' fk inp :
  three ft -> 0 <= fd < 3 -> p = (if w then 4 else 3) ->
  (_ ← close fd; _ ← dup p; _ ← close 3; _ ← close 4; m) (PState (with_pipe h ft) h' fk inp) =
  m (PState (<[fd := PipeEnd h w]> ft) h' fk inp).
Proof.
  intros Ht Hfd Hp. rewrite do_close by (rewrite with_pipe_std by lia; by apply Ht).
  rewrite (do_dup _ _ _ _ _ _ (PipeEnd h w) fd).
  2:{ rewrite lookup_delete_ne by (destruct w; lia). unfold with_pipe. subst p.
      destruct w; [by rewrite lookup_insert_eq|]. by rewrite lookup_insert_ne, lookup_insert_eq by done. }
  2:{ apply lowest_is; [lia| |apply lookup_delete_eq]. intros i Hi. rewrite lookup_delete_ne, with_pipe_std by lia. apply Ht. lia. }
  rewrite insert_delete_eq. rewrite do_close.
  2:{ rewrite lookup_insert_ne by lia. unfold with_pipe. by rewrite lookup_insert_ne, lookup_insert_eq by done. }
  rewrite do_close.
  2:{ rewrite lookup_delete_ne, lookup_insert_ne by lia. unfold with_pipe. by rewrite lookup_insert_eq. }
  f_equal. f_equal. apply map_eq. intros i. unfold with_pipe.
  destruct (decide (i = 4)) as [->|]; [rewrite lookup_delete_eq, lookup_insert_ne by lia; symmetry; by apply three_none; [|lia]|].
  rewrite lookup_delete_ne by done.
  destruct (decide (i = 3)) as [->|]; [rewrite lookup_delete_eq, lookup_insert_ne by lia; symmetry; by apply three_none; [|lia]|].
  rewrite lookup_delete_ne by done. destruct (decide (i = fd)) as [->|]; [by rewrite !lookup_insert_eq|].
  by rewrite !lookup_insert_ne by done.
Qed.
(** A pipe after its left side was forked. *)
Definition pipe_rest (r : cmd (list Z)) : prog pstate unit :=
  pid ← fork1;
  _ ← (if pid =? 0 then _ ← close 0; _ ← dup 3; _ ← close 3; _ ← close 4; runcmd r else mret tt);
  _ ← close 3; _ ← close 4; _ ← wait; _ ← wait; exit 0.
Lemma run_pipe_rest r ft h h' inp argv ft' : three ft ->
  (exists fk, reaches (pipe_rest r) (PState (with_pipe h ft) h' fk inp) argv ft') <->
  (exists fk, reaches (runcmd r) (PState (<[0 := PipeEnd h false]> ft) (h' ++ [Forked true]) fk inp) argv ft').
Proof.
  intros Ht. unfold pipe_rest.
  rewrite (run_fork1 _ (fun fk => reaches (runcmd r) (PState (<[0 := PipeEnd h false]> ft) (h' ++ [Forked true]) fk inp) argv ft') (fun _ => False)).
  - split; [intros [?|[? []]]; done|by left].
  - intros fk. apply reaches_eq. cbn [Z.eqb]. etransitivity; [apply never_seq|]; [repeat (apply never_bind; intros _); apply runcmd_never|].
    apply (pipe_end (runcmd r) h ft 0 3 false); [done|lia|done].
  - intros p fk Hp. rewrite (proj2 (Z.eqb_neq _ _)) by lia. split; [|done]. intros (s' & E & _). revert E. rewrite prog_run. cbn [mret prog_ret].
    rewrite do_close by (unfold with_pipe; by rewrite lookup_insert_ne, lookup_insert_eq by done).
    rewrite do_close by (rewrite lookup_delete_ne by done; unfold with_pipe; by rewrite lookup_insert_eq). done.
Qed.
Lemma run_pipe l r ft h inp argv ft' : three ft ->
  (exists fk, reaches (runcmd (Pipe l r)) (PState ft h fk inp) argv ft') <->
  (exists fk, reaches (runcmd l) (PState (<[1 := PipeEnd h true]> ft) (h ++ [Piped; Forked true]) fk inp) argv ft') \/
  (exists fk, reaches (runcmd r) (PState (<[0 := PipeEnd h false]> ft) (h ++ [Piped; Forked false; Forked true]) fk inp) argv ft').
Proof.
  intros Ht. cbn [runcmd].
  etransitivity; [apply exist_proper; intros fk; apply reaches_eq, (do_pipe _ _ _ _ _ Ht)|]. cbv beta iota. change (0 <? 0) with false. cbv iota.
  rewrite (run_fork1 _ (fun fk => reaches (runcmd l) (PState (<[1 := PipeEnd h true]> ft) ((h ++ [Piped]) ++ [Forked true]) fk inp) argv ft')
    (fun fk => reaches (pipe_rest r) (PState (with_pipe h ft) ((h ++ [Piped]) ++ [Forked false]) fk inp) argv ft')).
  - rewrite run_pipe_rest by done. by rewrite <- !app_assoc.
  - intros fk. apply reaches_eq. cbn [Z.eqb]. etransitivity; [apply never_seq|]; [repeat (apply never_bind; intros _); apply runcmd_never|].
    apply (pipe_end (runcmd l) h ft 1 4 true); [done|lia|done].
  - intros p fk Hp. rewrite (proj2 (Z.eqb_neq _ _)) by lia. by apply reaches_eq.
Qed.

Lemma run_procs c : forall ft h inp argv ft', three ft ->
  (exists fk, reaches (runcmd c) (PState ft h fk inp) argv ft') <-> (argv, ft') ∈ procs c ft h.
Proof.
  induction c as [l|c IH file m|l IHl r IHr|l IHl r IHr|c IH]; intros ft h inp argv ft' Ht.
  - destruct l as [|a l].
    + split; [intros (fk & s' & [=] & _)|intros Hin; cbn in Hin; set_solver].
    + split; [intros (fk & Hr); by eapply run_exec|]. intros Hin. exists []. by apply run_exec.
  - assert (three (<[rmode_fd m := Opened file (rmode_flags m)]> ft)) as Ht' by (apply three_insert; [done|destruct m; cbn; lia]).
    specialize (IH _ h inp argv ft' Ht'). cbn [procs]. rewrite <- (exist_proper _ _ (fun fk => symmetry (run_redir c file m ft h fk inp argv ft' Ht))).
    destruct (can_open file (rmode_flags m)); [rewrite <- IH; naive_solver|]. split; [by intros (? & [=] & _)|set_solver].
  - rewrite run_pipe by done. cbn [procs]. rewrite elem_of_app, <- IHl, <- IHr; [done|apply three_insert; [done|lia]..].
  - rewrite run_list. cbn [procs]. by rewrite elem_of_app, <- IHl, <- IHr.
  - rewrite run_back. cbn [procs]. by rewrite <- IH.
Qed.
Lemma procs_three c : forall ft h argv ft', three ft -> (argv, ft') ∈ procs c ft h -> three ft'.
Proof.
  induction c as [l|c IH file m|l IHl r IHr|l IHl r IHr|c IH]; intros ft h argv ft' Ht; cbn [procs].
  - destruct l as [|a l]; [set_solver|]. destruct (can_exec a); [|set_solver]. rewrite list_elem_of_singleton. by intros [= _ ->].
  - destruct (can_open file (rmode_flags m)); [|set_solver]. apply IH, three_insert; [done|destruct m; cbn; lia].
  - rewrite elem_of_app. intros [Hl|Hr]; [eapply IHl; [|done]|eapply IHr; [|done]]; (apply three_insert; [done|lia]).
  - rewrite elem_of_app. intros [Hl|Hr]; [by eapply IHl|by eapply IHr].
  - by apply IH.
Qed.

(** C29. A command runs what it means.  With exactly the three standard descriptors open,
    the processes of a command that come to exec are, over all runs, exactly the
    programs of its meaning, each with its arguments and with exactly the descriptors
    that redirections and pipes give it: in a pipeline the left side writes to the pipe
    that the right side reads, and no other descriptor of the pipe is left open. *)
Theorem runcmd_procs c ft h inp argv ft' : three ft ->
  ((exists fk, reaches (runcmd c) (PState ft h fk inp) argv ft') <-> (argv, ft') ∈ procs c ft h) /\
  ((argv, ft') ∈ procs c ft h -> three ft').
Proof. intros Ht. split; [by apply run_procs|by apply procs_three]. Qed.

(** ** The session *)
Definition console : target := Opened (txt "console") O_RDWR.
Definition filled (ft : gmap Z target) : gmap Z target := ft ∪ {[0 := console; 1 := console; 2 := console]}.
(** No descriptor beyond the standard ones. *)
Definition at_most_three (ft : gmap Z target) : Prop := forall fd, is_Some (ft !! fd) -> 0 <= fd < 3.

Lemma filled_lookup ft fd : filled ft !! fd = match ft !! fd with Some t => Some t | None => if bool_decide (0 <= fd < 3) then Some console else None end.
Proof.
  unfold filled. rewrite lookup_union. destruct (ft !! fd) as [t|]; [by rewrite union_Some_l|]. rewrite option_union_left_id.
  case_bool_decide as Hfd.
  - assert (fd = 0 \/ fd = 1 \/ fd = 2) as [->|[->| ->]] by lia; by simplify_map_eq.
  - by rewrite !lookup_insert_ne, lookup_singleton_ne by lia.
Qed.
Lemma filled_three ft : at_most_three ft -> three (filled ft).
Proof.
  intros Ha fd. rewrite filled_lookup. destruct (ft !! fd) as [t|] eqn:E.
  - split; [intros _; apply Ha; by rewrite E|by eexists].
  - case_bool_decide as Hfd; [split; [done|by eexists]|]. split; [by intros [? [=]]|done].
Qed.
Lemma filled_id ft : three ft -> filled ft = ft.
Proof.
  intros Ht. apply map_eq. intros i. rewrite filled_lookup. destruct (ft !! i) as [t|] eqn:E; [done|].
  case_bool_decide as Hi; [|done]. apply Ht in Hi as [t Hi]. congruence.
Qed.
Lemma filled_insert ft fd : ft !! fd = None -> 0 <= fd < 3 -> filled (<[fd := console]> ft) = filled ft.
Proof.
  intros E Hfd. apply map_eq. intros i. rewrite !filled_lookup. destruct (decide (i = fd)) as [->|].
  - rewrite lookup_insert_eq, E. by rewrite bool_decide_eq_true_2.
  - by rewrite lookup_insert_ne.
Qed.
(** main opens the console until the standard descriptors are open. *)
Lemma open_three_run n : forall rounds ft h fk inp,
  can_open (txt "console") O_RDWR = true -> at_most_three ft -> (forall i, 0 <= i < 3 - Z.of_nat n -> is_Some (ft !! i)) ->
  (n < rounds)%nat -> (n <= 3)%nat ->
  open_three rounds (PState ft h fk inp) = Ret (inl tt, PState (filled ft) h fk inp).
Proof.
  induction n as [|n IH]; intros [|rounds] ft h fk inp Hc Ha Hlo Hr Hn; try lia.
  - assert (three ft) as Ht by (intros i; split; [apply Ha|intros; apply Hlo; lia]). rewrite filled_id by done.
    cbn [open_three]. rewrite (do_open _ _ _ _ _ _ _ 3).
    2:{ apply lowest_is; [lia|intros i Hi; by apply Ht|apply three_none; [done|lia]]. }
    rewrite Hc. change (3 >=? 0) with true. change (3 >=? 3) with true. cbv iota.
    rewrite do_close by (by rewrite lookup_insert_eq). rewrite delete_insert_id by (apply three_none; [done|lia]). done.
  - set (x := 2 - Z.of_nat n). destruct (ft !! x) as [t|] eqn:Ex.
    { apply IH; try done; try lia. intros i Hi. destruct (decide (i = x)) as [->|]; [by eexists|]. apply Hlo. lia. }
    cbn [open_three]. rewrite (do_open _ _ _ _ _ _ _ x); [|apply lowest_is; [lia|intros i Hi; apply Hlo; lia|done]].
    rewrite Hc, !Z.geb_leb, (proj2 (Z.leb_le 0 x)), (proj2 (Z.leb_gt 3 x)) by lia.
    rewrite <- (filled_insert ft x) by (done || lia). apply IH; try done; try lia.
    + intros i Hi. destruct (decide (i = x)) as [->|]; [lia|]. rewrite lookup_insert_ne in Hi by done. by apply Ha.
    + intros i Hi. destruct (decide (i = x)) as [->|]; [by rewrite lookup_insert_eq|]. rewrite lookup_insert_ne by done. apply Hlo. lia.
Qed.

(** A line that is typed. *)
Lemma do_read1 {A} (f : Z * list Z -> prog pstate A) ft h fk c rest : is_Some (ft !! 0) ->
  (read 0 1 ≫= f) (PState ft h fk (c :: rest)) = f (1, [c]) (PState ft h fk rest).
Proof.
  intros [t E]. unfold read, sys, mbind, prog_bind, os_call, p_os. rewrite E. cbv zeta. change (Z.to_nat 1) with 1%nat.
  cbn [take drop]. by rewrite drop_0.
Qed.
Lemma gets_loop_run line : forall rounds buf max ft h fk rest,
  plain line -> is_Some (ft !! 0) -> lenZ buf + lenZ line + 1 < max -> (length line < rounds)%nat ->
  gets_loop rounds buf max (PState ft h fk (line ++ 10 :: rest)) = Ret (inl (buf ++ line ++ [10]), PState ft h fk rest).
Proof.
  induction line as [|c line IH]; intros [|rounds] buf max ft h fk rest Hp E0 Hm Hr; cbn [length] in *; try lia;
    cbn [gets_loop app]; rewrite (proj2 (Z.ltb_lt _ _)), do_read1 by (done || lia); cbv iota; change (1 <? 1) with false; cbn [hd]; cbv iota zeta.
  - done.
  - apply Forall_cons in Hp as [Hc Hp]. rewrite (proj2 (Z.eqb_neq c 10)), (proj2 (Z.eqb_neq c 13)) by set_solver. cbn [orb].
    rewrite IH; [by rewrite <- app_assoc|done|done|rewrite length_app; cbn [length]; lia|lia].
Qed.
Lemma getcmd_run line ft h fk rest : plain line -> three ft -> lenZ line + 1 < 100 ->
  getcmd 100 (PState ft h fk (line ++ 10 :: rest)) = Ret (inl (0, line ++ [10]), PState ft h fk rest).
Proof.
  intros Hp Ht Hl. unfold getcmd. rewrite do_write by (apply Ht; lia). rewrite prog_run. unfold gets.
  rewrite (gets_loop_run line _ []) by (done || (apply Ht; lia) || cbn [length]; lia). cbn [app].
  rewrite (proj2 (Z.eqb_neq _ _)); [done|]. destruct Hp as [|c line Hc _]; [done|]. cbn [app nth]. set_solver.
Qed.
Lemma getcmd_eof ft h fk : three ft -> getcmd 100 (PState ft h fk []) = Ret (inl (-1, []), PState ft h fk []).
Proof.
  intros Ht. unfold getcmd. rewrite do_write by (apply Ht; lia). rewrite prog_run. unfold gets. change (Z.to_nat 100) with (S 99). cbn [gets_loop].
  change (lenZ (@nil Z) + 1 <? 100) with true. cbv iota. rewrite prog_run. unfold read, sys, os_call, p_os, mbind, prog_bind.
  destruct (proj2 (Ht 0)) as [t ->]; [lia|]. done.
Qed.
(** What is typed, a command per line, and that it fits the buffer and is not cd. *)
Definition session (ts : list (cmd (list Z))) : list Z := ts ≫= (fun t => pr t LLine ++ [10]).
Definition typable (t : cmd (list Z)) : Prop :=
  good t /\ lenZ (pr t LLine) + 1 < 100 /\ is_cd (pr t LLine ++ [10]) = false.
Lemma run_line_text t : good t -> run_line (cstring (pr t LLine ++ [10])) = (runcmd t : prog pstate unit).
Proof.
  intros G. rewrite <- (app_nil_r (pr t LLine ++ [10])). rewrite cstring_app; [|apply Forall_app; split; [|by constructor]|done].
  - unfold run_line. destruct (parsecmd_line t [10] G) as (c & b & s & -> & E); [by constructor|]. by rewrite E.
  - eapply Forall_impl; [exact (plain_pr t LLine G)|]. set_solver.
Qed.
Lemma sh_loop_run ts : forall rounds ft h argv ft',
  three ft -> Forall typable ts -> (length ts < rounds)%nat ->
  (exists fk, reaches (sh_loop rounds) (PState ft h fk (session ts)) argv ft') <->
  exists i t, ts !! i = Some t /\ (argv, ft') ∈ procs t ft (h ++ replicate i (Forked false) ++ [Forked true]).
Proof.
  induction ts as [|t ts IH]; intros [|rounds] ft h argv ft' Ht Hts Hr; cbn [length] in Hr; try lia; cbn [sh_loop].
  { split; [|by intros (i & t & [=] & _)]. intros (fk & s' & E & _). rewrite prog_run, getcmd_eof in E by done. done. }
  apply Forall_cons in Hts as [(G & Hl & Hcd) Hts].
  etransitivity; [apply exist_proper; intros fk|].
  { change (session (t :: ts)) with ((pr t LLine ++ [10]) ++ session ts). rewrite <- app_assoc. cbn [app].
    eapply reaches_eq. rewrite prog_run, getcmd_run by (done || by apply plain_pr). cbv beta iota zeta. change (0 >=? 0) with true. cbv iota.
    rewrite Hcd, run_line_text by done. reflexivity. }
  rewrite (run_fork1 _ (fun fk => reaches (runcmd t) (PState ft (h ++ [Forked true]) fk (session ts)) argv ft')
    (fun fk => reaches (sh_loop rounds) (PState ft (h ++ [Forked false]) fk (session ts)) argv ft')).
  - rewrite run_procs, IH by (done || lia). split.
    + intros [Hp|(i & t' & Hi & Hp)]; [by exists O, t|]. exists (S i), t'. split; [done|]. by rewrite <- app_assoc in Hp.
    + intros ([|i] & t' & Hi & Hp); [left; by injection Hi as <-|]. right. exists i, t'. split; [done|]. by rewrite <- app_assoc.
  - intros fk. apply reaches_eq. cbn [Z.eqb]. apply never_seq, runcmd_never.
  - intros p fk Hp. apply reaches_eq. rewrite (proj2 (Z.eqb_neq _ _)) by lia. done.
Qed.

(** C12. The shell runs what is typed.  Started with at most the standard descriptors open,
    on any lines that are the texts of commands, fit the line buffer and are not cd,
    the programs that the shell's descendants come to execute are, over all runs,
    exactly those of the meanings of the commands typed: the console is opened for
    the standard descriptors that were missing, every command runs in a child of its
    own, and each program has exactly the three standard descriptors, as redirected. *)
Theorem sh_runs ts rounds ft h argv ft' :
  can_open (txt "console") O_RDWR = true -> at_most_three ft -> Forall typable ts -> (length ts < rounds)%nat -> (3 < rounds)%nat ->
  (exists fk, reaches (sh_main rounds) (PState ft h fk (session ts)) argv ft') <->
  exists i t, ts !! i = Some t /\ (argv, ft') ∈ procs t (filled ft) (h ++ replicate i (Forked false) ++ [Forked true]).
Proof.
  intros Hc Ha Hts Hr H3. rewrite <- (sh_loop_run ts rounds) by (done || by apply filled_three).
  apply exist_proper. intros fk. apply reaches_eq. unfold sh_main. rewrite prog_run.
  by rewrite (open_three_run 3) by (done || lia || (intros; lia)).
Qed.

(** ** The first process *)
(** init, started without descriptors, opens the console as standard input, output and
    error, and the child that it forks becomes the shell with these three. *)
Theorem init_starts_sh rounds h fk inp :
  can_open (txt "console") O_RDWR = true -> can_exec (txt "sh") = true -> (0 < rounds)%nat ->
  reaches (init_main rounds) (PState ∅ h (0 :: fk) inp) [txt "sh"] (filled ∅) /\ three (filled ∅).
Proof.
  intros Hc He Hr. split; [|apply filled_three; by intros fd [? [=]]]. destruct rounds as [|rounds]; [lia|]. unfold reaches, init_main.
  rewrite (do_open _ _ _ _ _ _ _ 0), Hc by (apply lowest_is; [lia|intros; lia|done]).
  rewrite (prog_run (if 0 <? 0 then _ else _)). change (0 <? 0) with false. cbv iota. cbn [mret prog_ret].
  change (mret tt : prog pstate unit) with (fun s : pstate => Ret (@inl unit fin tt, s)). cbv beta iota.
  rewrite (do_dup _ _ _ _ _ _ console 1); [|done|apply lowest_is; [lia| |done]; intros i Hi; replace i with 0 by lia; by eexists].
  rewrite (do_dup _ _ _ _ _ _ console 2); [|done|apply lowest_is; [lia| |done]; intros i Hi; assert (i = 0 \/ i = 1) as [->| ->] by lia; by eexists].
  cbn [init_loop]. erewrite do_uprintf by reflexivity.
  rewrite do_fork. change (0 <? 0) with false. cbn [Z.eqb]. rewrite do_exec by done. eexists. split; [reflexivity|]. cbn [fds].
  apply map_eq. intros i. rewrite filled_lookup, lookup_empty. case_bool_decide as Hi.
  - assert (i = 0 \/ i = 1 \/ i = 2) as [->|[->| ->]] by lia; by simplify_map_eq.
  - by rewrite !lookup_insert_ne, lookup_empty by lia.
Qed.
End kernel.

(** * Examples *)
(** [echo a > f | wc] *)
Definition run_example : cmd (list Z) := Pipe (Redir (Exec [txt "echo"; txt "a"]) (txt "f") ROut) (Exec [txt "wc"]).
Definition all_open (path : list Z) (mode : Z) : bool := true.
Definition all_exec (path : list Z) : bool := true.
Lemma runcmd_procs_witness :
  exists fk, reaches (runcmd (H := p_os all_open all_exec) run_example) (PState (filled ∅) [] fk []) [txt "wc"]
    (<[0 := PipeEnd [] false]> (filled ∅)).
Proof.
  refine (proj2 (proj1 (runcmd_procs all_open all_exec run_example (filled ∅) [] [] [txt "wc"] _ _)) _).
  - apply filled_three. intros fd [t Ht]. discriminate.
  - cbn. apply list_elem_of_further, list_elem_of_here.
Defined.
Lemma sh_runs_witness :
  exists fk, reaches (sh_main (H := p_os all_open all_exec) 4) (PState ∅ [] fk (txt "echo a >f |wc " ++ [10])) [txt "echo"; txt "a"]
    (<[1 := Opened (txt "f") 0x601]> (<[1 := PipeEnd [Forked true] true]> (filled ∅))).
Proof.
  refine (proj2 (sh_runs all_open all_exec [run_example] 4 ∅ [] [txt "echo"; txt "a"] _ _ _ _ _ _) _).
  - reflexivity.
  - intros fd [t Ht]. discriminate.
  - apply Forall_cons. split; [|apply Forall_nil_2]. split; [|split; vm_compute; reflexivity].
    assert (W : forall w, forallb (fun c => wordc c && negb (c =? 0)) w = true -> w <> [] -> good_word w).
    { intros w Hw Hne. split; [done|]. apply Forall_forall. intros c Hc. rewrite forallb_forall in Hw.
      specialize (Hw c). rewrite <-list_elem_of_In in Hw. specialize (Hw Hc). apply andb_true_iff in Hw as [H1 H2].
      split; [done|]. by apply negb_true_iff, Z.eqb_neq in H2. }
    cbn. unfold MAXARGS. split_and!; try lia; repeat first [apply Forall_nil_2 | apply W; [reflexivity|done] | apply Forall_cons; split].
  - cbn. lia.
  - lia.
  - exists O, run_example. split; [reflexivity|]. cbn. apply list_elem_of_here.
Defined.
Lemma init_starts_sh_witness :
  reaches (init_main (H := p_os all_open all_exec) 1) (PState ∅ [] [0] []) [txt "sh"] (filled ∅) /\ three (filled ∅).
Proof. apply (init_starts_sh all_open all_exec 1 [] [] []); [reflexivity|reflexivity|lia]. Defined.
