(* ===== verification/ShellFd.v ===== *)
(** The descriptors of a process as the shell's theorems see them are those of the
    kernel: fdalloc takes the descriptor that [lowest] gives. *)
From S2P Require Import Prelude Riscv Sysfile FdSpec ShellRun.

Section fds.
Context {C U : Type}.
(** The same descriptors are in use. *)
Definition same_fds (s : sst C U) (ft : gmap Z target) : Prop :=
  forall fd, 0 <= fd < NOFILE -> is_Some (ft !! fd) <-> s_ofile s fd <> None.

(** fdalloc and [lowest] choose the same descriptor, also when there is none, and the
    tables agree again after it. *)
Theorem fdalloc_lowest f s r s' ft :
  same_fds s ft -> fdalloc f s = Ret (r, s') ->
  r = lowest ft /\ match r with Some fd => forall t, same_fds s' (<[fd := t]> ft) | None => s' = s end.
Proof.
  intros Hs E. apply fdalloc_run in E. destruct r as [fd|].
  - destruct E as (Hfd & En & Hlo & ->). split.
    + symmetry. apply lowest_is; [unfold NOFILE in Hfd; lia| |].
      * intros i Hi. apply Hs; [lia|]. by apply Hlo.
      * apply eq_None_not_Some. intros Hf. apply (Hs fd) in Hf; [|done]. done.
    + intros t i Hi. cbn [s_ofile]. destruct (decide (i = fd)) as [->|Hne].
      * rewrite lookup_insert_eq, upd_eq. split; [done|by eexists].
      * rewrite lookup_insert_ne, upd_ne by done. by apply Hs.
  - destruct E as (-> & Hall). split; [|done]. unfold lowest. symmetry.
    assert (filter (fun fd => ft !! fd = None) (seqZ 0 16) = []) as ->; [|done].
    apply elem_of_nil_inv. intros i [Hf Hi%elem_of_seqZ]%list_elem_of_filter.
    destruct (proj2 (Hs i ltac:(unfold NOFILE; lia)) (Hall i ltac:(unfold NOFILE; lia))) as [t Ht]. congruence.
Qed.
End fds.
